(** * PlanarCut: fracture of geometry collections

    A shallow embedding of the parts of the PlanarCut plugin
    (PlanarCut.cpp, GeometryMeshConversion.h, GeometryMeshConversion.cpp)
    that maintain the geometry collection while cutting: the material /
    plane encoding of cell meshes, default internal materials and their UV
    scale, bone volumes and small-bone detection, the merge of bones, grout,
    the mesh-to-collection writers and the boolean cutting drivers.

    Conventions.
    - [int32] values are integers of [Z]; arithmetic that can leave the
      32-bit range is wrapped by [int32_wrap].
    - [double] values are IEEE binary64 numbers ([PrimFloat.float]).  Code
      that only adds, multiplies and compares is written over the
      interface [Scalar], whose instance [double_scalar] is the machine
      arithmetic of the source.
    - An indexed read or write outside an array is a failed range check of
      [TArray]; a function that can hit one returns [option], [None] being
      the aborted run.
    - [TSet<int32>] is [gset Z], [TMap] is [gmap], [TMultiMap] is an
      association list with the newest pair first. *)

From Stdlib Require Import ZArith List Lia Floats QArith Qcanon.
From stdpp Require Import gmap list option strings pretty sorting.

Local Open Scope Z_scope.

(** ** Machine integers and arrays *)

Definition int32_wrap (z : Z) : Z := (z + 2 ^ 31) mod 2 ^ 32 - 2 ^ 31.

Definition int32_range (z : Z) : Prop := - 2 ^ 31 <= z < 2 ^ 31.

(** [Array[Index]] with the range check of [TArray::operator[]]. *)
Definition lookupZ {A : Type} (l : list A) (i : Z) : option A :=
  if decide (0 <= i) then l !! Z.to_nat i else None.

(** [Array[Index] = Value]. *)
Definition storeZ {A : Type} (l : list A) (i : Z) (x : A) : option (list A) :=
  if decide (0 <= i < Z.of_nat (length l)) then Some (<[Z.to_nat i := x]> l) else None.

(** [TArray::Num]. *)
Definition Num {A : Type} (l : list A) : Z := Z.of_nat (length l).

(** ** Scalars

    The operations of [double] the source uses, as an interface. *)

Class Scalar (F : Type) := {
  fzero : F;
  fadd : F -> F -> F;
  fsub : F -> F -> F;
  fmul : F -> F -> F;
  fdiv : F -> F -> F;
  fltb : F -> F -> bool;
  fleb : F -> F -> bool;
  (* conversion of a (small) integer: [double(N)], literals such as [6.0] *)
  of_int : Z -> F
}.

Definition float_of_Z (z : Z) : float :=
  if (z <? 0)%Z then PrimFloat.opp (PrimFloat.of_uint63 (Uint63.of_Z (- z)))
  else PrimFloat.of_uint63 (Uint63.of_Z z).

#[export] Instance double_scalar : Scalar float := {
  fzero := PrimFloat.zero;
  fadd := PrimFloat.add;
  fsub := PrimFloat.sub;
  fmul := PrimFloat.mul;
  fdiv := PrimFloat.div;
  fltb := PrimFloat.ltb;
  fleb := PrimFloat.leb;
  of_int := float_of_Z
}.

(** Exact rational arithmetic: the same operations without rounding. *)
#[export] Instance exact_scalar : Scalar Qc := {
  fzero := Q2Qc 0;
  fadd := Qcplus;
  fsub := Qcminus;
  fmul := Qcmult;
  fdiv := Qcdiv;
  fltb := fun a b => match Qccompare a b with Lt => true | _ => false end;
  fleb := fun a b => match Qccompare a b with Gt => false | _ => true end;
  of_int := fun z => Q2Qc (inject_Z z)
}.

(** ** FCellMeshes: plane index <-> material ID (GeometryMeshConversion.h) *)

Module FCellMeshesMaterial.

(** [return -(Plane + 1);] *)
Definition PlaneToMaterial (Plane : Z) : Z :=
  int32_wrap (- int32_wrap (Plane + 1)).

(** [return MaterialID >= 0 ? -1 : -(MaterialID + 1);] *)
Definition MaterialToPlane (MaterialID : Z) : Z :=
  if decide (MaterialID >= 0) then -1
  else int32_wrap (- int32_wrap (MaterialID + 1)).

End FCellMeshesMaterial.

(** ** Vectors *)

Record FVector3 (F : Type) := mkVec { vx : F; vy : F; vz : F }.
Arguments mkVec {F} _ _ _.
Arguments vx {F} _.
Arguments vy {F} _.
Arguments vz {F} _.

Section VectorOps.
Context {F : Type} `{Scalar F}.

Definition vzero : FVector3 F := mkVec fzero fzero fzero.

Definition vadd (a b : FVector3 F) : FVector3 F :=
  mkVec (fadd (vx a) (vx b)) (fadd (vy a) (vy b)) (fadd (vz a) (vz b)).

Definition vsub (a b : FVector3 F) : FVector3 F :=
  mkVec (fsub (vx a) (vx b)) (fsub (vy a) (vy b)) (fsub (vz a) (vz b)).

(** [V * Scalar] *)
Definition vscale (a : FVector3 F) (s : F) : FVector3 F :=
  mkVec (fmul (vx a) s) (fmul (vy a) s) (fmul (vz a) s).

(** [V / Scalar] *)
Definition vdiv (a : FVector3 F) (s : F) : FVector3 F :=
  mkVec (fdiv (vx a) s) (fdiv (vy a) s) (fdiv (vz a) s).

Definition Dot (a b : FVector3 F) : F :=
  fadd (fadd (fmul (vx a) (vx b)) (fmul (vy a) (vy b))) (fmul (vz a) (vz b)).

Definition Cross (a b : FVector3 F) : FVector3 F :=
  mkVec (fsub (fmul (vy a) (vz b)) (fmul (vz a) (vy b)))
        (fsub (fmul (vz a) (vx b)) (fmul (vx a) (vz b)))
        (fsub (fmul (vx a) (vy b)) (fmul (vy a) (vx b))).

End VectorOps.

(** ** Engine value types

    [FVector], [FVector3f] and [FVector3d] are all triples of scalars; the
    conversions between the single and the double precision forms happen
    inside the engine operations of [Engine] below. *)

Definition FVector : Type := FVector3 float.
Definition FVector2D : Type := (float * float)%type.
Definition FLinearColor : Type := (float * float * float * float)%type.
Definition FIntVector : Type := (Z * Z * Z)%type.

Record FTransform := mkTransform {
  Rotation : float * float * float * float;
  Translation : FVector;
  Scale3D : FVector
}.

Definition FTransform_Identity : FTransform :=
  mkTransform (0, 0, 0, 1)%float (mkVec 0 0 0)%float (mkVec 1 1 1)%float.

Record FBox := mkBox { BoxMin : FVector; BoxMax : FVector; BoxIsValid : bool }.

(** [FPlane]: normal and offset. *)
Definition FPlane : Type := (FVector * float)%type.

Inductive ESimulationTypes := FST_None | FST_Rigid | FST_Clustered.

Inductive EBooleanOp := Intersect | Difference.

(** ** The geometry collection

    Each group of the collection (Transform, Geometry, Vertices, Faces) is a
    list of rows, one field per managed array of the group, so that
    [Collection.FaceStart[G]] is field [FaceStart] of row [G] of
    [Geometry].  The container keeps the arrays of one group at one length;
    the rows have that by construction.  Only the arrays the plugin reads or
    writes are fields.  [Proximity] is the attribute added on demand to the
    Geometry group: [None] while it is absent. *)

Record FTransformRow := mkTransformRow {
  Transform : FTransform;
  Parent : Z;
  Children : gset Z;
  BoneName : string;
  BoneColor : FLinearColor;
  SimulationType : ESimulationTypes;
  TransformToGeometryIndex : Z
}.

Record FGeometryRow := mkGeometryRow {
  TransformIndex : Z;
  BoundingBox : FBox;
  VertexStart : Z;
  VertexCount : Z;
  FaceStart : Z;
  FaceCount : Z
}.

Record FVertexRow := mkVertexRow {
  Vertex : FVector;
  Normal : FVector;
  UVs : list FVector2D;
  Color : FVector;
  TangentU : FVector;
  TangentV : FVector;
  BoneMap : Z
}.

Record FFaceRow := mkFaceRow {
  Indices : FIntVector;
  Visible : bool;
  MaterialID : Z
}.

Record FGeometryCollection := mkCollection {
  TransformGroup : list FTransformRow;
  GeometryGroup : list FGeometryRow;
  VerticesGroup : list FVertexRow;
  FacesGroup : list FFaceRow;
  Proximity : option (list (gset Z))
}.

(** Field updates. *)
Definition set_TransformGroup (c : FGeometryCollection) (x : list FTransformRow) :=
  mkCollection x (GeometryGroup c) (VerticesGroup c) (FacesGroup c) (Proximity c).
Definition set_GeometryGroup (c : FGeometryCollection) (x : list FGeometryRow) :=
  mkCollection (TransformGroup c) x (VerticesGroup c) (FacesGroup c) (Proximity c).
Definition set_VerticesGroup (c : FGeometryCollection) (x : list FVertexRow) :=
  mkCollection (TransformGroup c) (GeometryGroup c) x (FacesGroup c) (Proximity c).
Definition set_FacesGroup (c : FGeometryCollection) (x : list FFaceRow) :=
  mkCollection (TransformGroup c) (GeometryGroup c) (VerticesGroup c) x (Proximity c).
Definition set_Proximity (c : FGeometryCollection) (x : option (list (gset Z))) :=
  mkCollection (TransformGroup c) (GeometryGroup c) (VerticesGroup c) (FacesGroup c) x.

(** ** The dynamic mesh

    [FDynamicMesh3] with the attributes [Augment] attaches, in its compact
    state (vertex and triangle ids are [0 .. Count-1]); both collection
    writers compact the mesh before they read it. *)

Record FMeshVertex := mkMeshVertex {
  mPosition : FVector;
  mNormal : FVector;
  mColor : FVector;
  mTangentU : FVector;
  mTangentV : FVector;
  mUV : list FVector2D            (* one entry per enabled UV channel *)
}.

Record FMeshTriangle := mkMeshTriangle {
  mTri : FIntVector;
  mMaterialID : Z;
  mVisible : bool
}.

Record FDynamicMesh3 := mkMesh {
  MeshVertices : list FMeshVertex;
  MeshTriangles : list FMeshTriangle;
  NumEnabledUVChannels : Z
}.

Definition VertexCountOf (m : FDynamicMesh3) : Z := Num (MeshVertices m).
Definition TriangleCount (m : FDynamicMesh3) : Z := Num (MeshTriangles m).

(** [AugmentedDynamicMesh::GetUV]: channels hold zero where never set. *)
Definition GetUV (v : FMeshVertex) (UVLayer : Z) : FVector2D :=
  default (0, 0)%float (lookupZ (mUV v) UVLayer).

(** ** Loops over index ranges *)

(** The elements read by [for (i = Start; i < End; ++i) ... Array[i] ...]. *)
Definition read_range {A : Type} (l : list A) (Start End : Z) : option (list A) :=
  mapM (lookupZ l) (seqZ Start (End - Start)).

(** A loop whose body can abort. *)
Fixpoint for_each {A S : Type} (body : S -> A -> option S) (l : list A) (s : S) : option S :=
  match l with
  | [] => Some s
  | a :: l' => s' ← body s a; for_each body l' s'
  end.

(** ** FInternalSurfaceMaterials::GetDefaultMaterialIDForGeometry (PlanarCut.cpp) *)

Module FInternalSurfaceMaterials.

(** The fields of [FInternalSurfaceMaterials] that the code below reads or
    writes. *)
Record t := mk {
  GlobalMaterialID : Z;
  GlobalUVScale : float
}.

(** The range of faces scanned: those of the geometry, or all faces when
    [GeometryIdx] is -1. *)
Definition face_range (Collection : FGeometryCollection) (GeometryIdx : Z) : option (Z * Z) :=
  if decide (GeometryIdx > -1) then
    g ← lookupZ (GeometryGroup Collection) GeometryIdx;
    Some (FaceStart g, int32_wrap (FaceCount g + FaceStart g))
  else Some (0, Num (FacesGroup Collection)).

(** One iteration of the counting loop; the state is
    [(MaterialIDCount, MaxCount, MostCommonMaterialID)]. *)
Definition count_step (st : gmap Z Z * Z * Z) (CurrID : Z) : gmap Z Z * Z * Z :=
  let '(MaterialIDCount, MaxCount, MostCommonMaterialID) := st in
  let CurrCount := default 0 (MaterialIDCount !! CurrID) + 1 in
  let MaterialIDCount' := <[CurrID := CurrCount]> MaterialIDCount in
  if decide (CurrCount > MaxCount)
  then (MaterialIDCount', CurrCount, CurrID)
  else (MaterialIDCount', MaxCount, MostCommonMaterialID).

Definition most_common (ids : list Z) : Z :=
  (fold_left count_step ids (∅, 0, -1)).2.

Definition GetDefaultMaterialIDForGeometry
    (Collection : FGeometryCollection) (GeometryIdx : Z) : option Z :=
  '(FaceStart, FaceEnd) ← face_range Collection GeometryIdx;
  faces ← read_range (FacesGroup Collection) FaceStart FaceEnd;
  let MostCommonMaterialID := most_common (MaterialID <$> faces) in
  (* no face case? *)
  let MostCommonMaterialID :=
    if decide (MostCommonMaterialID = -1) then 0 else MostCommonMaterialID in
  Some (if decide (Z.rem MostCommonMaterialID 2 = 0)
        then int32_wrap (MostCommonMaterialID + 1)
        else MostCommonMaterialID).

End FInternalSurfaceMaterials.

(** ** FindBoneVolumes and FindSmallBones (PlanarCut.cpp) *)

Section BoneVolumes.
Context {F : Type} `{Scalar F}.

(** [FVector3d(Transform.TransformPosition(V))] and
    [GeometryCollectionAlgo::GlobalMatrices(Collection.Transform,
    Collection.Parent, Indices, Out)] are engine code. *)
Variable TransformPosition : FTransform -> FVector -> FVector3 F.
Variable GlobalMatrices : list FTransformRow -> list Z -> list FTransform.

(** The lambda [GetVolume]. *)
Definition GetVolume (Collection : FGeometryCollection) (GeomIdx : Z)
    (Transform : FTransform) (DimScaleFactor : F) : option F :=
  g ← lookupZ (GeometryGroup Collection) GeomIdx;
  let VStart := VertexStart g in
  let VEnd := int32_wrap (VStart + VertexCount g) in
  if decide (VStart = VEnd) then Some fzero
  else
    verts ← read_range (VerticesGroup Collection) VStart VEnd;
    let Center :=
      vdiv (fold_left (fun C v => vadd C (TransformPosition Transform (Vertex v)))
                      verts vzero)
           (of_int (int32_wrap (VEnd - VStart))) in
    let FStart := FaceStart g in
    let FEnd := int32_wrap (FStart + FaceCount g) in
    faces ← read_range (FacesGroup Collection) FStart FEnd;
    for_each (fun VolOut face =>
        let '(TriX, TriY, TriZ) := Indices face in
        p0 ← lookupZ (VerticesGroup Collection) TriX;
        p1 ← lookupZ (VerticesGroup Collection) TriY;
        p2 ← lookupZ (VerticesGroup Collection) TriZ;
        let V0 := TransformPosition Transform (Vertex p0) in
        let V1 := TransformPosition Transform (Vertex p1) in
        let V2 := TransformPosition Transform (Vertex p2) in
        (* add volume of the tetrahedron formed by the triangles and the reference point *)
        let V1mRef := vscale (vsub V1 Center) DimScaleFactor in
        let V2mRef := vscale (vsub V2 Center) DimScaleFactor in
        let N := Cross V2mRef V1mRef in
        Some (fadd VolOut
                (fdiv (Dot (vscale (vsub V0 Center) DimScaleFactor) N) (of_int 6))))
      faces fzero.

(** The targets processed: the given indices, or every transform when none
    is given. *)
Definition targets_or_all (Collection : FGeometryCollection) (TransformIndices : list Z) : list Z :=
  match TransformIndices with
  | [] => seqZ 0 (Num (TransformGroup Collection))
  | _ => TransformIndices
  end.

(** The body of the [ParallelFor]: the value stored at [OutVolumes[Idx]]. *)
Definition bone_volume (Collection : FGeometryCollection) (Transforms : list FTransform)
    (ScalePerDimension : F) (Idx : Z) (TransformIdx : Z) : option F :=
  t ← lookupZ (TransformGroup Collection) TransformIdx;
  let GeomIdx := TransformToGeometryIndex t in
  if decide (GeomIdx = -1) then Some fzero
  else
    T ← lookupZ Transforms Idx;
    GetVolume Collection GeomIdx T ScalePerDimension.

Definition FindBoneVolumes (Collection : FGeometryCollection) (TransformIndices : list Z)
    (ScalePerDimension : F) : option (list F) :=
  let TransformIndicesArray := targets_or_all Collection TransformIndices in
  let Transforms := GlobalMatrices (TransformGroup Collection) TransformIndicesArray in
  mapM (fun '(Idx, TransformIdx) =>
          bone_volume Collection Transforms ScalePerDimension Idx TransformIdx)
       (zip (seqZ 0 (Num TransformIndicesArray)) TransformIndicesArray).

(** The lambda [AddIdx] of [FindSmallBones]. *)
Definition AddIdx (Collection : FGeometryCollection) (Volumes : list F) (MinVolume : F)
    (OutSmallBones : list Z) (TransformIdx : Z) : option (list Z) :=
  t ← lookupZ (TransformGroup Collection) TransformIdx;
  if decide (TransformToGeometryIndex t > -1) then
    v ← lookupZ Volumes TransformIdx;
    if fltb v MinVolume then Some (OutSmallBones ++ [TransformIdx])
    else Some OutSmallBones
  else Some OutSmallBones.

Definition FindSmallBones (Collection : FGeometryCollection) (TransformIndices : list Z)
    (Volumes : list F) (MinVolume : F) : option (list Z) :=
  if decide (Num TransformIndices = 0) then
    let NumTransforms := Num (TransformGroup Collection) in
    if decide (Num Volumes = NumTransforms)
    then for_each (AddIdx Collection Volumes MinVolume) (seqZ 0 NumTransforms) []
    else Some []
  else
    if decide (Num Volumes = Num TransformIndices)
    then for_each (AddIdx Collection Volumes MinVolume) TransformIndices []
    else Some [].

(** What the interface of [FindSmallBones] promises: [Volumes] is the array
    [FindBoneVolumes] fills, entry [Idx] belonging to the target at position
    [Idx] of the target list.  Used to compare with [FindSmallBones]. *)
Definition small_bones_by_position (Collection : FGeometryCollection)
    (TransformIndices : list Z) (Volumes : list F) (MinVolume : F) : list Z :=
  omap (fun '(TransformIdx, v) =>
          match lookupZ (TransformGroup Collection) TransformIdx with
          | Some t =>
              if decide (TransformToGeometryIndex t > -1) then
                if fltb v MinVolume then Some TransformIdx else None
              else None
          | None => None
          end)
       (zip TransformIndices Volumes).

End BoneVolumes.

(** ** Vocabulary of the statements about default materials *)

(** Number of faces of the list that carry material [x]. *)
Definition occurrences (x : Z) (ids : list Z) : Z :=
  Z.of_nat (length (filter (fun y => y = x) ids)).

(** [M] occurs strictly more often than any other material. *)
Definition unique_most_frequent (M : Z) (ids : list Z) : Prop :=
  forall x : Z, x <> M -> occurrences x ids < occurrences M ids.

(** The geometry row describes a range of faces of the collection. *)
Definition face_range_ok (Collection : FGeometryCollection) (g : FGeometryRow) : Prop :=
  0 <= FaceStart g /\ 0 <= FaceCount g
  /\ FaceStart g + FaceCount g <= Num (FacesGroup Collection)
  /\ Num (FacesGroup Collection) < 2 ^ 31.

(** The material IDs of the faces of a geometry, in face order. *)
Definition geometry_material_ids (Collection : FGeometryCollection) (g : FGeometryRow) : list Z :=
  MaterialID <$> take (Z.to_nat (FaceCount g))
                      (drop (Z.to_nat (FaceStart g)) (FacesGroup Collection)).

(** The default internal material of a geometry whose most frequent
    material is [M]: the odd partner of [M]. *)
Definition paired_internal_material (M : Z) : Z :=
  if Z.even M then M + 1 else M.

(** ** Engine operations

    The plugin calls into the engine (FTransform, FBox, the managed-array
    container, DynamicMesh3 and the GeometryProcessing operations).  Those
    operations are the fields of [Engine]; the plugin code below is written
    against the interface and every statement about it holds for all
    instances. *)

Record FCellMeshes := mkCellMeshes {
  CellMeshes : list FDynamicMesh3;
  OutsideCellIndex : Z;
  NumUVLayers : Z
}.

Class Engine := {
  (* FTransform *)
  InverseTransformPosition : FTransform -> FVector -> FVector;
  InverseTransformVectorNoScale : FTransform -> FVector -> FVector;
  (* FBox::Init and FBox::operator+=(point) *)
  FBox_Init : FBox;
  FBox_AddPoint : FBox -> FVector -> FBox;
  (* the transform row FManagedArrayCollection::AddElements creates *)
  DefaultTransformRow : FTransformRow;
  (* FGeometryCollection::SetNumUVLayers and ::ReindexMaterials *)
  SetNumUVLayers : Z -> FGeometryCollection -> FGeometryCollection;
  ReindexMaterials : FGeometryCollection -> FGeometryCollection;
  (* FMathd::ZeroTolerance *)
  ZeroTolerance : float;
  (* Mesh.GetBounds(true).MaxDim() *)
  BoundsMaxDim : FDynamicMesh3 -> float;
  (* A.GetBounds(true).Intersects(B.GetBounds(true)) *)
  BoundsIntersect : FDynamicMesh3 -> FDynamicMesh3 -> bool;
  (* FMath::PlaneAABBIntersection on the (noise-expanded) bounds of a mesh *)
  PlaneIntersectsBounds : FPlane -> FDynamicMesh3 -> bool;
  (* MeshTransforms::Scale(Mesh, Scale, Origin) *)
  MeshTransforms_Scale : FDynamicMesh3 -> FVector -> FVector -> FDynamicMesh3;
  (* MeshTransforms::ApplyTransform(Mesh, Transform) *)
  MeshTransforms_ApplyTransform : FDynamicMesh3 -> FTransform -> FDynamicMesh3;
  (* FVector::Distance and FVector2D::Distance *)
  FVector_Distance : FVector -> FVector -> float;
  FVector2D_Distance : FVector2D -> FVector2D -> float;
  (* the conversion of a double to [float]: the value rounded to single
     precision *)
  ToFloat : float -> float;
  (* FDynamicMeshEditor::AppendMesh *)
  AppendMesh : FDynamicMesh3 -> FDynamicMesh3 -> FDynamicMesh3;
  (* FMeshBoolean(Mesh, Cell, Result, Op).Compute(): the result mesh *)
  MeshBoolean : FDynamicMesh3 -> FDynamicMesh3 -> EBooleanOp -> FDynamicMesh3;
  (* the sample vertices AddCollisionSamplesPerComponent decides to add *)
  CollisionSamples : FDynamicMesh3 -> float -> list FMeshVertex;
  (* FDynamicMeshCollection::SplitIslands: the flag and SeparatedMeshes *)
  SplitIslands : FDynamicMesh3 -> bool * list FDynamicMesh3;
  (* FDynamicMeshCollection::IsNeighboring on the vertex hashes and bounds
     of the two meshes *)
  IsNeighboring : FDynamicMesh3 -> FDynamicMesh3 -> bool;
  (* FCellMeshes(NumUVLayers, FPlanarCells(Plane), Bounds, 0, Extend, false):
     the two half-space cells of a plane *)
  PlaneCellMeshes : FPlane -> FCellMeshes;
  (* GeometryCollectionAlgo::GlobalMatrix(Transforms, Parent, Idx) * TransformCollection *)
  CollectionToLocal : list FTransformRow -> Z -> FTransform -> FTransform;
  (* the mesh Init builds from the vertex and face range of a geometry
     (AppendVertex, AppendTriangle, RemoveIsolatedVertices) *)
  GeometryToMesh : FGeometryCollection -> Z -> FTransform -> option FDynamicMesh3
}.

(** [AugmentedDynamicMesh::AddCollisionSamplesPerComponent]: the only
    change to the mesh is [Mesh.AppendVertex] of each sample. *)
Definition AddCollisionSamplesPerComponent `{Engine} (Mesh : FDynamicMesh3) (Spacing : float)
    : FDynamicMesh3 :=
  mkMesh (MeshVertices Mesh ++ CollisionSamples Mesh Spacing)
         (MeshTriangles Mesh) (NumEnabledUVChannels Mesh).

(** [Mesh.Clear(); AugmentedDynamicMesh::Augment(Mesh, NumUVLayers)]:
    [EnableUVChannels] attaches at most [MAX_NUM_UV_CHANNELS = 8]. *)
Definition ClearAndAugment (NumUVLayers : Z) : FDynamicMesh3 :=
  mkMesh [] [] (Z.max 0 (Z.min NumUVLayers 8)).

(** ** FCellMeshes::ApplyGeneralGrout (GeometryMeshConversion.cpp) *)

Section Grout.
Context `{Engine}.

Definition VertexCentroid (Mesh : FDynamicMesh3) : FVector :=
  vdiv (fold_left (fun C v => vadd C (mPosition v)) (MeshVertices Mesh) vzero)
       (of_int (VertexCountOf Mesh)).

(** [(BoundsSize - Grout * .5) / BoundsSize] *)
Definition GroutScaleFactor (Grout : float) (Mesh : FDynamicMesh3) : float :=
  let BoundsSize := BoundsMaxDim Mesh in
  ((BoundsSize - Grout * 0.5) / BoundsSize)%float.

(** The body of the first loop, for a cell other than the outside cell. *)
Definition grout_cell (Grout : float) (NumUVLayers : Z) (Mesh : FDynamicMesh3)
    : FDynamicMesh3 :=
  let ScaleFactor := GroutScaleFactor Grout Mesh in
  if (ScaleFactor <? ZeroTolerance * 1000)%float
  then ClearAndAugment NumUVLayers
  else MeshTransforms_Scale Mesh
         (vscale (mkVec 1 1 1)%float ScaleFactor) (VertexCentroid Mesh).

(** The first loop. *)
Definition grout_cells (Grout : float) (Cells : FCellMeshes) : list FDynamicMesh3 :=
  imap (fun MeshIdx Mesh =>
          if decide (Z.of_nat MeshIdx = OutsideCellIndex Cells) then Mesh
          else grout_cell Grout (NumUVLayers Cells) Mesh)
       (CellMeshes Cells).

(** The second loop: every cell but the outside one appended, in order, to
    the cleared outside mesh. *)
Definition append_all_but (Outside : Z) (Meshes : list FDynamicMesh3)
    (OutsideMesh : FDynamicMesh3) : FDynamicMesh3 :=
  fold_left (fun acc '(MeshIdx, Mesh) =>
               if decide (MeshIdx = Outside) then acc else AppendMesh acc Mesh)
            (zip (seqZ 0 (Num Meshes)) Meshes) OutsideMesh.

(** The cells of a list other than the one at index [Outside], in order. *)
Definition cells_other_than (Outside : Z) (Meshes : list FDynamicMesh3)
    : list FDynamicMesh3 :=
  snd <$> filter (fun p => p.1 <> Outside) (zip (seqZ 0 (Num Meshes)) Meshes).

Definition ApplyGeneralGrout (Grout : float) (Cells : FCellMeshes) : option FCellMeshes :=
  if (Grout <=? 0)%float then Some Cells
  else
    let Scaled := grout_cells Grout Cells in
    if decide (OutsideCellIndex Cells <> -1) then
      _ ← lookupZ Scaled (OutsideCellIndex Cells);
      Rebuilt ← storeZ Scaled (OutsideCellIndex Cells)
                  (append_all_but (OutsideCellIndex Cells) Scaled
                     (ClearAndAugment (NumUVLayers Cells)));
      Some (mkCellMeshes Rebuilt (OutsideCellIndex Cells) (NumUVLayers Cells))
    else Some (mkCellMeshes Scaled (OutsideCellIndex Cells) (NumUVLayers Cells)).

End Grout.

(** ** FDynamicMeshCollection: writing meshes to the collection
    (GeometryMeshConversion.cpp) *)

(** [Array[Index].Field = ...]: row [Index] replaced by [f] of it. *)
Definition modifyZ {A : Type} (l : list A) (i : Z) (f : A -> A) : option (list A) :=
  x ← lookupZ l i; storeZ l i (f x).

Section CollectionWriters.
Context `{Engine}.

(** [Output.MaterialID[...] = MaterialID < 0 ? InternalMaterialID : MaterialID] *)
Definition resolve_material (InternalMaterialID MaterialID : Z) : Z :=
  if decide (MaterialID < 0) then InternalMaterialID else MaterialID.

(** [FIntVector(Mesh.GetTriangle(TID)) + VertexStartOffset] *)
Definition offset_triangle (VerticesStart : Z) (Tri : FIntVector) : FIntVector :=
  let '(A, B, C) := Tri in
  (int32_wrap (A + VerticesStart), int32_wrap (B + VerticesStart),
   int32_wrap (C + VerticesStart)).

(** The face row the triangle loop writes for one triangle. *)
Definition face_row_of (VerticesStart InternalMaterialID : Z) (t : FMeshTriangle) : FFaceRow :=
  mkFaceRow (offset_triangle VerticesStart (mTri t))
            (mVisible t)
            (resolve_material InternalMaterialID (mMaterialID t)).

(** The vertex row the vertex loop of [AppendToCollection] writes. *)
Definition vertex_row_of (FromCollection : FTransform) (UVLayerCount TransformIdx : Z)
    (v : FMeshVertex) : FVertexRow :=
  mkVertexRow (InverseTransformPosition FromCollection (mPosition v))
              (InverseTransformVectorNoScale FromCollection (mNormal v))
              (GetUV v <$> seqZ 0 UVLayerCount)
              (mColor v)
              (InverseTransformVectorNoScale FromCollection (mTangentU v))
              (InverseTransformVectorNoScale FromCollection (mTangentV v))
              TransformIdx.

(** [Box.Init(); for (...) Box += Output.Vertex[Idx];] *)
Definition bounding_box_of (rows : list FVertexRow) : FBox :=
  fold_left (fun B r => FBox_AddPoint B (Vertex r)) rows FBox_Init.

(** The [if (TransformParent > -1)] block, on the transform rows that
    already include the new row [TransformIdx]. *)
Definition link_to_parent (rows : list FTransformRow)
    (TransformIdx TransformParent : Z) (Name : string) : option (list FTransformRow) :=
  rows ← modifyZ rows TransformIdx (fun r =>
            mkTransformRow (Transform r) (Parent r) (Children r) Name
                           (BoneColor r) (SimulationType r) (TransformToGeometryIndex r));
  p ← lookupZ rows TransformParent;
  rows ← modifyZ rows TransformIdx (fun r =>
            mkTransformRow (Transform r) (Parent r) (Children r) (BoneName r)
                           (BoneColor p) (SimulationType r) (TransformToGeometryIndex r));
  rows ← modifyZ rows TransformIdx (fun r =>
            mkTransformRow (Transform r) TransformParent (Children r) (BoneName r)
                           (BoneColor r) (SimulationType r) (TransformToGeometryIndex r));
  rows ← modifyZ rows TransformParent (fun r =>
            mkTransformRow (Transform r) (Parent r) (Children r ∪ {[TransformIdx]})
                           (BoneName r) (BoneColor r) (SimulationType r)
                           (TransformToGeometryIndex r));
  modifyZ rows TransformParent (fun r =>
            mkTransformRow (Transform r) (Parent r) (Children r) (BoneName r)
                           (BoneColor r) FST_Clustered (TransformToGeometryIndex r)).

(** [AppendToCollection].  Returns the geometry index, the collection and
    the mesh, which is an in-out argument (collision samples are added to
    it).  Each [AddElements] and the loop that assigns every field of the
    new rows appear as the append of the assigned rows. *)
Definition AppendToCollection (FromCollection : FTransform) (Mesh : FDynamicMesh3)
    (CollisionSampleSpacing : float) (TransformParent : Z) (Name : string)
    (Output : FGeometryCollection) (InternalMaterialID : Z)
    : option (Z * FGeometryCollection * FDynamicMesh3) :=
  if decide (TriangleCount Mesh = 0) then Some (-1, Output, Mesh)
  else
    let Mesh :=
      if (0 <? CollisionSampleSpacing)%float
      then AddCollisionSamplesPerComponent Mesh CollisionSampleSpacing
      else Mesh in
    let OriginalVertexNum := Num (VerticesGroup Output) in
    let OriginalFaceNum := Num (FacesGroup Output) in
    let UVLayerCount :=
      if decide (NumEnabledUVChannels Mesh > 0) then NumEnabledUVChannels Mesh else 1 in
    (* AddElements(1, GeometryGroup); AddElements(1, TransformGroup) *)
    let GeometryIdx := Num (GeometryGroup Output) in
    let TransformIdx := Num (TransformGroup Output) in
    let NumTriangles := TriangleCount Mesh in
    let NumVertices := VertexCountOf Mesh in
    let NewTransform :=
      mkTransformRow (Transform DefaultTransformRow) (Parent DefaultTransformRow)
        (Children DefaultTransformRow) (BoneName DefaultTransformRow)
        (BoneColor DefaultTransformRow) (SimulationType DefaultTransformRow)
        GeometryIdx in
    let Transforms := TransformGroup Output ++ [NewTransform] in
    Transforms ←
      (if decide (TransformParent > -1)
       then link_to_parent Transforms TransformIdx TransformParent Name
       else Some Transforms);
    Transforms ← modifyZ Transforms TransformIdx (fun r =>
            mkTransformRow FTransform_Identity (Parent r) (Children r) (BoneName r)
                           (BoneColor r) FST_Rigid (TransformToGeometryIndex r));
    (* AddElements(NumTriangles, FacesGroup); AddElements(NumVertices, VerticesGroup) *)
    let FacesStart := OriginalFaceNum in
    let VerticesStart := OriginalVertexNum in
    let NewVertices :=
      vertex_row_of FromCollection UVLayerCount TransformIdx <$> MeshVertices Mesh in
    let NewFaces :=
      face_row_of VerticesStart InternalMaterialID <$> MeshTriangles Mesh in
    let NewGeometry :=
      mkGeometryRow TransformIdx (bounding_box_of NewVertices)
        OriginalVertexNum NumVertices OriginalFaceNum NumTriangles in
    Some (GeometryIdx,
          mkCollection Transforms
                       (GeometryGroup Output ++ [NewGeometry])
                       (VerticesGroup Output ++ NewVertices)
                       (FacesGroup Output ++ NewFaces)
                       ((fun P => P ++ [∅]) <$> Proximity Output),
          Mesh).

(** One iteration of the vertex loop of [UpdateCollection]. *)
Definition update_vertex (FromCollection : FTransform) (UVLayerCount TransformIdx : Z)
    (VerticesStart : Z) (rows : list FVertexRow) (entry : Z * FMeshVertex)
    : option (list FVertexRow) :=
  let '(VID, v) := entry in
  let CopyToIdx := int32_wrap (VerticesStart + VID) in
  r ← lookupZ rows CopyToIdx;
  uvs ← for_each (fun uvs UVLayer => storeZ uvs UVLayer (GetUV v UVLayer))
                 (seqZ 0 UVLayerCount) (UVs r);
  storeZ rows CopyToIdx
    (mkVertexRow (InverseTransformPosition FromCollection (mPosition v))
                 (InverseTransformVectorNoScale FromCollection (mNormal v))
                 uvs
                 (mColor v)
                 (InverseTransformVectorNoScale FromCollection (mTangentU v))
                 (InverseTransformVectorNoScale FromCollection (mTangentV v))
                 TransformIdx).

(** One iteration of the triangle loop of [UpdateCollection]. *)
Definition update_face (VerticesStart FacesStart InternalMaterialID : Z)
    (rows : list FFaceRow) (entry : Z * FMeshTriangle) : option (list FFaceRow) :=
  let '(TID, t) := entry in
  storeZ rows (int32_wrap (FacesStart + TID))
         (face_row_of VerticesStart InternalMaterialID t).

(** [UpdateCollection]: the flag returned and the collection. *)
Definition UpdateCollection (FromCollection : FTransform) (Mesh : FDynamicMesh3)
    (GeometryIdx : Z) (Output : FGeometryCollection) (InternalMaterialID : Z)
    : option (bool * FGeometryCollection) :=
  g ← lookupZ (GeometryGroup Output) GeometryIdx;
  let OldVertexCount := VertexCount g in
  let OldTriangleCount := FaceCount g in
  let UVLayerCount := NumEnabledUVChannels Mesh in
  let Output := SetNumUVLayers UVLayerCount Output in
  let NewVertexCount := VertexCountOf Mesh in
  let NewTriangleCount := TriangleCount Mesh in
  if decide (OldVertexCount = NewVertexCount /\ OldTriangleCount = NewTriangleCount) then
    g ← lookupZ (GeometryGroup Output) GeometryIdx;
    let VerticesStart := VertexStart g in
    let FacesStart := FaceStart g in
    let TransformIdx := TransformIndex g in
    Vertices ← for_each (update_vertex FromCollection UVLayerCount TransformIdx VerticesStart)
                 (zip (seqZ 0 (VertexCountOf Mesh)) (MeshVertices Mesh))
                 (VerticesGroup Output);
    Faces ← for_each (update_face VerticesStart FacesStart InternalMaterialID)
                 (zip (seqZ 0 (TriangleCount Mesh)) (MeshTriangles Mesh))
                 (FacesGroup Output);
    (* if (Output.BoundingBox.Num()) *)
    Geometry ←
      (if decide (Num (GeometryGroup Output) <> 0) then
         copied ← read_range Vertices VerticesStart
                     (int32_wrap (VerticesStart + VertexCount g));
         modifyZ (GeometryGroup Output) GeometryIdx (fun g =>
           mkGeometryRow (TransformIndex g) (bounding_box_of copied)
                         (VertexStart g) (VertexCount g) (FaceStart g) (FaceCount g))
       else Some (GeometryGroup Output));
    Some (true,
          mkCollection (TransformGroup Output) Geometry Vertices Faces (Proximity Output))
  else Some (false, Output).

(** [SetGeometryVisibility]. *)
Definition hide_or_show_face (bVisible : bool) (r : FFaceRow) : FFaceRow :=
  mkFaceRow (Indices r) bVisible (MaterialID r).

Definition SetGeometryVisibility (Collection : FGeometryCollection)
    (GeometryIndices : list Z) (bVisible : bool) : option FGeometryCollection :=
  Faces ← for_each (fun Faces GeoIdx =>
              g ← lookupZ (GeometryGroup Collection) GeoIdx;
              let FaceStart' := FaceStart g in
              let FaceEnd := int32_wrap (FaceStart' + FaceCount g) in
              for_each (fun Faces FaceIdx => modifyZ Faces FaceIdx (hide_or_show_face bVisible))
                       (seqZ FaceStart' (FaceEnd - FaceStart')) Faces)
            GeometryIndices (FacesGroup Collection);
  Some (set_FacesGroup Collection Faces).

(** [GetBoneName]. *)
Definition GetBoneName (Output : FGeometryCollection) (TransformParent SubPartIndex : Z)
    : option string :=
  p ← lookupZ (TransformGroup Output) TransformParent;
  Some (BoneName p +:+ "_" +:+ pretty SubPartIndex).

End CollectionWriters.

(** ** FDynamicMeshCollection: cutting (GeometryMeshConversion.cpp) *)

Module FMeshData.
Record t := mk {
  AugMesh : FDynamicMesh3;
  TransformIndex : Z;          (* where the mesh was from in the geometry collection *)
  FromCollection : FTransform
}.
End FMeshData.

(** [TMultiMap<int32, int32>]: the pairs, the newest first.  [Add] links
    the new pair at the head of the chain of its key, and [MultiFind] and
    [RemoveSingle] walk that chain from its head: [MultiFind] lists the
    values of a key from the newest to the oldest, [RemoveSingle] removes
    the newest pair that matches. *)
Abbreviation TMultiMap := (list (Z * Z)).

(** [Map.Add(Key, Value)] *)
Definition MultiAdd (M : TMultiMap) (Key Value : Z) : TMultiMap := (Key, Value) :: M.

Definition MultiFind (M : TMultiMap) (Key : Z) : list Z :=
  snd <$> filter (fun p => p.1 = Key) M.

Fixpoint RemoveSingle (M : TMultiMap) (Key Value : Z) : TMultiMap :=
  match M with
  | [] => []
  | p :: M' => if decide (p = (Key, Value)) then M' else p :: RemoveSingle M' Key Value
  end.

(** The lambdas [ProxLink] and [ProxUnlink] of [CutWithMultiplePlanes]. *)
Definition ProxLink (Proximity : TMultiMap) (A B : Z) : TMultiMap :=
  MultiAdd (MultiAdd Proximity A B) B A.

Definition ProxUnlink (Proximity : TMultiMap) (A B : Z) : TMultiMap :=
  RemoveSingle (RemoveSingle Proximity A B) B A.

(** [Proximity[A].Add(B); Proximity[B].Add(A);] on the collection. *)
Definition add_proximity_pair (P : list (gset Z)) (A B : Z) : option (list (gset Z)) :=
  P ← modifyZ P A (fun s => s ∪ {[B]});
  modifyZ P B (fun s => s ∪ {[A]}).

Section Cutting.
Context `{Engine}.

Definition boolean_op (Cells : FCellMeshes) (CellIdx : Z) : EBooleanOp :=
  if decide (CellIdx = OutsideCellIndex Cells) then Difference else Intersect.

(** The body of the [ParallelFor] of [CutWithCellMeshes]: the entry of
    [BooleanResults] for one cell ([None]: no result mesh was made). *)
Definition boolean_result (Cells : FCellMeshes) (Surface : FMeshData.t)
    (CellIdx : Z) (Cell : FDynamicMesh3) : option FDynamicMesh3 :=
  if BoundsIntersect Cell (FMeshData.AugMesh Surface)
  then Some (MeshBoolean (FMeshData.AugMesh Surface) Cell (boolean_op Cells CellIdx))
  else None.

Definition boolean_results (Cells : FCellMeshes) (Surface : FMeshData.t)
    : list (option FDynamicMesh3) :=
  (fun '(CellIdx, Cell) => boolean_result Cells Surface CellIdx Cell)
    <$> zip (seqZ 0 (Num (CellMeshes Cells))) (CellMeshes Cells).

(** [AugBoolResult.IsValid() && AugBoolResult->TriangleCount() > 0] *)
Definition non_empty (r : option FDynamicMesh3) : bool :=
  match r with
  | Some m => bool_decide (TriangleCount m > 0)
  | None => false
  end.

Definition NonEmptyResults (BooleanResults : list (option FDynamicMesh3)) : Z :=
  Num (filter (fun r => non_empty r = true) BooleanResults).

(** [PlanesInOutput.Add(PlaneIdx)] for the triangles of one result. *)
Definition add_planes (PlanesInOutput : list Z) (m : FDynamicMesh3) : list Z :=
  fold_left (fun planes t =>
               let PlaneIdx := FCellMeshesMaterial.MaterialToPlane (mMaterialID t) in
               if decide (PlaneIdx >= 0) then
                 if decide (PlaneIdx ∈ planes) then planes else planes ++ [PlaneIdx]
               else planes)
            (MeshTriangles m) PlanesInOutput.

(** What the loops over one target piece carry. *)
Record cell_loop := mkCellLoop {
  clCollection : FGeometryCollection;
  clFirstIdx : Z;
  clSubPartIndex : Z;
  clBooleanResults : list (option FDynamicMesh3);
  clCellToGeometry : TMultiMap;
  clGeometryToResultMesh : gmap Z Z;
  clPlanesInOutput : list Z
}.

Definition first_created (FirstIdx CreatedGeometryIdx : Z) : Z :=
  if decide (FirstIdx = -1) then CreatedGeometryIdx else FirstIdx.

(** The appends of one boolean result: of the mesh itself when it was not
    split, of each island when it was.  [slot i] is what is stored in
    [BooleanResults] for the [i]-th mesh appended. *)
Definition append_piece (Surface : FMeshData.t) (CollisionSampleSpacing : float)
    (InternalMaterialID CellIdx : Z) (first_island : bool)
    (st : cell_loop) (Piece : FDynamicMesh3) : option cell_loop :=
  Name ← GetBoneName (clCollection st) (FMeshData.TransformIndex Surface)
                     (clSubPartIndex st);
  '(CreatedGeometryIdx, Collection, Piece) ←
     AppendToCollection (FMeshData.FromCollection Surface) Piece CollisionSampleSpacing
       (FMeshData.TransformIndex Surface) Name (clCollection st) InternalMaterialID;
  '(Results, MeshIdx) ←
     (if first_island
      then Results ← storeZ (clBooleanResults st) CellIdx (Some Piece);
           Some (Results, CellIdx)
      else Some (clBooleanResults st ++ [Some Piece], Num (clBooleanResults st)));
  Some (mkCellLoop Collection
          (first_created (clFirstIdx st) CreatedGeometryIdx)
          (clSubPartIndex st + 1)
          Results
          (MultiAdd (clCellToGeometry st) CellIdx CreatedGeometryIdx)
          (<[CreatedGeometryIdx := MeshIdx]> (clGeometryToResultMesh st))
          (clPlanesInOutput st)).

Fixpoint append_islands (Surface : FMeshData.t) (CollisionSampleSpacing : float)
    (InternalMaterialID CellIdx : Z) (first_island : bool)
    (Islands : list FDynamicMesh3) (st : cell_loop) : option cell_loop :=
  match Islands with
  | [] => Some st
  | Island :: Islands' =>
      st ← append_piece Surface CollisionSampleSpacing InternalMaterialID CellIdx
             first_island st Island;
      append_islands Surface CollisionSampleSpacing InternalMaterialID CellIdx
        false Islands' st
  end.

(** One iteration of the loop over the cells that writes the results of a
    cut piece to the collection. *)
Definition write_cell (Surface : FMeshData.t) (CollisionSampleSpacing : float)
    (InternalMaterialID : Z) (st : cell_loop) (CellIdx : Z) : option cell_loop :=
  r ← lookupZ (clBooleanResults st) CellIdx;
  if non_empty r then
    match r with
    | Some AugBoolResult =>
        let st :=
          mkCellLoop (clCollection st) (clFirstIdx st) (clSubPartIndex st)
            (clBooleanResults st) (clCellToGeometry st) (clGeometryToResultMesh st)
            (add_planes (clPlanesInOutput st) AugBoolResult) in
        let '(bWasSplit, Islands) := SplitIslands AugBoolResult in
        if bWasSplit
        then append_islands Surface CollisionSampleSpacing InternalMaterialID CellIdx
               true Islands st
        else append_piece Surface CollisionSampleSpacing InternalMaterialID CellIdx
               true st AugBoolResult
    | None => Some st
    end
  else Some st.

(** [BooleanResults[MeshIdx]], a valid pointer to a mesh. *)
Definition result_mesh (Results : list (option FDynamicMesh3)) (MeshIdx : Z)
    : option FDynamicMesh3 :=
  r ← lookupZ Results MeshIdx; r.

(** The proximity links of one plane of the output. *)
Definition link_across_plane (CellConnectivity : list (Z * Z)) (Cells : FCellMeshes)
    (st : cell_loop) (P : list (gset Z)) (PlaneIdx : Z) : option (list (gset Z)) :=
  '(First, Second) ← lookupZ CellConnectivity PlaneIdx;
  let SecondCell := if decide (Second < 0) then OutsideCellIndex Cells else Second in
  if decide (SecondCell <> -1) then
    let GeomA := MultiFind (clCellToGeometry st) First in
    let GeomB := MultiFind (clCellToGeometry st) SecondCell in
    match GeomA, GeomB with
    | [], _ | _, [] => Some P
    | [GA], [GB] => add_proximity_pair P GA GB
    | _, _ =>
        (* at least one was split; need to re-check proximities *)
        for_each (fun P GIDA =>
            MeshA ← clGeometryToResultMesh st !! GIDA;
            A ← result_mesh (clBooleanResults st) MeshA;
            for_each (fun P GIDB =>
                MeshB ← clGeometryToResultMesh st !! GIDB;
                B ← result_mesh (clBooleanResults st) MeshB;
                if IsNeighboring A B then add_proximity_pair P GIDA GIDB else Some P)
              GeomB P)
          GeomA P
    end
  else Some P.

(** What the loop over the target pieces carries. *)
Record cut_state := mkCutState {
  csCollection : FGeometryCollection;
  csFirstIdx : Z;
  csGeometryForRemoval : list Z
}.

(** [bSetDefaultInternalMaterialsFromCollection ? GetDefaultMaterialIDForGeometry(...)
    : GlobalMaterialID] *)
Definition internal_material (bSetDefault : bool) (GlobalMaterialID : Z)
    (Collection : FGeometryCollection) (GeometryIdx : Z) : option Z :=
  if bSetDefault
  then FInternalSurfaceMaterials.GetDefaultMaterialIDForGeometry Collection GeometryIdx
  else Some GlobalMaterialID.

(** One iteration of the loop of [CutWithCellMeshes] over [Meshes]. *)
Definition cut_surface (GlobalMaterialID : Z) (CellConnectivity : list (Z * Z))
    (Cells : FCellMeshes) (bHasProximity bSetDefault : bool)
    (CollisionSampleSpacing : float)
    (st : cut_state) (Surface : FMeshData.t) : option cut_state :=
  t ← lookupZ (TransformGroup (csCollection st)) (FMeshData.TransformIndex Surface);
  let GeometryIdx := TransformToGeometryIndex t in
  let BooleanResults := boolean_results Cells Surface in
  if decide (NonEmptyResults BooleanResults > 1) then
    InternalMaterialID ←
      internal_material bSetDefault GlobalMaterialID (csCollection st) GeometryIdx;
    cl ← for_each (write_cell Surface CollisionSampleSpacing InternalMaterialID)
           (seqZ 0 (Num (CellMeshes Cells)))
           (mkCellLoop (csCollection st) (csFirstIdx st) 0 BooleanResults [] ∅ []);
    Collection ←
      (if bHasProximity then
         P ← Proximity (clCollection cl);
         P ← for_each (link_across_plane CellConnectivity Cells cl) (clPlanesInOutput cl) P;
         Some (set_Proximity (clCollection cl) (Some P))
       else Some (clCollection cl));
    Some (mkCutState Collection (clFirstIdx cl) (csGeometryForRemoval st ++ [GeometryIdx]))
  else Some st.

(** The tail shared by both drivers: hide the superseded geometry
    ([bRemoveOldGeometry] is the constant [false]). *)
Definition hide_superseded (Collection : FGeometryCollection) (GeometryForRemoval : list Z)
    : option FGeometryCollection :=
  if decide (Num GeometryForRemoval > 0)
  then SetGeometryVisibility Collection GeometryForRemoval false
  else Some Collection.

(** [CutWithCellMeshes]: the index returned and the collection. *)
Definition CutWithCellMeshes (Meshes : list FMeshData.t) (GlobalMaterialID : Z)
    (CellConnectivity : list (Z * Z)) (Cells : FCellMeshes)
    (Collection : FGeometryCollection) (bSetDefault : bool)
    (CollisionSampleSpacing : float) : option (Z * FGeometryCollection) :=
  let bHasProximity := bool_decide (is_Some (Proximity Collection)) in
  st ← for_each (cut_surface GlobalMaterialID CellConnectivity Cells bHasProximity
                   bSetDefault CollisionSampleSpacing)
         Meshes (mkCutState Collection (-1) []);
  Collection ← hide_superseded (csCollection st) (csGeometryForRemoval st);
  Some (csFirstIdx st, Collection).

(** *** CutWithMultiplePlanes *)

(** The lambda [IsNeighbor]: the test of [IsNeighboring] on two meshes of
    [ToCut], false when an index is not one of [ToCut]. *)
Definition IsNeighbor (ToCut : list FMeshData.t) (A B : Z) : bool :=
  match lookupZ ToCut A, lookupZ ToCut B with
  | Some a, Some b => IsNeighboring (FMeshData.AugMesh a) (FMeshData.AugMesh b)
  | _, _ => false
  end.

(** The two booleans of one piece against the cells of a plane:
    [Some (Some (R0, R1))] when both results have triangles,
    [Some None] for [bKeepResults = false]; the outer [None] is the failed
    [check(CellMeshes.CellMeshes.Num() == 2)]. *)
Definition plane_booleans (Cells : FCellMeshes) (Surface : FMeshData.t)
    : option (option (FDynamicMesh3 * FDynamicMesh3)) :=
  match CellMeshes Cells with
  | [Cell0; Cell1] =>
      let R0 := MeshBoolean (FMeshData.AugMesh Surface) Cell0 (boolean_op Cells 0) in
      if decide (TriangleCount R0 = 0) then Some None
      else
        let R1 := MeshBoolean (FMeshData.AugMesh Surface) Cell1 (boolean_op Cells 1) in
        if decide (TriangleCount R1 = 0) then Some None
        else Some (Some (R0, R1))
  | _ => None
  end.

(** What the cut of one piece by one plane carries. *)
Record plane_cut := mkPlaneCut {
  pcToCut : list FMeshData.t;
  pcResultIndices : list Z;
  pcParentIndices : list Z
}.

(** One iteration of the loop over [UnsplitIdx]. *)
Definition split_result (TransformIndex : Z) (FromCollection : FTransform)
    (st : plane_cut) (UnsplitIdx : Z) : option plane_cut :=
  ri ← lookupZ (pcResultIndices st) UnsplitIdx;
  md ← lookupZ (pcToCut st) ri;
  let '(bWasSplit, SplitMeshes) := SplitIslands (FMeshData.AugMesh md) in
  if bWasSplit then
    First ← lookupZ SplitMeshes 0;
    ToCut ← storeZ (pcToCut st) ri
              (FMeshData.mk First (FMeshData.TransformIndex md)
                            (FMeshData.FromCollection md));
    Some (fold_left (fun st Mesh =>
                       mkPlaneCut
                         (pcToCut st ++ [FMeshData.mk Mesh TransformIndex FromCollection])
                         (pcResultIndices st ++ [Num (pcToCut st)])
                         (pcParentIndices st ++ [UnsplitIdx]))
                    (drop 1 SplitMeshes)
                    (mkPlaneCut ToCut (pcResultIndices st) (pcParentIndices st)))
  else Some st.

(** The proximity of the former neighbours of a piece that was cut. *)
Definition relink_neighbors (ToCut : list FMeshData.t) (ResultIndices : list Z)
    (ToCutIdx : Z) (Proximity : TMultiMap) : TMultiMap :=
  fold_left (fun Proximity Nbr =>
               fold_left (fun Proximity ResultIdx =>
                            if IsNeighbor ToCut ResultIdx Nbr
                            then ProxLink Proximity ResultIdx Nbr
                            else Proximity)
                         ResultIndices (ProxUnlink Proximity ToCutIdx Nbr))
            (MultiFind Proximity ToCutIdx) Proximity.

(** The pairs [(FirstIdx, SecondIdx)], [FirstIdx < SecondIdx], in loop order. *)
Definition index_pairs (n : Z) : list (Z * Z) :=
  FirstIdx ← seqZ 0 n; (fun SecondIdx => (FirstIdx, SecondIdx)) <$> seqZ (FirstIdx + 1) (n - FirstIdx - 1).

(** The proximity among the results of one cut. *)
Definition link_results (ToCut : list FMeshData.t) (ResultIndices ParentIndices : list Z)
    (Proximity : TMultiMap) : option TMultiMap :=
  match ResultIndices with
  | [R0; R1] => Some (ProxLink Proximity R0 R1)
  | _ =>
      for_each (fun Proximity '(FirstIdx, SecondIdx) =>
          FirstParent ← lookupZ ParentIndices FirstIdx;
          SecondParent ← lookupZ ParentIndices SecondIdx;
          if decide (FirstParent = SecondParent) then Some Proximity
          else
            RF ← lookupZ ResultIndices FirstIdx;
            RS ← lookupZ ResultIndices SecondIdx;
            if IsNeighbor ToCut RF RS then Some (ProxLink Proximity RF RS)
            else Some Proximity)
        (index_pairs (Num ResultIndices)) Proximity
  end.

(** One iteration of the loop over [ToCutIdx] for one plane. *)
Definition cut_piece_with_plane (Plane : FPlane) (Cells : FCellMeshes) (bHasProximity : bool)
    (st : list FMeshData.t * TMultiMap) (ToCutIdx : Z)
    : option (list FMeshData.t * TMultiMap) :=
  let '(ToCut, Proximity) := st in
  Surface ← lookupZ ToCut ToCutIdx;
  let TransformIndex := FMeshData.TransformIndex Surface in
  let FromCollection := FMeshData.FromCollection Surface in
  if PlaneIntersectsBounds Plane (FMeshData.AugMesh Surface) then
    BoolResults ← plane_booleans Cells Surface;
    match BoolResults with
    | None => Some st
    | Some (R0, R1) =>
        ToCut ← storeZ ToCut ToCutIdx (FMeshData.mk R0 TransformIndex FromCollection);
        let NewIdx := Num ToCut in
        let ToCut := ToCut ++ [FMeshData.mk R1 TransformIndex FromCollection] in
        pc ← for_each (split_result TransformIndex FromCollection) [0; 1]
               (mkPlaneCut ToCut [ToCutIdx; NewIdx] [0; 1]);
        if bHasProximity then
          let Proximity :=
            relink_neighbors (pcToCut pc) (pcResultIndices pc) ToCutIdx Proximity in
          Proximity ← link_results (pcToCut pc) (pcResultIndices pc) (pcParentIndices pc)
                        Proximity;
          Some (pcToCut pc, Proximity)
        else Some (pcToCut pc, Proximity)
    end
  else Some st.

(** The loop over the planes. *)
Definition cut_with_plane (bHasProximity : bool)
    (st : list FMeshData.t * TMultiMap) (Plane : FPlane)
    : option (list FMeshData.t * TMultiMap) :=
  for_each (cut_piece_with_plane Plane (PlaneCellMeshes Plane) bHasProximity)
           (seqZ 0 (Num st.1)) st.

(** What the loop that appends the pieces carries. *)
Record append_state := mkAppendState {
  asCollection : FGeometryCollection;
  asToCut : list FMeshData.t;
  asToCutIdxToGeometryIdx : list Z;
  asFirstCreatedIndex : Z;
  asGeometryForRemoval : list Z
}.

(** [ParentTransformToChildren]: the pairs
    [(ToCut[ToCutIdx].TransformIndex, ToCutIdx)], added for [ToCutIdx] from 0
    upwards. *)
Definition ParentTransformToChildren (ToCut : list FMeshData.t) : TMultiMap :=
  fold_left (fun M '(ToCutIdx, md) => MultiAdd M (FMeshData.TransformIndex md) ToCutIdx)
            (zip (seqZ 0 (Num ToCut)) ToCut) [].

(** The pieces of [ToCut] that come from one transform:
    [ParentTransformToChildren.MultiFind(TransformIndex, ToCutIndices)]. *)
Definition children_of (ToCut : list FMeshData.t) (TransformIndex : Z) : list Z :=
  MultiFind (ParentTransformToChildren ToCut) TransformIndex.

(** One iteration of the loop over [Meshes] after the planes. *)
Definition append_children (GlobalMaterialID : Z) (bSetDefault : bool)
    (CollisionSampleSpacing : float)
    (st : append_state) (MeshData : FMeshData.t) : option append_state :=
  t ← lookupZ (TransformGroup (asCollection st)) (FMeshData.TransformIndex MeshData);
  let GeometryIdx := TransformToGeometryIndex t in
  InternalMaterialID ←
    internal_material bSetDefault GlobalMaterialID (asCollection st) GeometryIdx;
  let ToCutIndices := children_of (asToCut st) (FMeshData.TransformIndex MeshData) in
  (* if there's only one mesh here, i.e. it didn't get cut at all *)
  if decide (Num ToCutIndices <= 1) then Some st
  else
    '(st, _) ← for_each (fun '(st, SubPartIdx) ToCutIdx =>
        md ← lookupZ (asToCut st) ToCutIdx;
        Name ← GetBoneName (asCollection st) (FMeshData.TransformIndex md) SubPartIdx;
        '(CreatedGeometryIdx, Collection, Mesh) ←
           AppendToCollection (FMeshData.FromCollection md) (FMeshData.AugMesh md)
             CollisionSampleSpacing (FMeshData.TransformIndex md) Name
             (asCollection st) InternalMaterialID;
        ToCut ← storeZ (asToCut st) ToCutIdx
                  (FMeshData.mk Mesh (FMeshData.TransformIndex md)
                                (FMeshData.FromCollection md));
        Map ← storeZ (asToCutIdxToGeometryIdx st) ToCutIdx CreatedGeometryIdx;
        Some (mkAppendState Collection ToCut Map
                (first_created (asFirstCreatedIndex st) CreatedGeometryIdx)
                (asGeometryForRemoval st),
              SubPartIdx + 1))
      ToCutIndices
      (mkAppendState (asCollection st) (asToCut st) (asToCutIdxToGeometryIdx st)
         (asFirstCreatedIndex st) (asGeometryForRemoval st ++ [GeometryIdx]), 0);
    Some st.

(** [GCProximity[ToCutIdxToGeometryIdx[Link.Key]].Add(ToCutIdxToGeometryIdx[Link.Value])].
    The loop over the pairs only adds to sets, so its result does not depend
    on the order of the pairs. *)
Definition write_link (ToCutIdxToGeometryIdx : list Z) (P : list (gset Z)) (Link : Z * Z)
    : option (list (gset Z)) :=
  K ← lookupZ ToCutIdxToGeometryIdx Link.1;
  V ← lookupZ ToCutIdxToGeometryIdx Link.2;
  modifyZ P K (fun s => s ∪ {[V]}).

(** [CutWithMultiplePlanes] without grout: the index returned and the
    collection. *)
Definition CutWithMultiplePlanes_no_grout (Meshes : list FMeshData.t) (Planes : list FPlane)
    (CollisionSampleSpacing : float) (Collection : FGeometryCollection)
    (GlobalMaterialID : Z) (bSetDefault : bool) : option (Z * FGeometryCollection) :=
  let bHasProximity := bool_decide (is_Some (Proximity Collection)) in
  '(ToCut, Links) ← for_each (cut_with_plane bHasProximity) Planes (Meshes, []);
  st ← for_each (append_children GlobalMaterialID bSetDefault CollisionSampleSpacing)
         Meshes
         (mkAppendState Collection ToCut (replicate (length ToCut) (-1)) (-1) []);
  Collection ←
    (if bHasProximity then
       P ← Proximity (asCollection st);
       P ← for_each (write_link (asToCutIdxToGeometryIdx st)) Links P;
       Some (set_Proximity (asCollection st) (Some P))
     else Some (asCollection st));
  Collection ← hide_superseded Collection (asGeometryForRemoval st);
  Some (asFirstCreatedIndex st, Collection).

(** [CutWithMultiplePlanes].  With grout the union of the planes' grout
    strips, an engine computation, is both cells of a two-cell cut. *)
Definition CutWithMultiplePlanes (GroutMesh : list FPlane -> float -> FDynamicMesh3)
    (Meshes : list FMeshData.t) (Planes : list FPlane) (Grout : float)
    (CollisionSampleSpacing : float) (Collection : FGeometryCollection)
    (NumUVLayers : Z) (GlobalMaterialID : Z) (bSetDefault : bool)
    : option (Z * FGeometryCollection) :=
  if (0 <? Grout)%float then
    let G := GroutMesh Planes Grout in
    CutWithCellMeshes Meshes GlobalMaterialID [(0, -1)]
      (mkCellMeshes [G; G] 1 NumUVLayers) Collection bSetDefault CollisionSampleSpacing
  else
    CutWithMultiplePlanes_no_grout Meshes Planes CollisionSampleSpacing Collection
      GlobalMaterialID bSetDefault.

(** *** FDynamicMeshCollection::Init and the boundary operations
    (PlanarCut.cpp) *)

Definition Init (Collection : FGeometryCollection) (TransformIndices : list Z)
    (TransformCollection : FTransform) : option (list FMeshData.t) :=
  for_each (fun Meshes TransformIdx =>
      t ← lookupZ (TransformGroup Collection) TransformIdx;
      let GeometryIdx := TransformToGeometryIndex t in
      if decide (GeometryIdx = -1) then Some Meshes
      else
        let ToLocal :=
          CollectionToLocal (TransformGroup Collection) TransformIdx TransformCollection in
        Mesh ← GeometryToMesh Collection GeometryIdx ToLocal;
        Some (Meshes ++ [FMeshData.mk Mesh TransformIdx ToLocal]))
    TransformIndices [].

(** [if (!HasAttribute("Proximity", GeometryGroup)) AddAttribute<TSet<int32>>(...)] *)
Definition ensure_Proximity (Collection : FGeometryCollection) : FGeometryCollection :=
  match Proximity Collection with
  | Some _ => Collection
  | None =>
      set_Proximity Collection
        (Some (replicate (length (GeometryGroup Collection)) ∅))
  end.

(** [FInternalSurfaceMaterials::SetUVScaleFromCollection] (PlanarCut.cpp).

    The lengths of one edge of a face, added to the two sums; the state is
    [(UVDistance, WorldDistance)].  Both are [float] variables: each [+=]
    rounds the sum to single precision. *)
Definition add_edge_lengths (Collection : FGeometryCollection) (st : float * float)
    (A B : Z) : option (float * float) :=
  let '(UVDistance, WorldDistance) := st in
  a ← lookupZ (VerticesGroup Collection) A;
  b ← lookupZ (VerticesGroup Collection) B;
  let WorldDistance :=
    ToFloat (WorldDistance + FVector_Distance (Vertex a) (Vertex b))%float in
  uva ← lookupZ (UVs a) 0;
  uvb ← lookupZ (UVs b) 0;
  Some (ToFloat (UVDistance + FVector2D_Distance uva uvb)%float, WorldDistance).

(** One iteration of the loop over the faces: the edges [(X, Y)], [(Z, Y)]
    and [(X, Z)] of [Indices[FaceIdx]]. *)
Definition add_face_lengths (Collection : FGeometryCollection) (st : float * float)
    (FaceIdx : Z) : option (float * float) :=
  f ← lookupZ (FacesGroup Collection) FaceIdx;
  let '(TriX, TriY, TriZ) := Indices f in
  st ← add_edge_lengths Collection st TriX TriY;
  st ← add_edge_lengths Collection st TriZ TriY;
  add_edge_lengths Collection st TriX TriZ.

(** The materials with [GlobalUVScale] set from the faces of the geometry,
    or from all faces when [GeometryIdx] is -1. *)
Definition SetUVScaleFromCollection (Materials : FInternalSurfaceMaterials.t)
    (Collection : FGeometryCollection) (GeometryIdx : Z)
    : option FInternalSurfaceMaterials.t :=
  '(FaceStart, FaceEnd) ← FInternalSurfaceMaterials.face_range Collection GeometryIdx;
  '(UVDistance, WorldDistance) ←
     for_each (add_face_lengths Collection) (seqZ FaceStart (FaceEnd - FaceStart))
              (0, 0)%float;
  let GlobalUVScale :=
    if (0 <? WorldDistance)%float then ToFloat (UVDistance / WorldDistance)%float
    else FInternalSurfaceMaterials.GlobalUVScale Materials in
  let GlobalUVScale := if (GlobalUVScale <=? 0)%float then 1%float else GlobalUVScale in
  Some (FInternalSurfaceMaterials.mk
          (FInternalSurfaceMaterials.GlobalMaterialID Materials) GlobalUVScale).

(** [if (bSetDefaultInternalMaterialsFromCollection)
       InternalSurfaceMaterials.SetUVScaleFromCollection(Collection);] *)
Definition set_default_uv_scale (bSetDefault : bool)
    (Materials : FInternalSurfaceMaterials.t) (Collection : FGeometryCollection)
    : option FInternalSurfaceMaterials.t :=
  if bSetDefault then SetUVScaleFromCollection Materials Collection (-1)
  else Some Materials.

(** [FCellMeshes(NumUVLayersIn, SingleCutter, Materials, Transform)]: the
    cutter is the inside cell and, copied, the outside cell.  The meshes of
    this model have the attributes of an augmented mesh. *)
Definition FCellMeshes_of_cutter (NumUVLayersIn : Z) (SingleCutter : FDynamicMesh3)
    (Transform : option FTransform) : FCellMeshes :=
  let SingleCutter :=
    match Transform with
    | Some T => MeshTransforms_ApplyTransform SingleCutter T
    | None => SingleCutter
    end in
  mkCellMeshes [SingleCutter; SingleCutter] 1 NumUVLayersIn.

(** The boundary operations return the index and leave their results in
    the collection and in the materials passed by reference: the model
    returns all three.

    [CutMultipleWithPlanarCells]; [InternalSurfaceMaterials] are the
    materials of [Cells], [PlaneCells] the cell pairs of its planes and
    [MakeCells] the construction
    [FCellMeshes(Source.NumUVLayers(), Cells, MeshCollection.Bounds, Grout,
    OnePercentExtend, bIncludeOutsideCellInOutput)] of the cell meshes from
    the cells with their materials and the bounds of the meshes. *)
Definition CutMultipleWithPlanarCells
    (MakeCells : FInternalSurfaceMaterials.t -> list FMeshData.t -> FCellMeshes)
    (PlaneCells : list (Z * Z)) (InternalSurfaceMaterials : FInternalSurfaceMaterials.t)
    (Source : FGeometryCollection) (TransformIndices : list Z)
    (CollisionSampleSpacing : float) (TransformCollection : FTransform)
    (bSetDefault : bool)
    : option (Z * FGeometryCollection * FInternalSurfaceMaterials.t) :=
  let Source := ensure_Proximity Source in
  InternalSurfaceMaterials ← set_default_uv_scale bSetDefault InternalSurfaceMaterials Source;
  Meshes ← Init Source TransformIndices TransformCollection;
  '(NewGeomStartIdx, Source) ←
     CutWithCellMeshes Meshes
       (FInternalSurfaceMaterials.GlobalMaterialID InternalSurfaceMaterials) PlaneCells
       (MakeCells InternalSurfaceMaterials Meshes) Source
       bSetDefault CollisionSampleSpacing;
  Some (NewGeomStartIdx, ReindexMaterials Source, InternalSurfaceMaterials).

(** [CutWithMesh].  [DynamicCuttingMesh] is what the first part of the
    function makes of [CuttingMesh]: the mesh description converted by the
    engine and split at its seams, [None] when a check of that part fails;
    [NumUVLayers] is [Collection.NumUVLayers()]. *)
Definition CutWithMesh (DynamicCuttingMesh : option FDynamicMesh3)
    (CuttingMeshTransform : FTransform)
    (InternalSurfaceMaterials : FInternalSurfaceMaterials.t)
    (Collection : FGeometryCollection) (TransformIndices : list Z)
    (CollisionSampleSpacing : float) (TransformCollection : FTransform)
    (NumUVLayers : Z) (bSetDefault : bool)
    : option (Z * FGeometryCollection * FInternalSurfaceMaterials.t) :=
  DynamicCuttingMesh ← DynamicCuttingMesh;
  let Collection := ensure_Proximity Collection in
  InternalSurfaceMaterials ←
    set_default_uv_scale bSetDefault InternalSurfaceMaterials Collection;
  Meshes ← Init Collection TransformIndices TransformCollection;
  let CellMeshes :=
    FCellMeshes_of_cutter NumUVLayers DynamicCuttingMesh (Some CuttingMeshTransform) in
  '(NewGeomStartIdx, Collection) ←
     CutWithCellMeshes Meshes
       (FInternalSurfaceMaterials.GlobalMaterialID InternalSurfaceMaterials) [(0, -1)]
       CellMeshes Collection bSetDefault CollisionSampleSpacing;
  Some (NewGeomStartIdx, ReindexMaterials Collection, InternalSurfaceMaterials).

(** [CutMultipleWithMultiplePlanes]; [GroutMesh] is the union of the grout
    strips of the planes, made with the materials. *)
Definition CutMultipleWithMultiplePlanes
    (GroutMesh : FInternalSurfaceMaterials.t -> list FPlane -> float -> FDynamicMesh3)
    (Planes : list FPlane) (InternalSurfaceMaterials : FInternalSurfaceMaterials.t)
    (Collection : FGeometryCollection) (TransformIndices : list Z) (Grout : float)
    (CollisionSampleSpacing : float) (TransformCollection : FTransform)
    (NumUVLayers : Z) (bSetDefault : bool)
    : option (Z * FGeometryCollection * FInternalSurfaceMaterials.t) :=
  InternalSurfaceMaterials ←
    set_default_uv_scale bSetDefault InternalSurfaceMaterials Collection;
  let Collection := ensure_Proximity Collection in
  Meshes ← Init Collection TransformIndices TransformCollection;
  '(NewGeomStartIdx, Collection) ←
     CutWithMultiplePlanes (GroutMesh InternalSurfaceMaterials) Meshes Planes Grout
       CollisionSampleSpacing Collection NumUVLayers
       (FInternalSurfaceMaterials.GlobalMaterialID InternalSurfaceMaterials) bSetDefault;
  Some (NewGeomStartIdx, ReindexMaterials Collection, InternalSurfaceMaterials).

End Cutting.

(** ** Vocabulary of the statements about the drivers *)

(** The outcome of a cut: [ret] is -1 and the geometry group is as before,
    or [ret] is the previous number of geometries, the index of the first
    of the rows appended to the geometry group. *)
Definition first_new_geometry (Before After : FGeometryCollection) (ret : Z) : Prop :=
  (ret = -1 /\ GeometryGroup After = GeometryGroup Before)
  \/ (ret = Num (GeometryGroup Before)
      /\ GeometryGroup Before `prefix_of` GeometryGroup After
      /\ Num (GeometryGroup Before) < Num (GeometryGroup After)).

(** [A ∈ Proximity(B)] iff [B ∈ Proximity(A)], for the geometry indices of
    the attribute; an absent attribute relates nothing. *)
Definition proximity_symmetric (Prox : option (list (gset Z))) : Prop :=
  forall P, Prox = Some P ->
    forall (A B : Z) (sA : gset Z),
      lookupZ P A = Some sA -> B ∈ sA ->
      exists sB, lookupZ P B = Some sB /\ A ∈ sB.

(** The target piece was cut by the cells: at least two of its boolean
    results have triangles. *)
Definition was_cut `{Engine} (Cells : FCellMeshes) (Surface : FMeshData.t) : Prop :=
  ~ NonEmptyResults (boolean_results Cells Surface) < 2.

(** Number of times the pair [(A, B)] is in a multimap. *)
Definition links (M : TMultiMap) (A B : Z) : nat :=
  length (filter (fun p => p = (A, B)) M).

(** Every link of the multimap has its mirror image, as often. *)
Definition multimap_symmetric (M : TMultiMap) : Prop :=
  forall A B : Z, links M A B = links M B A.

(** ** Vocabulary of the statements about [UpdateCollection] *)

(** [l] with the rows from [start] on replaced by the rows [new]. *)
Definition overwrite {A : Type} (l : list A) (start : Z) (new : list A) : list A :=
  take (Z.to_nat start) l ++ new ++ drop (Z.to_nat start + length new) l.

(** The vertex row [UpdateCollection] leaves in the place of [r] for the
    mesh vertex [v]: every field comes from the mesh, the UV layers beyond
    those of the mesh stay. *)
Definition updated_vertex_row `{Engine} (FromCollection : FTransform)
    (UVLayerCount TransformIdx : Z) (v : FMeshVertex) (r : FVertexRow) : FVertexRow :=
  mkVertexRow (InverseTransformPosition FromCollection (mPosition v))
              (InverseTransformVectorNoScale FromCollection (mNormal v))
              ((GetUV v <$> seqZ 0 UVLayerCount) ++ drop (Z.to_nat UVLayerCount) (UVs r))
              (mColor v)
              (InverseTransformVectorNoScale FromCollection (mTangentU v))
              (InverseTransformVectorNoScale FromCollection (mTangentV v))
              TransformIdx.

(** The slot of geometry row [g] lies inside the vertex and face arrays of
    the collection, whose sizes are [int32] values, and its vertex rows have
    the UV layers of the mesh. *)
Definition slot_ok (Output : FGeometryCollection) (g : FGeometryRow)
    (Mesh : FDynamicMesh3) : Prop :=
  0 <= VertexStart g
  /\ VertexStart g + VertexCountOf Mesh <= Num (VerticesGroup Output)
  /\ Num (VerticesGroup Output) < 2 ^ 31
  /\ 0 <= FaceStart g
  /\ FaceStart g + TriangleCount Mesh <= Num (FacesGroup Output)
  /\ Num (FacesGroup Output) < 2 ^ 31
  /\ Forall (fun r => NumEnabledUVChannels Mesh <= Num (UVs r))
            (take (length (MeshVertices Mesh))
                  (drop (Z.to_nat (VertexStart g)) (VerticesGroup Output))).

(** The collection after a successful [UpdateCollection] of the slot of
    row [g], starting from the collection [Output] that the layer-count
    call returned.  The vertex rows of the slot are those of the mesh
    vertices; the face rows of the slot are the mesh triangles with their
    corners shifted by the first vertex of the slot (in [int32]
    arithmetic), their visibility, and their material ID or, where that is
    negative, the internal material ID; the bounding box is the empty box
    extended by the position written for each mesh vertex in turn; every
    other row and field is that of [Output]. *)
Definition updated_slot `{Engine} (FromCollection : FTransform) (Mesh : FDynamicMesh3)
    (GeometryIdx : Z) (g : FGeometryRow) (Output : FGeometryCollection)
    (InternalMaterialID : Z) : FGeometryCollection :=
  let NewVertices :=
    zip_with (updated_vertex_row FromCollection (NumEnabledUVChannels Mesh)
                (TransformIndex g))
             (MeshVertices Mesh)
             (drop (Z.to_nat (VertexStart g)) (VerticesGroup Output)) in
  let NewFaces :=
    (fun t =>
       let '(A, B, C) := mTri t in
       mkFaceRow (int32_wrap (A + VertexStart g), int32_wrap (B + VertexStart g),
                  int32_wrap (C + VertexStart g))
                 (mVisible t)
                 (if decide (mMaterialID t < 0) then InternalMaterialID
                  else mMaterialID t))
    <$> MeshTriangles Mesh in
  let NewBox :=
    fold_left FBox_AddPoint
      ((fun v => InverseTransformPosition FromCollection (mPosition v))
         <$> MeshVertices Mesh)
      FBox_Init in
  mkCollection
    (TransformGroup Output)
    (<[Z.to_nat GeometryIdx :=
         mkGeometryRow (TransformIndex g) NewBox
                       (VertexStart g) (VertexCount g) (FaceStart g) (FaceCount g)]>
       (GeometryGroup Output))
    (overwrite (VerticesGroup Output) (VertexStart g) NewVertices)
    (overwrite (FacesGroup Output) (FaceStart g) NewFaces)
    (Proximity Output).

(** Every entry of a volume array multiplied by [k]; an aborted run stays
    aborted. *)
Definition scale_volumes (k : Qc) (r : option (list Qc)) : option (list Qc) :=
  fmap (M:=option) (fmap (M:=list) (Qcmult k)) r.

(** ** Vocabulary of the proofs *)

(** What the counting loop knows after the faces [ids]. *)
Definition count_inv (ids : list Z) (st : gmap Z Z * Z * Z) : Prop :=
  let '(cnt, mx, mc) := st in
  (forall x, default 0 (cnt !! x) = occurrences x ids)
  /\ (forall x, occurrences x ids <= mx)
  /\ (ids = [] -> mx = 0 /\ mc = -1)
  /\ (ids <> [] -> occurrences mc ids = mx).

(** The parent's row after a child was linked to it. *)
Definition adopt (TransformIdx : Z) (p : FTransformRow) : FTransformRow :=
  mkTransformRow (Transform p) (Parent p) (Children p ∪ {[TransformIdx]})
                 (BoneName p) (BoneColor p) FST_Clustered (TransformToGeometryIndex p).

(** The mesh as [AppendToCollection] leaves it. *)
Definition sampled `{Engine} (Mesh : FDynamicMesh3) (CollisionSampleSpacing : float) : FDynamicMesh3 :=
  if (0 <? CollisionSampleSpacing)%float
  then AddCollisionSamplesPerComponent Mesh CollisionSampleSpacing
  else Mesh.

(** The collection after an append, given its transform rows. *)
Definition appended `{Engine} (FromCollection : FTransform) (Mesh' : FDynamicMesh3)
    (Output : FGeometryCollection) (InternalMaterialID : Z)
    (Transforms : list FTransformRow) : FGeometryCollection :=
  let UVLayerCount :=
    if decide (NumEnabledUVChannels Mesh' > 0) then NumEnabledUVChannels Mesh' else 1 in
  let NewVertices :=
    vertex_row_of FromCollection UVLayerCount (Num (TransformGroup Output))
      <$> MeshVertices Mesh' in
  mkCollection Transforms
    (GeometryGroup Output
     ++ [mkGeometryRow (Num (TransformGroup Output)) (bounding_box_of NewVertices)
           (Num (VerticesGroup Output)) (VertexCountOf Mesh')
           (Num (FacesGroup Output)) (TriangleCount Mesh')])
    (VerticesGroup Output ++ NewVertices)
    (FacesGroup Output
     ++ (face_row_of (Num (VerticesGroup Output)) InternalMaterialID
           <$> MeshTriangles Mesh'))
    ((fun P => P ++ [∅]) <$> Proximity Output).

(** The geometry group only grows at its end, and the first created index
    is -1 as long as it has not grown and the previous size from then on. *)
Definition grown (Before : FGeometryCollection) (c : FGeometryCollection) (first : Z) : Prop :=
  first_new_geometry Before c first.

(** The transforms of [Before] are transforms of [c]. *)
Definition keeps_transforms (Before c : FGeometryCollection) (first : Z) : Prop :=
  forall i : Z, is_Some (lookupZ (TransformGroup Before) i) ->
                is_Some (lookupZ (TransformGroup c) i).

(** ** Sample data *)

Module Samples.

Definition origin : FVector := mkVec 0%float 0%float 0%float.
Definition empty_box : FBox := mkBox origin origin false.
Definition white : FLinearColor := (1, 1, 1, 1)%float.

Definition transform_row (name : string) (parent geometry : Z) : FTransformRow :=
  mkTransformRow FTransform_Identity parent ∅ name white FST_Rigid geometry.

Definition geometry_row (transform vstart vcount fstart fcount : Z) : FGeometryRow :=
  mkGeometryRow transform empty_box vstart vcount fstart fcount.

Definition vertex_at (x y z : float) (bone : Z) : FVertexRow :=
  mkVertexRow (mkVec x y z) (mkVec 0 0 1)%float [(0, 0)%float]
              (mkVec 1 1 1)%float (mkVec 1 0 0)%float (mkVec 0 1 0)%float bone.

Definition face (a b c : Z) (material : Z) : FFaceRow :=
  mkFaceRow (a, b, c) true material.

(** Two bones.  Bone 0 owns a tetrahedron with face materials 2, 2, 5, -1;
    bone 1 owns a geometry without vertices or faces. *)
Definition tetra : FGeometryCollection :=
  mkCollection
    [transform_row "root" (-1) 0; transform_row "leaf" 0 1]
    [geometry_row 0 0 4 0 4; geometry_row 1 4 0 4 0]
    [vertex_at 0 0 0 0; vertex_at 1 0 0 0; vertex_at 0 1 0 0; vertex_at 0 0 1 0]
    [face 0 1 2 2; face 0 3 1 2; face 0 2 3 5; face 1 3 2 (-1)]
    None.

(** One bone whose geometry has a single face, of material -1. *)
Definition unresolved_face : FGeometryCollection :=
  mkCollection
    [transform_row "root" (-1) 0]
    [geometry_row 0 0 3 0 1]
    [vertex_at 0 0 0 0; vertex_at 1 0 0 0; vertex_at 0 1 0 0]
    [face 0 1 2 (-1)]
    None.

(** Stand-ins for the engine: bones at the identity transform. *)
Definition identity_position : FTransform -> FVector -> FVector3 float :=
  fun _ v => v.
Definition identity_matrices : list FTransformRow -> list Z -> list FTransform :=
  fun _ indices => (fun _ => FTransform_Identity) <$> indices.

Definition mesh_vertex (x y z : float) : FMeshVertex :=
  mkMeshVertex (mkVec x y z) (mkVec 0 0 1)%float (mkVec 1 1 1)%float
               (mkVec 1 0 0)%float (mkVec 0 1 0)%float [(0, 0)%float].

(** An engine to run the plugin code on: affine maps are the identity,
    boxes and mesh operations are computed coordinate by coordinate, a
    boolean keeps the triangles of the first mesh, nothing is split. *)
Definition fmin (a b : float) : float := if (a <? b)%float then a else b.
Definition fmax (a b : float) : float := if (a <? b)%float then b else a.

Definition box_add (B : FBox) (p : FVector) : FBox :=
  if BoxIsValid B
  then mkBox (mkVec (fmin (vx (BoxMin B)) (vx p)) (fmin (vy (BoxMin B)) (vy p))
                    (fmin (vz (BoxMin B)) (vz p)))
             (mkVec (fmax (vx (BoxMax B)) (vx p)) (fmax (vy (BoxMax B)) (vy p))
                    (fmax (vz (BoxMax B)) (vz p)))
             true
  else mkBox p p true.

Definition mesh_box (m : FDynamicMesh3) : FBox :=
  fold_left box_add (mPosition <$> MeshVertices m) empty_box.

Definition max_dim (B : FBox) : float :=
  fmax (fmax (vx (BoxMax B) - vx (BoxMin B)) (vy (BoxMax B) - vy (BoxMin B)))
       (vz (BoxMax B) - vz (BoxMin B)).

Definition boxes_meet (A B : FBox) : bool :=
  BoxIsValid A && BoxIsValid B
  && (vx (BoxMin A) <=? vx (BoxMax B))%float && (vx (BoxMin B) <=? vx (BoxMax A))%float
  && (vy (BoxMin A) <=? vy (BoxMax B))%float && (vy (BoxMin B) <=? vy (BoxMax A))%float
  && (vz (BoxMin A) <=? vz (BoxMax B))%float && (vz (BoxMin B) <=? vz (BoxMax A))%float.

Definition scale_about (m : FDynamicMesh3) (Scale Origin : FVector) : FDynamicMesh3 :=
  mkMesh ((fun v =>
             let d := vsub (mPosition v) Origin in
             mkMeshVertex
               (vadd (mkVec (vx d * vx Scale) (vy d * vy Scale) (vz d * vz Scale))%float
                     Origin)
               (mNormal v) (mColor v) (mTangentU v) (mTangentV v) (mUV v))
          <$> MeshVertices m)
         (MeshTriangles m) (NumEnabledUVChannels m).

Definition append_mesh (a b : FDynamicMesh3) : FDynamicMesh3 :=
  mkMesh (MeshVertices a ++ MeshVertices b)
         (MeshTriangles a
          ++ ((fun t => mkMeshTriangle
                          (let '(x, y, z) := mTri t in
                           (x + VertexCountOf a, y + VertexCountOf a, z + VertexCountOf a))
                          (mMaterialID t) (mVisible t))
              <$> MeshTriangles b))
         (NumEnabledUVChannels a).

(** A double rounded to the nearest single precision value. *)
Definition round_to_single (x : float) : float :=
  match Prim2SF x with
  | S754_finite s m e =>
      SF2Prim (binary_normalize 24 128 (cond_Zopp s (Z.pos m)) e s)
  | _ => x
  end.

Definition resize_uvs (n : Z) (c : FGeometryCollection) : FGeometryCollection :=
  set_VerticesGroup c
    ((fun r => mkVertexRow (Vertex r) (Normal r)
                 (take (Z.to_nat n) (UVs r ++ replicate (Z.to_nat n) (0, 0)%float))
                 (Color r) (TangentU r) (TangentV r) (BoneMap r))
     <$> VerticesGroup c).

#[export] Instance engine : Engine := {
  InverseTransformPosition := fun _ v => v;
  InverseTransformVectorNoScale := fun _ v => v;
  FBox_Init := empty_box;
  FBox_AddPoint := box_add;
  DefaultTransformRow := transform_row "" 0 0;
  SetNumUVLayers := resize_uvs;
  ReindexMaterials := fun c => c;
  ZeroTolerance := 0x1.5798ee2308c3ap-27%float;
  BoundsMaxDim := fun m => max_dim (mesh_box m);
  BoundsIntersect := fun a b => boxes_meet (mesh_box a) (mesh_box b);
  PlaneIntersectsBounds := fun _ _ => true;
  MeshTransforms_Scale := scale_about;
  MeshTransforms_ApplyTransform := fun m _ => m;
  FVector_Distance := fun a b => PrimFloat.sqrt (Dot (vsub a b) (vsub a b));
  FVector2D_Distance := fun a b =>
    PrimFloat.sqrt ((a.1 - b.1) * (a.1 - b.1) + (a.2 - b.2) * (a.2 - b.2))%float;
  ToFloat := round_to_single;
  AppendMesh := append_mesh;
  MeshBoolean := fun m _ _ => m;
  CollisionSamples := fun _ _ => [];
  SplitIslands := fun m => (false, []);
  IsNeighboring := fun a b => boxes_meet (mesh_box a) (mesh_box b);
  PlaneCellMeshes := fun _ => mkCellMeshes [mkMesh [] [] 1; mkMesh [] [] 1] (-1) 1;
  CollectionToLocal := fun _ _ T => T;
  GeometryToMesh := fun _ _ _ => Some (mkMesh [] [] 1)
}.


(** The tetrahedron of [tetra] as a mesh, moved by one unit along z. *)
Definition tetra_mesh : FDynamicMesh3 :=
  mkMesh [mesh_vertex 0 0 1; mesh_vertex 1 0 1; mesh_vertex 0 1 1; mesh_vertex 0 0 2]
         [mkMeshTriangle (0, 1, 2) 2 true; mkMeshTriangle (0, 3, 1) 2 true;
          mkMeshTriangle (0, 2, 3) (-1) false; mkMeshTriangle (1, 3, 2) (-1) true] 1.

(** The engine above with cells that miss every mesh: a boolean result has
    no triangles; [Init] makes the tetrahedron of every geometry. *)
Definition engine_empty_booleans : Engine := {|
  InverseTransformPosition := fun _ v => v;
  InverseTransformVectorNoScale := fun _ v => v;
  FBox_Init := empty_box;
  FBox_AddPoint := box_add;
  DefaultTransformRow := transform_row "" 0 0;
  SetNumUVLayers := resize_uvs;
  ReindexMaterials := fun c => c;
  ZeroTolerance := 0x1.5798ee2308c3ap-27%float;
  BoundsMaxDim := fun m => max_dim (mesh_box m);
  BoundsIntersect := fun a b => boxes_meet (mesh_box a) (mesh_box b);
  PlaneIntersectsBounds := fun _ _ => true;
  MeshTransforms_Scale := scale_about;
  MeshTransforms_ApplyTransform := fun m _ => m;
  FVector_Distance := fun a b => PrimFloat.sqrt (Dot (vsub a b) (vsub a b));
  FVector2D_Distance := fun a b =>
    PrimFloat.sqrt ((a.1 - b.1) * (a.1 - b.1) + (a.2 - b.2) * (a.2 - b.2))%float;
  ToFloat := round_to_single;
  AppendMesh := append_mesh;
  MeshBoolean := fun _ _ _ => mkMesh [] [] 1;
  CollisionSamples := fun _ _ => [];
  SplitIslands := fun m => (false, []);
  IsNeighboring := fun a b => boxes_meet (mesh_box a) (mesh_box b);
  PlaneCellMeshes := fun _ => mkCellMeshes [mkMesh [] [] 1; mkMesh [] [] 1] (-1) 1;
  CollectionToLocal := fun _ _ T => T;
  GeometryToMesh := fun _ _ _ => Some tetra_mesh
|}.

(** Two cells and an outside cell. *)
Definition three_cells (a b : FDynamicMesh3) : FCellMeshes :=
  mkCellMeshes [a; b; mkMesh [] [] 1] 2 1.

(** A triangle with corners (0,0,0), (1,0,0), (0,1,0). *)
Definition unit_triangle (material : Z) : FDynamicMesh3 :=
  mkMesh [mesh_vertex 0 0 0; mesh_vertex 1 0 0; mesh_vertex 0 1 0]
         [mkMeshTriangle (0, 1, 2) material true] 1.

End Samples.

(** * Further parts of the plugin *)

(** ** FDynamicMeshCollection::SetVisibility (GeometryMeshConversion.h) *)

(** The static [SetVisibility] of one geometry. *)
Definition SetVisibility (Collection : FGeometryCollection) (GeometryIdx : Z)
    (bVisible : bool) : option FGeometryCollection :=
  g ← lookupZ (GeometryGroup Collection) GeometryIdx;
  let FaceEnd := int32_wrap (FaceCount g + FaceStart g) in
  Faces ← for_each (fun Faces FaceIdx => modifyZ Faces FaceIdx (hide_or_show_face bVisible))
             (seqZ (FaceStart g) (FaceEnd - FaceStart g)) (FacesGroup Collection);
  Some (set_FacesGroup Collection Faces).

(** ** Vocabulary of the further statements *)

(** Face [FaceIdx] lies in the face range of one of the listed geometries,
    the end of a range being computed in [int32]. *)
Definition in_listed_range (Collection : FGeometryCollection) (GeometryIndices : list Z)
    (FaceIdx : Z) : Prop :=
  exists GeoIdx g,
    GeoIdx ∈ GeometryIndices
    /\ lookupZ (GeometryGroup Collection) GeoIdx = Some g
    /\ FaceStart g <= FaceIdx < int32_wrap (FaceStart g + FaceCount g).

(** A transform row after a cut, compared with the row before: a bone
    keeps its transform, parent, name, colour and geometry, and its
    children; only its simulation type may change and children are added. *)
Definition same_bone (r r' : FTransformRow) : Prop :=
  Transform r' = Transform r
  /\ Parent r' = Parent r
  /\ BoneName r' = BoneName r
  /\ BoneColor r' = BoneColor r
  /\ TransformToGeometryIndex r' = TransformToGeometryIndex r
  /\ Children r ⊆ Children r'.

(** The rows of [Before] are rows of [c]: geometries, vertices and faces
    of [Before] come first and are unchanged, every bone of [Before] is
    the same bone in [c], as many transforms as geometries were added, and
    every added geometry and its transform refer to each other. *)
Definition keeps_rows (Before c : FGeometryCollection) (first : Z) : Prop :=
  GeometryGroup Before `prefix_of` GeometryGroup c
  /\ VerticesGroup Before `prefix_of` VerticesGroup c
  /\ FacesGroup Before `prefix_of` FacesGroup c
  /\ (forall i r, lookupZ (TransformGroup Before) i = Some r ->
        exists r', lookupZ (TransformGroup c) i = Some r' /\ same_bone r r')
  /\ Num (TransformGroup c) - Num (TransformGroup Before)
     = Num (GeometryGroup c) - Num (GeometryGroup Before)
  /\ (forall i g, Num (GeometryGroup Before) <= i ->
        lookupZ (GeometryGroup c) i = Some g ->
        Num (TransformGroup Before) <= TransformIndex g
        /\ exists t, lookupZ (TransformGroup c) (TransformIndex g) = Some t
                     /\ TransformToGeometryIndex t = i).

(** The geometry indices [CutWithCellMeshes] collects in
    [GeometryForRemoval]: those of the target pieces that were cut. *)
Definition superseded `{Engine} (Collection : FGeometryCollection) (Cells : FCellMeshes)
    (Meshes : list FMeshData.t) : list Z :=
  omap (fun S => TransformToGeometryIndex
                   <$> lookupZ (TransformGroup Collection) (FMeshData.TransformIndex S))
       (filter (was_cut Cells) Meshes).

(** [c'] is [c] up to the visibility of its faces. *)
Definition same_but_visibility (c c' : FGeometryCollection) : Prop :=
  TransformGroup c' = TransformGroup c
  /\ GeometryGroup c' = GeometryGroup c
  /\ VerticesGroup c' = VerticesGroup c
  /\ Proximity c' = Proximity c
  /\ Num (FacesGroup c') = Num (FacesGroup c)
  /\ forall i r, lookupZ (FacesGroup c) i = Some r ->
       exists r', lookupZ (FacesGroup c') i = Some r'
                  /\ Indices r' = Indices r /\ MaterialID r' = MaterialID r.

(** ** FPlanarCells: cells from boxes and from a grid (PlanarCut.cpp)

    [AddPlane] is declared in PlanarCut.h; a constructor is modelled by the
    cell count and boundary vertices it sets and by the calls of [AddPlane]
    it makes, in their order.  The coordinates are [float] in the source;
    the constructors are written over the interface [Scalar], with unary
    minus. *)

Class Negation (F : Type) := fopp : F -> F.
#[export] Instance double_negation : Negation float := PrimFloat.opp.
#[export] Instance exact_negation : Negation Qc := Qcopp.

Definition i32_add (a b : Z) : Z := int32_wrap (a + b).
Definition i32_sub (a b : Z) : Z := int32_wrap (a - b).
Definition i32_mul (a b : Z) : Z := int32_wrap (a * b).

Module FPlanarCells.
Section Constructors.
Context {F : Type} `{Scalar F} `{Negation F}.

(** [AddPlane(FPlane(Normal, W), CellIdxA, CellIdxB, PlaneBoundary)] *)
Record AddPlaneCall := mkAddPlane {
  apNormal : FVector3 F;
  apW : F;
  apCellA : Z;
  apCellB : Z;
  apBoundary : list Z
}.

Record t := mk {
  AssumeConvexCells : bool;
  NumCells : Z;
  PlaneBoundaryVertices : list (FVector3 F);
  AddPlaneCalls : list AddPlaneCall
}.

(** [FBox]: [Min] and [Max]. *)
Record FBoxOf := mkBoxOf { BMin : FVector3 F; BMax : FVector3 F }.

(** [FVector(X, Y, Z)] of integer literals. *)
Definition axis (x y z : Z) : FVector3 F := mkVec (of_int x) (of_int y) (of_int z).

(** *** [FPlanarCells(const TArrayView<const FBox> Boxes)] *)

(** The eight vertices added for one box. *)
Definition box_vertices (Box : FBoxOf) : list (FVector3 F) :=
  let Min := BMin Box in
  let Max := BMax Box in
  [ Min;
    mkVec (vx Max) (vy Min) (vz Min);
    mkVec (vx Max) (vy Max) (vz Min);
    mkVec (vx Min) (vy Max) (vz Min);
    mkVec (vx Min) (vy Min) (vz Max);
    mkVec (vx Max) (vy Min) (vz Max);
    Max;
    mkVec (vx Min) (vy Max) (vz Max) ].

(** The six calls of [AddPlane] for one box. *)
Definition box_planes (Box : FBoxOf) (BoxIdx VIdx : Z) : list AddPlaneCall :=
  let Min := BMin Box in
  let Max := BMax Box in
  let v k := i32_add VIdx k in
  [ mkAddPlane (axis 0 0 (-1)) (fopp (vz Min)) BoxIdx (-1) [v 0; v 1; v 2; v 3];
    mkAddPlane (axis 0 0 1) (vz Max) BoxIdx (-1) [v 4; v 7; v 6; v 5];
    mkAddPlane (axis 0 (-1) 0) (fopp (vy Min)) BoxIdx (-1) [v 0; v 4; v 5; v 1];
    mkAddPlane (axis 0 1 0) (vy Max) BoxIdx (-1) [v 3; v 2; v 6; v 7];
    mkAddPlane (axis (-1) 0 0) (fopp (vx Min)) BoxIdx (-1) [v 0; v 3; v 7; v 4];
    mkAddPlane (axis 1 0 0) (vx Max) BoxIdx (-1) [v 1; v 5; v 6; v 2] ].

Definition FromBoxes (Boxes : list FBoxOf) : t :=
  let '(verts, calls) :=
    fold_left (fun '(verts, calls) '(BoxIdx, Box) =>
                 let VIdx := Num verts in
                 (verts ++ box_vertices Box, calls ++ box_planes Box BoxIdx VIdx))
              (zip (seqZ 0 (Num Boxes)) Boxes) ([], []) in
  mk true (Num Boxes) verts calls.

(** *** [FPlanarCells(const FBox& Region, const FIntVector& CubesPerAxis)] *)

(** The lambdas [ToIdxUnsafe] and [ToIdx]: cube X, Y, Z integer indices to
    a single cell index. *)
Definition ToIdxUnsafe (PerAxis : FIntVector) (Xi Yi Zi : Z) : Z :=
  let '(PX, PY, PZ) := PerAxis in
  i32_add (i32_add Xi (i32_mul Yi PX)) (i32_mul Zi (i32_mul PX PY)).

Definition ToIdx (PerAxis : FIntVector) (Xi Yi Zi : Z) : Z :=
  let '(PX, PY, PZ) := PerAxis in
  if decide (Xi < 0 \/ Xi >= PX \/ Yi < 0 \/ Yi >= PY \/ Zi < 0 \/ Zi >= PZ)
  then -1
  else i32_add (i32_add Xi (i32_mul Yi PX)) (i32_mul Zi (i32_mul PX PY)).

Definition CellSizesOf (Region : FBoxOf) (CubesPerAxis : FIntVector) : FVector3 F :=
  let '(CX, CY, CZ) := CubesPerAxis in
  let Diagonal := vsub (BMax Region) (BMin Region) in
  mkVec (fdiv (vx Diagonal) (of_int CX))
        (fdiv (vy Diagonal) (of_int CY))
        (fdiv (vz Diagonal) (of_int CZ)).

(** [Region.Min + FVector(Xi * CellSizes.X, Yi * CellSizes.Y, Zi * CellSizes.Z)] *)
Definition grid_vertex (Region : FBoxOf) (CellSizes : FVector3 F) (Xi Yi Zi : Z)
    : FVector3 F :=
  vadd (BMin Region)
       (mkVec (fmul (of_int Xi) (vx CellSizes))
              (fmul (of_int Yi) (vy CellSizes))
              (fmul (of_int Zi) (vz CellSizes))).

(** The index triples [(Xi, Yi, Zi)] of three nested loops, [Zi] outermost. *)
Definition grid_indices (NX NY NZ : Z) : list (Z * Z * Z) :=
  Zi ← seqZ 0 NZ; Yi ← seqZ 0 NY; Xi ← seqZ 0 NX; [(Xi, Yi, Zi)].

(** [PlaneBoundaryVertices.SetNum(...)] and the loops that assign
    [PlaneBoundaryVertices[VertIdx]], [VertIdx] counting up from 0.
    [Uninitialized] is the vertex [SetNum] creates. *)
Definition grid_vertices (Uninitialized : FVector3 F) (Region : FBoxOf)
    (CubesPerAxis : FIntVector) : option (list (FVector3 F)) :=
  let '(CX, CY, CZ) := CubesPerAxis in
  let '(VX, VY, VZ) := (i32_add CX 1, i32_add CY 1, i32_add CZ 1) in
  let Count := i32_mul (i32_mul VX VY) VZ in
  if decide (Count < 0) then None
  else
    let CellSizes := CellSizesOf Region CubesPerAxis in
    '(verts, _) ←
      for_each (fun '(verts, VertIdx) '(Xi, Yi, Zi) =>
                  verts ← storeZ verts VertIdx (grid_vertex Region CellSizes Xi Yi Zi);
                  Some (verts, i32_add VertIdx 1))
               (grid_indices VX VY VZ)
               (replicate (Z.to_nat Count) Uninitialized, 0);
    Some verts.

(** The value of a loop variable [V] after [n] steps [V += Step]. *)
Definition stepped (Start Step : F) (n : Z) : F :=
  Nat.iter (Z.to_nat n) (fun V => fadd V Step) Start.

(** The six calls of [AddPlane] for the cube [(Xi, Yi, Zi)]. *)
Definition grid_cell_planes (Region : FBoxOf) (CubesPerAxis : FIntVector)
    (Xi Yi Zi : Z) : list AddPlaneCall :=
  let '(CX, CY, CZ) := CubesPerAxis in
  let VertsPerAxis := (i32_add CX 1, i32_add CY 1, i32_add CZ 1) in
  let VX := i32_add CX 1 in
  let CellSizes := CellSizesOf Region CubesPerAxis in
  let Z' := stepped (vz (BMin Region)) (vz CellSizes) Zi in
  let ZN := fadd Z' (vz CellSizes) in
  let Y := stepped (vy (BMin Region)) (vy CellSizes) Yi in
  let YN := fadd Y (vy CellSizes) in
  let X := stepped (vx (BMin Region)) (vx CellSizes) Xi in
  let XN := fadd X (vx CellSizes) in
  let ZSliceSize := i32_mul VX (i32_add CY 1) in
  let o0 := 0 in
  let o1 := 1 in
  let o2 := i32_add VX 1 in
  let o3 := VX in
  let o4 := ZSliceSize in
  let o5 := i32_add ZSliceSize 1 in
  let o6 := i32_add (i32_add ZSliceSize VX) 1 in
  let o7 := i32_add ZSliceSize VX in
  let VIdx := ToIdxUnsafe VertsPerAxis Xi Yi Zi in
  let BoxIdx := ToIdxUnsafe CubesPerAxis Xi Yi Zi in
  let v o := i32_add VIdx o in
  [ mkAddPlane (axis 0 0 (-1)) (fopp Z') BoxIdx
      (ToIdx CubesPerAxis Xi Yi (i32_sub Zi 1)) [v o0; v o1; v o2; v o3];
    mkAddPlane (axis 0 0 1) ZN BoxIdx
      (ToIdx CubesPerAxis Xi Yi (i32_add Zi 1)) [v o4; v o7; v o6; v o5];
    mkAddPlane (axis 0 (-1) 0) (fopp Y) BoxIdx
      (ToIdx CubesPerAxis Xi (i32_sub Yi 1) Zi) [v o0; v o4; v o5; v o1];
    mkAddPlane (axis 0 1 0) YN BoxIdx
      (ToIdx CubesPerAxis Xi (i32_add Yi 1) Zi) [v o3; v o2; v o6; v o7];
    mkAddPlane (axis (-1) 0 0) (fopp X) BoxIdx
      (ToIdx CubesPerAxis (i32_sub Xi 1) Yi Zi) [v o0; v o3; v o7; v o4];
    mkAddPlane (axis 1 0 0) XN BoxIdx
      (ToIdx CubesPerAxis (i32_add Xi 1) Yi Zi) [v o1; v o5; v o6; v o2] ].

Definition FromGrid (Uninitialized : FVector3 F) (Region : FBoxOf)
    (CubesPerAxis : FIntVector) : option t :=
  let '(CX, CY, CZ) := CubesPerAxis in
  verts ← grid_vertices Uninitialized Region CubesPerAxis;
  Some (mk true (i32_mul (i32_mul CX CY) CZ) verts
          ('(Xi, Yi, Zi) ← grid_indices CX CY CZ;
           grid_cell_planes Region CubesPerAxis Xi Yi Zi)).

(** *** [FPlanarCells(const TArrayView<const FVector> Sites, FVoronoiDiagram& Voronoi)] *)

(** [FVoronoiCellInfo], an entry of the array that
    [Voronoi.ComputeAllCells] fills: the vertices of a cell, its faces as
    runs [size, corner, ..., corner] of indices into the vertices, and the
    neighbour and the normal of each face. *)
Record FVoronoiCellInfo := mkVoronoiCellInfo {
  Vertices : list (FVector3 F);
  Faces : list Z;
  Neighbors : list Z;
  Normals : list (FVector3 F)
}.

(** What the loop over the faces of one cell carries. *)
Record face_loop := mkFaceLoop {
  flPlaneBoundaryVertices : list (FVector3 F);
  flAddPlaneCalls : list AddPlaneCall;
  flLocalVertexStart : Z;
  flCellFaceVertexIndexStart : Z
}.

Section Voronoi.
(** [FVector::IsZero] and the vector that [FVector::Normalize] leaves. *)
Variable IsZero : FVector3 F -> bool.
Variable Normalized : FVector3 F -> FVector3 F.

(** The increment of the loop over the faces:
    [CellFaceVertexIndexStart += 1 + CellInfo.Faces[CellFaceVertexIndexStart]]. *)
Definition next_face (CellInfo : FVoronoiCellInfo) (st : face_loop) : option face_loop :=
  Size ← lookupZ (Faces CellInfo) (flCellFaceVertexIndexStart st);
  Some (mkFaceLoop (flPlaneBoundaryVertices st) (flAddPlaneCalls st)
          (flLocalVertexStart st)
          (i32_add (flCellFaceVertexIndexStart st) (i32_add 1 Size))).

(** The normal of a face: [Some None] for the degenerate face on the
    border that is not added. *)
Definition face_normal (Sites : list (FVector3 F)) (CellIdx NeighborIdx : Z)
    (Normal : FVector3 F) : option (option (FVector3 F)) :=
  if IsZero Normal then
    if decide (NeighborIdx > -1) then
      SN ← lookupZ Sites NeighborIdx;
      SC ← lookupZ Sites CellIdx;
      Some (Some (Normalized (vsub SN SC)))
    else Some None
  else Some (Some Normal).

(** One iteration of the loop over the faces of the cell [CellIdx]. *)
Definition add_face (Sites : list (FVector3 F)) (CellIdx : Z) (CellInfo : FVoronoiCellInfo)
    (st : face_loop) (CellFaceIdx : Z) : option face_loop :=
  let Start := flCellFaceVertexIndexStart st in
  NeighborIdx ← lookupZ (Neighbors CellInfo) CellFaceIdx;
  if decide (CellIdx < NeighborIdx) then next_face CellInfo st
  else
    Normal ← lookupZ (Normals CellInfo) CellFaceIdx;
    Normal ← face_normal Sites CellIdx NeighborIdx Normal;
    match Normal with
    | None => next_face CellInfo st
    | Some Normal =>
        First ← lookupZ (Faces CellInfo) (i32_add Start 1);
        V ← lookupZ (Vertices CellInfo) First;
        let '(LocalVertexStart, verts) :=
          if decide (flLocalVertexStart st < 0)
          then (Num (flPlaneBoundaryVertices st),
                flPlaneBoundaryVertices st ++ Vertices CellInfo)
          else (flLocalVertexStart st, flPlaneBoundaryVertices st) in
        FaceSize ← lookupZ (Faces CellInfo) Start;
        PlaneBoundary ←
          mapM (fun i =>
                  CellVertexIdx ← lookupZ (Faces CellInfo) (i32_add (i32_add Start 1) i);
                  Some (i32_add LocalVertexStart CellVertexIdx))
               (seqZ 0 FaceSize);
        next_face CellInfo
          (mkFaceLoop verts
             (flAddPlaneCalls st
              ++ [mkAddPlane Normal (Dot Normal V) CellIdx NeighborIdx PlaneBoundary])
             LocalVertexStart Start)
    end.

(** The constructor, from the sites and the cells that
    [Voronoi.ComputeAllCells] returned. *)
Definition FromVoronoi (Sites : list (FVector3 F)) (VoronoiCells : list FVoronoiCellInfo)
    : option t :=
  '(verts, calls) ←
    for_each (fun '(verts, calls) '(CellIdx, CellInfo) =>
                st ← for_each (add_face Sites CellIdx CellInfo)
                       (seqZ 0 (Num (Neighbors CellInfo)))
                       (mkFaceLoop verts calls (-1) 0);
                Some (flPlaneBoundaryVertices st, flAddPlaneCalls st))
             (zip (seqZ 0 (Num VoronoiCells)) VoronoiCells) ([], []);
  Some (mk true (Num VoronoiCells) verts calls).

End Voronoi.

(** A call of [AddPlane] made for a cell of [VoronoiCells], given the
    boundary vertices [verts]: its first cell is a cell of [VoronoiCells]
    whose vertices are in [verts] from some index [L] on, its second cell
    is a neighbour of that cell with no higher index, and its boundary is
    [L] plus entries of the cell's array of faces. *)
Definition call_of_cell (VoronoiCells : list FVoronoiCellInfo) (verts : list (FVector3 F))
    (call : AddPlaneCall) : Prop :=
  exists CellInfo L,
    lookupZ VoronoiCells (apCellA call) = Some CellInfo
    /\ apCellB call ∈ Neighbors CellInfo
    /\ apCellB call <= apCellA call
    /\ 0 <= L
    /\ (forall k v, lookupZ (Vertices CellInfo) k = Some v -> lookupZ verts (L + k) = Some v)
    /\ (forall b, b ∈ apBoundary call ->
          exists f, f ∈ Faces CellInfo /\ b = i32_add L f).

(** What the loop over the faces of the cell [CellIdx] keeps true. *)
Definition face_loop_inv (VoronoiCells : list FVoronoiCellInfo) (CellInfo : FVoronoiCellInfo)
    (st : face_loop) : Prop :=
  (forall call, call ∈ flAddPlaneCalls st ->
     call_of_cell VoronoiCells (flPlaneBoundaryVertices st) call)
  /\ (flLocalVertexStart st = -1
      \/ (0 <= flLocalVertexStart st
          /\ forall k v, lookupZ (Vertices CellInfo) k = Some v ->
               lookupZ (flPlaneBoundaryVertices st) (flLocalVertexStart st + k) = Some v)).

End Constructors.
End FPlanarCells.

(** ** Further sample data *)

Module MoreSamples.

(** A group bone without geometry and a leaf that owns a triangle. *)
Definition grouped : FGeometryCollection :=
  mkCollection
    [Samples.transform_row "group" (-1) (-1); Samples.transform_row "leaf" 0 0]
    [Samples.geometry_row 1 0 3 0 1]
    [Samples.vertex_at 0 0 0 1; Samples.vertex_at 1 0 0 1; Samples.vertex_at 0 1 0 1]
    [Samples.face 0 1 2 2]
    None.

(** The unit box with corners (0,0,0) and (1,1,2). *)
Definition region : @FPlanarCells.FBoxOf float :=
  FPlanarCells.mkBoxOf (mkVec 0 0 0)%float (mkVec 1 1 2)%float.

(** Two sites and the two cells of their Voronoi diagram, which share one
    triangular face. *)
Definition sites : list (FVector3 float) := [mkVec 0 0 0; mkVec 0 0 2]%float.

Definition two_cells : list (@FPlanarCells.FVoronoiCellInfo float) :=
  let corners := [mkVec 0 0 1; mkVec 1 0 1; mkVec 0 1 1]%float in
  [ FPlanarCells.mkVoronoiCellInfo corners [3; 0; 1; 2] [1] [mkVec 0 0 1]%float;
    FPlanarCells.mkVoronoiCellInfo corners [3; 0; 2; 1] [0] [mkVec 0 0 0]%float ].

End MoreSamples.

(** ** Vocabulary of the statements about the pieces of a plane cut *)

(** Where a piece comes from: the transform it belongs to and the
    transform of its mesh. *)
Definition origin_of (md : FMeshData.t) : Z * FTransform :=
  (FMeshData.TransformIndex md, FMeshData.FromCollection md).

(** In a list of origins, the piece [A] has a sibling: another piece of
    the same transform. *)
Definition has_sibling (Origins : list (Z * FTransform)) (A : Z) : Prop :=
  exists A' o o', A' <> A /\ lookupZ Origins A = Some o /\ lookupZ Origins A' = Some o'
                  /\ o'.1 = o.1.

(** The geometry indices [CutWithMultiplePlanes] collects in
    [GeometryForRemoval]: those of the targets of which the planes left
    more than one piece in [ToCut]. *)
Definition split_by_planes (Collection : FGeometryCollection)
    (ToCut Meshes : list FMeshData.t) : list Z :=
  omap (fun S => TransformToGeometryIndex
                   <$> lookupZ (TransformGroup Collection) (FMeshData.TransformIndex S))
       (filter (fun S => ~ Num (children_of ToCut (FMeshData.TransformIndex S)) <= 1)
               Meshes).

(** What the loop over the planes keeps true of the pieces and of the
    links between them, [Origins0] being the origins of the targets. *)
Definition pieces_inv (bHasProximity : bool) (Origins0 : list (Z * FTransform))
    (st : list FMeshData.t * TMultiMap) : Prop :=
  Origins0 `prefix_of` (origin_of <$> st.1)
  /\ (forall o, o ∈ origin_of <$> st.1 -> o ∈ Origins0)
  /\ (forall A B, (A, B) ∈ st.2 ->
        A <> B /\ has_sibling (origin_of <$> st.1) A
        /\ has_sibling (origin_of <$> st.1) B)
  /\ (bHasProximity = false -> st.2 = []).

(** What the loop over the islands of the two results keeps true:
    the pieces added have the origin [o] of the piece that is cut, and the
    results are that piece and the pieces added. *)
Definition results_inv (Origins : list (Z * FTransform)) (o : Z * FTransform)
    (ToCutIdx : Z) (pc : plane_cut) : Prop :=
  exists m : nat,
    (1 <= m)%nat
    /\ origin_of <$> pcToCut pc = Origins ++ replicate m o
    /\ pcResultIndices pc = ToCutIdx :: seqZ (Num Origins) (Z.of_nat m).

(** ** Vocabulary of the statements about the proximity of a cut *)

(** The [Proximity] attribute of [c] extends the sets [P0] that were there
    before: it has one set per geometry, the sets of [P0] are unchanged,
    and the sets after them hold only indices of geometries after those of
    [P0]. *)
Definition proximity_extends (P0 : list (gset Z)) (c : FGeometryCollection) : Prop :=
  exists P,
    Proximity c = Some P
    /\ Num P = Num (GeometryGroup c)
    /\ (forall i s, lookupZ P0 i = Some s -> lookupZ P i = Some s)
    /\ (forall i s B, Num P0 <= i -> lookupZ P i = Some s -> B ∈ s ->
          Num P0 <= B < Num P).

(** A geometry index that [AppendToCollection] returned after the
    geometries of [P0]: -1 or the index of a geometry added. *)
Definition created_after (P0 : list (gset Z)) (g : Z) : Prop :=
  g = -1 \/ Num P0 <= g.

(** What the loop over the cells of [CutWithCellMeshes] keeps true. *)
Definition cells_ok (P0 : list (gset Z)) (cl : cell_loop) : Prop :=
  proximity_extends P0 (clCollection cl)
  /\ forall cell g, (cell, g) ∈ clCellToGeometry cl -> created_after P0 g.

(** What the loop of [CutWithMultiplePlanes] that appends the pieces keeps
    true. *)
Definition map_ok (P0 : list (gset Z)) (st : append_state) : Prop :=
  proximity_extends P0 (asCollection st)
  /\ forall i v, lookupZ (asToCutIdxToGeometryIdx st) i = Some v -> created_after P0 v.
(** ** Vocabulary of the statement about the targets the planes do not cut *)

(** No plane of the list cuts the mesh of the piece: for every plane whose
    test against the bounds of the mesh passes, one of the two booleans of
    the mesh against the two cells of the plane is without triangles. *)
Definition uncut_by `{Engine} (Planes : list FPlane) (S : FMeshData.t) : Prop :=
  forall Plane Cell0 Cell1,
    Plane ∈ Planes ->
    PlaneIntersectsBounds Plane (FMeshData.AugMesh S) = true ->
    CellMeshes (PlaneCellMeshes Plane) = [Cell0; Cell1] ->
    TriangleCount (MeshBoolean (FMeshData.AugMesh S) Cell0
                     (boolean_op (PlaneCellMeshes Plane) 0)) = 0
    \/ TriangleCount (MeshBoolean (FMeshData.AugMesh S) Cell1
                        (boolean_op (PlaneCellMeshes Plane) 1)) = 0.

(** What the loop over the planes keeps true of a target that no plane
    cuts: the piece [i] is the mesh [S] of the target, no other piece has
    its transform, and no link has it as an end. *)
Definition alone_inv (i : Z) (S : FMeshData.t) (st : list FMeshData.t * TMultiMap) : Prop :=
  lookupZ st.1 i = Some S
  /\ (forall j md, lookupZ st.1 j = Some md -> j <> i ->
        FMeshData.TransformIndex md <> FMeshData.TransformIndex S)
  /\ (forall A B, (A, B) ∈ st.2 -> A <> i /\ B <> i).

(** ** Vocabulary of the statement about [SetUVScaleFromCollection] *)

(** The index is a vertex of the collection that has a first UV layer. *)
Definition has_first_uv (c : FGeometryCollection) (VertexIdx : Z) : Prop :=
  exists v uv, lookupZ (VerticesGroup c) VertexIdx = Some v /\ lookupZ (UVs v) 0 = Some uv.

(** The three corners of a face have a first UV layer. *)
Definition corners_have_uvs (c : FGeometryCollection) (f : FFaceRow) : Prop :=
  has_first_uv c (Indices f).1.1 /\ has_first_uv c (Indices f).1.2
  /\ has_first_uv c (Indices f).2.
(** ** MergeBones (PlanarCut.cpp) *)

(** [UE::PlanarCut::ENeighborSelectionMethod] *)
Inductive ENeighborSelectionMethod := LargestNeighbor | NearestCenter.

(** The engine operations of the merge.  [MergeBones] itself never writes
    the [Proximity] attribute: what becomes of it is decided by the
    operations below that take and return the collection. *)
Class MergeEngine := {
  (* FGeometryCollectionProximityUtility(&Collection).UpdateProximity() *)
  UpdateProximity : FGeometryCollection -> FGeometryCollection;
  (* the order in which a range-based for enumerates a TSet<int32> that is
     an attribute of the collection *)
  TSet_elements : gset Z -> list Z;
  (* GeometryCollectionAlgo::GlobalMatrix(Collection.Transform, Collection.Parent, Idx) *)
  GlobalMatrix : list FTransformRow -> Z -> FTransform;
  (* FTransform::TransformPosition *)
  TransformPosition : FTransform -> FVector -> FVector;
  (* FBox::GetCenter *)
  FBox_GetCenter : FBox -> FVector;
  (* FVector::DistSquared *)
  FVector_DistSquared : FVector -> FVector -> float;
  (* SMALL_NUMBER and FMathd::MaxReal *)
  SMALL_NUMBER : float;
  MaxReal : float;
  (* the mesh Init builds from a geometry when bSaveIsolatedVertices is set
     (no RemoveIsolatedVertices) *)
  GeometryToMeshSavingIsolated : FGeometryCollection -> Z -> FTransform -> option FDynamicMesh3;
  (* FMeshBoolean(Up, Rm, Up, Union) with bWeldSharedEdges = false and
     bSimplifyAlongNewEdges = true: the result mesh *)
  MeshBooleanUnion : FDynamicMesh3 -> FDynamicMesh3 -> FDynamicMesh3;
  (* MeshEditor.AppendMesh(Rm, IndexMaps, PositionTransform, NormalTransform),
     the two lambdas mapping through the inverse of RmMeshXF and then
     through UpMeshXF *)
  AppendMeshFrom : FDynamicMesh3 -> FDynamicMesh3 -> FTransform -> FTransform -> FDynamicMesh3;
  (* GeometryCollectionAlgo::ResizeGeometries(&Collection, FaceCounts, VertexCounts) *)
  ResizeGeometries : FGeometryCollection -> list Z -> list Z -> FGeometryCollection;
  (* GeometryCollectionAlgo::ParentTransforms(&Collection, Parent, Children) *)
  ParentTransforms : FGeometryCollection -> Z -> list Z -> FGeometryCollection;
  (* Collection.RemoveElements(FGeometryCollection::TransformGroup, SortedDeletionList) *)
  RemoveTransformElements : FGeometryCollection -> list Z -> FGeometryCollection
}.

(** [struct FRemoveGroup] *)
Module FRemoveGroup.

Record t := mk {
  MergeTo : Z;
  MergeTargetVolume : float;
  TotalVolume : float;
  bRemoveMergeTarget : bool;
  ToRemove : list Z
}.

(** [FRemoveGroup()] *)
Definition empty : t := mk (-1) 0%float 0%float false [].

(** [FRemoveGroup(GeomVolMaps, MinVolume, SmallIdx, BigIdx)];
    [GeomVolMaps[Idx]] on a [TMap] is [FindChecked]. *)
Definition make (GeomVolMaps : gmap Z float) (MinVolume : float) (SmallIdx BigIdx : Z)
    : option t :=
  BigVol ← GeomVolMaps !! BigIdx;
  let '(Remove, bRemove) :=
    if (BigVol <? MinVolume)%float then ([SmallIdx; BigIdx], true)
    else ([SmallIdx], false) in
  SmallVol ← GeomVolMaps !! SmallIdx;
  Some (mk BigIdx BigVol (BigVol + SmallVol)%float bRemove Remove).

Definition IsValid (G : t) : bool := bool_decide (MergeTo G <> -1).

Definition UpdateMergeTarget (G : t) (Idx : Z) (Volume : float) : t :=
  if bRemoveMergeTarget G then
    if (MergeTargetVolume G <? Volume)%float
    then mk Idx Volume (TotalVolume G) (bRemoveMergeTarget G) (ToRemove G)
    else G
  else G.

(** add a too-small geometry to this group *)
Definition AddSmall (GeomVolMaps : gmap Z float) (SmallIdx : Z) (G : t)
    : option t :=
  SmallVol ← GeomVolMaps !! SmallIdx;
  let G := mk (MergeTo G) (MergeTargetVolume G)
             (TotalVolume G + SmallVol)%float (bRemoveMergeTarget G) (ToRemove G) in
  let G := UpdateMergeTarget G SmallIdx SmallVol in
  Some (mk (MergeTo G) (MergeTargetVolume G) (TotalVolume G)
          (bRemoveMergeTarget G) (ToRemove G ++ [SmallIdx])).

(** add a neighbor of a too-small geometry to an existing group *)
Definition AddBig (GeomVolMaps : gmap Z float) (MinVolume : float) (BigIdx : Z)
    (G : t) : option t :=
  BigVol ← GeomVolMaps !! BigIdx;
  let G := mk (MergeTo G) (MergeTargetVolume G)
             (TotalVolume G + BigVol)%float (bRemoveMergeTarget G) (ToRemove G) in
  let G := UpdateMergeTarget G BigIdx BigVol in
  Some (if (BigVol <? MinVolume)%float
        then mk (MergeTo G) (MergeTargetVolume G) (TotalVolume G)
               (bRemoveMergeTarget G) (ToRemove G ++ [BigIdx])
        else mk (MergeTo G) (MergeTargetVolume G) (TotalVolume G)
               false (ToRemove G)).

(** [GeomIdxToRemoveGroupIdx[Idx] = NewIdx]: the key has to be there. *)
Definition reassign (GeomIdxToRemoveGroupIdx : gmap Z Z) (Idx NewIdx : Z)
    : option (gmap Z Z) :=
  _ ← GeomIdxToRemoveGroupIdx !! Idx;
  Some (<[Idx := NewIdx]> GeomIdxToRemoveGroupIdx).

(** [TransferGroup]: the group, and the map; the caller's [SmallGroup]
    becomes [FRemoveGroup()]. *)
Definition TransferGroup (G SmallGroup : t)
    (GeomIdxToRemoveGroupIdx : gmap Z Z) (NewIdx : Z)
    : option (t * gmap Z Z) :=
  '(Remove, Map) ←
    for_each (fun '(Remove, Map) RmIdx =>
                Map ← reassign Map RmIdx NewIdx;
                Some (Remove ++ [RmIdx], Map))
             (ToRemove SmallGroup) (ToRemove G, GeomIdxToRemoveGroupIdx);
  '(Remove, Map) ←
    (if bRemoveMergeTarget SmallGroup then Some (Remove, Map)
     else Map ← reassign Map (MergeTo SmallGroup) NewIdx;
          Some (Remove ++ [MergeTo SmallGroup], Map));
  Some (mk (MergeTo G) (MergeTargetVolume G)
          (TotalVolume G + TotalVolume SmallGroup)%float (bRemoveMergeTarget G) Remove,
        Map).

End FRemoveGroup.

(** [Set.Add(Idx)] on a [TSet] that is only added to and then enumerated:
    the elements in the order of their first insertion. *)
Definition TSet_Add (Elements : list Z) (Idx : Z) : list Z :=
  if decide (Idx ∈ Elements) then Elements else Elements ++ [Idx].

(** [Array.RemoveSingle(Item)]: without the first occurrence of the item. *)
Fixpoint RemoveSingleItem (l : list Z) (Item : Z) : list Z :=
  match l with
  | [] => []
  | x :: l' => if decide (x = Item) then l' else x :: RemoveSingleItem l' Item
  end.

Section Merge.
Context `{Engine} `{MergeEngine}.

(** [FDynamicMeshCollection(&Collection, TransformIndices, TransformCollection, true)]:
    [Init] with [bSaveIsolatedVertices]. *)
Definition InitSavingIsolated (Collection : FGeometryCollection) (TransformIndices : list Z)
    (TransformCollection : FTransform) : option (list FMeshData.t) :=
  for_each (fun Meshes TransformIdx =>
      t ← lookupZ (TransformGroup Collection) TransformIdx;
      let GeometryIdx := TransformToGeometryIndex t in
      if decide (GeometryIdx = -1) then Some Meshes
      else
        let ToLocal :=
          CollectionToLocal (TransformGroup Collection) TransformIdx TransformCollection in
        Mesh ← GeometryToMeshSavingIsolated Collection GeometryIdx ToLocal;
        Some (Meshes ++ [FMeshData.mk Mesh TransformIdx ToLocal]))
    TransformIndices [].

(** The counts [UpdateAllCollections] passes to [ResizeGeometries]. *)
Definition new_counts (Collection : FGeometryCollection) (Meshes : list FMeshData.t)
    : option (list Z * list Z) :=
  for_each (fun '(NewFaceCounts, NewVertexCounts) MeshData =>
      t ← lookupZ (TransformGroup Collection) (FMeshData.TransformIndex MeshData);
      let GeomIdx := TransformToGeometryIndex t in
      NewFaceCounts ← storeZ NewFaceCounts GeomIdx
                        (TriangleCount (FMeshData.AugMesh MeshData));
      NewVertexCounts ← storeZ NewVertexCounts GeomIdx
                          (VertexCountOf (FMeshData.AugMesh MeshData));
      Some (NewFaceCounts, NewVertexCounts))
    Meshes
    (FaceCount <$> GeometryGroup Collection, VertexCount <$> GeometryGroup Collection).

(** [FDynamicMeshCollection::UpdateAllCollections]
    (GeometryMeshConversion.cpp): the flag returned and the collection. *)
Definition UpdateAllCollections (Meshes : list FMeshData.t)
    (Collection : FGeometryCollection) : option (bool * FGeometryCollection) :=
  '(NewFaceCounts, NewVertexCounts) ← new_counts Collection Meshes;
  let Collection := ResizeGeometries Collection NewFaceCounts NewVertexCounts in
  for_each (fun '(bAllSucceeded, Collection) MeshData =>
      t ← lookupZ (TransformGroup Collection) (FMeshData.TransformIndex MeshData);
      let GeometryIdx := TransformToGeometryIndex t in
      '(bSucceeded, Collection) ←
         UpdateCollection (FMeshData.FromCollection MeshData) (FMeshData.AugMesh MeshData)
           GeometryIdx Collection (-1);
      Some (bAllSucceeded && bSucceeded, Collection))
    Meshes (true, Collection).

(** The lambda [GetCenter]; [GeomToCenter] caches its values. *)
Definition GetCenter (Collection : FGeometryCollection) (GeomIdx : Z) : option FVector :=
  g ← lookupZ (GeometryGroup Collection) GeomIdx;
  let Transform := GlobalMatrix (TransformGroup Collection) (TransformIndex g) in
  Some (TransformPosition Transform (FBox_GetCenter (BoundingBox g))).

(** What the two loops over the transform indices fill:
    [(CanMerge, TooSmalls, GeomToVol)]. *)
Definition merge_inputs := (gset Z * list Z * gmap Z float)%type.

Definition add_mergeable (Collection : FGeometryCollection) (Volumes : list float)
    (st : merge_inputs) (TransformIdx : Z) : option merge_inputs :=
  let '(CanMerge, TooSmalls, GeomToVol) := st in
  t ← lookupZ (TransformGroup Collection) TransformIdx;
  let GeomIdx := TransformToGeometryIndex t in
  if decide (GeomIdx > -1) then
    Volume ← lookupZ Volumes TransformIdx;
    Some (CanMerge ∪ {[GeomIdx]}, TooSmalls, <[GeomIdx := Volume]> GeomToVol)
  else Some st.

Definition add_too_small (Collection : FGeometryCollection) (Volumes : list float)
    (st : merge_inputs) (TransformIdx : Z) : option merge_inputs :=
  let '(CanMerge, TooSmalls, GeomToVol) := st in
  t ← lookupZ (TransformGroup Collection) TransformIdx;
  let GeomIdx := TransformToGeometryIndex t in
  if decide (GeomIdx > -1) then
    Volume ← lookupZ Volumes TransformIdx;
    Some (CanMerge, TSet_Add TooSmalls GeomIdx, <[GeomIdx := Volume]> GeomToVol)
  else Some st.

(** One iteration of the loop over the proximity set of a small geometry;
    the state is [(BestScore, BestNbrIdx)]. *)
Definition score_neighbor (Collection : FGeometryCollection)
    (Method : ENeighborSelectionMethod) (CanMerge : gset Z) (GeomToVol : gmap Z float)
    (SmallIdx : Z) (st : float * Z) (NbrIdx : Z) : option (float * Z) :=
  let '(BestScore, BestNbrIdx) := st in
  if decide (NbrIdx <> SmallIdx /\ NbrIdx ∈ CanMerge) then
    Score ←
      match Method with
      | LargestNeighbor => GeomToVol !! NbrIdx
      | NearestCenter =>
          CenterNbr ← GetCenter Collection NbrIdx;
          CenterSmall ← GetCenter Collection SmallIdx;
          Some (1 / (SMALL_NUMBER + FVector_DistSquared CenterNbr CenterSmall))%float
      end;
    Some (if (BestScore <? Score)%float then (Score, NbrIdx) else st)
  else Some st.

(** What the loop over [TooSmalls] carries:
    [(RemoveGroups, GeomIdxToRemoveGroupIdx)]. *)
Definition merge_groups := (list FRemoveGroup.t * gmap Z Z)%type.

(** One iteration of the loop over [TooSmalls]. *)
Definition group_small (Collection : FGeometryCollection) (Proximity : list (gset Z))
    (Method : ENeighborSelectionMethod) (MinVolume : float)
    (CanMerge : gset Z) (GeomToVol : gmap Z float)
    (st : merge_groups) (SmallIdx : Z) : option merge_groups :=
  let '(RemoveGroups, GeomIdxToRemoveGroupIdx) := st in
  let SmallRemoveGroupIdx := GeomIdxToRemoveGroupIdx !! SmallIdx in
  bDone ←
    match SmallRemoveGroupIdx with
    | Some Idx =>
        G ← lookupZ RemoveGroups Idx;
        Some (MinVolume <=? FRemoveGroup.TotalVolume G)%float
    | None => Some false
    end;
  if bDone : bool then Some st
  else
    Prox ← lookupZ Proximity SmallIdx;
    '(_, BestNbrIdx) ←
      for_each (score_neighbor Collection Method CanMerge GeomToVol SmallIdx)
               (TSet_elements Prox) ((- MaxReal)%float, -1);
    if decide (BestNbrIdx = -1) then Some st
    else
      match SmallRemoveGroupIdx, GeomIdxToRemoveGroupIdx !! BestNbrIdx with
      | Some OldSGIdx, Some BigRGIdx =>
          if decide (OldSGIdx <> BigRGIdx) then
            Big ← lookupZ RemoveGroups BigRGIdx;
            Small ← lookupZ RemoveGroups OldSGIdx;
            '(Big, Map) ←
               FRemoveGroup.TransferGroup Big Small GeomIdxToRemoveGroupIdx BigRGIdx;
            RemoveGroups ← storeZ RemoveGroups BigRGIdx Big;
            RemoveGroups ← storeZ RemoveGroups OldSGIdx FRemoveGroup.empty;
            Some (RemoveGroups, Map)
          else Some st
      | Some OldSGIdx, None =>
          G ← lookupZ RemoveGroups OldSGIdx;
          G ← FRemoveGroup.AddBig GeomToVol MinVolume BestNbrIdx G;
          RemoveGroups ← storeZ RemoveGroups OldSGIdx G;
          Some (RemoveGroups, <[BestNbrIdx := OldSGIdx]> GeomIdxToRemoveGroupIdx)
      | None, Some BigRGIdx =>
          G ← lookupZ RemoveGroups BigRGIdx;
          G ← FRemoveGroup.AddSmall GeomToVol SmallIdx G;
          RemoveGroups ← storeZ RemoveGroups BigRGIdx G;
          Some (RemoveGroups, <[SmallIdx := BigRGIdx]> GeomIdxToRemoveGroupIdx)
      | None, None =>
          G ← FRemoveGroup.make GeomToVol MinVolume SmallIdx BestNbrIdx;
          let RemoveGroupIdx := Num RemoveGroups in
          Some (RemoveGroups ++ [G],
                <[BestNbrIdx := RemoveGroupIdx]>
                  (<[SmallIdx := RemoveGroupIdx]> GeomIdxToRemoveGroupIdx))
      end.

(** One iteration of the loop that collects the transforms to remove and
    to update; the state is [(RemoveGroups, AllRemoveIndices,
    AllUpdateIndices)], the groups being those already visited. *)
Definition collect_indices (Collection : FGeometryCollection)
    (st : list FRemoveGroup.t * list Z * list Z) (Group : FRemoveGroup.t)
    : option (list FRemoveGroup.t * list Z * list Z) :=
  let '(Groups, AllRemoveIndices, AllUpdateIndices) := st in
  if FRemoveGroup.IsValid Group then
    let Remove :=
      if FRemoveGroup.bRemoveMergeTarget Group
      then RemoveSingleItem (FRemoveGroup.ToRemove Group) (FRemoveGroup.MergeTo Group)
      else FRemoveGroup.ToRemove Group in
    Removed ← mapM (fun RmIdx => TransformIndex <$> lookupZ (GeometryGroup Collection) RmIdx)
                   Remove;
    Updated ← lookupZ (GeometryGroup Collection) (FRemoveGroup.MergeTo Group);
    Some (Groups ++ [FRemoveGroup.mk (FRemoveGroup.MergeTo Group)
                       (FRemoveGroup.MergeTargetVolume Group)
                       (FRemoveGroup.TotalVolume Group)
                       (FRemoveGroup.bRemoveMergeTarget Group) Remove],
          AllRemoveIndices ++ Removed,
          AllUpdateIndices ++ [TransformIndex Updated])
  else Some (Groups ++ [Group], AllRemoveIndices, AllUpdateIndices).

(** [GeoIdxToRmMeshIdx] *)
Definition index_remove_meshes (Collection : FGeometryCollection)
    (RemoveMeshes : list FMeshData.t) : option (gmap Z Z) :=
  for_each (fun Map '(RmMeshIdx, MeshData) =>
      t ← lookupZ (TransformGroup Collection) (FMeshData.TransformIndex MeshData);
      Some (<[TransformToGeometryIndex t := RmMeshIdx]> Map))
    (zip (seqZ 0 (Num RemoveMeshes)) RemoveMeshes) ∅.

(** One iteration of the loop over the meshes to update: the mesh with the
    meshes of its group joined to it. *)
Definition join_group (Collection : FGeometryCollection) (bUnionJoinedPieces : bool)
    (RemoveGroups : list FRemoveGroup.t) (GeomIdxToRemoveGroupIdx GeoIdxToRmMeshIdx : gmap Z Z)
    (RemoveMeshes : list FMeshData.t) (UpMeshData : FMeshData.t) : option FMeshData.t :=
  t ← lookupZ (TransformGroup Collection) (FMeshData.TransformIndex UpMeshData);
  let UpGeoIdx := TransformToGeometryIndex t in
  GroupIdx ← GeomIdxToRemoveGroupIdx !! UpGeoIdx;
  Group ← lookupZ RemoveGroups GroupIdx;
  if FRemoveGroup.IsValid Group then
    Mesh ← for_each (fun Mesh RmGeoIdx =>
        RmMeshIdx ← GeoIdxToRmMeshIdx !! RmGeoIdx;
        RmMeshData ← lookupZ RemoveMeshes RmMeshIdx;
        Some (if bUnionJoinedPieces
              then MeshBooleanUnion Mesh (FMeshData.AugMesh RmMeshData)
              else AppendMeshFrom Mesh (FMeshData.AugMesh RmMeshData)
                     (FMeshData.FromCollection UpMeshData)
                     (FMeshData.FromCollection RmMeshData)))
      (FRemoveGroup.ToRemove Group) (FMeshData.AugMesh UpMeshData);
    Some (FMeshData.mk Mesh (FMeshData.TransformIndex UpMeshData)
                       (FMeshData.FromCollection UpMeshData))
  else Some UpMeshData.

(** One iteration of the loop that gives the children of the removed bones
    to the bone merged to. *)
Definition reparent_children (Collection : FGeometryCollection) (Group : FRemoveGroup.t)
    : option FGeometryCollection :=
  if FRemoveGroup.IsValid Group then
    Target ← lookupZ (GeometryGroup Collection) (FRemoveGroup.MergeTo Group);
    let MergeTransformIdx := TransformIndex Target in
    ChildIndices ← for_each (fun ChildIndices RmIdx =>
        g ← lookupZ (GeometryGroup Collection) RmIdx;
        t ← lookupZ (TransformGroup Collection) (TransformIndex g);
        Some (ChildIndices ++ TSet_elements (Children t)))
      (FRemoveGroup.ToRemove Group) [];
    Some (if decide (Num ChildIndices <> 0)
          then ParentTransforms Collection MergeTransformIdx ChildIndices
          else Collection)
  else Some Collection.

(** [MergeBones]: the index returned and the collection. *)
Definition MergeBones (Collection : FGeometryCollection) (TransformIndicesView : list Z)
    (Volumes : list float) (MinVolume : float) (SmallTransformIndices : list Z)
    (bUnionJoinedPieces : bool) (NeighborSelectionMethod : ENeighborSelectionMethod)
    : option (Z * FGeometryCollection) :=
  let CellsToWorld := FTransform_Identity in
  let Collection := UpdateProximity Collection in
  Proximity ← Proximity Collection;
  let TransformIndices :=
    if decide (Num TransformIndicesView = 0)
    then seqZ 0 (Num (TransformGroup Collection))
    else TransformIndicesView in
  if decide (Num TransformIndices = Num Volumes) then
    st ← for_each (add_mergeable Collection Volumes) TransformIndices (∅, [], ∅);
    '(CanMerge, TooSmalls, GeomToVol) ←
      for_each (add_too_small Collection Volumes) SmallTransformIndices st;
    '(RemoveGroups, GeomIdxToRemoveGroupIdx) ←
      for_each (group_small Collection Proximity NeighborSelectionMethod MinVolume
                  CanMerge GeomToVol)
               TooSmalls ([], ∅);
    '(RemoveGroups, AllRemoveIndices, AllUpdateIndices) ←
      for_each (collect_indices Collection) RemoveGroups ([], [], []);
    let AllRemoveIndices := merge_sort Z.le AllRemoveIndices in
    let AllUpdateIndices := merge_sort Z.le AllUpdateIndices in
    RemoveMeshes ← InitSavingIsolated Collection AllRemoveIndices CellsToWorld;
    UpdateMeshes ← InitSavingIsolated Collection AllUpdateIndices CellsToWorld;
    GeoIdxToRmMeshIdx ← index_remove_meshes Collection RemoveMeshes;
    UpdateMeshes ←
      mapM (join_group Collection bUnionJoinedPieces RemoveGroups
              GeomIdxToRemoveGroupIdx GeoIdxToRmMeshIdx RemoveMeshes)
           UpdateMeshes;
    '(_, Collection) ← UpdateAllCollections UpdateMeshes Collection;
    Collection ← for_each reparent_children RemoveGroups Collection;
    (* remove transforms for all geometry that was merged in *)
    Some (-1, RemoveTransformElements Collection AllRemoveIndices)
  else Some (-1, Collection).

End Merge.

(** ** Vocabulary of the statement about the proximity after engine calls *)

(** An operation on the collection keeps the proximity symmetric. *)
Definition keeps_symmetric (f : FGeometryCollection -> FGeometryCollection) : Prop :=
  forall c, proximity_symmetric (Proximity c) -> proximity_symmetric (Proximity (f c)).

(** Modelled from the spec: [FGeometryCollection::ReindexMaterials], which
    every boundary cut operation calls on the collection before it
    returns, is engine code that is missing from src/.  The spec's data
    model makes [Proximity] a symmetric adjacency relation between geometry
    indices (if A is in B's proximity set, B is in A's), maintained after
    every cut operation.  Of the missing operation this says: it hands back
    a symmetric proximity when it is given one. *)
Definition reindex_model `{Engine} : Prop := keeps_symmetric ReindexMaterials.

(** Modelled from the spec: [FGeometryCollectionProximityUtility::UpdateProximity],
    [GeometryCollectionAlgo::ResizeGeometries], [GeometryCollectionAlgo::ParentTransforms],
    [FGeometryCollection::SetNumUVLayers] and
    [FManagedArrayCollection::RemoveElements], which the merge calls on the
    collection, are engine code that is missing from src/.  The spec's data
    model makes [Proximity] a symmetric adjacency relation between geometry
    indices (if A is in B's proximity set, B is in A's), maintained after
    every merge operation; the proximity utility recomputes it.  Of the
    missing operations this says: the proximity utility leaves a symmetric
    proximity, and each of the others hands back a symmetric proximity when
    it is given one. *)
Record proximity_model `{Engine} `{MergeEngine} : Prop := mkProximityModel {
  UpdateProximity_symmetric :
    forall c, proximity_symmetric (Proximity (UpdateProximity c));
  ResizeGeometries_symmetric :
    forall FaceCounts VertexCounts,
      keeps_symmetric (fun c => ResizeGeometries c FaceCounts VertexCounts);
  ParentTransforms_symmetric :
    forall ParentIdx ChildIndices,
      keeps_symmetric (fun c => ParentTransforms c ParentIdx ChildIndices);
  SetNumUVLayers_symmetric : forall n, keeps_symmetric (SetNumUVLayers n);
  RemoveTransformElements_symmetric :
    forall DeletionList, keeps_symmetric (fun c => RemoveTransformElements c DeletionList)
}.

(** ** A merge engine to run the merge on *)

Module MergeSamples.

(** Every geometry next to every other one. *)
Definition all_neighbors (c : FGeometryCollection) : list (gset Z) :=
  (fun A => list_to_set (filter (fun B => B <> A) (seqZ 0 (Num (GeometryGroup c)))))
    <$> seqZ 0 (Num (GeometryGroup c)).

Definition box_center (B : FBox) : FVector :=
  vscale (vadd (BoxMin B) (BoxMax B)) 0.5%float.

(** The proximity utility finds every two geometries next to each other,
    sets are enumerated in increasing order, bones are not moved, meshes are
    joined by appending, and nothing is resized, re-parented or removed. *)
#[export] Instance merge_engine : MergeEngine := {
  UpdateProximity := fun c => set_Proximity c (Some (all_neighbors c));
  TSet_elements := elements;
  GlobalMatrix := fun _ _ => FTransform_Identity;
  TransformPosition := fun _ v => v;
  FBox_GetCenter := box_center;
  FVector_DistSquared := fun a b => Dot (vsub a b) (vsub a b);
  SMALL_NUMBER := 0x1.5798ee2308c3ap-27%float;
  MaxReal := 0x1.fffffffffffffp+1023%float;
  GeometryToMeshSavingIsolated := fun _ _ _ => Some Samples.tetra_mesh;
  MeshBooleanUnion := Samples.append_mesh;
  AppendMeshFrom := fun a b _ _ => Samples.append_mesh a b;
  ResizeGeometries := fun c _ _ => c;
  ParentTransforms := fun c _ _ => c;
  RemoveTransformElements := fun c _ => c
}.

End MergeSamples.

(** * Properties *)

(** ** Arrays and loops *)

(** Closed comparisons of integers. *)
Ltac range_by_compute :=
  vm_compute; repeat split; first [discriminate | reflexivity].

Lemma int32_wrap_small (z : Z) : int32_range z -> int32_wrap z = z.
Proof.
  unfold int32_range, int32_wrap. intros Hz.
  rewrite Z.mod_small; lia.
Qed.

Lemma lookupZ_nat {A : Type} (l : list A) (i : nat) :
  lookupZ l (Z.of_nat i) = l !! i.
Proof.
  unfold lookupZ. destruct (decide (0 <= Z.of_nat i)); [|lia].
  by rewrite Nat2Z.id.
Qed.

Lemma lookupZ_Some {A : Type} (l : list A) (i : Z) (x : A) :
  lookupZ l i = Some x -> 0 <= i < Num l.
Proof.
  unfold lookupZ, Num. destruct (decide (0 <= i)); [|done].
  intros Hl. apply lookup_lt_Some in Hl. lia.
Qed.

Lemma lookupZ_is_Some {A : Type} (l : list A) (i : Z) :
  0 <= i < Num l -> is_Some (lookupZ l i).
Proof.
  unfold lookupZ, Num. intros Hi. destruct (decide (0 <= i)); [|lia].
  apply lookup_lt_is_Some. lia.
Qed.

Lemma mapM_lookupZ_seqZ {A : Type} (l : list A) (n : nat) (s : nat) :
  (s + n <= length l)%nat ->
  mapM (lookupZ l) (seqZ (Z.of_nat s) (Z.of_nat n)) = Some (take n (drop s l)).
Proof.
  revert s. induction n as [|n IH]; intros s Hs.
  - by rewrite seqZ_nil.
  - rewrite seqZ_cons by lia. cbn [mapM].
    rewrite lookupZ_nat.
    destruct (lookup_lt_is_Some_2 l s) as [x Hx]; [lia|].
    rewrite Hx. cbn.
    replace (Z.succ (Z.of_nat s)) with (Z.of_nat (S s)) by lia.
    replace (Z.pred (Z.of_nat (S n))) with (Z.of_nat n) by lia.
    rewrite IH by lia. cbn.
    f_equal. rewrite (drop_S l x s Hx). done.
Qed.

Lemma read_range_in {A : Type} (l : list A) (Start End : Z) :
  0 <= Start -> Start <= End -> End <= Num l ->
  read_range l Start End
  = Some (take (Z.to_nat (End - Start)) (drop (Z.to_nat Start) l)).
Proof.
  unfold read_range, Num. intros H0 H1 H2.
  rewrite <- (Z2Nat.id Start) at 1 by lia.
  rewrite <- (Z2Nat.id (End - Start)) at 1 by lia.
  apply mapM_lookupZ_seqZ. lia.
Qed.

Lemma read_range_empty {A : Type} (l : list A) (Start End : Z) :
  End <= Start -> read_range l Start End = Some [].
Proof. intros. unfold read_range. by rewrite seqZ_nil by lia. Qed.

(** ** Plane index and material ID *)

Section PlaneMaterial.
Import FCellMeshesMaterial.

(** C9.  For a plane index [p >= 0] (an [int32]) the material ID
    [PlaneToMaterial p] is [-(p+1)], it is negative, and [MaterialToPlane]
    recovers [p] from it; for a material ID [m >= 0], [MaterialToPlane m]
    is -1. *)
Theorem PlaneToMaterial_MaterialToPlane (p m : Z) :
  0 <= p < 2 ^ 31 -> 0 <= m ->
  PlaneToMaterial p = - (p + 1)
  /\ PlaneToMaterial p < 0
  /\ MaterialToPlane (PlaneToMaterial p) = p
  /\ MaterialToPlane m = -1.
Proof.
  intros Hp Hm.
  assert (Hpm : PlaneToMaterial p = - (p + 1)).
  { unfold PlaneToMaterial.
    destruct (decide (p = 2 ^ 31 - 1)) as [->|Hne]; [reflexivity|].
    rewrite (int32_wrap_small (p + 1)) by (unfold int32_range; lia).
    apply int32_wrap_small. unfold int32_range. lia. }
  rewrite Hpm. repeat split; [lia| |].
  - unfold MaterialToPlane.
    destruct (decide (- (p + 1) >= 0)); [lia|].
    replace (- (p + 1) + 1) with (- p) by lia.
    rewrite (int32_wrap_small (- p)) by (unfold int32_range; lia).
    rewrite Z.opp_involutive.
    apply int32_wrap_small. unfold int32_range. lia.
  - unfold MaterialToPlane. destruct (decide (m >= 0)); [done|lia].
Qed.

Lemma PlaneToMaterial_MaterialToPlane_witness :
  PlaneToMaterial 4 = -5 /\ PlaneToMaterial 4 < 0
  /\ MaterialToPlane (PlaneToMaterial 4) = 4 /\ MaterialToPlane 7 = -1.
Proof. apply (PlaneToMaterial_MaterialToPlane 4 7); lia. Defined.

End PlaneMaterial.

(** ** Default internal material *)

Section DefaultMaterial.
Import FInternalSurfaceMaterials.

Lemma occurrences_nil x : occurrences x [] = 0.
Proof. reflexivity. Qed.

Lemma occurrences_snoc x ids y :
  occurrences x (ids ++ [y])
  = occurrences x ids + (if decide (y = x) then 1 else 0).
Proof.
  unfold occurrences. rewrite filter_app, length_app.
  rewrite filter_cons, filter_nil.
  destruct (decide (y = x)); cbn; lia.
Qed.

Lemma occurrences_nonneg x ids : 0 <= occurrences x ids.
Proof. unfold occurrences. lia. Qed.

Lemma count_step_inv ids st y :
  count_inv ids st -> count_inv (ids ++ [y]) (count_step st y).
Proof.
  destruct st as [[cnt mx] mc]. unfold count_inv, count_step.
  intros (Hcnt & Hmx & Hnil & Hne).
  assert (Hcur : default 0 (cnt !! y) + 1 = occurrences y (ids ++ [y])).
  { rewrite occurrences_snoc, Hcnt. destruct (decide (y = y)); [lia|done]. }
  assert (Hlookup : forall x,
    default 0 (<[y:=default 0 (cnt !! y) + 1]> cnt !! x) = occurrences x (ids ++ [y])).
  { intros x. destruct (decide (y = x)) as [->|Hyx].
    - rewrite lookup_insert_eq. cbn. done.
    - rewrite lookup_insert_ne by done. rewrite occurrences_snoc, Hcnt.
      destruct (decide (y = x)); [done|lia]. }
  pose proof (occurrences_snoc y ids y) as Hyy.
  destruct (decide (y = y)); [|done].
  pose proof (Hcnt y) as Hcy.
  destruct (decide (default 0 (cnt !! y) + 1 > mx)) as [Hgt|Hle].
  - split; [done|]. split; [|split].
    + intros x. specialize (Hmx x). pose proof (occurrences_snoc x ids y) as Hx.
      destruct (decide (y = x)); lia.
    + intros Habs. by destruct ids.
    + intros _. lia.
  - split; [done|]. split; [|split].
    + intros x. specialize (Hmx x). pose proof (occurrences_snoc x ids y) as Hx.
      destruct (decide (y = x)) as [<-|]; lia.
    + intros Habs. by destruct ids.
    + intros _. pose proof (occurrences_snoc mc ids y) as Hx.
      destruct (decide (ids = [])) as [->|Hids].
      * destruct (Hnil eq_refl) as [-> ->].
        rewrite occurrences_nil in Hcy. lia.
      * specialize (Hne Hids).
        destruct (decide (y = mc)) as [->|]; lia.
Qed.

Lemma count_loop_inv ids :
  count_inv ids (fold_left count_step ids (∅, 0, -1)).
Proof.
  induction ids as [|y ids IH] using rev_ind.
  - cbn. repeat split; try done.
  - rewrite fold_left_app. cbn. by apply count_step_inv.
Qed.

Lemma most_common_nil : most_common [] = -1.
Proof. reflexivity. Qed.

Lemma most_common_unique M ids :
  unique_most_frequent M ids -> most_common ids = M.
Proof.
  intros HM. unfold most_common.
  pose proof (count_loop_inv ids) as Hinv.
  destruct (fold_left count_step ids (∅, 0, -1)) as [[cnt mx] mc].
  cbn. destruct Hinv as (_ & Hmx & _ & Hne).
  destruct (decide (mc = M)) as [|Hmc]; [done|].
  assert (Hids : ids <> []).
  { intros ->. specialize (HM mc Hmc). rewrite !occurrences_nil in HM. lia. }
  specialize (Hne Hids). specialize (HM mc Hmc). specialize (Hmx M). lia.
Qed.

Lemma scan_geometry_faces c g row :
  lookupZ (GeometryGroup c) g = Some row -> face_range_ok c row ->
  GetDefaultMaterialIDForGeometry c g
  = (let M := most_common (geometry_material_ids c row) in
     let M := if decide (M = -1) then 0 else M in
     Some (if decide (Z.rem M 2 = 0) then int32_wrap (M + 1) else M)).
Proof.
  intros Hrow (Hs & Hc & Hend & Hnum).
  unfold GetDefaultMaterialIDForGeometry, face_range.
  apply lookupZ_Some in Hrow as Hg.
  destruct (decide (g > -1)); [|lia].
  rewrite Hrow. cbn.
  rewrite (int32_wrap_small (FaceCount row + FaceStart row))
    by (unfold int32_range; lia).
  rewrite read_range_in by lia. cbn.
  replace (FaceCount row + FaceStart row - FaceStart row) with (FaceCount row) by lia.
  done.
Qed.

Lemma rem2_even (M : Z) : Z.rem M 2 = 0 <-> Z.even M = true.
Proof.
  rewrite Z.even_spec. split.
  - intros Hr. exists (Z.quot M 2).
    pose proof (Z.quot_rem' M 2). lia.
  - intros [k ->]. rewrite Z.mul_comm. apply Z.rem_mul. lia.
Qed.

Lemma paired_internal_material_odd M : Z.odd (paired_internal_material M) = true.
Proof.
  unfold paired_internal_material. destruct (Z.even M) eqn:He.
  - rewrite Z.odd_add. rewrite <- Z.negb_even, He. reflexivity.
  - by rewrite <- Z.negb_even, He.
Qed.

Ltac most_frequent_by_cases ids :=
  let x := fresh "x" in
  let Hx := fresh "Hx" in
  intros x Hx; unfold occurrences;
  replace (geometry_material_ids _ _) with ids by reflexivity;
  rewrite ?filter_cons, ?filter_nil;
  repeat case_decide; cbn [length]; lia.

(** C8, as amended.  For a geometry whose faces have a unique most frequent
    material ID [M] other than -1, [GetDefaultMaterialIDForGeometry] returns
    [M+1] when [M] is even and [M] when [M] is odd, an odd ID; when that
    material is -1, the value the scan starts from, and when the geometry
    has no faces, it returns 1. *)
Theorem GetDefaultMaterialIDForGeometry_most_frequent
    (c : FGeometryCollection) (g : Z) (row : FGeometryRow) (M : Z) :
  lookupZ (GeometryGroup c) g = Some row ->
  face_range_ok c row ->
  (unique_most_frequent M (geometry_material_ids c row) ->
   int32_range M -> M <> -1 ->
   GetDefaultMaterialIDForGeometry c g = Some (paired_internal_material M)
   /\ Z.odd (paired_internal_material M) = true)
  /\ (unique_most_frequent (-1) (geometry_material_ids c row) ->
      GetDefaultMaterialIDForGeometry c g = Some 1)
  /\ (FaceCount row = 0 -> GetDefaultMaterialIDForGeometry c g = Some 1).
Proof.
  intros Hrow Hok. rewrite (scan_geometry_faces c g row Hrow Hok).
  split; [|split].
  - intros HM Hrange Hne.
    rewrite (most_common_unique M _ HM). cbn.
    destruct (decide (M = -1)); [done|].
    split; [|apply paired_internal_material_odd].
    unfold paired_internal_material.
    destruct (decide (Z.rem M 2 = 0)) as [He|He].
    + apply rem2_even in He as He'. rewrite He'.
      f_equal. apply int32_wrap_small.
      assert (M <> 2 ^ 31 - 1) by (intros ->; discriminate).
      unfold int32_range in *. lia.
    + destruct (Z.even M) eqn:He'; [|done].
      apply rem2_even in He'. done.
  - intros HM. rewrite (most_common_unique (-1) _ HM). reflexivity.
  - intros Hz. unfold geometry_material_ids. rewrite Hz. cbn. reflexivity.
Qed.

Lemma GetDefaultMaterialIDForGeometry_most_frequent_witness :
  GetDefaultMaterialIDForGeometry Samples.tetra 0 = Some 3
  /\ GetDefaultMaterialIDForGeometry Samples.tetra 1 = Some 1.
Proof.
  assert (Hok0 : face_range_ok Samples.tetra (Samples.geometry_row 0 0 4 0 4))
    by range_by_compute.
  assert (Hok1 : face_range_ok Samples.tetra (Samples.geometry_row 1 4 0 4 0))
    by range_by_compute.
  split.
  - apply (GetDefaultMaterialIDForGeometry_most_frequent
             Samples.tetra 0 _ 2 eq_refl Hok0).
    + most_frequent_by_cases [2; 2; 5; -1].
    + unfold int32_range. lia.
    + lia.
  - apply (GetDefaultMaterialIDForGeometry_most_frequent
             Samples.tetra 1 _ 0 eq_refl Hok1).
    reflexivity.
Defined.

(** C8 as stated fails for [M = -1]: a geometry whose only face has
    material -1 has -1 as its unique most frequent material, an odd ID, yet
    the function returns 1. *)
Lemma GetDefaultMaterialIDForGeometry_minus_one_counterexample :
  let c := Samples.unresolved_face in
  let row := Samples.geometry_row 0 0 3 0 1 in
  lookupZ (GeometryGroup c) 0 = Some row
  /\ face_range_ok c row
  /\ unique_most_frequent (-1) (geometry_material_ids c row)
  /\ Z.odd (-1) = true
  /\ GetDefaultMaterialIDForGeometry c 0 = Some 1
  /\ GetDefaultMaterialIDForGeometry c 0 <> Some (paired_internal_material (-1)).
Proof.
  cbn zeta. split; [reflexivity|]. split; [range_by_compute|].
  split.
  { most_frequent_by_cases [-1]. }
  split; [reflexivity|]. split; [reflexivity|]. discriminate.
Qed.

End DefaultMaterial.

(** ** Bone volumes *)

Section BoneVolumeFacts.

Lemma mapM_fmap_pointwise {A B : Type} (h : B -> B) (f1 f2 : A -> option B) (l : list A) :
  (forall a, f2 a = h <$> f1 a) ->
  mapM f2 l = (fmap h) <$> mapM f1 l.
Proof.
  intros Hf. induction l as [|a l IH]; [reflexivity|].
  cbn. rewrite Hf. destruct (f1 a) as [b|]; [|reflexivity].
  cbn. rewrite IH. by destruct (mapM f1 l).
Qed.

Lemma mapM_lookup_Some {A B : Type} (f : A -> option B) (l : list A) (k : list B)
    (i : nat) (a : A) :
  mapM f l = Some k -> l !! i = Some a -> exists b, k !! i = Some b /\ f a = Some b.
Proof.
  revert k i. induction l as [|a' l IH]; intros k i Hm Hl; [done|].
  cbn in Hm. destruct (f a') as [b'|] eqn:Hfa; [|done]. cbn in Hm.
  destruct (mapM f l) as [k'|] eqn:Hk; [|done]. cbn in Hm.
  injection Hm as <-.
  destruct i as [|i]; cbn in *.
  - injection Hl as ->. eauto.
  - eapply IH; eauto.
Qed.

Lemma for_each_fmap_pointwise {A S : Type} (h : S -> S) (f1 f2 : S -> A -> option S)
    (l : list A) (s : S) :
  (forall s a, f2 (h s) a = h <$> f1 s a) ->
  for_each f2 l (h s) = h <$> for_each f1 l s.
Proof.
  intros Hf. revert s. induction l as [|a l IH]; intros s; [reflexivity|].
  cbn. rewrite Hf. destruct (f1 s a) as [s'|]; [|reflexivity].
  cbn. apply IH.
Qed.

(** Over exact arithmetic the volume of one geometry is cubic in the scale. *)
Lemma GetVolume_scale_cubed
    (TransformPosition : FTransform -> FVector -> FVector3 Qc)
    (c : FGeometryCollection) (g : Z) (T : FTransform) (s : Qc) :
  GetVolume TransformPosition c g T s
  = Qcmult (s * s * s)%Qc <$> GetVolume TransformPosition c g T 1%Qc.
Proof.
  unfold GetVolume.
  destruct (lookupZ (GeometryGroup c) g) as [row|]; [|reflexivity]. cbn -[int32_wrap].
  destruct (decide (VertexStart row = int32_wrap (VertexStart row + VertexCount row))).
  { cbn. f_equal. ring. }
  destruct (read_range (VerticesGroup c) _ _) as [verts|]; [|reflexivity].
  cbn -[int32_wrap].
  destruct (read_range (FacesGroup c) _ _) as [faces|]; [|reflexivity].
  cbn -[int32_wrap].
  replace (Q2Qc 0) with ((s * s * s) * Q2Qc 0)%Qc at 1 by ring.
  apply for_each_fmap_pointwise.
  intros acc [[[x y] z] vis mat]. cbn -[int32_wrap].
  destruct (lookupZ (VerticesGroup c) x) as [p0|]; [|reflexivity].
  destruct (lookupZ (VerticesGroup c) y) as [p1|]; [|reflexivity].
  destruct (lookupZ (VerticesGroup c) z) as [p2|]; [|reflexivity].
  cbn -[int32_wrap]. f_equal.
  unfold Dot, Cross, vscale, vsub, Qcdiv. cbn -[int32_wrap]. ring.
Qed.

End BoneVolumeFacts.

Lemma bone_volume_zero {F : Type} `{Scalar F}
    (TransformPosition : FTransform -> FVector -> FVector3 F)
    (c : FGeometryCollection) (Transforms : list FTransform) (s : F)
    (Idx t : Z) (row : FTransformRow) (v : F) :
  bone_volume TransformPosition c Transforms s Idx t = Some v ->
  lookupZ (TransformGroup c) t = Some row ->
  (TransformToGeometryIndex row = -1
   \/ exists g, lookupZ (GeometryGroup c) (TransformToGeometryIndex row) = Some g
                /\ int32_range (VertexStart g) /\ VertexCount g = 0) ->
  v = fzero.
Proof.
  unfold bone_volume. intros Hv Hrow Hcase. rewrite Hrow in Hv. cbn in Hv.
  destruct (decide (TransformToGeometryIndex row = -1)) as [|Hne]; [congruence|].
  destruct Hcase as [|(g & Hg & Hrange & Hcount)]; [done|].
  destruct (lookupZ Transforms Idx) as [T|]; [|done]. cbn in Hv.
  unfold GetVolume in Hv. rewrite Hg in Hv. cbn -[int32_wrap] in Hv.
  rewrite Hcount, Z.add_0_r, (int32_wrap_small _ Hrange) in Hv.
  destruct (decide (VertexStart g = VertexStart g)); [congruence|done].
Qed.




(** ** Small bones *)

(** C6 at a failing input.  For the targets [1; 0] of the sample
    collection [FindBoneVolumes] fills [OutVolumes] by position: entry 0 is
    the volume 0 of bone 1, entry 1 the volume 1/6 of bone 0.  With the
    threshold 1/8 the bone below the threshold is bone 1; [FindSmallBones]
    reads [Volumes] at the transform index instead and reports bone 0. *)
Theorem FindSmallBones_reads_Volumes_by_transform_index :
  let c := Samples.tetra in
  let targets := [1; 0] in
  let Volumes := [0; 0x1.5555555555555p-3]%float in
  FindBoneVolumes Samples.identity_position Samples.identity_matrices c targets 1%float
    = Some Volumes
  /\ FindSmallBones c targets Volumes 0.125%float = Some [0]
  /\ small_bones_by_position c targets Volumes 0.125%float = [1].
Proof. vm_compute. repeat split; reflexivity. Qed.

(** ** Grout *)

Section GroutFacts.
Context `{Engine}.

Lemma append_all_but_filter (Outside : Z) (l : list (Z * FDynamicMesh3))
    (acc : FDynamicMesh3) :
  fold_left (fun acc '(MeshIdx, Mesh) =>
               if decide (MeshIdx = Outside) then acc else AppendMesh acc Mesh) l acc
  = fold_left AppendMesh (snd <$> filter (fun p => p.1 <> Outside) l) acc.
Proof.
  revert acc. induction l as [|[i m] l IH]; intros acc; [reflexivity|].
  cbn [fold_left]. rewrite filter_cons. cbn [fst].
  destruct (decide (i = Outside)) as [->|Hne].
  - destruct (decide (Outside <> Outside)); [done|]. apply IH.
  - destruct (decide (i <> Outside)); [|done]. cbn. apply IH.
Qed.

Lemma others_insert {A : Type} (L : list A) (s : Z) (k : nat) (x : A) :
  snd <$> filter (fun p => p.1 <> s + Z.of_nat k)
            (zip (seqZ s (Z.of_nat (length (<[k:=x]> L)))) (<[k:=x]> L))
  = snd <$> filter (fun p => p.1 <> s + Z.of_nat k)
              (zip (seqZ s (Z.of_nat (length L))) L).
Proof.
  rewrite length_insert.
  revert s k. induction L as [|a L IH]; intros s k; [by destruct k|].
  cbn [length]. rewrite seqZ_cons by lia.
  replace (Z.pred (Z.of_nat (S (length L)))) with (Z.of_nat (length L)) by lia.
  destruct k as [|k].
  - change (<[0%nat:=x]> (a :: L)) with (x :: L).
    cbn [zip_with]. rewrite !filter_cons. cbn [fst].
    destruct (decide (s <> s + Z.of_nat 0)); [lia|]. done.
  - change (<[S k:=x]> (a :: L)) with (a :: <[k:=x]> L).
    cbn [zip_with]. rewrite !filter_cons. cbn [fst].
    specialize (IH (Z.succ s) k).
    replace (Z.succ s + Z.of_nat k) with (s + Z.of_nat (S k)) in IH by lia.
    destruct (decide (s <> s + Z.of_nat (S k))); cbn [fmap list_fmap]; by rewrite IH.
Qed.

Lemma cells_other_than_insert (Outside : Z) (L : list FDynamicMesh3) (x : FDynamicMesh3) :
  0 <= Outside ->
  cells_other_than Outside (<[Z.to_nat Outside:=x]> L) = cells_other_than Outside L.
Proof.
  intros Ho. unfold cells_other_than, Num.
  pose proof (others_insert L 0 (Z.to_nat Outside) x) as Hins.
  rewrite Z.add_0_l, Z2Nat.id in Hins by lia. exact Hins.
Qed.

Lemma grout_cells_lookup (Grout : float) (Cells : FCellMeshes) (i : nat)
    (Mesh : FDynamicMesh3) :
  CellMeshes Cells !! i = Some Mesh ->
  grout_cells Grout Cells !! i
  = Some (if decide (Z.of_nat i = OutsideCellIndex Cells) then Mesh
          else grout_cell Grout (NumUVLayers Cells) Mesh).
Proof. intros Hm. unfold grout_cells. by rewrite list_lookup_imap, Hm. Qed.

Lemma grout_cells_length (Grout : float) (Cells : FCellMeshes) :
  length (grout_cells Grout Cells) = length (CellMeshes Cells).
Proof. unfold grout_cells. apply length_imap. Qed.

(** C5, as amended.  With a grout that is not [<= 0] and an outside index
    that is -1 or the index of a cell, [ApplyGeneralGrout] replaces every
    cell other than the outside cell by its mesh scaled, by the same factor
    [(MaxDim - Grout * .5) / MaxDim] along the three axes, about the sum of
    its vertex positions divided by their number, or by the mesh without
    vertices and triangles when that factor is below [ZeroTolerance * 1000];
    the outside cell, when there is one, becomes the mesh without vertices
    and triangles with all the other resulting cells appended in order. *)
Theorem ApplyGeneralGrout_scales_cells (Grout : float) (Cells : FCellMeshes) :
  (Grout <=? 0)%float = false ->
  OutsideCellIndex Cells = -1
    \/ 0 <= OutsideCellIndex Cells < Num (CellMeshes Cells) ->
  let Cleared := mkMesh [] [] (Z.max 0 (Z.min (NumUVLayers Cells) 8)) in
  exists Cells',
    ApplyGeneralGrout Grout Cells = Some Cells'
    /\ length (CellMeshes Cells') = length (CellMeshes Cells)
    /\ OutsideCellIndex Cells' = OutsideCellIndex Cells
    /\ (forall (i : nat) (Mesh : FDynamicMesh3),
          Z.of_nat i <> OutsideCellIndex Cells ->
          CellMeshes Cells !! i = Some Mesh ->
          let MaxDim := BoundsMaxDim Mesh in
          let Factor := ((MaxDim - Grout * 0.5) / MaxDim)%float in
          let Sum :=
            fold_left (fun S v => mkVec (vx S + vx (mPosition v))
                                        (vy S + vy (mPosition v))
                                        (vz S + vz (mPosition v)))%float
                      (MeshVertices Mesh) (mkVec 0 0 0)%float in
          let Count := float_of_Z (Z.of_nat (length (MeshVertices Mesh))) in
          let Centroid := (mkVec (vx Sum / Count) (vy Sum / Count) (vz Sum / Count))%float in
          CellMeshes Cells' !! i
          = Some (if (Factor <? ZeroTolerance * 1000)%float
                  then Cleared
                  else MeshTransforms_Scale Mesh
                         (mkVec (1 * Factor) (1 * Factor) (1 * Factor))%float
                         Centroid))
    /\ (OutsideCellIndex Cells <> -1 ->
        lookupZ (CellMeshes Cells') (OutsideCellIndex Cells)
        = Some (fold_left AppendMesh
                  (cells_other_than (OutsideCellIndex Cells) (CellMeshes Cells'))
                  Cleared)).
Proof.
  intros HGrout Hout Cleared. unfold ApplyGeneralGrout. rewrite HGrout.
  assert (Hcell : forall (i : nat) Mesh,
            Z.of_nat i <> OutsideCellIndex Cells ->
            CellMeshes Cells !! i = Some Mesh ->
            grout_cells Grout Cells !! i
            = Some (if (((BoundsMaxDim Mesh - Grout * 0.5) / BoundsMaxDim Mesh)
                        <? ZeroTolerance * 1000)%float
                    then Cleared
                    else MeshTransforms_Scale Mesh
                           (mkVec (1 * ((BoundsMaxDim Mesh - Grout * 0.5) / BoundsMaxDim Mesh))
                                  (1 * ((BoundsMaxDim Mesh - Grout * 0.5) / BoundsMaxDim Mesh))
                                  (1 * ((BoundsMaxDim Mesh - Grout * 0.5) / BoundsMaxDim Mesh)))%float
                           (let Sum :=
                              fold_left (fun S v => mkVec (vx S + vx (mPosition v))
                                                          (vy S + vy (mPosition v))
                                                          (vz S + vz (mPosition v)))%float
                                        (MeshVertices Mesh) (mkVec 0 0 0)%float in
                            let Count := float_of_Z (Z.of_nat (length (MeshVertices Mesh))) in
                            (mkVec (vx Sum / Count) (vy Sum / Count) (vz Sum / Count))%float))).
  { intros i Mesh Hi Hm. rewrite (grout_cells_lookup _ _ _ _ Hm).
    destruct (decide (Z.of_nat i = OutsideCellIndex Cells)); [done|]. reflexivity. }
  destruct (decide (OutsideCellIndex Cells <> -1)) as [Hne|Heq].
  - destruct Hout as [|Hrange]; [done|].
    set (o := OutsideCellIndex Cells) in *.
    set (Scaled := grout_cells Grout Cells) in *.
    assert (HlenS : length Scaled = length (CellMeshes Cells))
      by apply grout_cells_length.
    destruct (lookupZ_is_Some Scaled o) as [mo Hmo]; [unfold Num in *; lia|].
    rewrite Hmo. cbn. unfold storeZ.
    destruct (decide (0 <= o < Z.of_nat (length Scaled)));
      [|unfold Num in *; lia].
    cbn. eexists. split; [reflexivity|]. cbn.
    split; [by rewrite length_insert|]. split; [reflexivity|]. split.
    + intros i Mesh Hi Hm.
      rewrite list_lookup_insert_ne by lia. by apply Hcell.
    + intros _. unfold lookupZ. destruct (decide (0 <= o)); [|lia].
      rewrite list_lookup_insert_eq by lia. f_equal.
      rewrite cells_other_than_insert by lia.
      unfold append_all_but, cells_other_than. apply append_all_but_filter.
  - eexists. split; [reflexivity|]. cbn.
    split; [apply grout_cells_length|]. split; [reflexivity|]. split; [exact Hcell|].
    intros Hne. lia.
Qed.

End GroutFacts.

Section GroutOnSamples.
#[local] Existing Instance Samples.engine.

Lemma ApplyGeneralGrout_scales_cells_witness :
  exists Cells',
    ApplyGeneralGrout 0.5%float
      (Samples.three_cells (Samples.unit_triangle (-1)) (Samples.unit_triangle (-2)))
    = Some Cells'
    /\ CellMeshes Cells' !! 0%nat
       = Some (MeshTransforms_Scale (Samples.unit_triangle (-1))
                 (mkVec 0.75 0.75 0.75)%float
                 (mkVec 0x1.5555555555555p-2 0x1.5555555555555p-2 0)%float).
Proof.
  destruct (ApplyGeneralGrout_scales_cells 0.5%float
              (Samples.three_cells (Samples.unit_triangle (-1)) (Samples.unit_triangle (-2))))
    as (Cells' & Hrun & _ & _ & Hcells & _).
  - reflexivity.
  - right. range_by_compute.
  - exists Cells'. split; [exact Hrun|].
    apply (Hcells 0%nat (Samples.unit_triangle (-1))); [discriminate|reflexivity].
Defined.

(** C5 as stated fails: with [FMathd::ZeroTolerance = 1e-08], the grout
    [2 - 2^-16] and a cell whose bounding box has longest side 1, the
    required scale [(MaxDim - Grout * .5) / MaxDim] is [2^-17], which is
    positive, and the cell, which has vertices, is replaced by the mesh
    without vertices and triangles. *)
Lemma ApplyGeneralGrout_clears_positive_scale_counterexample :
  let Grout := 0x1.ffffp+0%float in
  let Cell := Samples.unit_triangle (-1) in
  let MaxDim := BoundsMaxDim Cell in
  MaxDim = 1%float
  /\ ((MaxDim - Grout * 0.5) / MaxDim)%float = 0x1p-17%float
  /\ (0x1p-17 <=? 0)%float = false
  /\ exists Cells',
       ApplyGeneralGrout Grout (Samples.three_cells Cell Cell) = Some Cells'
       /\ CellMeshes Cells' !! 0%nat = Some (mkMesh [] [] 1)
       /\ MeshVertices Cell <> [].
Proof.
  cbn zeta. split; [vm_compute; reflexivity|]. split; [vm_compute; reflexivity|].
  split; [vm_compute; reflexivity|].
  eexists. split; [vm_compute; reflexivity|]. split; [reflexivity|discriminate].
Qed.

End GroutOnSamples.

(** ** In-place updates of rows *)

Lemma modifyZ_Some {A : Type} (l : list A) (i : Z) (f : A -> A) (x : A) :
  lookupZ l i = Some x -> modifyZ l i f = Some (<[Z.to_nat i := f x]> l).
Proof.
  intros Hx. unfold modifyZ. rewrite Hx. cbn. unfold storeZ.
  apply lookupZ_Some in Hx. unfold Num in Hx.
  by destruct (decide (0 <= i < Z.of_nat (length l))).
Qed.

Lemma storeZ_Some {A : Type} (l : list A) (i : Z) (x : A) :
  0 <= i < Num l -> storeZ l i x = Some (<[Z.to_nat i := x]> l).
Proof.
  intros Hi. unfold storeZ, Num in *.
  by destruct (decide (0 <= i < Z.of_nat (length l))).
Qed.

Lemma storeZ_inv {A : Type} (l l' : list A) (i : Z) (x : A) :
  storeZ l i x = Some l' -> 0 <= i < Num l /\ l' = <[Z.to_nat i := x]> l.
Proof.
  unfold storeZ, Num.
  destruct (decide (0 <= i < Z.of_nat (length l))); [|done].
  intros [= <-]. done.
Qed.

Lemma modifyZ_inv {A : Type} (l l' : list A) (i : Z) (f : A -> A) :
  modifyZ l i f = Some l' ->
  exists x, lookupZ l i = Some x /\ l' = <[Z.to_nat i := f x]> l.
Proof.
  unfold modifyZ. destruct (lookupZ l i) as [x|] eqn:Hx; [|done]. cbn.
  intros Hs. apply storeZ_inv in Hs as [_ ->]. eauto.
Qed.

Lemma lookupZ_app_last {A : Type} (l : list A) (x : A) :
  lookupZ (l ++ [x]) (Num l) = Some x.
Proof.
  unfold Num. rewrite lookupZ_nat.
  rewrite lookup_app_r by lia. by rewrite Nat.sub_diag.
Qed.

Lemma lookupZ_app_l {A : Type} (l k : list A) (i : Z) (x : A) :
  lookupZ l i = Some x -> lookupZ (l ++ k) i = Some x.
Proof.
  unfold lookupZ. destruct (decide (0 <= i)); [|done].
  intros Hx. by apply lookup_app_l_Some.
Qed.

Lemma lookupZ_insert_eq {A : Type} (l : list A) (i : Z) (x y : A) :
  lookupZ l i = Some x -> lookupZ (<[Z.to_nat i := y]> l) i = Some y.
Proof.
  unfold lookupZ. destruct (decide (0 <= i)); [|done].
  intros Hx. apply list_lookup_insert_eq. by eapply lookup_lt_Some.
Qed.

Lemma lookupZ_insert_ne {A : Type} (l : list A) (i j : Z) (y : A) :
  0 <= i -> i <> j -> lookupZ (<[Z.to_nat i := y]> l) j = lookupZ l j.
Proof.
  intros Hi Hne. unfold lookupZ. destruct (decide (0 <= j)); [|done].
  apply list_lookup_insert_ne. lia.
Qed.

Lemma modifyZ_app_last {A : Type} (l : list A) (x : A) (f : A -> A) :
  modifyZ (l ++ [x]) (Num l) f = Some (l ++ [f x]).
Proof.
  rewrite (modifyZ_Some _ _ _ x) by apply lookupZ_app_last.
  f_equal. unfold Num. rewrite Nat2Z.id.
  rewrite insert_app_r_alt by lia. by rewrite Nat.sub_diag.
Qed.

Lemma modifyZ_app_l {A : Type} (l k : list A) (i : Z) (f : A -> A) (x : A) :
  lookupZ l i = Some x ->
  modifyZ (l ++ k) i f = Some (<[Z.to_nat i := f x]> l ++ k).
Proof.
  intros Hx. rewrite (modifyZ_Some _ _ _ x) by by apply lookupZ_app_l.
  f_equal. apply insert_app_l.
  apply lookupZ_Some in Hx. unfold Num in Hx. lia.
Qed.

Lemma modifyZ_app_last_at {A : Type} (l : list A) (x : A) (f : A -> A) (n : Z) :
  Num l = n -> modifyZ (l ++ [x]) n f = Some (l ++ [f x]).
Proof. intros <-. apply modifyZ_app_last. Qed.

Lemma lookupZ_app_last_at {A : Type} (l : list A) (x : A) (n : Z) :
  Num l = n -> lookupZ (l ++ [x]) n = Some x.
Proof. intros <-. apply lookupZ_app_last. Qed.

Lemma Num_insert {A : Type} (l : list A) (i : nat) (x : A) :
  Num (<[i := x]> l) = Num l.
Proof. unfold Num. by rewrite length_insert. Qed.

Lemma Num_app {A : Type} (l k : list A) : Num (l ++ k) = Num l + Num k.
Proof. unfold Num. rewrite length_app. lia. Qed.

Lemma Num_nonneg {A : Type} (l : list A) : 0 <= Num l.
Proof. unfold Num. lia. Qed.

(** ** Appending a mesh to the collection *)

Section AppendFacts.
Context `{Engine}.

Lemma link_to_parent_existing (rows : list FTransformRow) (x p : FTransformRow)
    (TransformParent : Z) (Name : string) :
  lookupZ rows TransformParent = Some p ->
  link_to_parent (rows ++ [x]) (Num rows) TransformParent Name
  = Some (<[Z.to_nat TransformParent := adopt (Num rows) p]> rows
          ++ [mkTransformRow (Transform x) TransformParent (Children x) Name
                             (BoneColor p) (SimulationType x)
                             (TransformToGeometryIndex x)]).
Proof.
  intros Hp. unfold link_to_parent.
  rewrite modifyZ_app_last. cbn.
  rewrite (lookupZ_app_l _ _ _ _ Hp). cbn.
  rewrite modifyZ_app_last. cbn.
  rewrite modifyZ_app_last. cbn.
  rewrite (modifyZ_app_l _ _ _ _ _ Hp). cbn.
  rewrite (modifyZ_app_l _ _ _ _
             (mkTransformRow (Transform p) (Parent p) (Children p ∪ {[Num rows]})
                (BoneName p) (BoneColor p) (SimulationType p)
                (TransformToGeometryIndex p)))
    by (by eapply lookupZ_insert_eq).
  cbn. by rewrite list_insert_insert_eq.
Qed.

Lemma link_to_parent_self (rows : list FTransformRow) (x : FTransformRow) (Name : string) :
  link_to_parent (rows ++ [x]) (Num rows) (Num rows) Name
  = Some (rows ++ [mkTransformRow (Transform x) (Num rows)
                     (Children x ∪ {[Num rows]}) Name (BoneColor x)
                     FST_Clustered (TransformToGeometryIndex x)]).
Proof.
  unfold link_to_parent.
  rewrite modifyZ_app_last. cbn.
  rewrite lookupZ_app_last. cbn.
  repeat (rewrite modifyZ_app_last; cbn). reflexivity.
Qed.

Lemma sampled_triangles Mesh Spacing :
  MeshTriangles (sampled Mesh Spacing) = MeshTriangles Mesh.
Proof. unfold sampled. by destruct (0 <? Spacing)%float. Qed.

Lemma lookupZ_app_frame {A : Type} (l l' : list A) (x : A) (i : Z) :
  length l' = length l ->
  (i < Num l -> lookupZ l' i = lookupZ l i) ->
  i <> Num l ->
  lookupZ (l' ++ [x]) i = lookupZ l i.
Proof.
  intros Hlen Hin Hne. unfold lookupZ in *.
  destruct (decide (0 <= i)); [|done].
  destruct (decide (i < Num l)) as [Hlt|Hge].
  - rewrite lookup_app_l by (unfold Num in *; lia). by apply Hin.
  - rewrite !lookup_ge_None_2; [done| |]; rewrite ?length_app; cbn;
      unfold Num in *; lia.
Qed.

(** What a successful append does, in closed form. *)
Lemma AppendToCollection_closed_form
    (FromCollection : FTransform) (Mesh : FDynamicMesh3) (CollisionSampleSpacing : float)
    (TransformParent : Z) (Name : string) (Output : FGeometryCollection)
    (InternalMaterialID : Z) :
  TriangleCount Mesh <> 0 ->
  TransformParent <= Num (TransformGroup Output) ->
  exists (Transforms : list FTransformRow) (t : FTransformRow),
    AppendToCollection FromCollection Mesh CollisionSampleSpacing TransformParent Name
      Output InternalMaterialID
    = Some (Num (GeometryGroup Output),
            appended FromCollection (sampled Mesh CollisionSampleSpacing) Output
              InternalMaterialID Transforms,
            sampled Mesh CollisionSampleSpacing)
    /\ Num Transforms = Num (TransformGroup Output) + 1
    /\ lookupZ Transforms (Num (TransformGroup Output)) = Some t
    /\ TransformToGeometryIndex t = Num (GeometryGroup Output)
    /\ (forall i : Z, i <> TransformParent -> i <> Num (TransformGroup Output) ->
          lookupZ Transforms i = lookupZ (TransformGroup Output) i)
    /\ (forall (i : Z) (r : FTransformRow),
          lookupZ (TransformGroup Output) i = Some r ->
          exists r', lookupZ Transforms i = Some r'
                     /\ TransformToGeometryIndex r' = TransformToGeometryIndex r
                     /\ BoneName r' = BoneName r)
    /\ (TransformParent > -1 ->
        Parent t = TransformParent
        /\ exists p, lookupZ Transforms TransformParent = Some p
                     /\ Num (TransformGroup Output) ∈ Children p).
Proof.
  intros Hnz Hparent. unfold AppendToCollection.
  destruct (decide (TriangleCount Mesh = 0)); [done|].
  fold (sampled Mesh CollisionSampleSpacing).
  set (rows := TransformGroup Output) in *.
  set (x := mkTransformRow _ _ _ _ _ _ (Num (GeometryGroup Output))).
  destruct (decide (TransformParent > -1)) as [Hgt|Hle].
  - destruct (decide (TransformParent = Num rows)) as [->|Hne].
    + rewrite link_to_parent_self. cbn.
      rewrite modifyZ_app_last. cbn.
      do 2 eexists. split; [reflexivity|].
      split; [by rewrite Num_app|].
      split; [apply lookupZ_app_last|]. split; [reflexivity|]. split.
      { intros i Hi _. by apply lookupZ_app_frame. }
      split.
      { intros i r Hr. exists r. split; [by apply lookupZ_app_l|done]. }
      intros _. split; [reflexivity|].
      eexists. split; [apply lookupZ_app_last|]. cbn. set_solver.
    + destruct (lookupZ_is_Some rows TransformParent) as [p Hp]; [lia|].
      rewrite (link_to_parent_existing _ _ _ _ _ Hp). cbn.
      rewrite modifyZ_app_last_at by apply Num_insert. cbn.
      do 2 eexists. split; [reflexivity|].
      split; [by rewrite Num_app, Num_insert|].
      split; [apply lookupZ_app_last_at, Num_insert|].
      split; [reflexivity|]. split.
      { intros i Hi Hi'. apply lookupZ_app_frame; [apply length_insert| |done].
        intros _. apply lookupZ_insert_ne; lia. }
      split.
      { intros i r Hr. destruct (decide (i = TransformParent)) as [->|Hi].
        - exists (adopt (Num rows) p). split.
          + apply lookupZ_app_l. by eapply lookupZ_insert_eq.
          + assert (r = p) as -> by congruence. done.
        - exists r. split; [|done]. apply lookupZ_app_l.
          rewrite lookupZ_insert_ne by lia. done. }
      intros _. split; [reflexivity|].
      exists (adopt (Num rows) p). split.
      { apply lookupZ_app_l. by eapply lookupZ_insert_eq. }
      cbn. set_solver.
  - cbn. rewrite modifyZ_app_last. cbn.
    do 2 eexists. split; [reflexivity|].
    split; [by rewrite Num_app|].
    split; [apply lookupZ_app_last|]. split; [reflexivity|]. split.
    { intros i _ Hi. by apply lookupZ_app_frame. }
    split.
    { intros i r Hr. exists r. split; [by apply lookupZ_app_l|done]. }
    intros Hgt. lia.
Qed.

(** C10.  For a mesh without triangles [AppendToCollection] returns -1 and
    the collection (and the mesh) as they were.  For a mesh with a triangle,
    and a parent that is absent (-1 or less) or a transform of the
    collection, it returns the previous number of geometries and appends
    one geometry row and one transform row: the geometry starts at the
    previous ends of the vertex and face arrays, has the counts of the mesh
    as the call leaves it (its triangles are those passed in), the arrays
    grow by exactly those counts, the other rows stay, and with a parent the
    new transform has that parent, which lists it among its children. *)
Theorem AppendToCollection_appends_one_geometry
    (FromCollection : FTransform) (Mesh : FDynamicMesh3) (CollisionSampleSpacing : float)
    (TransformParent : Z) (Name : string) (Output : FGeometryCollection)
    (InternalMaterialID : Z) :
  (TriangleCount Mesh = 0 ->
   AppendToCollection FromCollection Mesh CollisionSampleSpacing TransformParent Name
     Output InternalMaterialID = Some (-1, Output, Mesh))
  /\ (TriangleCount Mesh <> 0 ->
      TransformParent <= Num (TransformGroup Output) ->
      exists (Output' : FGeometryCollection) (Mesh' : FDynamicMesh3)
             (g : FGeometryRow) (t : FTransformRow),
        AppendToCollection FromCollection Mesh CollisionSampleSpacing TransformParent Name
          Output InternalMaterialID
        = Some (Num (GeometryGroup Output), Output', Mesh')
        /\ GeometryGroup Output' = GeometryGroup Output ++ [g]
        /\ Num (TransformGroup Output') = Num (TransformGroup Output) + 1
        /\ lookupZ (TransformGroup Output') (Num (TransformGroup Output)) = Some t
        /\ (forall i : Z, i <> TransformParent -> i <> Num (TransformGroup Output) ->
              lookupZ (TransformGroup Output') i = lookupZ (TransformGroup Output) i)
        /\ VertexStart g = Num (VerticesGroup Output)
        /\ FaceStart g = Num (FacesGroup Output)
        /\ VertexCount g = VertexCountOf Mesh'
        /\ FaceCount g = TriangleCount Mesh'
        /\ MeshTriangles Mesh' = MeshTriangles Mesh
        /\ TransformIndex g = Num (TransformGroup Output)
        /\ TransformToGeometryIndex t = Num (GeometryGroup Output)
        /\ (exists NewVertices, VerticesGroup Output' = VerticesGroup Output ++ NewVertices
                                /\ Num NewVertices = VertexCount g)
        /\ (exists NewFaces, FacesGroup Output' = FacesGroup Output ++ NewFaces
                             /\ Num NewFaces = FaceCount g)
        /\ (TransformParent > -1 ->
            Parent t = TransformParent
            /\ exists p, lookupZ (TransformGroup Output') TransformParent = Some p
                         /\ Num (TransformGroup Output) ∈ Children p)).
Proof.
  split.
  - intros Hz. unfold AppendToCollection.
    by destruct (decide (TriangleCount Mesh = 0)).
  - intros Hnz Hparent.
    destruct (AppendToCollection_closed_form FromCollection Mesh CollisionSampleSpacing
                TransformParent Name Output InternalMaterialID Hnz Hparent)
      as (T & t & Hrun & HnumT & Ht & Htg & Hframe & _ & Hpar).
    eexists _, _, _, t. split; [exact Hrun|]. cbn.
    split; [reflexivity|]. split; [exact HnumT|]. split; [exact Ht|].
    split; [exact Hframe|].
    split; [reflexivity|]. split; [reflexivity|]. split; [reflexivity|].
    split; [reflexivity|]. split; [apply sampled_triangles|].
    split; [reflexivity|]. split; [exact Htg|].
    split.
    { eexists. split; [reflexivity|]. unfold Num, VertexCountOf, Num.
      by rewrite length_fmap. }
    split.
    { eexists. split; [reflexivity|]. unfold Num, TriangleCount, Num.
      by rewrite length_fmap. }
    exact Hpar.
Qed.

End AppendFacts.

(** ** Loops that overwrite a range of rows *)

Section OverwriteLoops.
Context {A B : Type}.

(** A loop over the entries [(k, b)] of [zip [k0, k0+1, ...] items] whose
    iteration [(k, b)] replaces row [start + k] by [g b] of it, provided the
    row satisfies [P], overwrites the rows from [start + k0] on. *)
Lemma for_each_overwrite_from (P : A -> Prop)
    (body : list A -> Z * B -> option (list A)) (g : B -> A -> A)
    (start : nat) (len : nat) :
  (forall rows (k : nat) b r,
      length rows = len ->
      rows !! (start + k)%nat = Some r -> P r ->
      body rows (Z.of_nat k, b) = Some (<[(start + k)%nat := g b r]> rows)) ->
  forall (items : list B) (k : nat) (l : list A),
    length l = len ->
    (start + k + length items <= length l)%nat ->
    Forall P (take (length items) (drop (start + k) l)) ->
    for_each body (zip (seqZ (Z.of_nat k) (Z.of_nat (length items))) items) l
    = Some (take (start + k) l ++ zip_with g items (drop (start + k) l)
            ++ drop (start + k + length items) l).
Proof.
  intros Hbody. induction items as [|b items IH]; intros k l Hlen Hfit HP.
  - cbn. rewrite Nat.add_0_r. by rewrite take_drop.
  - cbn [length] in *. rewrite seqZ_cons by lia.
    replace (Z.pred (Z.of_nat (S (length items)))) with (Z.of_nat (length items)) by lia.
    replace (Z.succ (Z.of_nat k)) with (Z.of_nat (S k)) by lia.
    cbn [zip_with for_each].
    destruct (lookup_lt_is_Some_2 l (start + k)) as [r Hr]; [lia|].
    rewrite (drop_S l r (start + k) Hr) in HP. cbn [take] in HP.
    apply Forall_cons in HP as [HPr HP].
    rewrite (Hbody l k b r Hlen Hr HPr). cbn.
    rewrite (IH (S k)); cycle 1.
    { by rewrite length_insert. }
    { rewrite length_insert. lia. }
    { rewrite Nat.add_succ_r, drop_insert_lt by lia. done. }
    f_equal. rewrite !Nat.add_succ_r.
    rewrite (drop_S l r (start + k) Hr). cbn [zip_with].
    rewrite !drop_insert_lt by lia.
    rewrite (take_S_r _ _ (g b r)) by (apply list_lookup_insert_eq; lia).
    rewrite take_insert_ge by lia.
    rewrite <- app_assoc. cbn.
    by replace (S (start + k) + length items)%nat
      with (start + k + S (length items))%nat by lia.
Qed.

Lemma for_each_overwrite (P : A -> Prop)
    (body : list A -> Z * B -> option (list A)) (g : B -> A -> A)
    (start : nat) (len : nat) :
  (forall rows (k : nat) b r,
      length rows = len ->
      rows !! (start + k)%nat = Some r -> P r ->
      body rows (Z.of_nat k, b) = Some (<[(start + k)%nat := g b r]> rows)) ->
  forall (items : list B) (l : list A),
    length l = len ->
    (start + length items <= length l)%nat ->
    Forall P (take (length items) (drop start l)) ->
    for_each body (zip (seqZ 0 (Z.of_nat (length items))) items) l
    = Some (take start l ++ zip_with g items (drop start l)
            ++ drop (start + length items) l).
Proof.
  intros Hbody items l Hlen Hfit HP.
  pose proof (for_each_overwrite_from P body g start len Hbody items 0%nat l Hlen) as Hloop.
  rewrite !Nat.add_0_r in Hloop. apply Hloop; [lia|done].
Qed.

End OverwriteLoops.

(** [for (L = k; L < k + n; ++L) Array[L] = f(L);] *)
Lemma for_each_store_range {A : Type} (f : Z -> A) (n k : nat) (l : list A) :
  (k + n <= length l)%nat ->
  for_each (fun l L => storeZ l L (f L)) (seqZ (Z.of_nat k) (Z.of_nat n)) l
  = Some (take k l ++ (f <$> seqZ (Z.of_nat k) (Z.of_nat n)) ++ drop (k + n) l).
Proof.
  revert k l. induction n as [|n IH]; intros k l Hfit.
  - rewrite seqZ_nil by lia. cbn. rewrite Nat.add_0_r. by rewrite take_drop.
  - rewrite seqZ_cons by lia.
    replace (Z.pred (Z.of_nat (S n))) with (Z.of_nat n) by lia.
    replace (Z.succ (Z.of_nat k)) with (Z.of_nat (S k)) by lia.
    cbn [for_each fmap list_fmap].
    rewrite storeZ_Some; [|unfold Num; lia].
    cbn [mbind option_bind]. rewrite Nat2Z.id.
    rewrite IH by (rewrite length_insert; lia). f_equal.
    rewrite drop_insert_lt by lia.
    rewrite (take_S_r _ _ (f (Z.of_nat k))) by (apply list_lookup_insert_eq; lia).
    rewrite take_insert_ge by lia.
    rewrite <- app_assoc, Nat.add_succ_r. reflexivity.
Qed.

Lemma seqZ_to_nat (m n : Z) : seqZ m n = seqZ m (Z.of_nat (Z.to_nat n)).
Proof. unfold seqZ. by rewrite Nat2Z.id. Qed.

Lemma for_each_store_prefix {A : Type} (f : Z -> A) (n : Z) (l : list A) :
  n <= Num l ->
  for_each (fun l L => storeZ l L (f L)) (seqZ 0 n) l
  = Some ((f <$> seqZ 0 n) ++ drop (Z.to_nat n) l).
Proof.
  intros Hn. rewrite (seqZ_to_nat 0 n).
  apply (for_each_store_range f (Z.to_nat n) 0 l). unfold Num in Hn. lia.
Qed.

(** ** Updating a geometry in place *)

Section UpdateFacts.
Context `{Engine}.

Lemma zip_with_ignore_r {A B C : Type} (f : A -> C) (l : list A) (k : list B) :
  (length l <= length k)%nat -> zip_with (fun a _ => f a) l k = f <$> l.
Proof.
  revert k. induction l as [|a l IH]; intros k Hk; [reflexivity|].
  destruct k as [|b k]; cbn in *; [lia|]. f_equal. apply IH. lia.
Qed.

Lemma take_drop_overwrite {A : Type} (l new : list A) (start : nat) :
  (start <= length l)%nat ->
  take (length new) (drop start (take start l ++ new ++ drop (start + length new) l))
  = new.
Proof.
  intros Hs. rewrite drop_app_length' by (rewrite length_take; lia).
  by rewrite take_app_length.
Qed.

Lemma bounding_box_of_positions (rows : list FVertexRow) :
  bounding_box_of rows = fold_left FBox_AddPoint (Vertex <$> rows) FBox_Init.
Proof.
  unfold bounding_box_of. generalize FBox_Init.
  induction rows as [|r rows IH]; intros B; [reflexivity|]. cbn. apply IH.
Qed.

Lemma positions_of_updated (FromCollection : FTransform) (n TransformIdx : Z)
    (vs : list FMeshVertex) (rows : list FVertexRow) :
  (length vs <= length rows)%nat ->
  Vertex <$> zip_with (updated_vertex_row FromCollection n TransformIdx) vs rows
  = (fun v => InverseTransformPosition FromCollection (mPosition v)) <$> vs.
Proof.
  revert rows. induction vs as [|v vs IH]; intros rows Hlen; [reflexivity|].
  destruct rows as [|r rows]; cbn in *; [lia|]. f_equal. apply IH. lia.
Qed.

Lemma update_vertex_step (FromCollection : FTransform) (n TransformIdx VerticesStart : Z)
    (len : nat) (rows : list FVertexRow) (k : nat) (v : FMeshVertex) (r : FVertexRow) :
  0 <= VerticesStart -> Z.of_nat len < 2 ^ 31 ->
  length rows = len ->
  rows !! (Z.to_nat VerticesStart + k)%nat = Some r ->
  n <= Num (UVs r) ->
  update_vertex FromCollection n TransformIdx VerticesStart rows (Z.of_nat k, v)
  = Some (<[(Z.to_nat VerticesStart + k)%nat :=
             updated_vertex_row FromCollection n TransformIdx v r]> rows).
Proof.
  intros Hs Hlen31 Hlen Hr Hn. unfold update_vertex.
  apply lookup_lt_Some in Hr as Hlt.
  rewrite int32_wrap_small by (unfold int32_range; lia).
  replace (VerticesStart + Z.of_nat k) with (Z.of_nat (Z.to_nat VerticesStart + k)) by lia.
  rewrite lookupZ_nat, Hr. cbn [mbind option_bind].
  rewrite (for_each_store_prefix (GetUV v) n (UVs r) Hn).
  cbn [mbind option_bind]. rewrite storeZ_Some by (unfold Num; lia).
  rewrite Nat2Z.id. reflexivity.
Qed.

Lemma update_face_step (VerticesStart FacesStart InternalMaterialID : Z)
    (len : nat) (rows : list FFaceRow) (k : nat) (t : FMeshTriangle) (r : FFaceRow) :
  0 <= FacesStart -> Z.of_nat len < 2 ^ 31 ->
  length rows = len ->
  rows !! (Z.to_nat FacesStart + k)%nat = Some r ->
  True ->
  update_face VerticesStart FacesStart InternalMaterialID rows (Z.of_nat k, t)
  = Some (<[(Z.to_nat FacesStart + k)%nat :=
             face_row_of VerticesStart InternalMaterialID t]> rows).
Proof.
  intros Hs Hlen31 Hlen Hr _. unfold update_face.
  apply lookup_lt_Some in Hr as Hlt.
  rewrite int32_wrap_small by (unfold int32_range; lia).
  rewrite storeZ_Some by (unfold Num; lia).
  do 2 f_equal. lia.
Qed.

(** C4, as amended.  [UpdateCollection] first sets the collection's UV
    layer count to that of the mesh, also when it then fails.  If the
    vertex or the triangle count of the mesh differs from the counts of the
    geometry slot it returns false and the collection is the one the
    layer-count call returned.  If both counts match (and the slot lies
    inside the arrays) it returns true and the collection differs from the
    one the layer-count call returned in the slot only: its vertex rows are
    written from the mesh vertices (position, normal and tangents mapped
    through the inverse of [FromCollection], the UV layers of the mesh,
    colour, bone map), its face rows from the mesh triangles (corners
    shifted by the first vertex of the slot, visibility, material ID or
    the internal material ID), and its bounding box is the box of the
    positions written. *)
Theorem UpdateCollection_overwrites_slot
    (FromCollection : FTransform) (Mesh : FDynamicMesh3) (GeometryIdx : Z)
    (Output : FGeometryCollection) (InternalMaterialID : Z) (g : FGeometryRow) :
  lookupZ (GeometryGroup Output) GeometryIdx = Some g ->
  let Output1 := SetNumUVLayers (NumEnabledUVChannels Mesh) Output in
  (VertexCount g <> VertexCountOf Mesh \/ FaceCount g <> TriangleCount Mesh ->
   UpdateCollection FromCollection Mesh GeometryIdx Output InternalMaterialID
   = Some (false, Output1))
  /\ (VertexCount g = VertexCountOf Mesh -> FaceCount g = TriangleCount Mesh ->
      forall g1 : FGeometryRow,
        lookupZ (GeometryGroup Output1) GeometryIdx = Some g1 ->
        VertexCount g1 = VertexCount g ->
        slot_ok Output1 g1 Mesh ->
        UpdateCollection FromCollection Mesh GeometryIdx Output InternalMaterialID
        = Some (true,
                updated_slot FromCollection Mesh GeometryIdx g1 Output1
                  InternalMaterialID)).
Proof.
  intros Hg Output1. unfold UpdateCollection. rewrite Hg. cbn [mbind option_bind].
  fold Output1. split.
  - intros Hdiff.
    destruct (decide (VertexCount g = VertexCountOf Mesh
                      /\ FaceCount g = TriangleCount Mesh)) as [[? ?]|]; [|done].
    destruct Hdiff; done.
  - intros Hv Hf g1 Hg1 Hcount (Hvs & Hvfit & Hv31 & Hfs & Hffit & Hf31 & Huv).
    destruct (decide (VertexCount g = VertexCountOf Mesh
                      /\ FaceCount g = TriangleCount Mesh)) as [_|Hno];
      [|by destruct Hno].
    rewrite Hg1. cbn [mbind option_bind].
    unfold VertexCountOf, TriangleCount, Num in *.
    (* the vertex loop *)
    pose proof (for_each_overwrite
                  (fun r => NumEnabledUVChannels Mesh <= Num (UVs r))
                  (update_vertex FromCollection (NumEnabledUVChannels Mesh)
                     (TransformIndex g1) (VertexStart g1))
                  (updated_vertex_row FromCollection (NumEnabledUVChannels Mesh)
                     (TransformIndex g1))
                  (Z.to_nat (VertexStart g1)) (length (VerticesGroup Output1))) as Hvloop.
    rewrite (Hvloop ltac:(intros; apply update_vertex_step with
                            (len := length (VerticesGroup Output1)); auto)
               (MeshVertices Mesh) (VerticesGroup Output1) eq_refl);
      [|lia|done].
    cbn [mbind option_bind]. clear Hvloop.
    (* the triangle loop *)
    pose proof (for_each_overwrite (fun _ => True)
                  (update_face (VertexStart g1) (FaceStart g1) InternalMaterialID)
                  (fun t _ => face_row_of (VertexStart g1) InternalMaterialID t)
                  (Z.to_nat (FaceStart g1)) (length (FacesGroup Output1))) as Hfloop.
    rewrite (Hfloop ltac:(intros; apply update_face_step with
                            (len := length (FacesGroup Output1)) (r := r); auto)
               (MeshTriangles Mesh) (FacesGroup Output1) eq_refl);
      [|lia|by apply Forall_true].
    cbn [mbind option_bind]. clear Hfloop.
    (* the bounding box *)
    apply lookupZ_Some in Hg1 as Hrange. unfold Num in Hrange.
    destruct (decide (Z.of_nat (length (GeometryGroup Output1)) <> 0)); [|lia].
    set (NewVertices := zip_with _ (MeshVertices Mesh) _).
    assert (HlenNew : length NewVertices = length (MeshVertices Mesh)).
    { unfold NewVertices. rewrite length_zip_with, length_drop. lia. }
    rewrite Hcount, Hv.
    rewrite int32_wrap_small by (unfold int32_range; lia).
    rewrite read_range_in; cycle 1.
    { lia. }
    { lia. }
    { unfold Num. rewrite !length_app, length_take, length_drop. lia. }
    cbn [mbind option_bind].
    replace (VertexStart g1 + Z.of_nat (length (MeshVertices Mesh)) - VertexStart g1)
      with (Z.of_nat (length (MeshVertices Mesh))) by lia.
    rewrite Nat2Z.id, <- HlenNew.
    rewrite take_drop_overwrite by lia.
    rewrite (modifyZ_Some _ _ _ g1 Hg1). cbn [mbind option_bind].
    assert (Hbox : bounding_box_of NewVertices
                   = fold_left FBox_AddPoint
                       ((fun v => InverseTransformPosition FromCollection (mPosition v))
                          <$> MeshVertices Mesh) FBox_Init).
    { rewrite bounding_box_of_positions. f_equal. unfold NewVertices.
      apply positions_of_updated. rewrite length_drop. lia. }
    assert (Hfaces : face_row_of (VertexStart g1) InternalMaterialID <$> MeshTriangles Mesh
                     = (fun t =>
                          let '(A, B, C) := mTri t in
                          mkFaceRow (int32_wrap (A + VertexStart g1),
                                     int32_wrap (B + VertexStart g1),
                                     int32_wrap (C + VertexStart g1))
                                    (mVisible t)
                                    (if decide (mMaterialID t < 0) then InternalMaterialID
                                     else mMaterialID t))
                       <$> MeshTriangles Mesh).
    { apply list_fmap_ext. by intros i [[[A B] C] m v] _. }
    unfold updated_slot, overwrite. fold NewVertices.
    rewrite zip_with_ignore_r by (rewrite length_drop; lia).
    rewrite Hbox, Hfaces, !length_fmap, HlenNew. reflexivity.
Qed.

End UpdateFacts.

Section WritersOnSamples.
#[local] Existing Instance Samples.engine.

Lemma UpdateCollection_overwrites_slot_witness :
  UpdateCollection FTransform_Identity (Samples.unit_triangle 0) 0 Samples.tetra 7
  = Some (false, SetNumUVLayers 1 Samples.tetra)
  /\ UpdateCollection FTransform_Identity Samples.tetra_mesh 0 Samples.tetra 7
     = Some (true,
             updated_slot FTransform_Identity Samples.tetra_mesh 0
               (Samples.geometry_row 0 0 4 0 4) (SetNumUVLayers 1 Samples.tetra) 7).
Proof.
  split.
  - apply (UpdateCollection_overwrites_slot FTransform_Identity (Samples.unit_triangle 0)
             0 Samples.tetra 7 (Samples.geometry_row 0 0 4 0 4) eq_refl).
    left. discriminate.
  - apply (UpdateCollection_overwrites_slot FTransform_Identity Samples.tetra_mesh
             0 Samples.tetra 7 (Samples.geometry_row 0 0 4 0 4) eq_refl).
    + reflexivity.
    + reflexivity.
    + reflexivity.
    + reflexivity.
    + unfold slot_ok. vm_compute.
      repeat split; try discriminate; repeat constructor; discriminate.
Defined.

Lemma AppendToCollection_appends_one_geometry_witness :
  AppendToCollection FTransform_Identity (mkMesh [] [] 1) 0%float 0 "root_0"
    Samples.tetra 7 = Some (-1, Samples.tetra, mkMesh [] [] 1)
  /\ exists Output' Mesh',
       AppendToCollection FTransform_Identity Samples.tetra_mesh 0%float 0 "root_0"
         Samples.tetra 7 = Some (2, Output', Mesh')
       /\ Num (GeometryGroup Output') = 3
       /\ Num (TransformGroup Output') = 3.
Proof.
  destruct (AppendToCollection_appends_one_geometry FTransform_Identity
              Samples.tetra_mesh 0%float 0 "root_0" Samples.tetra 7) as [_ Happ].
  destruct Happ as (Output' & Mesh' & g & t & Hrun & Hgeo & Htr & _);
    [discriminate|range_by_compute|].
  split.
  - apply (AppendToCollection_appends_one_geometry FTransform_Identity
             (mkMesh [] [] 1) 0%float 0 "root_0" Samples.tetra 7).
    reflexivity.
  - exists Output', Mesh'. split; [exact Hrun|]. split; [by rewrite Hgeo|exact Htr].
Defined.

(** C4 as stated fails: a mesh with two UV channels and no vertices does not
    have the counts of geometry 0 of the sample collection, whose four
    vertices have one UV layer each; [UpdateCollection] returns false, and
    the four vertex rows of the slot have been given a second UV layer. *)
Lemma UpdateCollection_mismatch_writes_UVs_counterexample :
  exists Output',
    UpdateCollection FTransform_Identity (mkMesh [] [] 2) 0 Samples.tetra 7
    = Some (false, Output')
    /\ (VertexStart <$> GeometryGroup Samples.tetra !! 0%nat) = Some 0
    /\ (VertexCount <$> GeometryGroup Samples.tetra !! 0%nat) = Some 4
    /\ UVs <$> VerticesGroup Samples.tetra = replicate 4 [(0, 0)%float]
    /\ UVs <$> VerticesGroup Output' = replicate 4 [(0, 0)%float; (0, 0)%float].
Proof.
  eexists. split; [vm_compute; reflexivity|]. repeat split; vm_compute; reflexivity.
Qed.

End WritersOnSamples.

(** ** The cutting drivers: invariants *)

Section DriverFacts.
Context `{Engine}.

Lemma AppendToCollection_empty (F : FTransform) (M : FDynamicMesh3) (sp : float)
    (par : Z) (name : string) (c : FGeometryCollection) (mat : Z) :
  TriangleCount M = 0 ->
  AppendToCollection F M sp par name c mat = Some (-1, c, M).
Proof.
  intros Hz. unfold AppendToCollection. by destruct (decide (TriangleCount M = 0)).
Qed.

Lemma link_to_parent_out_of_range (rows : list FTransformRow) (x : FTransformRow)
    (par : Z) (name : string) :
  par > Num rows -> link_to_parent (rows ++ [x]) (Num rows) par name = None.
Proof.
  intros Hpar. unfold link_to_parent. rewrite modifyZ_app_last. cbn.
  destruct (lookupZ (rows ++ [_]) par) as [p|] eqn:Hp; [|reflexivity].
  apply lookupZ_Some in Hp. unfold Num in *.
  rewrite length_app in Hp. cbn [length] in Hp. lia.
Qed.

(** Every run of [AppendToCollection] that returns is one of the two runs
    described above. *)
Lemma AppendToCollection_inv (F : FTransform) (M : FDynamicMesh3) (sp : float)
    (par : Z) (name : string) (c : FGeometryCollection) (mat : Z)
    (idx : Z) (c' : FGeometryCollection) (M' : FDynamicMesh3) :
  AppendToCollection F M sp par name c mat = Some (idx, c', M') ->
  (TriangleCount M = 0 /\ idx = -1 /\ c' = c /\ M' = M)
  \/ (TriangleCount M <> 0 /\ idx = Num (GeometryGroup c)
      /\ M' = sampled M sp
      /\ exists T,
           c' = appended F (sampled M sp) c mat T
           /\ Num T = Num (TransformGroup c) + 1
           /\ (forall (i : Z) (r : FTransformRow),
                 lookupZ (TransformGroup c) i = Some r ->
                 exists r', lookupZ T i = Some r'
                            /\ TransformToGeometryIndex r' = TransformToGeometryIndex r
                            /\ BoneName r' = BoneName r)).
Proof.
  intros Hrun. destruct (decide (TriangleCount M = 0)) as [Hz|Hnz].
  - rewrite (AppendToCollection_empty _ _ _ _ _ _ _ Hz) in Hrun.
    injection Hrun as <- <- <-. by left.
  - right. destruct (decide (par <= Num (TransformGroup c))) as [Hpar|Hpar].
    + destruct (AppendToCollection_closed_form F M sp par name c mat Hnz Hpar)
        as (T & t & Hrun' & HnumT & _ & _ & _ & Hold & _).
      rewrite Hrun' in Hrun. injection Hrun as <- <- <-.
      split; [done|]. split; [done|]. split; [done|]. by exists T.
    + exfalso. unfold AppendToCollection in Hrun.
      pose proof (Num_nonneg (TransformGroup c)).
      destruct (decide (TriangleCount M = 0)); [done|].
      destruct (decide (par > -1)); [|lia].
      rewrite link_to_parent_out_of_range in Hrun by lia. done.
Qed.

(** A property of the collection and of the first created index that
    every write of the drivers preserves is preserved by the drivers. *)
Section Invariant.
Variable Inv : FGeometryCollection -> Z -> Prop.

Hypothesis Inv_append :
  forall F M sp par name c mat idx c' M' first,
    Inv c first ->
    AppendToCollection F M sp par name c mat = Some (idx, c', M') ->
    Inv c' (first_created first idx).

Hypothesis Inv_link :
  forall c first P P' A B,
    Inv (set_Proximity c (Some P)) first ->
    add_proximity_pair P A B = Some P' ->
    Inv (set_Proximity c (Some P')) first.

Hypothesis Inv_faces :
  forall c first Faces, Inv c first -> Inv (set_FacesGroup c Faces) first.

Lemma append_piece_Inv Surface sp mat CellIdx b st Piece st' :
  Inv (clCollection st) (clFirstIdx st) ->
  append_piece Surface sp mat CellIdx b st Piece = Some st' ->
  Inv (clCollection st') (clFirstIdx st').
Proof.
  intros HI. unfold append_piece.
  destruct (GetBoneName _ _ _) as [name|]; [|done]. cbn.
  destruct (AppendToCollection _ _ _ _ _ _ _) as [[[idx c'] M']|] eqn:Happ; [|done].
  cbn. intros Hst.
  assert (Hgoal : Inv c' (first_created (clFirstIdx st) idx)) by eauto.
  destruct b.
  - destruct (storeZ _ _ _); [|done]. cbn in Hst. by injection Hst as <-.
  - cbn in Hst. by injection Hst as <-.
Qed.

Lemma append_islands_Inv Surface sp mat CellIdx Islands : forall b st st',
  Inv (clCollection st) (clFirstIdx st) ->
  append_islands Surface sp mat CellIdx b Islands st = Some st' ->
  Inv (clCollection st') (clFirstIdx st').
Proof.
  induction Islands as [|Island Islands IH]; intros b st st' HI Hrun.
  - cbn in Hrun. by injection Hrun as <-.
  - cbn in Hrun.
    destruct (append_piece _ _ _ _ _ _ _) as [st1|] eqn:Hp; [|done].
    cbn in Hrun. eapply IH; [|exact Hrun]. by eapply append_piece_Inv.
Qed.

Lemma write_cell_Inv Surface sp mat st CellIdx st' :
  Inv (clCollection st) (clFirstIdx st) ->
  write_cell Surface sp mat st CellIdx = Some st' ->
  Inv (clCollection st') (clFirstIdx st').
Proof.
  intros HI. unfold write_cell.
  destruct (lookupZ _ _) as [r|]; [|done]. cbn.
  destruct (non_empty r); [|by intros [= <-]].
  destruct r as [m|]; [|by intros [= <-]].
  destruct (SplitIslands m) as [[] Islands].
  - intros Hrun. eapply append_islands_Inv; [|exact Hrun]. done.
  - intros Hrun. eapply append_piece_Inv; [|exact Hrun]. done.
Qed.

Lemma for_each_preserves {A S : Type} (Q : S -> Prop) (body : S -> A -> option S)
    (l : list A) :
  (forall s a s', Q s -> body s a = Some s' -> Q s') ->
  forall s s', Q s -> for_each body l s = Some s' -> Q s'.
Proof.
  intros Hbody. induction l as [|a l IH]; intros s s' HQ Hrun.
  - cbn in Hrun. by injection Hrun as <-.
  - cbn in Hrun. destruct (body s a) as [s1|] eqn:Hs; [|done].
    cbn in Hrun. eapply IH; [|exact Hrun]. eauto.
Qed.

Lemma link_across_plane_Inv conn Cells cl c first P PlaneIdx P' :
  Inv (set_Proximity c (Some P)) first ->
  link_across_plane conn Cells cl P PlaneIdx = Some P' ->
  Inv (set_Proximity c (Some P')) first.
Proof.
  intros HI. unfold link_across_plane.
  destruct (lookupZ conn PlaneIdx) as [[First Second]|]; [|done]. cbn.
  destruct (decide _); [|by intros [= <-]].
  set (GeomA := MultiFind _ First). set (GeomB := MultiFind _ _).
  assert (Hloops :
    for_each (fun P GIDA =>
        MeshA ← clGeometryToResultMesh cl !! GIDA;
        A ← result_mesh (clBooleanResults cl) MeshA;
        for_each (fun P GIDB =>
            MeshB ← clGeometryToResultMesh cl !! GIDB;
            B ← result_mesh (clBooleanResults cl) MeshB;
            if IsNeighboring A B then add_proximity_pair P GIDA GIDB else Some P)
          GeomB P)
      GeomA P = Some P' ->
    Inv (set_Proximity c (Some P')) first).
  { intros Hrun.
    refine (for_each_preserves (fun P => Inv (set_Proximity c (Some P)) first)
              _ _ _ _ _ _ Hrun); [|exact HI].
    intros P1 GIDA P2 HI1. cbn.
    destruct (_ !! GIDA) as [MeshA|]; [|done]. cbn.
    destruct (result_mesh _ MeshA) as [A|]; [|done]. cbn.
    apply (for_each_preserves (fun P => Inv (set_Proximity c (Some P)) first));
      [|exact HI1].
    intros P3 GIDB P4 HI3. cbn.
    destruct (_ !! GIDB) as [MeshB|]; [|done]. cbn.
    destruct (result_mesh _ MeshB) as [B|]; [|done]. cbn.
    destruct (IsNeighboring A B); [|by intros [= <-]].
    intros Hadd. by eapply Inv_link. }
  destruct GeomA as [|GA [|GA' GeomA]]; [by intros [= <-]| |].
  - destruct GeomB as [|GB [|GB' GeomB]]; [by intros [= <-]| |exact Hloops].
    intros Hadd. by eapply Inv_link.
  - destruct GeomB as [|GB GeomB]; [by intros [= <-]|exact Hloops].
Qed.

Lemma set_Proximity_same c P : Proximity c = Some P -> set_Proximity c (Some P) = c.
Proof. destruct c. cbn. by intros ->. Qed.

Lemma cut_surface_Inv mat conn Cells bProx bDef sp st Surface st' :
  Inv (csCollection st) (csFirstIdx st) ->
  cut_surface mat conn Cells bProx bDef sp st Surface = Some st' ->
  Inv (csCollection st') (csFirstIdx st').
Proof.
  intros HI. unfold cut_surface.
  destruct (lookupZ _ _) as [t|]; [|done]. cbn.
  destruct (decide _); [|by intros [= <-]].
  destruct (internal_material _ _ _ _) as [imat|]; [|done]. cbn.
  destruct (for_each _ _ _) as [cl|] eqn:Hcells; [|done]. cbn.
  assert (Hcl : Inv (clCollection cl) (clFirstIdx cl)).
  { refine (for_each_preserves (fun st => Inv (clCollection st) (clFirstIdx st))
              _ _ _ _ _ _ Hcells); [|exact HI].
    intros s a s'. apply write_cell_Inv. }
  destruct bProx.
  - destruct (Proximity (clCollection cl)) as [P|] eqn:HP; [|done]. cbn.
    destruct (for_each _ _ P) as [P'|] eqn:Hlinks; [|done]. cbn.
    intros [= <-]. cbn.
    refine (for_each_preserves
              (fun P => Inv (set_Proximity (clCollection cl) (Some P)) (clFirstIdx cl))
              _ _ _ _ _ _ Hlinks); [|by rewrite set_Proximity_same].
    intros P1 PlaneIdx P2. apply link_across_plane_Inv.
  - cbn. by intros [= <-].
Qed.

Lemma SetGeometryVisibility_faces c l b c' :
  SetGeometryVisibility c l b = Some c' -> exists Faces, c' = set_FacesGroup c Faces.
Proof.
  unfold SetGeometryVisibility. destruct (for_each _ _ _) as [Faces|]; [|done].
  cbn. intros [= <-]. eauto.
Qed.

Lemma hide_superseded_Inv c l c' first :
  Inv c first -> hide_superseded c l = Some c' -> Inv c' first.
Proof.
  intros HI. unfold hide_superseded. destruct (decide _); [|by intros [= <-]].
  intros Hrun. apply SetGeometryVisibility_faces in Hrun as [Faces ->].
  by apply Inv_faces.
Qed.

Lemma CutWithCellMeshes_Inv Meshes mat conn Cells c bDef sp ret c' :
  Inv c (-1) ->
  CutWithCellMeshes Meshes mat conn Cells c bDef sp = Some (ret, c') ->
  Inv c' ret.
Proof.
  intros HI. unfold CutWithCellMeshes.
  destruct (for_each _ _ _) as [st|] eqn:Hloop; [|done]. cbn.
  destruct (hide_superseded _ _) as [c1|] eqn:Hhide; [|done]. cbn.
  intros [= <- <-].
  eapply hide_superseded_Inv; [|exact Hhide].
  refine (for_each_preserves (fun st => Inv (csCollection st) (csFirstIdx st))
            _ _ _ _ _ _ Hloop); [|exact HI].
  intros s a s'. apply cut_surface_Inv.
Qed.

Lemma append_children_Inv mat bDef sp st MeshData st' :
  Inv (asCollection st) (asFirstCreatedIndex st) ->
  append_children mat bDef sp st MeshData = Some st' ->
  Inv (asCollection st') (asFirstCreatedIndex st').
Proof.
  intros HI. unfold append_children.
  destruct (lookupZ _ _) as [t|]; [|done]. cbn.
  destruct (internal_material _ _ _ _) as [imat|]; [|done]. cbn.
  destruct (decide _); [by intros [= <-]|].
  destruct (for_each _ _ _) as [[st1 n1]|] eqn:Hloop; [|done]. cbn.
  intros [= <-].
  refine (for_each_preserves
            (fun p : append_state * Z => Inv (asCollection p.1) (asFirstCreatedIndex p.1))
            _ _ _ _ (st1, n1) _ Hloop); [|exact HI].
  intros [s k] ToCutIdx [s' k'] HIs. cbn.
  destruct (lookupZ (asToCut s) ToCutIdx) as [md|]; [|done]. cbn.
  destruct (GetBoneName _ _ _) as [name|]; [|done]. cbn.
  destruct (AppendToCollection _ _ _ _ _ _ _) as [[[idx c'] M']|] eqn:Happ; [|done].
  cbn. destruct (storeZ (asToCut s) _ _); [|done]. cbn.
  destruct (storeZ (asToCutIdxToGeometryIdx s) _ _); [|done]. cbn.
  intros [= <- <-]. cbn. eauto.
Qed.

Lemma append_phase_Inv mat bDef sp Meshes st st' :
  Inv (asCollection st) (asFirstCreatedIndex st) ->
  for_each (append_children mat bDef sp) Meshes st = Some st' ->
  Inv (asCollection st') (asFirstCreatedIndex st').
Proof.
  intros HI Hloop.
  refine (for_each_preserves
            (fun st => Inv (asCollection st) (asFirstCreatedIndex st))
            _ _ _ _ _ _ Hloop); [|exact HI].
  intros s a s'. apply append_children_Inv.
Qed.

End Invariant.

(** *** The index returned *)

Lemma grown_append Before F M sp par name c mat idx c' M' first :
  grown Before c first ->
  AppendToCollection F M sp par name c mat = Some (idx, c', M') ->
  grown Before c' (first_created first idx).
Proof.
  intros Hg Hrun. pose proof (Num_nonneg (GeometryGroup Before)) as Hnn.
  apply AppendToCollection_inv in Hrun
    as [(_ & -> & -> & _)|(_ & -> & _ & T & -> & _)].
  - unfold first_created. by destruct (decide (first = -1)) as [->|].
  - unfold grown, first_new_geometry, appended in *. cbn.
    destruct Hg as [[-> Heq]|(-> & Hpre & Hlt)].
    + right. rewrite Heq. unfold first_created. cbn.
      split; [done|]. split; [by apply prefix_app_r|].
      rewrite Num_app. unfold Num. cbn. lia.
    + right. unfold first_created.
      destruct (decide (Num (GeometryGroup Before) = -1)); [lia|].
      split; [done|]. split; [by apply prefix_app_r|].
      rewrite Num_app. unfold Num in *. cbn. lia.
Qed.

Lemma grown_geometry Before c c' first :
  GeometryGroup c' = GeometryGroup c -> grown Before c first -> grown Before c' first.
Proof. unfold grown, first_new_geometry. by intros ->. Qed.

Lemma grown_start c : grown c c (-1).
Proof. by left. Qed.

Lemma CutWithCellMeshes_first_new Meshes mat conn Cells c bDef sp ret c' :
  CutWithCellMeshes Meshes mat conn Cells c bDef sp = Some (ret, c') ->
  first_new_geometry c c' ret.
Proof.
  apply (CutWithCellMeshes_Inv (grown c)); [| | |apply grown_start].
  - intros. by eapply grown_append.
  - intros c1 first P P' A B Hg _. revert Hg. by apply grown_geometry.
  - intros c1 first Faces. by apply grown_geometry.
Qed.

Lemma hide_superseded_geometry c l c' :
  hide_superseded c l = Some c' ->
  GeometryGroup c' = GeometryGroup c /\ Proximity c' = Proximity c.
Proof.
  unfold hide_superseded. destruct (decide _); [|by intros [= <-]].
  intros Hrun. by apply SetGeometryVisibility_faces in Hrun as [Faces ->].
Qed.

Lemma CutWithMultiplePlanes_no_grout_first_new Meshes Planes sp c mat bDef ret c' :
  CutWithMultiplePlanes_no_grout Meshes Planes sp c mat bDef = Some (ret, c') ->
  first_new_geometry c c' ret.
Proof.
  unfold CutWithMultiplePlanes_no_grout.
  destruct (for_each _ Planes _) as [[ToCut Links]|]; [|done]. cbn.
  destruct (for_each _ Meshes _) as [st|] eqn:Happ; [|done]. cbn.
  assert (Hst : grown c (asCollection st) (asFirstCreatedIndex st)).
  { refine (append_phase_Inv (grown c) _ _ _ _ _ _ _ _ Happ); [|apply grown_start].
    intros. by eapply grown_append. }
  destruct (bool_decide _).
  - destruct (Proximity (asCollection st)) as [P|]; [|done]. cbn.
    destruct (for_each _ Links P) as [P'|]; [|done]. cbn.
    destruct (hide_superseded _ _) as [c1|] eqn:Hhide; [|done]. cbn.
    intros [= <- <-]. apply hide_superseded_geometry in Hhide as [Hgeo _].
    revert Hst. apply grown_geometry. by rewrite Hgeo.
  - cbn. destruct (hide_superseded _ _) as [c1|] eqn:Hhide; [|done]. cbn.
    intros [= <- <-]. apply hide_superseded_geometry in Hhide as [Hgeo _].
    revert Hst. by apply grown_geometry.
Qed.

Lemma CutWithMultiplePlanes_first_new GroutMesh Meshes Planes Grout sp c n mat bDef ret c' :
  CutWithMultiplePlanes GroutMesh Meshes Planes Grout sp c n mat bDef = Some (ret, c') ->
  first_new_geometry c c' ret.
Proof.
  unfold CutWithMultiplePlanes. destruct (0 <? Grout)%float.
  - apply CutWithCellMeshes_first_new.
  - apply CutWithMultiplePlanes_no_grout_first_new.
Qed.

Lemma ensure_Proximity_geometry c : GeometryGroup (ensure_Proximity c) = GeometryGroup c.
Proof. unfold ensure_Proximity. by destruct (Proximity c). Qed.

Lemma first_new_geometry_iff Before After ret :
  first_new_geometry Before After ret ->
  (ret = -1 <-> GeometryGroup After = GeometryGroup Before)
  /\ (ret <> -1 ->
      ret = Num (GeometryGroup Before)
      /\ exists g New, GeometryGroup After = GeometryGroup Before ++ g :: New).
Proof.
  pose proof (Num_nonneg (GeometryGroup Before)) as Hnn.
  intros [[-> Heq]|(-> & [New Hpre] & Hlt)].
  - split; [done|]. intros Hne. done.
  - split.
    + split; [lia|]. intros Heq. rewrite Heq in Hlt. lia.
    + intros _. split; [done|]. rewrite Hpre in Hlt.
      destruct New as [|g New]; [rewrite app_nil_r in Hlt; lia|]. eauto.
Qed.

(** The steps of a completed run of a boundary operation. *)
Lemma CutMultipleWithPlanarCells_inv MakeCells PlaneCells mat Source targets sp T bDef
    ret Source' mat' :
  CutMultipleWithPlanarCells MakeCells PlaneCells mat Source targets sp T bDef
    = Some (ret, Source', mat') ->
  exists Meshes Cut,
    set_default_uv_scale bDef mat (ensure_Proximity Source) = Some mat'
    /\ Init (ensure_Proximity Source) targets T = Some Meshes
    /\ CutWithCellMeshes Meshes (FInternalSurfaceMaterials.GlobalMaterialID mat')
         PlaneCells (MakeCells mat' Meshes) (ensure_Proximity Source) bDef sp
       = Some (ret, Cut)
    /\ Source' = ReindexMaterials Cut.
Proof.
  unfold CutMultipleWithPlanarCells. intros Hrun.
  destruct (set_default_uv_scale _ _ _) as [m|]; [|done]. cbn in Hrun.
  destruct (Init _ _ _) as [Meshes|]; [|done]. cbn in Hrun.
  destruct (CutWithCellMeshes _ _ _ _ _ _ _) as [[idx Cut]|] eqn:Hcut; [|done].
  cbn in Hrun. injection Hrun as <- <- <-. by exists Meshes, Cut.
Qed.

Lemma CutWithMesh_inv Cutter XF mat c targets sp T n bDef ret c' mat' :
  CutWithMesh Cutter XF mat c targets sp T n bDef = Some (ret, c', mat') ->
  exists M Meshes Cut,
    Cutter = Some M
    /\ set_default_uv_scale bDef mat (ensure_Proximity c) = Some mat'
    /\ Init (ensure_Proximity c) targets T = Some Meshes
    /\ CutWithCellMeshes Meshes (FInternalSurfaceMaterials.GlobalMaterialID mat')
         [(0, -1)] (FCellMeshes_of_cutter n M (Some XF)) (ensure_Proximity c) bDef sp
       = Some (ret, Cut)
    /\ c' = ReindexMaterials Cut.
Proof.
  unfold CutWithMesh. intros Hrun.
  destruct Cutter as [M|]; [|done]. cbn in Hrun.
  destruct (set_default_uv_scale _ _ _) as [m|]; [|done]. cbn in Hrun.
  destruct (Init _ _ _) as [Meshes|]; [|done]. cbn in Hrun.
  destruct (CutWithCellMeshes _ _ _ _ _ _ _) as [[idx Cut]|] eqn:Hcut; [|done].
  cbn in Hrun. injection Hrun as <- <- <-. by exists M, Meshes, Cut.
Qed.

Lemma CutMultipleWithMultiplePlanes_inv GroutMesh Planes mat c targets Grout sp T n bDef
    ret c' mat' :
  CutMultipleWithMultiplePlanes GroutMesh Planes mat c targets Grout sp T n bDef
    = Some (ret, c', mat') ->
  exists Meshes Cut,
    set_default_uv_scale bDef mat c = Some mat'
    /\ Init (ensure_Proximity c) targets T = Some Meshes
    /\ CutWithMultiplePlanes (GroutMesh mat') Meshes Planes Grout sp (ensure_Proximity c)
         n (FInternalSurfaceMaterials.GlobalMaterialID mat') bDef
       = Some (ret, Cut)
    /\ c' = ReindexMaterials Cut.
Proof.
  unfold CutMultipleWithMultiplePlanes. intros Hrun.
  destruct (set_default_uv_scale _ _ _) as [m|]; [|done]. cbn in Hrun.
  destruct (Init _ _ _) as [Meshes|]; [|done]. cbn in Hrun.
  destruct (CutWithMultiplePlanes _ _ _ _ _ _ _ _ _) as [[idx Cut]|] eqn:Hcut; [|done].
  cbn in Hrun. injection Hrun as <- <- <-. by exists Meshes, Cut.
Qed.

(** C2.  Whenever [CutWithCellMeshes] returns, the index it returns is -1
    exactly if the geometry group of the collection is as it was; otherwise
    it is the previous number of geometries, and the geometry group is the
    previous one followed by new rows, the first of which has that index.
    The same holds of [CutWithMultiplePlanes] in both of its paths, and the
    boundary operations [CutMultipleWithPlanarCells], [CutWithMesh] and
    [CutMultipleWithMultiplePlanes] return the index of the driver they
    call, for the collection they pass to [ReindexMaterials]. *)
Theorem CutWithCellMeshes_returns_first_new_geometry :
  (forall Meshes mat conn Cells c bDef sp ret c',
      CutWithCellMeshes Meshes mat conn Cells c bDef sp = Some (ret, c') ->
      (ret = -1 <-> GeometryGroup c' = GeometryGroup c)
      /\ (ret <> -1 ->
          ret = Num (GeometryGroup c)
          /\ exists g New, GeometryGroup c' = GeometryGroup c ++ g :: New))
  /\ (forall GroutMesh Meshes Planes Grout sp c n mat bDef ret c',
        CutWithMultiplePlanes GroutMesh Meshes Planes Grout sp c n mat bDef
          = Some (ret, c') ->
        (ret = -1 <-> GeometryGroup c' = GeometryGroup c)
        /\ (ret <> -1 ->
            ret = Num (GeometryGroup c)
            /\ exists g New, GeometryGroup c' = GeometryGroup c ++ g :: New))
  /\ (forall MakeCells PlaneCells mat Source targets sp T bDef ret Source' mat',
        CutMultipleWithPlanarCells MakeCells PlaneCells mat Source targets sp T bDef
          = Some (ret, Source', mat') ->
        exists Cut, Source' = ReindexMaterials Cut
                    /\ first_new_geometry Source Cut ret)
  /\ (forall Cutter XF mat c targets sp T n bDef ret c' mat',
        CutWithMesh Cutter XF mat c targets sp T n bDef = Some (ret, c', mat') ->
        exists Cut, c' = ReindexMaterials Cut /\ first_new_geometry c Cut ret)
  /\ (forall GroutMesh Planes mat c targets Grout sp T n bDef ret c' mat',
        CutMultipleWithMultiplePlanes GroutMesh Planes mat c targets Grout sp T n bDef
          = Some (ret, c', mat') ->
        exists Cut, c' = ReindexMaterials Cut /\ first_new_geometry c Cut ret).
Proof.
  split; [|split; [|split; [|split]]].
  - intros * Hrun. apply first_new_geometry_iff.
    by eapply CutWithCellMeshes_first_new.
  - intros * Hrun. apply first_new_geometry_iff.
    by eapply CutWithMultiplePlanes_first_new.
  - intros * Hrun. apply CutMultipleWithPlanarCells_inv in Hrun
      as (Meshes & Cut & _ & _ & Hcut & ->).
    exists Cut. split; [done|].
    apply CutWithCellMeshes_first_new in Hcut.
    unfold first_new_geometry in *. by rewrite ensure_Proximity_geometry in Hcut.
  - intros * Hrun. apply CutWithMesh_inv in Hrun
      as (M & Meshes & Cut & _ & _ & _ & Hcut & ->).
    exists Cut. split; [done|].
    apply CutWithCellMeshes_first_new in Hcut.
    unfold first_new_geometry in *. by rewrite ensure_Proximity_geometry in Hcut.
  - intros * Hrun. apply CutMultipleWithMultiplePlanes_inv in Hrun
      as (Meshes & Cut & _ & _ & Hcut & ->).
    exists Cut. split; [done|].
    apply CutWithMultiplePlanes_first_new in Hcut.
    unfold first_new_geometry in *. by rewrite ensure_Proximity_geometry in Hcut.
Qed.

(** *** Pieces that are not cut *)

Lemma keeps_transforms_append Before F M sp par name c mat idx c' M' first :
  keeps_transforms Before c first ->
  AppendToCollection F M sp par name c mat = Some (idx, c', M') ->
  keeps_transforms Before c' (first_created first idx).
Proof.
  intros Hk Hrun i Hi.
  apply AppendToCollection_inv in Hrun
    as [(_ & _ & -> & _)|(_ & _ & _ & T & -> & _ & Hold)]; [by apply Hk|].
  destruct (Hk i Hi) as [r Hr]. destruct (Hold i r Hr) as (r' & Hr' & _).
  cbn. eauto.
Qed.

Lemma cut_surface_keeps_transforms mat conn Cells bProx bDef sp st Surface st' :
  cut_surface mat conn Cells bProx bDef sp st Surface = Some st' ->
  forall i : Z, is_Some (lookupZ (TransformGroup (csCollection st)) i) ->
                is_Some (lookupZ (TransformGroup (csCollection st')) i).
Proof.
  intros Hrun.
  eapply (cut_surface_Inv (keeps_transforms (csCollection st))); [| | |exact Hrun].
  - intros. by eapply keeps_transforms_append.
  - intros c1 first P P' A B Hk _. exact Hk.
  - intros i Hi. exact Hi.
Qed.

Lemma cut_surface_uncut mat conn Cells bProx bDef sp st Surface :
  NonEmptyResults (boolean_results Cells Surface) < 2 ->
  is_Some (lookupZ (TransformGroup (csCollection st)) (FMeshData.TransformIndex Surface)) ->
  cut_surface mat conn Cells bProx bDef sp st Surface = Some st.
Proof.
  intros Hfew [t Ht]. unfold cut_surface. rewrite Ht. cbn.
  destruct (decide _); [lia|done].
Qed.

Lemma cut_surfaces_filter mat conn Cells bProx bDef sp Meshes : forall st,
  (forall S, S ∈ Meshes ->
     is_Some (lookupZ (TransformGroup (csCollection st)) (FMeshData.TransformIndex S))) ->
  for_each (cut_surface mat conn Cells bProx bDef sp) Meshes st
  = for_each (cut_surface mat conn Cells bProx bDef sp)
      (filter (was_cut Cells) Meshes) st.
Proof.
  induction Meshes as [|S Meshes IH]; intros st Hvalid; [reflexivity|].
  rewrite filter_cons. unfold was_cut at 1.
  destruct (decide (~ NonEmptyResults (boolean_results Cells S) < 2)) as [Hcut|Hun].
  - cbn. destruct (cut_surface _ _ _ _ _ _ st S) as [st'|] eqn:Hstep; [|reflexivity].
    cbn. apply IH. intros S' HS'.
    eapply cut_surface_keeps_transforms; [exact Hstep|].
    apply Hvalid. by right.
  - cbn. rewrite cut_surface_uncut; [|lia|apply Hvalid; by left].
    cbn. apply IH. intros S' HS'. apply Hvalid. by right.
Qed.

Lemma write_cell_empty Surface sp mat st CellIdx r :
  lookupZ (clBooleanResults st) CellIdx = Some r -> non_empty r = false ->
  write_cell Surface sp mat st CellIdx = Some st.
Proof. intros Hr He. unfold write_cell. rewrite Hr. cbn. by rewrite He. Qed.

Lemma cut_piece_with_plane_uncut Plane Cells bProx ToCut Links ToCutIdx Surface Cell0 Cell1 :
  lookupZ ToCut ToCutIdx = Some Surface ->
  CellMeshes Cells = [Cell0; Cell1] ->
  TriangleCount (MeshBoolean (FMeshData.AugMesh Surface) Cell0 (boolean_op Cells 0)) = 0
  \/ TriangleCount (MeshBoolean (FMeshData.AugMesh Surface) Cell1 (boolean_op Cells 1)) = 0 ->
  cut_piece_with_plane Plane Cells bProx (ToCut, Links) ToCutIdx = Some (ToCut, Links).
Proof.
  intros HS Hcells Hempty. unfold cut_piece_with_plane. rewrite HS. cbn.
  destruct (PlaneIntersectsBounds _ _); [|done].
  unfold plane_booleans. rewrite Hcells.
  destruct (decide (TriangleCount (MeshBoolean _ Cell0 _) = 0)); [done|].
  destruct (decide (TriangleCount (MeshBoolean _ Cell1 _) = 0)); [done|].
  by destruct Hempty.
Qed.

(** X24.  A target piece fewer than two of whose boolean results have a
    triangle is left as it is.  In [CutWithCellMeshes] its iteration
    changes neither the collection (geometry, faces and their visibility,
    proximity) nor the first index nor the list of geometry to remove, and
    the whole call is the call on the pieces that were cut.  In
    [CutWithMultiplePlanes] the iteration for a piece and a plane with an
    empty result leaves the array of pieces and the proximity multimap as
    they are.  A boolean result without triangles is never appended:
    the loop that writes the results skips it, and [AppendToCollection]
    appends nothing for a mesh without triangles. *)
Theorem uncut_piece_is_left_untouched :
  (forall mat conn Cells bProx bDef sp st Surface,
      NonEmptyResults (boolean_results Cells Surface) < 2 ->
      is_Some (lookupZ (TransformGroup (csCollection st))
                       (FMeshData.TransformIndex Surface)) ->
      cut_surface mat conn Cells bProx bDef sp st Surface = Some st)
  /\ (forall Meshes mat conn Cells c bDef sp,
        (forall S, S ∈ Meshes ->
           is_Some (lookupZ (TransformGroup c) (FMeshData.TransformIndex S))) ->
        CutWithCellMeshes Meshes mat conn Cells c bDef sp
        = CutWithCellMeshes (filter (was_cut Cells) Meshes) mat conn Cells c bDef sp)
  /\ (forall Plane Cells bProx ToCut Links ToCutIdx Surface Cell0 Cell1,
        lookupZ ToCut ToCutIdx = Some Surface ->
        CellMeshes Cells = [Cell0; Cell1] ->
        TriangleCount (MeshBoolean (FMeshData.AugMesh Surface) Cell0 (boolean_op Cells 0)) = 0
        \/ TriangleCount (MeshBoolean (FMeshData.AugMesh Surface) Cell1 (boolean_op Cells 1)) = 0 ->
        cut_piece_with_plane Plane Cells bProx (ToCut, Links) ToCutIdx
        = Some (ToCut, Links))
  /\ (forall Surface sp mat st CellIdx r,
        lookupZ (clBooleanResults st) CellIdx = Some r -> non_empty r = false ->
        write_cell Surface sp mat st CellIdx = Some st)
  /\ (forall F M sp par name c mat,
        TriangleCount M = 0 ->
        AppendToCollection F M sp par name c mat = Some (-1, c, M)).
Proof.
  split; [|split; [|split; [|split]]].
  - intros. by apply cut_surface_uncut.
  - intros Meshes mat conn Cells c bDef sp Hvalid. unfold CutWithCellMeshes.
    by rewrite cut_surfaces_filter.
  - intros. by eapply cut_piece_with_plane_uncut.
  - intros. by eapply write_cell_empty.
  - intros. by apply AppendToCollection_empty.
Qed.

End DriverFacts.

(** ** Proximity is symmetric *)

Section MultimapFacts.

Lemma links_nil A B : links [] A B = 0%nat.
Proof. reflexivity. Qed.

Lemma links_cons p M A B :
  links (p :: M) A B = ((if decide (p = (A, B)) then 1 else 0) + links M A B)%nat.
Proof. unfold links. rewrite filter_cons. by destruct (decide (p = (A, B))). Qed.

Lemma links_app M N A B : links (M ++ N) A B = (links M A B + links N A B)%nat.
Proof. unfold links. by rewrite filter_app, length_app. Qed.

Lemma links_RemoveSingle M K V A B :
  links (RemoveSingle M K V) A B
  = if decide ((A, B) = (K, V)) then Nat.pred (links M K V) else links M A B.
Proof.
  induction M as [|p M IH]; [by destruct (decide _)|].
  cbn [RemoveSingle]. destruct (decide (p = (K, V))) as [->|Hp].
  - rewrite !links_cons.
    destruct (decide ((A, B) = (K, V))) as [[= -> ->]|Hne].
    + destruct (decide ((K, V) = (K, V))); [done|congruence].
    + destruct (decide ((K, V) = (A, B))); [congruence|done].
  - rewrite !links_cons, IH.
    destruct (decide ((A, B) = (K, V))) as [[= -> ->]|Hne].
    + destruct (decide (p = (K, V))); [done|]. done.
    + done.
Qed.

Lemma links_positive M A B : (0 < links M A B)%nat <-> (A, B) ∈ M.
Proof.
  unfold links. split.
  - intros Hpos. destruct (filter _ M) as [|p l] eqn:Hf; [cbn in Hpos; lia|].
    assert (Hin : p ∈ filter (fun p => p = (A, B)) M) by (rewrite Hf; by left).
    apply list_elem_of_filter in Hin as [-> Hin]. done.
  - intros Hin.
    assert (Hf : (A, B) ∈ filter (fun p => p = (A, B)) M)
      by (by apply list_elem_of_filter).
    destruct (filter _ M); [by apply elem_of_nil in Hf|cbn; lia].
Qed.

Lemma multimap_symmetric_elem M A B :
  multimap_symmetric M -> (A, B) ∈ M -> (B, A) ∈ M.
Proof.
  intros Hs Hin. apply links_positive. rewrite <- Hs. by apply links_positive.
Qed.

Lemma multimap_symmetric_nil : multimap_symmetric [].
Proof. intros A B. reflexivity. Qed.

Lemma ProxLink_symmetric M A B :
  multimap_symmetric M -> multimap_symmetric (ProxLink M A B).
Proof.
  intros Hs X Y. unfold ProxLink, MultiAdd. rewrite !links_cons.
  pose proof (Hs X Y) as HXY.
  destruct (decide ((A, B) = (X, Y))) as [E1|E1];
    destruct (decide ((B, A) = (X, Y))) as [E2|E2];
    destruct (decide ((A, B) = (Y, X))) as [E3|E3];
    destruct (decide ((B, A) = (Y, X))) as [E4|E4];
    simplify_eq; lia.
Qed.

Lemma ProxUnlink_symmetric M A B :
  multimap_symmetric M -> multimap_symmetric (ProxUnlink M A B).
Proof.
  intros Hs X Y. unfold ProxUnlink. rewrite !links_RemoveSingle.
  pose proof (Hs A B) as HAB. pose proof (Hs X Y) as HXY.
  destruct (decide ((X, Y) = (B, A))) as [E1|E1];
    destruct (decide ((Y, X) = (B, A))) as [E2|E2];
    destruct (decide ((X, Y) = (A, B))) as [E3|E3];
    destruct (decide ((Y, X) = (A, B))) as [E4|E4];
    destruct (decide ((B, A) = (A, B))) as [E5|E5];
    simplify_eq; lia.
Qed.

End MultimapFacts.

Section ProximityFacts.
Context `{Engine}.
#[local] Set Warnings "-clear-no-such-hyp".

Lemma fold_left_preserves {A S : Type} (Q : S -> Prop) (f : S -> A -> S) (l : list A) :
  (forall s a, Q s -> Q (f s a)) -> forall s, Q s -> Q (fold_left f l s).
Proof.
  intros Hf. induction l as [|a l IH]; intros s HQ; [done|].
  cbn. apply IH. by apply Hf.
Qed.

Lemma relink_neighbors_symmetric ToCut ResultIndices ToCutIdx M :
  multimap_symmetric M ->
  multimap_symmetric (relink_neighbors ToCut ResultIndices ToCutIdx M).
Proof.
  intros Hs. unfold relink_neighbors.
  apply (fold_left_preserves multimap_symmetric); [|done].
  intros M1 Nbr H1.
  apply (fold_left_preserves multimap_symmetric).
  - intros M2 ResultIdx H2. destruct (IsNeighbor _ _ _); [|done].
    by apply ProxLink_symmetric.
  - by apply ProxUnlink_symmetric.
Qed.

Lemma link_results_symmetric ToCut ResultIndices ParentIndices M M' :
  multimap_symmetric M ->
  link_results ToCut ResultIndices ParentIndices M = Some M' ->
  multimap_symmetric M'.
Proof.
  intros Hs. unfold link_results.
  assert (Hloop : forall pairs,
    for_each (fun Proximity '(FirstIdx, SecondIdx) =>
        FirstParent ← lookupZ ParentIndices FirstIdx;
        SecondParent ← lookupZ ParentIndices SecondIdx;
        if decide (FirstParent = SecondParent) then Some Proximity
        else
          RF ← lookupZ ResultIndices FirstIdx;
          RS ← lookupZ ResultIndices SecondIdx;
          if IsNeighbor ToCut RF RS then Some (ProxLink Proximity RF RS)
          else Some Proximity) pairs M = Some M' ->
    multimap_symmetric M').
  { intros pairs Hrun.
    refine (for_each_preserves multimap_symmetric _ _ _ _ _ Hs Hrun).
    intros M1 [i j] M2 H1. cbn.
    destruct (lookupZ ParentIndices i) as [pi|]; [|done]. cbn.
    destruct (lookupZ ParentIndices j) as [pj|]; [|done]. cbn.
    destruct (decide (pi = pj)); [by intros [= <-]|].
    destruct (lookupZ ResultIndices i) as [ri|]; [|done]. cbn.
    destruct (lookupZ ResultIndices j) as [rj|]; [|done]. cbn.
    destruct (IsNeighbor _ _ _); intros [= <-]; [by apply ProxLink_symmetric|done]. }
  destruct ResultIndices as [|R0 [|R1 [|R2 Rs]]]; try apply Hloop.
  intros [= <-]. by apply ProxLink_symmetric.
Qed.

Lemma cut_piece_with_plane_symmetric Plane Cells bProx ToCut M ToCutIdx ToCut' M' :
  multimap_symmetric M ->
  cut_piece_with_plane Plane Cells bProx (ToCut, M) ToCutIdx = Some (ToCut', M') ->
  multimap_symmetric M'.
Proof.
  intros Hs. unfold cut_piece_with_plane.
  destruct (lookupZ ToCut ToCutIdx) as [Surface|]; [|done]. cbn.
  destruct (PlaneIntersectsBounds _ _); [|by intros [= <- <-]].
  destruct (plane_booleans _ _) as [[[R0 R1]|]|]; [|by intros [= <- <-]|done]. cbn.
  destruct (storeZ _ _ _) as [ToCut1|]; [|done]. cbn.
  match goal with
  | |- context [mbind _ ?m] => destruct m as [pc|]
  end; [|done]. cbn.
  destruct bProx.
  - destruct (link_results _ _ _ _) as [M1|] eqn:Hlink; [|done]. cbn.
    intros [= <- <-]. eapply link_results_symmetric; [|exact Hlink].
    by apply relink_neighbors_symmetric.
  - by intros [= <- <-].
Qed.

Lemma plane_loop_symmetric bProx Planes st st' :
  multimap_symmetric st.2 ->
  for_each (cut_with_plane bProx) Planes st = Some st' ->
  multimap_symmetric st'.2.
Proof.
  intros Hs Hrun.
  refine (for_each_preserves (fun st => multimap_symmetric st.2) _ _ _ _ _ Hs Hrun).
  intros s Plane s' Hs1. unfold cut_with_plane.
  apply (for_each_preserves (fun st => multimap_symmetric st.2)); [|done].
  intros [T M] idx [T' M'] HM. cbn. by apply cut_piece_with_plane_symmetric.
Qed.

(** *** The attribute of the collection *)

Lemma proximity_symmetric_grow P :
  proximity_symmetric (Some P) -> proximity_symmetric (Some (P ++ [∅])).
Proof.
  intros Hs P' [= <-] A B sA HA HB.
  destruct (decide (A = Num P)) as [->|Hne].
  - rewrite lookupZ_app_last in HA. injection HA as <-. set_solver.
  - assert (HA' : lookupZ P A = Some sA).
    { rewrite <- HA. symmetry. apply lookupZ_app_frame; [done|done|done]. }
    destruct (Hs P eq_refl A B sA HA' HB) as (sB & HsB & HAB).
    exists sB. split; [by apply lookupZ_app_l|done].
Qed.

Lemma proximity_symmetric_append F M sp par name c mat idx c' M' :
  proximity_symmetric (Proximity c) ->
  AppendToCollection F M sp par name c mat = Some (idx, c', M') ->
  proximity_symmetric (Proximity c').
Proof.
  intros Hs Hrun.
  apply AppendToCollection_inv in Hrun
    as [(_ & _ & -> & _)|(_ & _ & _ & T & -> & _)]; [done|].
  cbn. destruct (Proximity c) as [P|]; [|by intros P' [=]].
  by apply proximity_symmetric_grow.
Qed.

Lemma add_proximity_pair_lookup P A B P' :
  add_proximity_pair P A B = Some P' ->
  is_Some (lookupZ P A) /\ is_Some (lookupZ P B)
  /\ forall X, lookupZ P' X
               = (fun s => s ∪ (if decide (X = A) then {[B]} else ∅)
                             ∪ (if decide (X = B) then {[A]} else ∅))
                 <$> lookupZ P X.
Proof.
  unfold add_proximity_pair.
  destruct (modifyZ P A _) as [P1|] eqn:H1; [|done]. cbn. intros H2.
  apply modifyZ_inv in H1 as (sA & HA & ->).
  apply modifyZ_inv in H2 as (sB & HB & ->).
  apply lookupZ_Some in HA as HAr.
  assert (HB0 : is_Some (lookupZ P B)).
  { destruct (decide (A = B)) as [->|Hne]; [eauto|].
    rewrite lookupZ_insert_ne in HB by lia. eauto. }
  split; [eauto|]. split; [done|]. intros X.
  destruct (decide (X = B)) as [->|HXB].
  - rewrite (lookupZ_insert_eq _ _ sB) by done.
    destruct (decide (B = A)) as [->|HBA].
    + rewrite (lookupZ_insert_eq _ _ sA) in HB by done. injection HB as <-.
      rewrite HA. cbn. f_equal.
    + rewrite lookupZ_insert_ne in HB by lia. rewrite HB. cbn. f_equal. set_solver.
  - apply lookupZ_Some in HB as HBr.
    rewrite lookupZ_insert_ne by lia.
    destruct (decide (X = A)) as [->|HXA].
    + rewrite (lookupZ_insert_eq _ _ sA) by done. rewrite HA. cbn. f_equal. set_solver.
    + rewrite lookupZ_insert_ne by lia.
      destruct (lookupZ P X); cbn; [f_equal; set_solver|done].
Qed.

Lemma add_proximity_pair_symmetric P A B P' :
  proximity_symmetric (Some P) ->
  add_proximity_pair P A B = Some P' ->
  proximity_symmetric (Some P').
Proof.
  intros Hs Hadd Q [= <-] X Y sX HX HY.
  apply add_proximity_pair_lookup in Hadd as ([sA HA] & [sB HB] & Hlook).
  rewrite Hlook in HX.
  destruct (lookupZ P X) as [s|] eqn:HPX; [|done]. cbn in HX. injection HX as <-.
  assert (Hcases : Y ∈ s \/ (X = A /\ Y = B) \/ (X = B /\ Y = A)).
  { destruct (decide (X = A)), (decide (X = B)); set_solver. }
  destruct Hcases as [Hin|[[-> ->]|[-> ->]]].
  - destruct (Hs P eq_refl X Y s HPX Hin) as (sY & HsY & HXY).
    eexists. rewrite Hlook, HsY. cbn. split; [reflexivity|]. set_solver.
  - eexists. rewrite Hlook, HB. cbn. split; [reflexivity|].
    destruct (decide (B = B)); [|done]. set_solver.
  - eexists. rewrite Hlook, HA. cbn. split; [reflexivity|].
    destruct (decide (A = A)); [|done]. set_solver.
Qed.

Lemma CutWithCellMeshes_symmetric Meshes mat conn Cells c bDef sp ret c' :
  proximity_symmetric (Proximity c) ->
  CutWithCellMeshes Meshes mat conn Cells c bDef sp = Some (ret, c') ->
  proximity_symmetric (Proximity c').
Proof.
  intros Hs Hrun.
  eapply (CutWithCellMeshes_Inv (fun c _ => proximity_symmetric (Proximity c)));
    [| | | |exact Hrun]; cbn.
  - intros. by eapply proximity_symmetric_append.
  - intros c1 first P P' A B. cbn. by apply add_proximity_pair_symmetric.
  - intros c1 first Faces. done.
  - exact Hs.
Qed.

(** *** The links written after the planes *)

Lemma write_link_inv map P k v P1 :
  write_link map P (k, v) = Some P1 ->
  exists K V sK,
    lookupZ map k = Some K /\ lookupZ map v = Some V /\ lookupZ P K = Some sK
    /\ forall X, lookupZ P1 X
                 = if decide (X = K) then Some (sK ∪ {[V]}) else lookupZ P X.
Proof.
  unfold write_link. cbn.
  destruct (lookupZ map k) as [K|]; [|done]. cbn.
  destruct (lookupZ map v) as [V|]; [|done]. cbn.
  intros Hm. apply modifyZ_inv in Hm as (sK & HK & ->).
  exists K, V, sK. repeat split; try done.
  intros X. apply lookupZ_Some in HK as HKr.
  destruct (decide (X = K)) as [->|Hne].
  - by apply (lookupZ_insert_eq _ _ sK).
  - apply lookupZ_insert_ne; lia.
Qed.

Lemma write_links_lookup map Links : forall P P',
  for_each (write_link map) Links P = Some P' ->
  (forall k v, (k, v) ∈ Links ->
     exists K V, lookupZ map k = Some K /\ lookupZ map v = Some V
                 /\ is_Some (lookupZ P K))
  /\ (forall X, is_Some (lookupZ P' X) <-> is_Some (lookupZ P X))
  /\ (forall X sX sX', lookupZ P X = Some sX -> lookupZ P' X = Some sX' ->
        forall B, B ∈ sX' <->
                  B ∈ sX \/ exists k v, (k, v) ∈ Links /\ lookupZ map k = Some X
                                        /\ lookupZ map v = Some B).
Proof.
  induction Links as [|[k v] L IH]; intros P P' Hrun.
  - cbn in Hrun. injection Hrun as <-. split; [|split].
    + intros k v Hin. by apply elem_of_nil in Hin.
    + done.
    + intros X sX sX' H1 H2 B. rewrite H1 in H2. injection H2 as <-.
      split; [by left|]. intros [Hin|(k & v & Hin & _)]; [done|].
      by apply elem_of_nil in Hin.
  - cbn in Hrun. destruct (write_link map P (k, v)) as [P1|] eqn:Hw; [|done].
    cbn in Hrun. apply IH in Hrun as (IH1 & IH2 & IH3).
    apply write_link_inv in Hw as (K & V & sK & HK & HV & HPK & HP1).
    assert (Hdom : forall X, is_Some (lookupZ P1 X) <-> is_Some (lookupZ P X)).
    { intros X. rewrite HP1. destruct (decide (X = K)) as [->|]; [|done].
      rewrite HPK. split; eauto. }
    split; [|split].
    + intros k' v' Hin. apply elem_of_cons in Hin as [[= -> ->]|Hin].
      * exists K, V. rewrite HPK. eauto.
      * destruct (IH1 k' v' Hin) as (K' & V' & HK' & HV' & HS).
        exists K', V'. by rewrite <- Hdom.
    + intros X. by rewrite IH2, Hdom.
    + intros X sX sX' HX HX' B.
      destruct (decide (X = K)) as [->|Hne].
      * rewrite HPK in HX. injection HX as <-.
        assert (H1 : lookupZ P1 K = Some (sK ∪ {[V]})).
        { rewrite HP1. by destruct (decide (K = K)). }
        rewrite (IH3 K _ _ H1 HX' B). rewrite elem_of_union, elem_of_singleton.
        split.
        -- intros [[Hin| ->]|(k' & v' & Hin & Hk' & Hv')]; [by left| |].
           ++ right. exists k, v. split; [by left|done].
           ++ right. exists k', v'. split; [by right|done].
        -- intros [Hin|(k' & v' & Hin & Hk' & Hv')]; [by left; left|].
           apply elem_of_cons in Hin as [[= -> ->]|Hin].
           ++ left. right. congruence.
           ++ right. eauto.
      * assert (H1 : lookupZ P1 X = Some sX).
        { rewrite HP1. by destruct (decide (X = K)). }
        rewrite (IH3 X _ _ H1 HX' B). split.
        -- intros [Hin|(k' & v' & Hin & Hk' & Hv')]; [by left|].
           right. exists k', v'. split; [by right|done].
        -- intros [Hin|(k' & v' & Hin & Hk' & Hv')]; [by left|].
           apply elem_of_cons in Hin as [[= -> ->]|Hin]; [congruence|].
           right. eauto.
Qed.

Lemma write_links_symmetric map Links P P' :
  multimap_symmetric Links ->
  proximity_symmetric (Some P) ->
  for_each (write_link map) Links P = Some P' ->
  proximity_symmetric (Some P').
Proof.
  intros HL HP Hrun Q [= <-] X B sX' HX' HB.
  apply write_links_lookup in Hrun as (Hvalid & Hdom & Hsets).
  assert (HX : is_Some (lookupZ P X)) by (apply Hdom; eauto).
  destruct HX as [sX HX].
  destruct (proj1 (Hsets X sX sX' HX HX' B) HB) as [Hin|(k & v & Hin & Hk & Hv)].
  - destruct (HP P eq_refl X B sX HX Hin) as (sB & HsB & HXB).
    assert (HB' : is_Some (lookupZ P' B)) by (apply Hdom; eauto).
    destruct HB' as [sB' HB']. exists sB'. split; [done|].
    apply (Hsets B sB sB' HsB HB'). by left.
  - apply (multimap_symmetric_elem _ _ _ HL) in Hin.
    destruct (Hvalid v k Hin) as (K & V & HK & HV & [sB HsB]).
    assert (K = B) as -> by congruence.
    assert (HB' : is_Some (lookupZ P' B)) by (apply Hdom; eauto).
    destruct HB' as [sB' HB']. exists sB'. split; [done|].
    apply (Hsets B sB sB' HsB HB'). right. eauto.
Qed.

Lemma CutWithMultiplePlanes_no_grout_symmetric Meshes Planes sp c mat bDef ret c' :
  proximity_symmetric (Proximity c) ->
  CutWithMultiplePlanes_no_grout Meshes Planes sp c mat bDef = Some (ret, c') ->
  proximity_symmetric (Proximity c').
Proof.
  intros Hs. unfold CutWithMultiplePlanes_no_grout.
  destruct (for_each _ Planes _) as [[ToCut Links]|] eqn:Hplanes; [|done]. cbn.
  assert (HL : multimap_symmetric Links).
  { exact (plane_loop_symmetric _ _ (Meshes, []) (ToCut, Links)
             multimap_symmetric_nil Hplanes). }
  destruct (for_each _ Meshes _) as [st|] eqn:Happ; [|done]. cbn.
  assert (Hst : proximity_symmetric (Proximity (asCollection st))).
  { refine (append_phase_Inv (fun c _ => proximity_symmetric (Proximity c))
              _ _ _ _ _ _ _ _ Happ); [|exact Hs].
    intros. by eapply proximity_symmetric_append. }
  destruct (bool_decide _).
  - destruct (Proximity (asCollection st)) as [P|] eqn:HP; [|done]. cbn.
    destruct (for_each _ Links P) as [P'|] eqn:Hlinks; [|done]. cbn.
    destruct (hide_superseded _ _) as [c1|] eqn:Hhide; [|done]. cbn.
    intros [= <- <-]. apply hide_superseded_geometry in Hhide as [_ ->]. cbn.
    by eapply write_links_symmetric.
  - cbn. destruct (hide_superseded _ _) as [c1|] eqn:Hhide; [|done]. cbn.
    intros [= <- <-]. by apply hide_superseded_geometry in Hhide as [_ ->].
Qed.

Lemma CutWithMultiplePlanes_symmetric GroutMesh Meshes Planes Grout sp c n mat bDef ret c' :
  proximity_symmetric (Proximity c) ->
  CutWithMultiplePlanes GroutMesh Meshes Planes Grout sp c n mat bDef = Some (ret, c') ->
  proximity_symmetric (Proximity c').
Proof.
  intros Hs. unfold CutWithMultiplePlanes. destruct (0 <? Grout)%float.
  - by apply CutWithCellMeshes_symmetric.
  - by apply CutWithMultiplePlanes_no_grout_symmetric.
Qed.

Lemma ensure_Proximity_symmetric c :
  proximity_symmetric (Proximity c) -> proximity_symmetric (Proximity (ensure_Proximity c)).
Proof.
  unfold ensure_Proximity. destruct (Proximity c) eqn:HP; [by rewrite HP|].
  intros _ P [= <-] A B sA HA HB. exfalso.
  unfold lookupZ in HA. destruct (decide (0 <= A)); [|done].
  apply lookup_replicate in HA as [-> _]. set_solver.
Qed.

Lemma proximity_symmetric_iff P A B sA sB :
  proximity_symmetric (Some P) ->
  lookupZ P A = Some sA -> lookupZ P B = Some sB -> (B ∈ sA <-> A ∈ sB).
Proof.
  intros Hs HA HB. split; intros Hin.
  - destruct (Hs P eq_refl A B sA HA Hin) as (s & Hl & Hi). congruence.
  - destruct (Hs P eq_refl B A sB HB Hin) as (s & Hl & Hi). congruence.
Qed.

(** X25.  The writes of the cut drivers are mirrored.  [ProxLink] and
    [ProxUnlink] keep the multimap of [CutWithMultiplePlanes] symmetric (a
    pair is in it as often as the mirrored pair), so it is symmetric after
    the loop over the planes.  The write of a pair in [CutWithCellMeshes]
    and the write of the links of a symmetric multimap keep the proximity
    of the collection symmetric, and so do [CutWithCellMeshes] and
    [CutWithMultiplePlanes] as a whole. *)
Theorem cut_drivers_keep_Proximity_symmetric :
  (forall M A B,
      multimap_symmetric M ->
      multimap_symmetric (ProxLink M A B) /\ multimap_symmetric (ProxUnlink M A B))
  /\ (forall bProx Planes Meshes ToCut Links,
        for_each (cut_with_plane bProx) Planes (Meshes, []) = Some (ToCut, Links) ->
        multimap_symmetric Links)
  /\ (forall P A B P',
        proximity_symmetric (Some P) ->
        add_proximity_pair P A B = Some P' -> proximity_symmetric (Some P'))
  /\ (forall map Links P P',
        multimap_symmetric Links -> proximity_symmetric (Some P) ->
        for_each (write_link map) Links P = Some P' -> proximity_symmetric (Some P'))
  /\ (forall Meshes mat conn Cells c bDef sp ret c',
        proximity_symmetric (Proximity c) ->
        CutWithCellMeshes Meshes mat conn Cells c bDef sp = Some (ret, c') ->
        proximity_symmetric (Proximity c'))
  /\ (forall GroutMesh Meshes Planes Grout sp c n mat bDef ret c',
        proximity_symmetric (Proximity c) ->
        CutWithMultiplePlanes GroutMesh Meshes Planes Grout sp c n mat bDef
          = Some (ret, c') ->
        proximity_symmetric (Proximity c')).
Proof.
  repeat apply conj.
  - intros M A B Hs. split; [by apply ProxLink_symmetric|by apply ProxUnlink_symmetric].
  - intros * Hrun.
    exact (plane_loop_symmetric _ _ (Meshes, []) (ToCut, Links)
             multimap_symmetric_nil Hrun).
  - intros *. apply add_proximity_pair_symmetric.
  - intros *. apply write_links_symmetric.
  - intros *. apply CutWithCellMeshes_symmetric.
  - intros *. apply CutWithMultiplePlanes_symmetric.
Qed.

End ProximityFacts.

(** ** The drivers on the sample collection *)

Section DriversOnSamples.
#[local] Existing Instance Samples.engine.

Lemma CutWithCellMeshes_returns_first_new_geometry_witness :
  (exists c',
     CutWithCellMeshes [FMeshData.mk Samples.tetra_mesh 0 FTransform_Identity] 7 [(0, 1)]
       (mkCellMeshes [Samples.tetra_mesh; Samples.tetra_mesh] (-1) 1)
       (ensure_Proximity Samples.tetra) false 0%float = Some (2, c')
     /\ exists g New,
          GeometryGroup c' = GeometryGroup (ensure_Proximity Samples.tetra) ++ g :: New)
  /\ (exists c',
        CutWithCellMeshes [FMeshData.mk Samples.tetra_mesh 0 FTransform_Identity] 7 [(0, 1)]
          (mkCellMeshes [Samples.unit_triangle 0; Samples.unit_triangle 0] (-1) 1)
          (ensure_Proximity Samples.tetra) false 0%float = Some (-1, c')
        /\ GeometryGroup c' = GeometryGroup (ensure_Proximity Samples.tetra)).
Proof.
  destruct CutWithCellMeshes_returns_first_new_geometry as [Hcut _].
  split.
  - match goal with
    | |- exists c', ?run = _ /\ _ => destruct run as [[ret c']|] eqn:Hrun
    end; [|by vm_compute in Hrun].
    pose proof Hrun as Hval. vm_compute in Hval. injection Hval as Hret _.
    subst ret. exists c'. split; [reflexivity|].
    destruct (Hcut _ _ _ _ _ _ _ _ _ Hrun) as [_ Hnew].
    destruct Hnew as [_ Hex]; [discriminate|]. exact Hex.
  - match goal with
    | |- exists c', ?run = _ /\ _ => destruct run as [[ret c']|] eqn:Hrun
    end; [|by vm_compute in Hrun].
    pose proof Hrun as Hval. vm_compute in Hval. injection Hval as Hret _.
    subst ret. exists c'. split; [reflexivity|].
    destruct (Hcut _ _ _ _ _ _ _ _ _ Hrun) as [Hiff _].
    by apply Hiff.
Defined.

Lemma uncut_piece_is_left_untouched_witness :
  cut_surface 7 [(0, 1)]
    (mkCellMeshes [Samples.unit_triangle 0; Samples.unit_triangle 0] (-1) 1)
    true false 0%float
    (mkCutState (ensure_Proximity Samples.tetra) (-1) [])
    (FMeshData.mk Samples.tetra_mesh 0 FTransform_Identity)
  = Some (mkCutState (ensure_Proximity Samples.tetra) (-1) [])
  /\ AppendToCollection FTransform_Identity (mkMesh [] [] 1) 0%float 0 "root_0"
       Samples.tetra 7 = Some (-1, Samples.tetra, mkMesh [] [] 1).
Proof.
  destruct uncut_piece_is_left_untouched as (Hsurface & _ & _ & _ & Happend).
  split.
  - apply Hsurface.
    + vm_compute. reflexivity.
    + vm_compute. by eexists.
  - apply Happend. reflexivity.
Defined.

(** C1 at a failing input.  On the sample collection, with cells that miss
    every mesh (every boolean result is without triangles) and one plane,
    the plane cut of the target list [0] returns -1 and leaves the
    geometries and the visibility of the faces as they are.  For the
    target list [0; 0] none of the two meshes of bone 0 is cut either, but
    the loop after the planes finds two pieces under transform 0: the call
    returns 2, four geometries have been appended as children of bone 0,
    and the four faces of its geometry are hidden.  The cut with cell
    meshes of the same target list returns -1 and changes neither. *)
Theorem CutWithMultiplePlanes_cuts_a_repeated_target :
  let materials := FInternalSurfaceMaterials.mk 7 1 in
  let planes (targets : list Z) :=
    @CutMultipleWithMultiplePlanes Samples.engine_empty_booleans
      (fun _ _ _ => mkMesh [] [] 1) [(Samples.origin, 0%float)] materials Samples.tetra
      targets 0%float 0%float FTransform_Identity 1 false in
  let cells (targets : list Z) :=
    @CutMultipleWithPlanarCells Samples.engine_empty_booleans
      (fun _ _ => mkCellMeshes [Samples.tetra_mesh; Samples.tetra_mesh] (-1) 1)
      [(0, 1)] materials Samples.tetra targets 0%float FTransform_Identity false in
  (forall Mesh Cell Op,
      TriangleCount (@MeshBoolean Samples.engine_empty_booleans Mesh Cell Op) = 0)
  /\ @Init Samples.engine_empty_booleans (ensure_Proximity Samples.tetra) [0; 0]
       FTransform_Identity
     = Some [FMeshData.mk Samples.tetra_mesh 0 FTransform_Identity;
             FMeshData.mk Samples.tetra_mesh 0 FTransform_Identity]
  /\ Visible <$> FacesGroup Samples.tetra = [true; true; true; true]
  /\ length (GeometryGroup Samples.tetra) = 2%nat
  /\ (exists c', planes [0] = Some (-1, c', materials)
                 /\ GeometryGroup c' = GeometryGroup Samples.tetra
                 /\ FacesGroup c' = FacesGroup Samples.tetra)
  /\ (exists c', planes [0; 0] = Some (2, c', materials)
                 /\ length (GeometryGroup c') = 6%nat
                 /\ Parent <$> drop 2 (TransformGroup c') = [0; 0; 0; 0]
                 /\ Visible <$> take 4 (FacesGroup c') = [false; false; false; false])
  /\ (exists c', cells [0; 0] = Some (-1, c', materials)
                 /\ GeometryGroup c' = GeometryGroup Samples.tetra
                 /\ FacesGroup c' = FacesGroup Samples.tetra).
Proof.
  cbn zeta. split; [done|]. split; [vm_compute; reflexivity|].
  split; [vm_compute; reflexivity|]. split; [reflexivity|].
  split; [|split].
  - eexists. split; [vm_compute; reflexivity|]. split; vm_compute; reflexivity.
  - eexists. split; [vm_compute; reflexivity|]. repeat split; vm_compute; reflexivity.
  - eexists. split; [vm_compute; reflexivity|]. split; vm_compute; reflexivity.
Qed.

End DriversOnSamples.

(** * Further properties *)

(** ** Plane index and material ID, the other way round *)

Section MaterialPlane.
Import FCellMeshesMaterial.

(** X1.  For an [int32] material ID [m], [MaterialToPlane m] is -1 exactly
    if [m >= 0]; for [m < 0] it is the plane index [-(m+1)], which is not
    negative, and [PlaneToMaterial] gives [m] back. *)
Theorem MaterialToPlane_PlaneToMaterial (m : Z) :
  - 2 ^ 31 <= m < 2 ^ 31 ->
  (MaterialToPlane m = -1 <-> m >= 0)
  /\ (m < 0 ->
      MaterialToPlane m = - (m + 1)
      /\ 0 <= MaterialToPlane m < 2 ^ 31
      /\ PlaneToMaterial (MaterialToPlane m) = m).
Proof.
  intros Hm.
  assert (Hneg : m < 0 -> MaterialToPlane m = - (m + 1)).
  { intros Hlt. unfold MaterialToPlane. destruct (decide (m >= 0)); [lia|].
    rewrite (int32_wrap_small (m + 1)) by (unfold int32_range; lia).
    apply int32_wrap_small. unfold int32_range. lia. }
  split.
  - split.
    + intros Heq. destruct (decide (m >= 0)) as [|Hlt]; [done|].
      rewrite Hneg in Heq by lia. lia.
    + intros Hge. unfold MaterialToPlane. by destruct (decide (m >= 0)).
  - intros Hlt. rewrite (Hneg Hlt). split; [done|]. split; [lia|].
    unfold PlaneToMaterial.
    replace (- (m + 1) + 1) with (- m) by lia.
    destruct (decide (m = - 2 ^ 31)) as [->|Hne]; [reflexivity|].
    rewrite (int32_wrap_small (- m)) by (unfold int32_range; lia).
    rewrite Z.opp_involutive. apply int32_wrap_small. unfold int32_range. lia.
Qed.

Lemma MaterialToPlane_PlaneToMaterial_witness :
  (MaterialToPlane (-5) = -1 <-> -5 >= 0)
  /\ (-5 < 0 ->
      MaterialToPlane (-5) = - (-5 + 1)
      /\ 0 <= MaterialToPlane (-5) < 2 ^ 31
      /\ PlaneToMaterial (MaterialToPlane (-5)) = -5).
Proof. apply (MaterialToPlane_PlaneToMaterial (-5)). lia. Defined.

End MaterialPlane.

(** ** Default internal materials: every result is odd *)

Section DefaultMaterialParity.
Import FInternalSurfaceMaterials.

Lemma int32_wrap_odd (z : Z) : Z.odd (int32_wrap z) = Z.odd z.
Proof.
  unfold int32_wrap. rewrite Z.mod_eq by lia.
  rewrite !Z.odd_sub, Z.odd_mul, Z.odd_add.
  change (Z.odd (2 ^ 31)) with false. change (Z.odd (2 ^ 32)) with false.
  cbn. by destruct (Z.odd z).
Qed.

Lemma read_range_all {A : Type} (l : list A) : read_range l 0 (Num l) = Some l.
Proof.
  pose proof (Num_nonneg l).
  rewrite read_range_in by lia.
  unfold Num. rewrite Z.sub_0_r, Nat2Z.id. cbn. by rewrite firstn_all.
Qed.

(** X2.  Whatever the faces of the geometry are, the internal material ID
    that [GetDefaultMaterialIDForGeometry] returns is odd; and for a
    geometry index of -1 or less (all faces are scanned) it returns. *)
Theorem GetDefaultMaterialIDForGeometry_odd
    (Collection : FGeometryCollection) (GeometryIdx : Z) :
  (forall r, GetDefaultMaterialIDForGeometry Collection GeometryIdx = Some r ->
             Z.odd r = true)
  /\ (GeometryIdx <= -1 ->
      is_Some (GetDefaultMaterialIDForGeometry Collection GeometryIdx)).
Proof.
  split.
  - intros r. unfold GetDefaultMaterialIDForGeometry.
    destruct (face_range _ _) as [[FaceStart' FaceEnd]|]; [|done]. cbn.
    destruct (read_range _ _ _) as [faces|]; [|done]. cbn.
    set (M := if decide (most_common (MaterialID <$> faces) = -1) then 0
              else most_common (MaterialID <$> faces)).
    destruct (decide (Z.rem M 2 = 0)) as [He|Ho]; intros [= <-].
    + rewrite int32_wrap_odd, Z.odd_add. 
      assert (Z.odd M = false) as ->; [|done].
      rewrite <- Z.negb_even. apply negb_false_iff, Z.even_spec.
      apply Z.rem_divide in He; [|lia]. destruct He as [k ->]. exists k. lia.
    + destruct (Z.odd M) eqn:Hodd; [done|]. exfalso. apply Ho.
      rewrite <- Z.negb_even in Hodd. apply negb_false_iff, Z.even_spec in Hodd.
      destruct Hodd as [k ->]. rewrite Z.mul_comm. by apply Z.rem_mul.
  - intros Hneg. unfold GetDefaultMaterialIDForGeometry, face_range.
    destruct (decide (GeometryIdx > -1)); [lia|]. cbn.
    rewrite read_range_all. cbn. eauto.
Qed.

Lemma GetDefaultMaterialIDForGeometry_odd_witness :
  is_Some (GetDefaultMaterialIDForGeometry Samples.tetra (-1)).
Proof. apply (GetDefaultMaterialIDForGeometry_odd Samples.tetra (-1)). lia. Defined.

End DefaultMaterialParity.

(** ** Bone volumes and small bones: shapes and failures *)

Section BoneArrays.
Context {F : Type} `{Scalar F}.
Variable TransformPosition : FTransform -> FVector -> FVector3 F.
Variable GlobalMatrices : list FTransformRow -> list Z -> list FTransform.

Lemma Num_seqZ (m n : Z) : 0 <= n -> Num (seqZ m n) = n.
Proof. intros Hn. unfold Num. rewrite length_seqZ. lia. Qed.

(** X3.  The array [FindBoneVolumes] returns has one entry per target, or
    one per transform of the collection when the target list is empty; the
    run is aborted when a target is not a transform of the collection. *)
Theorem FindBoneVolumes_one_entry_per_target
    (Collection : FGeometryCollection) (TransformIndices : list Z) (s : F) :
  (forall OutVolumes,
      FindBoneVolumes TransformPosition GlobalMatrices Collection TransformIndices s
        = Some OutVolumes ->
      (TransformIndices = [] -> Num OutVolumes = Num (TransformGroup Collection))
      /\ (TransformIndices <> [] -> Num OutVolumes = Num TransformIndices))
  /\ (forall t, t ∈ TransformIndices ->
        lookupZ (TransformGroup Collection) t = None ->
        FindBoneVolumes TransformPosition GlobalMatrices Collection TransformIndices s
          = None).
Proof.
  split.
  - intros OutVolumes Hrun. unfold FindBoneVolumes in Hrun.
    apply length_mapM in Hrun. rewrite length_zip, length_seqZ in Hrun.
    assert (Hlen : Num OutVolumes = Num (targets_or_all Collection TransformIndices)).
    { unfold Num in *. lia. }
    rewrite Hlen. split.
    + intros ->. cbn. apply Num_seqZ, Num_nonneg.
    + intros Hne. by destruct TransformIndices.
  - intros t Hin Hnone. unfold FindBoneVolumes.
    assert (Htargets : targets_or_all Collection TransformIndices = TransformIndices).
    { destruct TransformIndices; [by apply elem_of_nil in Hin|done]. }
    rewrite Htargets. apply mapM_None.
    apply list_elem_of_lookup in Hin as [i Hi].
    apply Exists_exists. exists (Z.of_nat i, t). split.
    + apply list_elem_of_lookup. exists i. apply lookup_zip_with_Some.
      exists (Z.of_nat i), t. split; [done|]. split; [|done].
      apply lookup_seqZ. split; [lia|]. apply lookup_lt_Some in Hi. unfold Num. lia.
    + unfold bone_volume. by rewrite Hnone.
Qed.

Lemma for_each_AddIdx (Collection : FGeometryCollection) (Volumes : list F)
    (MinVolume : F) (L : list Z) : forall acc out,
  for_each (AddIdx Collection Volumes MinVolume) L acc = Some out ->
  exists found,
    out = acc ++ found
    /\ found `sublist_of` L
    /\ forall t, t ∈ found ->
         exists row v, lookupZ (TransformGroup Collection) t = Some row
                       /\ TransformToGeometryIndex row > -1
                       /\ lookupZ Volumes t = Some v /\ fltb v MinVolume = true.
Proof.
  induction L as [|t L IH]; intros acc out Hrun.
  - cbn in Hrun. injection Hrun as <-. exists []. rewrite app_nil_r.
    split; [done|]. split; [done|]. intros t Hin. by apply elem_of_nil in Hin.
  - cbn in Hrun.
    destruct (AddIdx Collection Volumes MinVolume acc t) as [acc1|] eqn:Hadd; [|done].
    cbn in Hrun. apply IH in Hrun as (found & -> & Hsub & Hall).
    unfold AddIdx in Hadd.
    destruct (lookupZ (TransformGroup Collection) t) as [row|] eqn:Hrow; [|done].
    cbn in Hadd.
    destruct (decide (TransformToGeometryIndex row > -1)) as [Hgeo|].
    + destruct (lookupZ Volumes t) as [v|] eqn:Hv; [|done]. cbn in Hadd.
      destruct (fltb v MinVolume) eqn:Hlt; injection Hadd as <-.
      * exists (t :: found). rewrite <- app_assoc. split; [done|].
        split; [by apply sublist_skip|].
        intros t' Hin. apply elem_of_cons in Hin as [->|Hin]; [|by apply Hall].
        exists row, v. done.
      * exists found. split; [done|]. split; [by apply sublist_cons|done].
    + injection Hadd as <-. exists found.
      split; [done|]. split; [by apply sublist_cons|done].
Qed.

(** X4.  [FindSmallBones] returns the empty list when the number of
    volumes is not the number of targets (of transforms, for an empty
    target list).  Whenever it returns, the bones it lists are some of the
    targets, in their order, and each of them has geometry and an entry of
    [Volumes] at its own transform index that is below [MinVolume]. *)
Theorem FindSmallBones_lists_targets_with_geometry
    (Collection : FGeometryCollection) (TransformIndices : list Z)
    (Volumes : list F) (MinVolume : F) :
  (Num Volumes <> Num (targets_or_all Collection TransformIndices) ->
   FindSmallBones Collection TransformIndices Volumes MinVolume = Some [])
  /\ (forall OutSmallBones,
        FindSmallBones Collection TransformIndices Volumes MinVolume = Some OutSmallBones ->
        OutSmallBones `sublist_of` targets_or_all Collection TransformIndices
        /\ forall t, t ∈ OutSmallBones ->
             exists row v, lookupZ (TransformGroup Collection) t = Some row
                           /\ TransformToGeometryIndex row > -1
                           /\ lookupZ Volumes t = Some v /\ fltb v MinVolume = true).
Proof.
  assert (Hall : Num (targets_or_all Collection TransformIndices)
                 = if decide (Num TransformIndices = 0)
                   then Num (TransformGroup Collection) else Num TransformIndices).
  { destruct TransformIndices as [|t L]; [|done].
    cbn. apply Num_seqZ, Num_nonneg. }
  split.
  - intros Hne. unfold FindSmallBones. rewrite Hall in Hne.
    destruct (decide (Num TransformIndices = 0)).
    + by destruct (decide (Num Volumes = Num (TransformGroup Collection))).
    + by destruct (decide (Num Volumes = Num TransformIndices)).
  - intros out. unfold FindSmallBones.
    destruct (decide (Num TransformIndices = 0)) as [Hz|Hnz].
    + assert (TransformIndices = []) as ->.
      { destruct TransformIndices; [done|]. unfold Num in Hz. cbn in Hz. lia. }
      cbn [targets_or_all].
      destruct (decide (Num Volumes = Num (TransformGroup Collection))).
      * intros Hrun. apply for_each_AddIdx in Hrun as (found & -> & Hsub & Hfound).
        done.
      * intros [= <-]. split; [apply sublist_nil_l|].
        intros t Hin. by apply elem_of_nil in Hin.
    + assert (Htargets : targets_or_all Collection TransformIndices = TransformIndices).
      { destruct TransformIndices; [done|done]. }
      rewrite Htargets.
      destruct (decide (Num Volumes = Num TransformIndices)).
      * intros Hrun. apply for_each_AddIdx in Hrun as (found & -> & Hsub & Hfound).
        done.
      * intros [= <-]. split; [apply sublist_nil_l|].
        intros t Hin. by apply elem_of_nil in Hin.
Qed.

Lemma AddIdx_valid (Collection : FGeometryCollection) (Volumes : list F)
    (MinVolume : F) (acc : list Z) (t : Z) (row : FTransformRow) (v : F) :
  lookupZ (TransformGroup Collection) t = Some row ->
  lookupZ Volumes t = Some v ->
  AddIdx Collection Volumes MinVolume acc t
  = Some (acc ++ if decide (TransformToGeometryIndex row > -1)
                 then if fltb v MinVolume then [t] else []
                 else []).
Proof.
  intros Hrow Hv. unfold AddIdx. rewrite Hrow. cbn.
  destruct (decide (TransformToGeometryIndex row > -1)).
  - rewrite Hv. cbn. destruct (fltb v MinVolume); [done|by rewrite app_nil_r].
  - by rewrite app_nil_r.
Qed.

Lemma for_each_AddIdx_by_position (Collection : FGeometryCollection) (Volumes : list F)
    (MinVolume : F) (LV : list (Z * F)) : forall acc,
  (forall t v, (t, v) ∈ LV ->
     lookupZ Volumes t = Some v /\ is_Some (lookupZ (TransformGroup Collection) t)) ->
  for_each (AddIdx Collection Volumes MinVolume) LV.*1 acc
  = Some (acc ++ omap (fun '(TransformIdx, v) =>
                         match lookupZ (TransformGroup Collection) TransformIdx with
                         | Some t =>
                             if decide (TransformToGeometryIndex t > -1) then
                               if fltb v MinVolume then Some TransformIdx else None
                             else None
                         | None => None
                         end) LV).
Proof.
  induction LV as [|[t v] LV IH]; intros acc Hok.
  - cbn. by rewrite app_nil_r.
  - destruct (Hok t v) as [Hv [row Hrow]]; [by left|].
    assert (Hrest : forall t' v', (t', v') ∈ LV ->
              lookupZ Volumes t' = Some v'
              /\ is_Some (lookupZ (TransformGroup Collection) t')).
    { intros t' v' Hin. apply Hok. by right. }
    cbn [fmap list_fmap fst for_each omap list_omap].
    rewrite (AddIdx_valid _ _ _ _ _ _ _ Hrow Hv). cbn [mbind option_bind].
    rewrite (IH _ Hrest). rewrite Hrow. rewrite <- app_assoc.
    destruct (decide (TransformToGeometryIndex row > -1)); [|done].
    by destruct (fltb v MinVolume).
Qed.

(** X5.  For the empty target list, which stands for all bones, and one
    volume per transform, [FindSmallBones] returns exactly the bones with
    geometry whose own volume is below [MinVolume]: position and transform
    index coincide, and the run is not aborted. *)
Theorem FindSmallBones_all_bones
    (Collection : FGeometryCollection) (Volumes : list F) (MinVolume : F) :
  Num Volumes = Num (TransformGroup Collection) ->
  FindSmallBones Collection [] Volumes MinVolume
  = Some (small_bones_by_position Collection
            (seqZ 0 (Num (TransformGroup Collection))) Volumes MinVolume).
Proof.
  intros Hlen. unfold FindSmallBones, small_bones_by_position.
  destruct (decide (Num [] = 0)) as [_|Hne]; [|done].
  destruct (decide (Num Volumes = Num (TransformGroup Collection))) as [_|]; [|done].
  set (n := Num (TransformGroup Collection)) in *.
  assert (Hfst : (zip (seqZ 0 n) Volumes).*1 = seqZ 0 n).
  { apply fst_zip. rewrite length_seqZ. unfold Num in *. lia. }
  rewrite <- Hfst at 1.
  rewrite for_each_AddIdx_by_position; [done|].
  intros t v Hin. apply list_elem_of_lookup in Hin as [i Hi].
  apply lookup_zip_with_Some in Hi as (t' & v' & [= <- <-] & Ht & Hv).
  apply lookup_seqZ in Ht as [-> Hi]. rewrite Z.add_0_l.
  rewrite !lookupZ_nat. split; [done|].
  apply lookup_lt_is_Some_2. unfold n, Num in Hi. lia.
Qed.

End BoneArrays.

Section BoneArraysOnSamples.

Lemma FindBoneVolumes_one_entry_per_target_witness :
  (exists OutVolumes,
     FindBoneVolumes Samples.identity_position Samples.identity_matrices
       Samples.tetra [1; 0] 1%float = Some OutVolumes
     /\ Num OutVolumes = 2)
  /\ FindBoneVolumes Samples.identity_position Samples.identity_matrices
       Samples.tetra [0; 5] 1%float = None.
Proof.
  split.
  - destruct (FindBoneVolumes Samples.identity_position Samples.identity_matrices
                Samples.tetra [1; 0] 1%float) as [Out|] eqn:Hrun;
      [|by vm_compute in Hrun].
    exists Out. split; [reflexivity|].
    apply (proj1 (FindBoneVolumes_one_entry_per_target
                    Samples.identity_position Samples.identity_matrices
                    Samples.tetra [1; 0] 1%float) Out Hrun).
    discriminate.
  - apply (proj2 (FindBoneVolumes_one_entry_per_target
                    Samples.identity_position Samples.identity_matrices
                    Samples.tetra [0; 5] 1%float) 5).
    + by right; left.
    + reflexivity.
Defined.

Lemma FindSmallBones_lists_targets_with_geometry_witness :
  FindSmallBones Samples.tetra [1; 0] [0%float] 0.125%float = Some [].
Proof.
  apply (proj1 (FindSmallBones_lists_targets_with_geometry
                  Samples.tetra [1; 0] [0%float] 0.125%float)).
  vm_compute. discriminate.
Defined.

Lemma FindSmallBones_all_bones_witness :
  FindSmallBones Samples.tetra [] [0x1.5555555555555p-3; 0]%float 0.125%float
  = Some (small_bones_by_position Samples.tetra (seqZ 0 (Num (TransformGroup Samples.tetra)))
            [0x1.5555555555555p-3; 0]%float 0.125%float).
Proof.
  apply (FindSmallBones_all_bones Samples.tetra [0x1.5555555555555p-3; 0]%float
           0.125%float).
  reflexivity.
Defined.

End BoneArraysOnSamples.

(** ** Visibility of the faces of a geometry *)

Section Visibility.

Lemma for_each_modifyZ {A : Type} (f : A -> A) (L : list Z) :
  (forall x, f (f x) = f x) ->
  forall l l',
    for_each (fun l i => modifyZ l i f) L l = Some l' ->
    (forall i, i ∈ L -> is_Some (lookupZ l i))
    /\ length l' = length l
    /\ forall i, lookupZ l' i = (if decide (i ∈ L) then f else id) <$> lookupZ l i.
Proof.
  intros Hf. induction L as [|i0 L IH]; intros l l' Hrun.
  - cbn in Hrun. injection Hrun as <-. split; [|split; [done|]].
    + intros i Hin. by apply elem_of_nil in Hin.
    + intros i. destruct (decide (i ∈ [])) as [Hin|_]; [by apply elem_of_nil in Hin|].
      by destruct (lookupZ l i).
  - cbn in Hrun. destruct (modifyZ l i0 f) as [l1|] eqn:Hm; [|done]. cbn in Hrun.
    apply modifyZ_inv in Hm as (x & Hx & ->).
    apply IH in Hrun as (Hvalid & Hlen & Hlook).
    apply lookupZ_Some in Hx as Hrange.
    assert (Hl1 : forall j, lookupZ (<[Z.to_nat i0 := f x]> l) j
                            = if decide (j = i0) then Some (f x) else lookupZ l j).
    { intros j. destruct (decide (j = i0)) as [->|Hne].
      - by apply (lookupZ_insert_eq _ _ x).
      - apply lookupZ_insert_ne; lia. }
    split; [|split].
    + intros j Hin. apply elem_of_cons in Hin as [->|Hin]; [eauto|].
      specialize (Hvalid j Hin). rewrite Hl1 in Hvalid.
      destruct (decide (j = i0)) as [->|]; [eauto|done].
    + by rewrite Hlen, length_insert.
    + intros j. rewrite Hlook, Hl1.
      destruct (decide (j = i0)) as [->|Hne].
      * rewrite Hx. cbn. destruct (decide (i0 ∈ i0 :: L)) as [_|Hn]; [|by destruct Hn; left].
        destruct (decide (i0 ∈ L)); cbn; [by rewrite Hf|done].
      * destruct (decide (j ∈ L)) as [Hin|Hnin].
        -- destruct (decide (j ∈ i0 :: L)) as [_|Hn]; [done|by destruct Hn; right].
        -- destruct (decide (j ∈ i0 :: L)) as [Hin|_]; [|done].
           apply elem_of_cons in Hin as [->|Hin]; done.
Qed.

Lemma elem_of_seqZ_range (m n i : Z) : i ∈ seqZ m (n - m) <-> m <= i < n.
Proof. rewrite elem_of_seqZ. lia. Qed.

Lemma in_listed_range_cons (c : FGeometryCollection) (GeoIdx : Z) (G : list Z) (i : Z) :
  in_listed_range c (GeoIdx :: G) i
  <-> (exists g, lookupZ (GeometryGroup c) GeoIdx = Some g
                 /\ FaceStart g <= i < int32_wrap (FaceStart g + FaceCount g))
      \/ in_listed_range c G i.
Proof.
  unfold in_listed_range. split.
  - intros (x & g & Hin & Hg & Hr). apply elem_of_cons in Hin as [->|Hin].
    + left. eauto.
    + right. eauto.
  - intros [(g & Hg & Hr)|(x & g & Hin & Hg & Hr)].
    + exists GeoIdx, g. split; [by left|done].
    + exists x, g. split; [by right|done].
Qed.

Lemma in_listed_range_nil (c : FGeometryCollection) (i : Z) : ~ in_listed_range c [] i.
Proof. intros (x & g & Hin & _). by apply elem_of_nil in Hin. Qed.

Lemma in_listed_range_dec (c : FGeometryCollection) (G : list Z) (i : Z) :
  in_listed_range c G i \/ ~ in_listed_range c G i.
Proof.
  induction G as [|GeoIdx G IH]; [right; apply in_listed_range_nil|].
  rewrite in_listed_range_cons. destruct IH as [Hin|Hout]; [by left; right|].
  destruct (lookupZ (GeometryGroup c) GeoIdx) as [g|] eqn:Hg.
  - destruct (decide (FaceStart g <= i < int32_wrap (FaceStart g + FaceCount g))).
    + left. left. eauto.
    + right. intros [(g' & [= <-] & Hr)|Hin]; done.
  - right. intros [(g' & [=] & Hr)|Hin]. done.
Qed.

Lemma hide_or_show_face_idem (b : bool) (r : FFaceRow) :
  hide_or_show_face b (hide_or_show_face b r) = hide_or_show_face b r.
Proof. reflexivity. Qed.

(** The loop of [SetGeometryVisibility] over the geometries, on the face
    rows. *)
Lemma visibility_loop (c : FGeometryCollection) (b : bool) (G : list Z) :
  forall Faces Faces',
    for_each (fun Faces GeoIdx =>
                g ← lookupZ (GeometryGroup c) GeoIdx;
                let FaceStart' := FaceStart g in
                let FaceEnd := int32_wrap (FaceStart' + FaceCount g) in
                for_each (fun Faces FaceIdx => modifyZ Faces FaceIdx (hide_or_show_face b))
                         (seqZ FaceStart' (FaceEnd - FaceStart')) Faces)
             G Faces = Some Faces' ->
    (forall i, in_listed_range c G i -> is_Some (lookupZ Faces i))
    /\ (forall GeoIdx, GeoIdx ∈ G -> is_Some (lookupZ (GeometryGroup c) GeoIdx))
    /\ length Faces' = length Faces
    /\ (forall i, in_listed_range c G i ->
          lookupZ Faces' i = hide_or_show_face b <$> lookupZ Faces i)
    /\ (forall i, ~ in_listed_range c G i -> lookupZ Faces' i = lookupZ Faces i).
Proof.
  induction G as [|GeoIdx G IH]; intros Faces Faces' Hrun.
  - cbn in Hrun. injection Hrun as <-.
    repeat split; try done.
    + intros i Hin. by apply in_listed_range_nil in Hin.
    + intros x Hin. by apply elem_of_nil in Hin.
    + intros i Hin. by apply in_listed_range_nil in Hin.
  - cbn in Hrun.
    destruct (lookupZ (GeometryGroup c) GeoIdx) as [g|] eqn:Hg; [|done]. cbn in Hrun.
    destruct (for_each _ (seqZ _ _) Faces) as [Faces1|] eqn:Hinner; [|done].
    cbn in Hrun.
    apply (for_each_modifyZ _ _ (hide_or_show_face_idem b)) in Hinner
      as (Hv1 & Hlen1 & Hlook1).
    apply IH in Hrun as (Hv & Hgeo & Hlen & Hin & Hout).
    assert (Hdom : forall i, is_Some (lookupZ Faces1 i) <-> is_Some (lookupZ Faces i)).
    { intros i. rewrite Hlook1. by rewrite fmap_is_Some. }
    split; [|split; [|split; [|split]]].
    + intros i Hi. apply in_listed_range_cons in Hi as [(g' & Hg' & Hr)|Hi].
      * rewrite Hg in Hg'. injection Hg' as <-.
        apply Hv1. by apply elem_of_seqZ_range.
      * apply Hdom. by apply Hv.
    + intros x Hx. apply elem_of_cons in Hx as [->|Hx]; [by rewrite Hg|by apply Hgeo].
    + by rewrite Hlen, Hlen1.
    + intros i Hi.
      destruct (in_listed_range_dec c G i) as [Hrest|Hrest].
      * rewrite (Hin i Hrest), Hlook1.
        destruct (lookupZ Faces i); [|done]. cbn. by destruct (decide _).
      * rewrite (Hout i Hrest), Hlook1.
        apply in_listed_range_cons in Hi as [(g' & Hg' & Hr)|Hi]; [|done].
        rewrite Hg in Hg'. injection Hg' as <-.
        destruct (decide (i ∈ seqZ (FaceStart g)
                            (int32_wrap (FaceStart g + FaceCount g) - FaceStart g)))
          as [_|Hn]; [done|].
        destruct Hn. by apply elem_of_seqZ_range.
    + intros i Hi. rewrite in_listed_range_cons in Hi.
      rewrite (Hout i) by tauto. rewrite Hlook1.
      destruct (decide (i ∈ seqZ (FaceStart g)
                          (int32_wrap (FaceStart g + FaceCount g) - FaceStart g)))
        as [Hn|_]; [|by destruct (lookupZ Faces i)].
      destruct Hi. left. exists g. split; [done|]. by apply elem_of_seqZ_range.
Qed.

(** X6.  When [SetGeometryVisibility] returns, every listed index is a
    geometry whose face range lies inside the face array (otherwise the run
    is aborted); the transforms, geometries, vertices and proximity of the
    collection and the number of faces are as before; every face keeps its
    vertex indices and material ID; a face inside the range of a listed
    geometry has the visibility passed in, and every other face keeps its
    visibility. *)
Theorem SetGeometryVisibility_changes_only_Visible
    (Collection Collection' : FGeometryCollection) (GeometryIndices : list Z)
    (bVisible : bool) :
  SetGeometryVisibility Collection GeometryIndices bVisible = Some Collection' ->
  (forall GeoIdx, GeoIdx ∈ GeometryIndices ->
     is_Some (lookupZ (GeometryGroup Collection) GeoIdx))
  /\ (forall i, in_listed_range Collection GeometryIndices i ->
        is_Some (lookupZ (FacesGroup Collection) i))
  /\ TransformGroup Collection' = TransformGroup Collection
  /\ GeometryGroup Collection' = GeometryGroup Collection
  /\ VerticesGroup Collection' = VerticesGroup Collection
  /\ Proximity Collection' = Proximity Collection
  /\ Num (FacesGroup Collection') = Num (FacesGroup Collection)
  /\ forall i r, lookupZ (FacesGroup Collection) i = Some r ->
       exists r', lookupZ (FacesGroup Collection') i = Some r'
                  /\ Indices r' = Indices r
                  /\ MaterialID r' = MaterialID r
                  /\ (in_listed_range Collection GeometryIndices i -> Visible r' = bVisible)
                  /\ (~ in_listed_range Collection GeometryIndices i ->
                      Visible r' = Visible r).
Proof.
  unfold SetGeometryVisibility.
  destruct (for_each _ GeometryIndices _) as [Faces|] eqn:Hloop; [|done]. cbn.
  intros [= <-]. cbn.
  apply visibility_loop in Hloop as (Hv & Hgeo & Hlen & Hin & Hout).
  repeat split; try done.
  - unfold Num. by rewrite Hlen.
  - intros i r Hr.
    destruct (in_listed_range_dec Collection GeometryIndices i) as [Hi|Hi].
    + exists (hide_or_show_face bVisible r). rewrite (Hin i Hi), Hr.
      repeat split; done.
    + exists r. rewrite (Hout i Hi). repeat split; done.
Qed.

Lemma set_FacesGroup_twice (c : FGeometryCollection) (F1 F2 : list FFaceRow) :
  set_FacesGroup (set_FacesGroup c F1) F2 = set_FacesGroup c F2.
Proof. reflexivity. Qed.

Lemma SetVisibility_step (c : FGeometryCollection) (Faces : list FFaceRow)
    (GeoIdx : Z) (b : bool) :
  SetVisibility (set_FacesGroup c Faces) GeoIdx b
  = (g ← lookupZ (GeometryGroup c) GeoIdx;
     Faces' ← for_each (fun Faces FaceIdx => modifyZ Faces FaceIdx (hide_or_show_face b))
                (seqZ (FaceStart g)
                      (int32_wrap (FaceStart g + FaceCount g) - FaceStart g)) Faces;
     Some (set_FacesGroup c Faces')).
Proof.
  unfold SetVisibility. cbn [GeometryGroup set_FacesGroup FacesGroup].
  destruct (lookupZ (GeometryGroup c) GeoIdx) as [g|]; [|reflexivity].
  cbn [mbind option_bind]. by rewrite (Z.add_comm (FaceCount g) (FaceStart g)).
Qed.

Lemma visibility_fold (c : FGeometryCollection) (b : bool) (G : list Z) :
  forall Faces,
    (Faces' ← for_each (fun Faces GeoIdx =>
                g ← lookupZ (GeometryGroup c) GeoIdx;
                let FaceStart' := FaceStart g in
                let FaceEnd := int32_wrap (FaceStart' + FaceCount g) in
                for_each (fun Faces FaceIdx => modifyZ Faces FaceIdx (hide_or_show_face b))
                         (seqZ FaceStart' (FaceEnd - FaceStart')) Faces)
             G Faces;
     Some (set_FacesGroup c Faces'))
    = for_each (fun c GeoIdx => SetVisibility c GeoIdx b) G (set_FacesGroup c Faces).
Proof.
  induction G as [|GeoIdx G IH]; intros Faces; [reflexivity|].
  cbn [for_each]. rewrite SetVisibility_step.
  destruct (lookupZ (GeometryGroup c) GeoIdx) as [g|];
    cbn [mbind option_bind]; [|reflexivity].
  destruct (for_each _ (seqZ _ _) Faces) as [Faces1|];
    cbn [mbind option_bind]; [|reflexivity].
  rewrite IH. reflexivity.
Qed.

(** X7.  [SetGeometryVisibility] on a list of geometries is the static
    [SetVisibility] applied to each of them in turn, and on two lists one
    after the other it is the call on the first followed by the call on the
    second. *)
Theorem SetGeometryVisibility_is_SetVisibility_in_turn
    (Collection : FGeometryCollection) (G1 G2 : list Z) (bVisible : bool) :
  SetGeometryVisibility Collection G1 bVisible
  = for_each (fun c GeoIdx => SetVisibility c GeoIdx bVisible) G1 Collection
  /\ SetGeometryVisibility Collection (G1 ++ G2) bVisible
     = (c ← SetGeometryVisibility Collection G1 bVisible;
        SetGeometryVisibility c G2 bVisible).
Proof.
  assert (Hfold : forall G c,
            SetGeometryVisibility c G bVisible
            = for_each (fun c GeoIdx => SetVisibility c GeoIdx bVisible) G c).
  { intros G c. unfold SetGeometryVisibility. rewrite visibility_fold. by destruct c. }
  split; [apply Hfold|].
  rewrite !Hfold. generalize Collection.
  induction G1 as [|g G1 IH]; intros c.
  { cbn [app for_each mbind option_bind]. symmetry. apply Hfold. }
  cbn [app for_each].
  destruct (SetVisibility c g bVisible) as [c1|]; [|done].
  cbn [mbind option_bind]. apply IH.
Qed.

End Visibility.

Section VisibilityOnSamples.

Lemma SetGeometryVisibility_changes_only_Visible_witness :
  exists c',
    SetGeometryVisibility Samples.tetra [0] false = Some c'
    /\ GeometryGroup c' = GeometryGroup Samples.tetra
    /\ Num (FacesGroup c') = Num (FacesGroup Samples.tetra).
Proof.
  destruct (SetGeometryVisibility Samples.tetra [0] false) as [c'|] eqn:Hrun;
    [|by vm_compute in Hrun].
  exists c'. split; [reflexivity|].
  destruct (SetGeometryVisibility_changes_only_Visible _ _ _ _ Hrun)
    as (_ & _ & _ & Hgeo & _ & _ & Hnum & _).
  split; [exact Hgeo|exact Hnum].
Defined.

End VisibilityOnSamples.

(** ** The meshes of the targets *)

Section InitFacts.
Context `{Engine}.

Lemma Init_loop (Collection : FGeometryCollection) (T : FTransform) (targets : list Z) :
  forall acc Meshes,
    for_each (fun Meshes TransformIdx =>
        t ← lookupZ (TransformGroup Collection) TransformIdx;
        let GeometryIdx := TransformToGeometryIndex t in
        if decide (GeometryIdx = -1) then Some Meshes
        else
          let ToLocal := CollectionToLocal (TransformGroup Collection) TransformIdx T in
          Mesh ← GeometryToMesh Collection GeometryIdx ToLocal;
          Some (Meshes ++ [FMeshData.mk Mesh TransformIdx ToLocal]))
      targets acc = Some Meshes ->
    exists new,
      Meshes = acc ++ new
      /\ (forall t, t ∈ targets -> is_Some (lookupZ (TransformGroup Collection) t))
      /\ FMeshData.TransformIndex <$> new
         = filter (fun t => TransformToGeometryIndex
                              <$> lookupZ (TransformGroup Collection) t <> Some (-1))
                  targets
      /\ forall md, md ∈ new ->
           FMeshData.FromCollection md
           = CollectionToLocal (TransformGroup Collection) (FMeshData.TransformIndex md) T
           /\ exists t,
                lookupZ (TransformGroup Collection) (FMeshData.TransformIndex md) = Some t
                /\ GeometryToMesh Collection (TransformToGeometryIndex t)
                     (FMeshData.FromCollection md) = Some (FMeshData.AugMesh md).
Proof.
  induction targets as [|x targets IH]; intros acc Meshes Hrun.
  - cbn in Hrun. injection Hrun as <-. exists []. rewrite app_nil_r.
    split; [done|]. split; [|split; [done|]].
    + intros t Hin. by apply elem_of_nil in Hin.
    + intros md Hin. by apply elem_of_nil in Hin.
  - cbn in Hrun.
    destruct (lookupZ (TransformGroup Collection) x) as [t|] eqn:Ht; [|done].
    cbn in Hrun. rewrite filter_cons, Ht. cbn [fmap option_fmap option_map].
    destruct (decide (TransformToGeometryIndex t = -1)) as [Hnone|Hgeo].
    + cbn in Hrun. apply IH in Hrun as (new & -> & Hvalid & Hidx & Hmd).
      exists new. split; [done|]. split.
      { intros t' Hin. apply elem_of_cons in Hin as [->|Hin]; [by rewrite Ht|eauto]. }
      split; [|done].
      rewrite Hidx. destruct (decide (Some (TransformToGeometryIndex t) <> Some (-1)))
        as [Hne|_]; [|done].
      destruct Hne. by rewrite Hnone.
    + destruct (GeometryToMesh Collection (TransformToGeometryIndex t) _)
        as [Mesh|] eqn:Hmesh; [|done].
      cbn in Hrun. apply IH in Hrun as (new & -> & Hvalid & Hidx & Hmd).
      exists (FMeshData.mk Mesh x
                (CollectionToLocal (TransformGroup Collection) x T) :: new).
      rewrite <- app_assoc. split; [done|]. split.
      { intros t' Hin. apply elem_of_cons in Hin as [->|Hin]; [by rewrite Ht|eauto]. }
      split.
      * rewrite fmap_cons. cbn [FMeshData.TransformIndex]. rewrite Hidx.
        destruct (decide (Some (TransformToGeometryIndex t) <> Some (-1)))
          as [_|Hn]; [done|].
        destruct Hn. intros [= Heq]. done.
      * intros md Hin. apply elem_of_cons in Hin as [->|Hin]; [|by apply Hmd].
        cbn. split; [done|]. exists t. done.
Qed.

(** X8.  When [Init] returns, every target is a transform of the
    collection (a target that is not aborts the run); the meshes are those
    of the targets that have geometry, one per occurrence of such a target
    and in the order of the targets; and each mesh carries its target as
    [TransformIndex], the collection-to-local transform of that target as
    [FromCollection], and the mesh built from the geometry of the target. *)
Theorem Init_one_mesh_per_target_with_geometry
    (Collection : FGeometryCollection) (TransformIndices : list Z)
    (TransformCollection : FTransform) (Meshes : list FMeshData.t) :
  Init Collection TransformIndices TransformCollection = Some Meshes ->
  (forall t, t ∈ TransformIndices -> is_Some (lookupZ (TransformGroup Collection) t))
  /\ FMeshData.TransformIndex <$> Meshes
     = filter (fun t => TransformToGeometryIndex
                          <$> lookupZ (TransformGroup Collection) t <> Some (-1))
              TransformIndices
  /\ forall md, md ∈ Meshes ->
       FMeshData.FromCollection md
       = CollectionToLocal (TransformGroup Collection) (FMeshData.TransformIndex md)
           TransformCollection
       /\ exists t,
            lookupZ (TransformGroup Collection) (FMeshData.TransformIndex md) = Some t
            /\ GeometryToMesh Collection (TransformToGeometryIndex t)
                 (FMeshData.FromCollection md) = Some (FMeshData.AugMesh md).
Proof.
  intros Hrun. unfold Init in Hrun.
  apply Init_loop in Hrun as (new & -> & Hvalid & Hidx & Hmd). done.
Qed.

End InitFacts.

(** ** What [AppendToCollection] writes *)

Section AppendedRows.
Context `{Engine}.

Lemma same_bone_refl (r : FTransformRow) : same_bone r r.
Proof. unfold same_bone. repeat split; done. Qed.

Lemma same_bone_trans (r1 r2 r3 : FTransformRow) :
  same_bone r1 r2 -> same_bone r2 r3 -> same_bone r1 r3.
Proof.
  unfold same_bone. intros (? & ? & ? & ? & ? & ?) (? & ? & ? & ? & ? & ?).
  repeat split; try congruence. set_solver.
Qed.

Lemma same_bone_adopt (n : Z) (p : FTransformRow) : same_bone p (adopt n p).
Proof. unfold same_bone, adopt. cbn. repeat split; try done. set_solver. Qed.

(** The transform rows after an append. *)
Lemma AppendToCollection_transform_rows (F : FTransform) (M : FDynamicMesh3) (sp : float)
    (par : Z) (name : string) (c : FGeometryCollection) (mat : Z)
    (idx : Z) (c' : FGeometryCollection) (M' : FDynamicMesh3) :
  TriangleCount M <> 0 ->
  AppendToCollection F M sp par name c mat = Some (idx, c', M') ->
  exists T t,
    c' = appended F (sampled M sp) c mat T
    /\ Num T = Num (TransformGroup c) + 1
    /\ lookupZ T (Num (TransformGroup c)) = Some t
    /\ Transform t = FTransform_Identity
    /\ SimulationType t = FST_Rigid
    /\ TransformToGeometryIndex t = Num (GeometryGroup c)
    /\ (forall i r, lookupZ (TransformGroup c) i = Some r ->
          exists r', lookupZ T i = Some r' /\ same_bone r r'
                     /\ (i <> par -> r' = r)
                     /\ (i = par -> SimulationType r' = FST_Clustered
                                    /\ Num (TransformGroup c) ∈ Children r'))
    /\ (par > -1 ->
        par <= Num (TransformGroup c) /\ Parent t = par /\ BoneName t = name).
Proof.
  intros Hnz Hrun. unfold AppendToCollection in Hrun.
  destruct (decide (TriangleCount M = 0)); [done|].
  fold (sampled M sp) in Hrun.
  set (rows := TransformGroup c) in *.
  set (x := mkTransformRow _ _ _ _ _ _ (Num (GeometryGroup c))) in Hrun.
  pose proof (Num_nonneg rows) as Hrows.
  destruct (decide (par > -1)) as [Hgt|Hle].
  - destruct (decide (par = Num rows)) as [->|Hne].
    + rewrite link_to_parent_self in Hrun. cbn in Hrun.
      rewrite modifyZ_app_last in Hrun. cbn in Hrun.
      injection Hrun as <- <- <-. do 2 eexists. split; [reflexivity|].
      split; [by rewrite Num_app|].
      split; [apply lookupZ_app_last|]. cbn.
      split; [done|]. split; [done|]. split; [done|]. split.
      { intros i r Hr. exists r. split; [by apply lookupZ_app_l|].
        split; [apply same_bone_refl|]. split; [done|].
        intros ->. apply lookupZ_Some in Hr. lia. }
      intros _. split; [lia|done].
    + destruct (decide (par < Num rows)) as [Hlt|Hge].
      * destruct (lookupZ_is_Some rows par) as [p Hp]; [lia|].
        rewrite (link_to_parent_existing _ _ _ _ _ Hp) in Hrun. cbn in Hrun.
        rewrite modifyZ_app_last_at in Hrun by apply Num_insert. cbn in Hrun.
        injection Hrun as <- <- <-. do 2 eexists. split; [reflexivity|].
        split; [by rewrite Num_app, Num_insert|].
        split; [apply lookupZ_app_last_at, Num_insert|]. cbn.
        split; [done|]. split; [done|]. split; [done|]. split.
        { intros i r Hr. destruct (decide (i = par)) as [->|Hi].
          - exists (adopt (Num rows) p).
            assert (r = p) as -> by congruence.
            split; [apply lookupZ_app_l; by eapply lookupZ_insert_eq|].
            split; [apply same_bone_adopt|]. split; [done|].
            intros _. cbn. split; [done|]. set_solver.
          - exists r. split.
            + apply lookupZ_app_l. rewrite lookupZ_insert_ne by lia. done.
            + split; [apply same_bone_refl|]. split; done. }
        intros _. split; [lia|done].
      * rewrite link_to_parent_out_of_range in Hrun by lia. done.
  - cbn in Hrun. rewrite modifyZ_app_last in Hrun. cbn in Hrun.
    injection Hrun as <- <- <-. do 2 eexists. split; [reflexivity|].
    split; [by rewrite Num_app|].
    split; [apply lookupZ_app_last|]. cbn.
    split; [done|]. split; [done|]. split; [done|]. split.
    { intros i r Hr. exists r. split; [by apply lookupZ_app_l|].
      split; [apply same_bone_refl|]. split; [done|].
      intros ->. apply lookupZ_Some in Hr. lia. }
    intros Hgt. lia.
Qed.

Lemma lookupZ_app_r {A : Type} (l k : list A) (i : Z) :
  Num l <= i -> lookupZ (l ++ k) i = lookupZ k (i - Num l).
Proof.
  intros Hi. pose proof (Num_nonneg l) as Hl. unfold lookupZ, Num in *.
  destruct (decide (0 <= i)); [|lia].
  destruct (decide (0 <= i - Z.of_nat (length l))); [|lia].
  rewrite lookup_app_r by lia. f_equal. lia.
Qed.

Lemma lookupZ_fmap {A B : Type} (f : A -> B) (l : list A) (i : Z) :
  lookupZ (f <$> l) i = f <$> lookupZ l i.
Proof.
  unfold lookupZ. destruct (decide (0 <= i)); [|done]. apply list_lookup_fmap.
Qed.

Lemma sampled_channels (M : FDynamicMesh3) (sp : float) :
  NumEnabledUVChannels (sampled M sp) = NumEnabledUVChannels M.
Proof. unfold sampled. by destruct (0 <? sp)%float. Qed.

(** X9.  What [AppendToCollection] writes for a mesh with a triangle.
    Every face row added comes from the triangle of the mesh at the same
    offset: it has the triangle's visibility, the triangle's material ID
    when that is not negative and [InternalMaterialID] when it is (so no
    negative ID is written when [InternalMaterialID] is not negative), and
    the triangle's vertex indices moved by the previous number of vertices.
    Every vertex row added is mapped to the new bone and has as many UV
    layers as the mesh has channels, at least one.  The new bone has the
    identity transform and is rigid, with a parent it has the name passed
    in, and a parent other than itself becomes clustered.  The new
    geometry has no proximity. *)
Theorem AppendToCollection_rows_written
    (FromCollection : FTransform) (Mesh : FDynamicMesh3) (CollisionSampleSpacing : float)
    (TransformParent : Z) (Name : string) (Output : FGeometryCollection)
    (InternalMaterialID : Z) (idx : Z) (Output' : FGeometryCollection)
    (Mesh' : FDynamicMesh3) :
  TriangleCount Mesh <> 0 ->
  AppendToCollection FromCollection Mesh CollisionSampleSpacing TransformParent Name
    Output InternalMaterialID = Some (idx, Output', Mesh') ->
  (forall i r, Num (FacesGroup Output) <= i -> lookupZ (FacesGroup Output') i = Some r ->
     exists tri,
       lookupZ (MeshTriangles Mesh) (i - Num (FacesGroup Output)) = Some tri
       /\ Visible r = mVisible tri
       /\ (mMaterialID tri < 0 -> MaterialID r = InternalMaterialID)
       /\ (0 <= mMaterialID tri -> MaterialID r = mMaterialID tri)
       /\ (0 <= InternalMaterialID -> 0 <= MaterialID r)
       /\ Indices r = (int32_wrap ((mTri tri).1.1 + Num (VerticesGroup Output)),
                       int32_wrap ((mTri tri).1.2 + Num (VerticesGroup Output)),
                       int32_wrap ((mTri tri).2 + Num (VerticesGroup Output))))
  /\ (forall i v, Num (VerticesGroup Output) <= i ->
        lookupZ (VerticesGroup Output') i = Some v ->
        BoneMap v = Num (TransformGroup Output)
        /\ 1 <= Num (UVs v)
        /\ (NumEnabledUVChannels Mesh > 0 -> Num (UVs v) = NumEnabledUVChannels Mesh))
  /\ (exists t,
        lookupZ (TransformGroup Output') (Num (TransformGroup Output)) = Some t
        /\ Transform t = FTransform_Identity
        /\ SimulationType t = FST_Rigid
        /\ (TransformParent > -1 -> Parent t = TransformParent /\ BoneName t = Name))
  /\ (TransformParent > -1 -> TransformParent <> Num (TransformGroup Output) ->
      exists p, lookupZ (TransformGroup Output') TransformParent = Some p
                /\ SimulationType p = FST_Clustered)
  /\ Proximity Output' = (fun P => P ++ [∅]) <$> Proximity Output.
Proof.
  intros Hnz Hrun.
  apply AppendToCollection_transform_rows in Hrun
    as (T & t & -> & HnumT & Ht & Hid & Hrigid & Hgeo & Hold & Hpar); [|done].
  unfold appended. cbn [FacesGroup VerticesGroup TransformGroup Proximity].
  split; [|split; [|split; [|split]]].
  - intros i r Hi Hr. rewrite lookupZ_app_r, lookupZ_fmap in Hr by done.
    rewrite sampled_triangles in Hr.
    destruct (lookupZ (MeshTriangles Mesh) (i - Num (FacesGroup Output)))
      as [tri|]; [|done].
    injection Hr as <-. exists tri. split; [done|].
    unfold face_row_of, resolve_material, offset_triangle. cbn.
    destruct (mTri tri) as [[a b] d]. cbn.
    destruct (decide (mMaterialID tri < 0)); repeat split; try done; lia.
  - intros i v Hi Hv. rewrite lookupZ_app_r, lookupZ_fmap in Hv by done.
    destruct (lookupZ (MeshVertices (sampled Mesh CollisionSampleSpacing)) _)
      as [mv|]; [|done].
    injection Hv as <-. unfold vertex_row_of. cbn. split; [done|].
    rewrite sampled_channels.
    unfold Num. rewrite length_fmap, length_seqZ.
    destruct (decide (NumEnabledUVChannels Mesh > 0)); split; lia.
  - exists t. repeat split; try done; by apply Hpar.
  - intros Hgt Hne. destruct (Hpar Hgt) as (Hle & _ & _).
    destruct (lookupZ_is_Some (TransformGroup Output) TransformParent) as [p Hp]; [lia|].
    destruct (Hold _ _ Hp) as (p' & Hp' & _ & _ & Hcl).
    exists p'. split; [done|]. by apply Hcl.
  - done.
Qed.

End AppendedRows.

(** ** The rows the drivers keep *)

Section KeptRows.
Context `{Engine}.

Lemma keeps_rows_start (c : FGeometryCollection) : keeps_rows c c (-1).
Proof.
  pose proof (Num_nonneg (TransformGroup c)) as HT.
  unfold keeps_rows. split; [done|]. split; [done|]. split; [done|].
  split; [|split; [lia|]].
  - intros i r Hr. exists r. split; [done|apply same_bone_refl].
  - intros i g Hi Hg. apply lookupZ_Some in Hg. lia.
Qed.

Lemma lookupZ_snoc_inv {A : Type} (l : list A) (x y : A) (i : Z) :
  lookupZ (l ++ [x]) i = Some y ->
  (i < Num l /\ lookupZ l i = Some y) \/ (i = Num l /\ y = x).
Proof.
  intros Hy. destruct (decide (i = Num l)) as [->|Hne].
  - rewrite lookupZ_app_last in Hy. right. split; congruence.
  - left. apply lookupZ_Some in Hy as Hr. rewrite Num_app in Hr.
    assert (Hlt : i < Num l) by (unfold Num in *; cbn in *; lia).
    split; [done|].
    destruct (lookupZ_is_Some l i) as [z Hz]; [lia|].
    rewrite (lookupZ_app_l _ _ _ _ Hz) in Hy. congruence.
Qed.

Lemma keeps_rows_append Before F M sp par name c mat idx c' M' first :
  keeps_rows Before c first ->
  AppendToCollection F M sp par name c mat = Some (idx, c', M') ->
  keeps_rows Before c' (first_created first idx).
Proof.
  intros Hk Hrun. destruct (decide (TriangleCount M = 0)) as [Hz|Hnz].
  { rewrite (AppendToCollection_empty _ _ _ _ _ _ _ Hz) in Hrun.
    by injection Hrun as <- <- <-. }
  apply AppendToCollection_transform_rows in Hrun
    as (T & t & -> & HnumT & Ht & _ & _ & Hgeo & Hold & _); [|done].
  destruct Hk as (HG & HV & HF & HT & Hcount & Hnew).
  unfold keeps_rows, appended.
  cbn [GeometryGroup VerticesGroup FacesGroup TransformGroup].
  pose proof (prefix_length _ _ HG) as HlenG.
  split; [by apply prefix_app_r|]. split; [by apply prefix_app_r|].
  split; [by apply prefix_app_r|]. split; [|split].
  - intros i r Hr. destruct (HT i r Hr) as (r1 & Hr1 & Hs1).
    destruct (Hold i r1 Hr1) as (r2 & Hr2 & Hs2 & _).
    exists r2. split; [done|]. by eapply same_bone_trans.
  - rewrite Num_app. unfold Num in *. cbn [length] in *. lia.
  - intros i g Hi Hg. apply lookupZ_snoc_inv in Hg as [[Hlt Hg]|[-> ->]].
    + destruct (Hnew i g Hi Hg) as (Hge & t0 & Ht0 & Hidx).
      split; [done|]. destruct (Hold _ _ Ht0) as (t1 & Ht1 & Hs & _).
      exists t1. split; [done|]. destruct Hs as (_ & _ & _ & _ & -> & _). done.
    + cbn [TransformIndex]. split; [unfold Num in *; lia|].
      exists t. done.
Qed.

Lemma keeps_rows_groups Before c c' first :
  TransformGroup c' = TransformGroup c -> GeometryGroup c' = GeometryGroup c ->
  VerticesGroup c' = VerticesGroup c -> FacesGroup c' = FacesGroup c ->
  keeps_rows Before c first -> keeps_rows Before c' first.
Proof. unfold keeps_rows. by intros -> -> -> ->. Qed.

Lemma cut_loop_keeps_rows mat conn Cells bProx bDef sp Meshes Before st st' :
  keeps_rows Before (csCollection st) (csFirstIdx st) ->
  for_each (cut_surface mat conn Cells bProx bDef sp) Meshes st = Some st' ->
  keeps_rows Before (csCollection st') (csFirstIdx st').
Proof.
  intros Hk Hloop.
  refine (for_each_preserves
            (fun st => keeps_rows Before (csCollection st) (csFirstIdx st))
            _ _ _ _ _ Hk Hloop).
  intros s a s' Hs Hstep.
  eapply (cut_surface_Inv (keeps_rows Before)); [| |exact Hs|exact Hstep].
  - intros. by eapply keeps_rows_append.
  - intros c1 first P P' A B Hk1 _. revert Hk1. by apply keeps_rows_groups.
Qed.

Lemma hide_superseded_same_but_visibility c l c' :
  hide_superseded c l = Some c' -> same_but_visibility c c'.
Proof.
  unfold hide_superseded. destruct (decide _).
  - intros Hrun. unfold SetGeometryVisibility in Hrun.
    destruct (for_each _ l _) as [Faces|] eqn:Hloop; [|done]. cbn in Hrun.
    injection Hrun as <-.
    apply visibility_loop in Hloop as (_ & _ & Hlen & Hin & Hout).
    unfold same_but_visibility. cbn. repeat split; try done.
    + unfold Num. by rewrite Hlen.
    + intros i r Hr. destruct (in_listed_range_dec c l i) as [Hi|Hi].
      * exists (hide_or_show_face false r). rewrite (Hin i Hi), Hr. done.
      * exists r. rewrite (Hout i Hi). done.
  - intros [= <-]. unfold same_but_visibility. repeat split; try done.
    intros i r Hr. by exists r.
Qed.

(** X10.  Both drivers only add rows.  When [CutWithCellMeshes] or
    [CutWithMultiplePlanes] returns, the collection is, up to the
    visibility of faces, the collection passed in with rows added at the
    ends of its arrays: the geometries, vertices and faces passed in are
    unchanged, every bone passed in keeps its transform, parent, name,
    colour, geometry and children, as many transforms as geometries were
    added, and every added geometry and its transform refer to each
    other. *)
Theorem cut_drivers_keep_rows :
  (forall Meshes mat conn Cells c bDef sp ret c',
      CutWithCellMeshes Meshes mat conn Cells c bDef sp = Some (ret, c') ->
      exists c1, keeps_rows c c1 ret /\ same_but_visibility c1 c')
  /\ (forall GroutMesh Meshes Planes Grout sp c n mat bDef ret c',
        CutWithMultiplePlanes GroutMesh Meshes Planes Grout sp c n mat bDef
          = Some (ret, c') ->
        exists c1, keeps_rows c c1 ret /\ same_but_visibility c1 c').
Proof.
  assert (Hcells : forall Meshes mat conn Cells c bDef sp ret c',
            CutWithCellMeshes Meshes mat conn Cells c bDef sp = Some (ret, c') ->
            exists c1, keeps_rows c c1 ret /\ same_but_visibility c1 c').
  { intros * Hrun. unfold CutWithCellMeshes in Hrun.
    destruct (for_each _ Meshes _) as [st|] eqn:Hloop; [|done]. cbn in Hrun.
    destruct (hide_superseded _ _) as [c2|] eqn:Hhide; [|done]. cbn in Hrun.
    injection Hrun as <- <-. exists (csCollection st). split.
    - eapply cut_loop_keeps_rows; [|exact Hloop]. apply keeps_rows_start.
    - by eapply hide_superseded_same_but_visibility. }
  split; [exact Hcells|].
  intros * Hrun. unfold CutWithMultiplePlanes in Hrun.
  destruct (0 <? Grout)%float; [by eapply Hcells|].
  unfold CutWithMultiplePlanes_no_grout in Hrun.
  destruct (for_each _ Planes _) as [[ToCut Links]|]; [|done]. cbn in Hrun.
  destruct (for_each _ Meshes _) as [st|] eqn:Happ; [|done]. cbn in Hrun.
  assert (Hst : keeps_rows c (asCollection st) (asFirstCreatedIndex st)).
  { refine (append_phase_Inv (keeps_rows c) _ _ _ _ _ _ _ _ Happ);
      [|apply keeps_rows_start].
    intros. by eapply keeps_rows_append. }
  destruct (bool_decide _).
  - destruct (Proximity (asCollection st)) as [P|]; [|done]. cbn in Hrun.
    destruct (for_each _ Links P) as [P'|]; [|done]. cbn in Hrun.
    destruct (hide_superseded _ _) as [c2|] eqn:Hhide; [|done]. cbn in Hrun.
    injection Hrun as <- <-.
    exists (set_Proximity (asCollection st) (Some P')). split.
    + revert Hst. by apply keeps_rows_groups.
    + by eapply hide_superseded_same_but_visibility.
  - cbn in Hrun. destruct (hide_superseded _ _) as [c2|] eqn:Hhide; [|done].
    cbn in Hrun. injection Hrun as <- <-. exists (asCollection st).
    split; [done|]. by eapply hide_superseded_same_but_visibility.
Qed.

(** *** The geometry a cut supersedes *)

Lemma cut_surface_removal mat conn Cells bProx bDef sp Before st S st' t0 :
  keeps_rows Before (csCollection st) (csFirstIdx st) ->
  lookupZ (TransformGroup Before) (FMeshData.TransformIndex S) = Some t0 ->
  cut_surface mat conn Cells bProx bDef sp st S = Some st' ->
  csGeometryForRemoval st'
  = csGeometryForRemoval st
    ++ (if decide (was_cut Cells S) then [TransformToGeometryIndex t0] else []).
Proof.
  intros Hk Ht0 Hrun. destruct Hk as (_ & _ & _ & HT & _).
  destruct (HT _ _ Ht0) as (t1 & Ht1 & (_ & _ & _ & _ & Hgeo & _)).
  unfold cut_surface in Hrun. rewrite Ht1 in Hrun. cbn in Hrun. unfold was_cut.
  destruct (decide (NonEmptyResults (boolean_results Cells S) > 1)) as [Hcut|Hun].
  - destruct (decide (~ NonEmptyResults (boolean_results Cells S) < 2)); [|lia].
    destruct (internal_material _ _ _ _) as [imat|]; [|done]. cbn in Hrun.
    destruct (for_each _ _ _) as [cl|]; [|done]. cbn in Hrun.
    destruct bProx.
    + destruct (Proximity (clCollection cl)) as [P|]; [|done]. cbn in Hrun.
      destruct (for_each _ _ P) as [P'|]; [|done]. cbn in Hrun.
      injection Hrun as <-. cbn. by rewrite Hgeo.
    + cbn in Hrun. injection Hrun as <-. cbn. by rewrite Hgeo.
  - destruct (decide (~ NonEmptyResults (boolean_results Cells S) < 2)); [lia|].
    injection Hrun as <-. by rewrite app_nil_r.
Qed.

Lemma cut_loop_removal mat conn Cells bProx bDef sp Before Meshes : forall st st',
  keeps_rows Before (csCollection st) (csFirstIdx st) ->
  (forall S, S ∈ Meshes ->
     is_Some (lookupZ (TransformGroup Before) (FMeshData.TransformIndex S))) ->
  for_each (cut_surface mat conn Cells bProx bDef sp) Meshes st = Some st' ->
  csGeometryForRemoval st'
  = csGeometryForRemoval st ++ superseded Before Cells Meshes.
Proof.
  induction Meshes as [|S Meshes IH]; intros st st' Hk Hvalid Hrun.
  - cbn in Hrun. injection Hrun as <-. unfold superseded. cbn. by rewrite app_nil_r.
  - cbn in Hrun.
    destruct (cut_surface mat conn Cells bProx bDef sp st S) as [st1|] eqn:Hstep; [|done].
    cbn in Hrun. destruct (Hvalid S) as [t0 Ht0]; [by left|].
    rewrite (IH st1 st'); [| |by intros S' HS'; apply Hvalid; right|done].
    + rewrite (cut_surface_removal _ _ _ _ _ _ _ _ _ _ _ Hk Ht0 Hstep).
      rewrite <- app_assoc. f_equal. unfold superseded. rewrite filter_cons.
      destruct (decide (was_cut Cells S)); [|done].
      cbn [omap list_omap]. by rewrite Ht0.
    + eapply (cut_surface_Inv (keeps_rows Before)); [| |exact Hk|exact Hstep].
      * intros. by eapply keeps_rows_append.
      * intros c1 first P P' A B Hk1 _. revert Hk1. by apply keeps_rows_groups.
Qed.

Lemma in_listed_range_geometry (c c' : FGeometryCollection) (G : list Z) (i : Z) :
  GeometryGroup c' = GeometryGroup c -> in_listed_range c G i -> in_listed_range c' G i.
Proof. unfold in_listed_range. by intros ->. Qed.

(** X11.  [CutWithCellMeshes] hides what it supersedes and nothing else.
    When it returns for target pieces that are transforms of the
    collection, a face of the collection passed in is invisible if it lies
    in the face range of the geometry of a piece that was cut, and keeps
    its visibility otherwise; the geometry of every piece that was cut is
    such a superseded geometry, and all the faces of its range are
    invisible. *)
Theorem CutWithCellMeshes_hides_superseded
    (Meshes : list FMeshData.t) (mat : Z) (conn : list (Z * Z)) (Cells : FCellMeshes)
    (c : FGeometryCollection) (bDef : bool) (sp : float)
    (ret : Z) (c' : FGeometryCollection) :
  (forall S, S ∈ Meshes ->
     is_Some (lookupZ (TransformGroup c) (FMeshData.TransformIndex S))) ->
  CutWithCellMeshes Meshes mat conn Cells c bDef sp = Some (ret, c') ->
  (forall i r, lookupZ (FacesGroup c) i = Some r ->
     exists r', lookupZ (FacesGroup c') i = Some r'
                /\ (in_listed_range c' (superseded c Cells Meshes) i ->
                    Visible r' = false)
                /\ (~ in_listed_range c' (superseded c Cells Meshes) i ->
                    Visible r' = Visible r))
  /\ (forall S t g i,
        S ∈ Meshes -> was_cut Cells S ->
        lookupZ (TransformGroup c) (FMeshData.TransformIndex S) = Some t ->
        lookupZ (GeometryGroup c) (TransformToGeometryIndex t) = Some g ->
        FaceStart g <= i < int32_wrap (FaceStart g + FaceCount g) ->
        in_listed_range c' (superseded c Cells Meshes) i
        /\ exists r', lookupZ (FacesGroup c') i = Some r' /\ Visible r' = false).
Proof.
  intros Hvalid Hrun. unfold CutWithCellMeshes in Hrun.
  destruct (for_each _ Meshes _) as [st|] eqn:Hloop; [|done]. cbn in Hrun.
  destruct (hide_superseded _ _) as [c2|] eqn:Hhide; [|done]. cbn in Hrun.
  injection Hrun as <- <-.
  assert (Hk : keeps_rows c (csCollection st) (csFirstIdx st)).
  { eapply cut_loop_keeps_rows; [|exact Hloop]. apply keeps_rows_start. }
  assert (Hrem : csGeometryForRemoval st = superseded c Cells Meshes).
  { exact (cut_loop_removal _ _ _ _ _ _ c Meshes (mkCutState c (-1) []) st
             (keeps_rows_start c) Hvalid Hloop). }
  rewrite Hrem in Hhide. set (removed := superseded c Cells Meshes) in *.
  destruct Hk as (HG & _ & HF & _).
  assert (Hfaces :
    GeometryGroup c2 = GeometryGroup (csCollection st)
    /\ (forall i, in_listed_range (csCollection st) removed i ->
          exists r1, lookupZ (FacesGroup (csCollection st)) i = Some r1
                     /\ lookupZ (FacesGroup c2) i = Some (hide_or_show_face false r1))
    /\ (forall i, ~ in_listed_range (csCollection st) removed i ->
          lookupZ (FacesGroup c2) i = lookupZ (FacesGroup (csCollection st)) i)).
  { unfold hide_superseded in Hhide. destruct (decide (Num removed > 0)) as [Hpos|Hz].
    - unfold SetGeometryVisibility in Hhide.
      destruct (for_each _ removed _) as [Faces|] eqn:Hvis; [|done]. cbn in Hhide.
      injection Hhide as <-. cbn.
      apply visibility_loop in Hvis as (Hval & _ & _ & Hin & Hout).
      split; [done|]. split; [|done].
      intros i Hi. destruct (Hval i Hi) as [r1 Hr1]. exists r1.
      split; [done|]. by rewrite (Hin i Hi), Hr1.
    - injection Hhide as <-. split; [done|]. split; [|done].
      intros i Hi. exfalso. destruct removed; [by apply in_listed_range_nil in Hi|].
      unfold Num in Hz. cbn in Hz. lia. }
  destruct Hfaces as (Hgeo & Hin & Hout).
  assert (Hsame : forall i, in_listed_range c2 removed i
                            <-> in_listed_range (csCollection st) removed i).
  { intros i. split; apply in_listed_range_geometry; done. }
  split.
  - intros i r Hr.
    assert (Hr1 : lookupZ (FacesGroup (csCollection st)) i = Some r).
    { destruct HF as [k ->]. by apply lookupZ_app_l. }
    destruct (in_listed_range_dec (csCollection st) removed i) as [Hi|Hi].
    + destruct (Hin i Hi) as (r1 & Hr1' & Hr2). exists (hide_or_show_face false r1).
      split; [done|]. split; [done|]. intros Hn. destruct Hn. by apply Hsame.
    + exists r. rewrite (Hout i Hi). split; [done|]. split; [|done].
      intros Hi'. destruct Hi. by apply Hsame.
  - intros S t g i HS Hcut Ht Hg Hi.
    assert (Hlisted : in_listed_range (csCollection st) removed i).
    { exists (TransformToGeometryIndex t), g. split; [|split; [|done]].
      - unfold removed, superseded. apply list_elem_of_omap.
        exists S. split; [by apply list_elem_of_filter|]. by rewrite Ht.
      - destruct HG as [k ->]. by apply lookupZ_app_l. }
    split; [by apply Hsame|].
    destruct (Hin i Hlisted) as (r1 & _ & Hr2). eauto.
Qed.

End KeptRows.

(** ** Linking and unlinking in the proximity multimap *)

Section MultimapRoundTrip.

Lemma MultiFind_elem (M : TMultiMap) (K V : Z) : V ∈ MultiFind M K <-> (K, V) ∈ M.
Proof.
  unfold MultiFind. rewrite list_elem_of_fmap. split.
  - intros ([K' V'] & -> & Hin). apply list_elem_of_filter in Hin as [HK Hin].
    cbn in HK. by subst.
  - intros Hin. exists (K, V). split; [done|]. by apply list_elem_of_filter.
Qed.

Lemma RemoveSingle_absent (M : TMultiMap) (K V : Z) :
  (K, V) ∉ M -> RemoveSingle M K V = M.
Proof.
  induction M as [|p M IH]; intros Hn; [done|]. cbn.
  destruct (decide (p = (K, V))) as [->|Hp]; [by destruct Hn; left|].
  rewrite IH; [done|]. intros Hin. apply Hn. by right.
Qed.

(** X12.  In the multimap of [CutWithMultiplePlanes], [MultiFind] lists
    the values paired with a key; after [ProxLink] each of the two pieces
    is found among the neighbours of the other; [ProxUnlink] after
    [ProxLink] leaves every pair as often in the multimap as before; and
    [ProxUnlink] of two pieces that are not linked changes nothing. *)
Theorem ProxLink_then_ProxUnlink (M : TMultiMap) (A B : Z) :
  (forall K V, V ∈ MultiFind M K <-> (K, V) ∈ M)
  /\ B ∈ MultiFind (ProxLink M A B) A
  /\ A ∈ MultiFind (ProxLink M A B) B
  /\ (forall X Y, links (ProxUnlink (ProxLink M A B) A B) X Y = links M X Y)
  /\ ((A, B) ∉ M -> (B, A) ∉ M -> ProxUnlink M A B = M).
Proof.
  split; [apply MultiFind_elem|]. split; [|split; [|split]].
  - apply MultiFind_elem. unfold ProxLink, MultiAdd. rewrite !elem_of_cons.
    by right; left.
  - apply MultiFind_elem. unfold ProxLink, MultiAdd. rewrite !elem_of_cons.
    by left.
  - intros X Y. unfold ProxUnlink, ProxLink, MultiAdd.
    rewrite !links_RemoveSingle, !links_cons.
    destruct (decide ((X, Y) = (B, A))) as [E1|E1];
      destruct (decide ((X, Y) = (A, B))) as [E2|E2];
      destruct (decide ((B, A) = (A, B))) as [E3|E3];
      destruct (decide ((A, B) = (A, B))) as [E4|E4];
      destruct (decide ((B, A) = (B, A))) as [E5|E5];
      destruct (decide ((A, B) = (B, A))) as [E6|E6];
      destruct (decide ((A, B) = (X, Y))) as [E7|E7];
      destruct (decide ((B, A) = (X, Y))) as [E8|E8];
      simplify_eq; lia.
  - intros HAB HBA. unfold ProxUnlink.
    rewrite (RemoveSingle_absent _ _ _ HAB). by apply RemoveSingle_absent.
Qed.

Lemma ProxLink_then_ProxUnlink_witness :
  ProxUnlink [(1, 2); (2, 1)] 3 4 = [(1, 2); (2, 1)].
Proof.
  apply (ProxLink_then_ProxUnlink [(1, 2); (2, 1)] 3 4).
  - rewrite !elem_of_cons, elem_of_nil. intros [[=]|[[=]|[]]].
  - rewrite !elem_of_cons, elem_of_nil. intros [[=]|[[=]|[]]].
Defined.

End MultimapRoundTrip.

(** ** Nothing to cut *)

Section NothingToCut.
Context `{Engine}.

Lemma at_most_one_with_key (Lp : list (Z * Z)) (k : Z) :
  NoDup Lp.*1 -> (length (filter (fun p => p.1 = k) Lp) <= 1)%nat.
Proof.
  induction Lp as [|[a b] Lp IH]; intros Hnd; [cbn; lia|].
  cbn in Hnd. apply NoDup_cons in Hnd as [Hnotin Hnd].
  rewrite filter_cons. cbn [fst]. destruct (decide (a = k)) as [->|Hne]; [|by apply IH].
  cbn [length].
  assert (Hnone : filter (fun p : Z * Z => p.1 = k) Lp = []).
  { destruct (filter (fun p : Z * Z => p.1 = k) Lp) as [|[a' b'] l] eqn:Hf; [done|].
    assert (Hin : (a', b') ∈ filter (fun p : Z * Z => p.1 = k) Lp)
      by (rewrite Hf; by left).
    apply list_elem_of_filter in Hin as [Hk Hin]. cbn in Hk. subst a'.
    destruct Hnotin. apply list_elem_of_fmap. by exists (k, b'). }
  rewrite Hnone. cbn. lia.
Qed.

Lemma MultiFind_reverse (M : TMultiMap) (K : Z) :
  MultiFind (reverse M) K = reverse (MultiFind M K).
Proof.
  unfold MultiFind. induction M as [|p M IH]; [done|].
  rewrite reverse_cons, filter_app, fmap_app, IH, !filter_cons, filter_nil.
  destruct (decide (p.1 = K)); cbn [fmap list_fmap].
  - by rewrite reverse_cons.
  - by rewrite app_nil_r.
Qed.

Lemma ParentTransformToChildren_fold (l : list (Z * FMeshData.t)) (M : TMultiMap) :
  fold_left (fun M '(ToCutIdx, md) => MultiAdd M (FMeshData.TransformIndex md) ToCutIdx) l M
  = reverse ((fun '(ToCutIdx, md) => (FMeshData.TransformIndex md, ToCutIdx)) <$> l) ++ M.
Proof.
  revert M. induction l as [|[i md] l IH]; intros M; [done|].
  cbn [fold_left fmap list_fmap]. by rewrite IH, reverse_cons, <- app_assoc.
Qed.

(** The children of a transform are found from the last piece to the
    first. *)
Lemma children_of_reverse (ToCut : list FMeshData.t) (t : Z) :
  children_of ToCut t
  = reverse (MultiFind ((fun '(ToCutIdx, md) => (FMeshData.TransformIndex md, ToCutIdx))
                          <$> zip (seqZ 0 (Num ToCut)) ToCut) t).
Proof.
  unfold children_of, ParentTransformToChildren.
  by rewrite ParentTransformToChildren_fold, app_nil_r, MultiFind_reverse.
Qed.

Lemma children_of_NoDup (ToCut : list FMeshData.t) (t : Z) :
  NoDup (FMeshData.TransformIndex <$> ToCut) -> Num (children_of ToCut t) <= 1.
Proof.
  intros Hnd. rewrite children_of_reverse. unfold MultiFind, Num.
  rewrite length_reverse, length_fmap.
  enough (Hkeys' : NoDup ((fun '(ToCutIdx, md) => (FMeshData.TransformIndex md, ToCutIdx))
                            <$> zip (seqZ 0 (Z.of_nat (length ToCut))) ToCut).*1).
  { pose proof (at_most_one_with_key _ t Hkeys'). lia. }
  rewrite <- list_fmap_compose.
  assert (Hkeys : (fst ∘ (fun '(ToCutIdx, md) => (FMeshData.TransformIndex md, ToCutIdx)))
                    <$> zip (seqZ 0 (Z.of_nat (length ToCut))) ToCut
                  = FMeshData.TransformIndex <$> ToCut).
  { rewrite <- (snd_zip (seqZ 0 (Z.of_nat (length ToCut))) ToCut) at 3
      by (rewrite length_seqZ; lia).
    rewrite <- list_fmap_compose. apply list_fmap_ext. by intros i [a b]. }
  by rewrite Hkeys.
Qed.

Lemma append_children_uncut mat bDef sp st MeshData st' :
  NoDup (FMeshData.TransformIndex <$> asToCut st) ->
  append_children mat bDef sp st MeshData = Some st' -> st' = st.
Proof.
  intros Hnd. unfold append_children.
  destruct (lookupZ _ _) as [t|]; [|done]. cbn.
  destruct (internal_material _ _ _ _) as [imat|]; [|done]. cbn.
  destruct (decide _) as [_|Hgt]; [by intros [= <-]|].
  destruct Hgt. by apply children_of_NoDup.
Qed.

Lemma set_Proximity_own (c : FGeometryCollection) (P : list (gset Z)) :
  Proximity c = Some P -> set_Proximity c (Some P) = c.
Proof. destruct c. cbn. by intros ->. Qed.

(** X13.  Nothing to cut.  [CutWithCellMeshes] without target pieces
    returns -1 and the collection as it is.  [CutWithMultiplePlanes]
    without grout and without planes, for target pieces of different
    transforms, returns -1 and the collection as it is whenever it
    returns.  With an empty target list and without the default materials
    the boundary operations return -1, hand the collection with the
    [Proximity] attribute added, not the collection as passed in, to
    [ReindexMaterials], and leave the materials as they are; with the
    default materials they first run [SetUVScaleFromCollection] over all
    faces of the collection, abort when it aborts, and otherwise return the
    same with the materials it made.  [CutWithMesh] aborts when the
    conversion of the cutting mesh does. *)
Theorem nothing_to_cut :
  (forall mat conn Cells c bDef sp,
      CutWithCellMeshes [] mat conn Cells c bDef sp = Some (-1, c))
  /\ (forall GroutMesh Meshes Grout sp c n mat bDef ret c',
        (0 <? Grout)%float = false ->
        NoDup (FMeshData.TransformIndex <$> Meshes) ->
        CutWithMultiplePlanes GroutMesh Meshes [] Grout sp c n mat bDef = Some (ret, c') ->
        ret = -1 /\ c' = c)
  /\ (forall MakeCells PlaneCells mat Source sp T,
        CutMultipleWithPlanarCells MakeCells PlaneCells mat Source [] sp T false
        = Some (-1, ReindexMaterials (ensure_Proximity Source), mat)
        /\ CutMultipleWithPlanarCells MakeCells PlaneCells mat Source [] sp T true
           = match SetUVScaleFromCollection mat (ensure_Proximity Source) (-1) with
             | Some mat' => Some (-1, ReindexMaterials (ensure_Proximity Source), mat')
             | None => None
             end)
  /\ (forall M XF mat c sp T n,
        (forall bDef, CutWithMesh None XF mat c [] sp T n bDef = None)
        /\ CutWithMesh (Some M) XF mat c [] sp T n false
           = Some (-1, ReindexMaterials (ensure_Proximity c), mat)
        /\ CutWithMesh (Some M) XF mat c [] sp T n true
           = match SetUVScaleFromCollection mat (ensure_Proximity c) (-1) with
             | Some mat' => Some (-1, ReindexMaterials (ensure_Proximity c), mat')
             | None => None
             end)
  /\ (forall GroutMesh Planes mat c Grout sp T n,
        CutMultipleWithMultiplePlanes GroutMesh Planes mat c [] Grout sp T n false
        = Some (-1, ReindexMaterials (ensure_Proximity c), mat)
        /\ CutMultipleWithMultiplePlanes GroutMesh Planes mat c [] Grout sp T n true
           = match SetUVScaleFromCollection mat c (-1) with
             | Some mat' => Some (-1, ReindexMaterials (ensure_Proximity c), mat')
             | None => None
             end).
Proof.
  assert (Hempty : forall Planes : list FPlane, forall b (L : TMultiMap),
            for_each (cut_with_plane b) Planes ([], L) = Some ([], L)).
  { induction Planes as [|P Planes IH]; intros b L; [done|]. cbn. apply IH. }
  assert (Hplanes : forall GroutMesh Planes Grout sp c n mat bDef,
            CutWithMultiplePlanes GroutMesh [] Planes Grout sp (ensure_Proximity c)
              n mat bDef = Some (-1, ensure_Proximity c)).
  { intros. unfold CutWithMultiplePlanes. destruct (0 <? Grout)%float; [done|].
    unfold CutWithMultiplePlanes_no_grout. rewrite Hempty. cbn.
    destruct (bool_decide _); [|done].
    destruct (Proximity (ensure_Proximity c)) as [P|] eqn:HP.
    + cbn. by rewrite (set_Proximity_own _ _ HP).
    + exfalso. unfold ensure_Proximity in HP. destruct (Proximity c) eqn:HP'.
      * by rewrite HP' in HP.
      * done. }
  split; [done|]. split; [|split; [|split]].
  - intros GroutMesh Meshes Grout sp c n mat bDef ret c' Hgrout Hnd Hrun.
    unfold CutWithMultiplePlanes in Hrun. rewrite Hgrout in Hrun.
    unfold CutWithMultiplePlanes_no_grout in Hrun. cbn [for_each] in Hrun.
    cbn [mbind option_bind] in Hrun.
    destruct (for_each _ Meshes _) as [st|] eqn:Happ; [|done].
    cbn [mbind option_bind] in Hrun.
    assert (Hst : st = mkAppendState c Meshes (replicate (length Meshes) (-1)) (-1) []).
    { refine (for_each_preserves
                (fun st => st = mkAppendState c Meshes
                                  (replicate (length Meshes) (-1)) (-1) [])
                _ _ _ _ _ eq_refl Happ).
      intros s a s' -> Hstep. by eapply append_children_uncut. }
    subst st. cbn in Hrun.
    destruct (bool_decide (is_Some (Proximity c))).
    + destruct (Proximity c) as [P|] eqn:HP; [|done]. cbn in Hrun.
      injection Hrun as <- <-. split; [done|]. by apply set_Proximity_own.
    + cbn in Hrun. by injection Hrun as <- <-.
  - intros MakeCells PlaneCells mat Source sp T.
    unfold CutMultipleWithPlanarCells, set_default_uv_scale. split; [done|].
    by destruct (SetUVScaleFromCollection _ _ _).
  - intros M XF mat c sp T n.
    unfold CutWithMesh, set_default_uv_scale. split; [done|]. split; [done|].
    cbn [mbind option_bind]. by destruct (SetUVScaleFromCollection _ _ _).
  - intros GroutMesh Planes mat c Grout sp T n.
    unfold CutMultipleWithMultiplePlanes, set_default_uv_scale.
    cbn [Init for_each mbind option_bind]. split.
    + by rewrite Hplanes.
    + destruct (SetUVScaleFromCollection _ _ _) as [mat'|]; [|done].
      cbn [mbind option_bind]. by rewrite Hplanes.
Qed.

End NothingToCut.

(** ** Bone names *)

Section BoneNames.
Context `{Engine}.

(** X14.  [GetBoneName] is defined exactly for a parent that is a
    transform of the collection, and for one parent different sub-part
    indices give different names. *)
Theorem GetBoneName_distinct (Output : FGeometryCollection) (TransformParent : Z) :
  (is_Some (lookupZ (TransformGroup Output) TransformParent)
   <-> forall i, is_Some (GetBoneName Output TransformParent i))
  /\ (forall i j n, GetBoneName Output TransformParent i = Some n ->
                    GetBoneName Output TransformParent j = Some n -> i = j).
Proof.
  unfold GetBoneName. split.
  - split.
    + intros [p ->] i. cbn. eauto.
    + intros Hall. specialize (Hall 0).
      destruct (lookupZ (TransformGroup Output) TransformParent); [eauto|].
      by destruct Hall.
  - intros i j n.
    destruct (lookupZ (TransformGroup Output) TransformParent) as [p|]; [|done].
    cbn. intros [= <-] [= Heq].
    apply (inj (String.append (BoneName p))) in Heq.
    apply (inj (String.append "_")) in Heq.
    by apply (inj pretty) in Heq.
Qed.

End BoneNames.

(** ** Grout: the shape of the cells *)

Section GroutShape.
Context `{Engine}.

(** X15.  [ApplyGeneralGrout] returns the cells as they are for a grout
    [<= 0].  Whenever it returns, the number of cell meshes, the index of
    the outside cell and the number of UV layers are as before.  The run is
    aborted exactly if the grout is not [<= 0] and the index of the outside
    cell is neither -1 nor the index of a cell mesh. *)
Theorem ApplyGeneralGrout_keeps_shape (Grout : float) (Cells : FCellMeshes) :
  ((Grout <=? 0)%float = true -> ApplyGeneralGrout Grout Cells = Some Cells)
  /\ (forall Cells', ApplyGeneralGrout Grout Cells = Some Cells' ->
        Num (CellMeshes Cells') = Num (CellMeshes Cells)
        /\ OutsideCellIndex Cells' = OutsideCellIndex Cells
        /\ NumUVLayers Cells' = NumUVLayers Cells)
  /\ (ApplyGeneralGrout Grout Cells = None
      <-> (Grout <=? 0)%float = false
          /\ OutsideCellIndex Cells <> -1
          /\ ~ 0 <= OutsideCellIndex Cells < Num (CellMeshes Cells)).
Proof.
  unfold ApplyGeneralGrout.
  assert (Hlen : Num (grout_cells Grout Cells) = Num (CellMeshes Cells)).
  { unfold Num. by rewrite grout_cells_length. }
  destruct (Grout <=? 0)%float.
  { split; [done|]. split; [by intros Cells' [= <-]|]. split; [done|].
    by intros [[=] _]. }
  split; [done|].
  destruct (decide (OutsideCellIndex Cells <> -1)) as [Hout|Hnone].
  - destruct (decide (0 <= OutsideCellIndex Cells < Num (CellMeshes Cells)))
      as [Hin|Hnot].
    + destruct (lookupZ_is_Some (grout_cells Grout Cells) (OutsideCellIndex Cells))
        as [m Hm]; [lia|].
      rewrite Hm. cbn. rewrite storeZ_Some by lia. cbn. split.
      * intros Cells' [= <-]. cbn. split; [|done]. by rewrite Num_insert.
      * split; [done|]. intros (_ & _ & Hn). done.
    + assert (Hmiss : lookupZ (grout_cells Grout Cells) (OutsideCellIndex Cells) = None).
      { destruct (lookupZ _ _) as [m|] eqn:Hm; [|done].
        apply lookupZ_Some in Hm. lia. }
      rewrite Hmiss. cbn. split; [done|]. done.
  - split.
    + intros Cells' [= <-]. done.
    + split; [done|]. intros (_ & Hne & _). done.
Qed.

End GroutShape.

(** ** Cells from a grid and from boxes *)

Section GridCells.
Context {F : Type} `{Scalar F} `{Negation F}.
Import FPlanarCells.

Lemma i32_add_small (a b : Z) : int32_range (a + b) -> i32_add a b = a + b.
Proof. apply int32_wrap_small. Qed.

Lemma i32_sub_small (a b : Z) : int32_range (a - b) -> i32_sub a b = a - b.
Proof. apply int32_wrap_small. Qed.

Lemma i32_mul_small (a b : Z) : int32_range (a * b) -> i32_mul a b = a * b.
Proof. apply int32_wrap_small. Qed.

(** The cell index of an index triple inside the grid. *)
Lemma ToIdxUnsafe_inside (PX PY PZ Xi Yi Zi : Z) :
  PX * PY * PZ < 2 ^ 31 ->
  0 <= Xi < PX -> 0 <= Yi < PY -> 0 <= Zi < PZ ->
  ToIdxUnsafe (PX, PY, PZ) Xi Yi Zi = Xi + Yi * PX + Zi * (PX * PY)
  /\ 0 <= Xi + Yi * PX + Zi * (PX * PY) < PX * PY * PZ.
Proof.
  intros Hfit HX HY HZ.
  assert (Hxy : 0 <= Xi + Yi * PX < PX * PY) by nia.
  assert (Hpxy : 0 < PX * PY <= PX * PY * PZ) by nia.
  assert (Hz : 0 <= Zi * (PX * PY) <= PX * PY * PZ - PX * PY) by nia.
  split; [|lia].
  unfold ToIdxUnsafe.
  rewrite (i32_mul_small Yi PX) by (unfold int32_range; nia).
  rewrite (i32_mul_small PX PY) by (unfold int32_range; nia).
  rewrite (i32_mul_small Zi (PX * PY)) by (unfold int32_range; nia).
  rewrite (i32_add_small Xi (Yi * PX)) by (unfold int32_range; nia).
  apply i32_add_small. unfold int32_range. lia.
Qed.

(** X16.  For a grid of [PX * PY * PZ] cells, a number that fits [int32]:
    [ToIdx] is -1 exactly for an index triple outside the grid; inside the
    grid it is [Xi + Yi * PX + Zi * PX * PY], the value of [ToIdxUnsafe],
    which is the index of a cell; and different triples inside the grid
    have different cell indices. *)
Theorem ToIdx_numbers_the_cells (PX PY PZ : Z) :
  PX * PY * PZ < 2 ^ 31 ->
  (forall Xi Yi Zi,
     ToIdx (PX, PY, PZ) Xi Yi Zi = -1
     <-> ~ (0 <= Xi < PX /\ 0 <= Yi < PY /\ 0 <= Zi < PZ))
  /\ (forall Xi Yi Zi,
        0 <= Xi < PX -> 0 <= Yi < PY -> 0 <= Zi < PZ ->
        ToIdx (PX, PY, PZ) Xi Yi Zi = Xi + Yi * PX + Zi * (PX * PY)
        /\ ToIdx (PX, PY, PZ) Xi Yi Zi = ToIdxUnsafe (PX, PY, PZ) Xi Yi Zi
        /\ 0 <= ToIdx (PX, PY, PZ) Xi Yi Zi < PX * PY * PZ)
  /\ (forall Xi Yi Zi Xj Yj Zj,
        0 <= Xi < PX -> 0 <= Yi < PY -> 0 <= Zi < PZ ->
        0 <= Xj < PX -> 0 <= Yj < PY -> 0 <= Zj < PZ ->
        ToIdx (PX, PY, PZ) Xi Yi Zi = ToIdx (PX, PY, PZ) Xj Yj Zj ->
        Xi = Xj /\ Yi = Yj /\ Zi = Zj).
Proof.
  intros Hfit.
  assert (Hin : forall Xi Yi Zi,
            0 <= Xi < PX -> 0 <= Yi < PY -> 0 <= Zi < PZ ->
            ToIdx (PX, PY, PZ) Xi Yi Zi = Xi + Yi * PX + Zi * (PX * PY)).
  { intros Xi Yi Zi HX HY HZ. unfold ToIdx.
    destruct (decide _) as [Hout|_]; [lia|].
    by apply (ToIdxUnsafe_inside PX PY PZ Xi Yi Zi). }
  split; [|split].
  - intros Xi Yi Zi. split.
    + intros Hm (HX & HY & HZ). rewrite Hin in Hm by done.
      pose proof (proj2 (ToIdxUnsafe_inside PX PY PZ Xi Yi Zi Hfit HX HY HZ)). lia.
    + intros Hout. unfold ToIdx. destruct (decide _) as [_|Hn]; [done|]. lia.
  - intros Xi Yi Zi HX HY HZ.
    destruct (ToIdxUnsafe_inside PX PY PZ Xi Yi Zi Hfit HX HY HZ) as [Hu Hr].
    rewrite Hin by done. split; [done|]. split; [by rewrite Hu|done].
  - intros Xi Yi Zi Xj Yj Zj HXi HYi HZi HXj HYj HZj Heq.
    rewrite !Hin in Heq by done.
    assert (Hi : 0 <= Xi + Yi * PX < PX * PY) by nia.
    assert (Hj : 0 <= Xj + Yj * PX < PX * PY) by nia.
    assert (HZ : Zi = Zj).
    { set (S := PX * PY) in *. set (a := Xi + Yi * PX) in *.
      set (b := Xj + Yj * PX) in *.
      destruct (Z.lt_trichotomy Zi Zj) as [Hlt|[Heq'|Hgt]]; [|done|].
      - assert (Zj * S >= (Zi + 1) * S) by nia. lia.
      - assert (Zi * S >= (Zj + 1) * S) by nia. lia. }
    subst Zj.
    assert (HY : Yi = Yj).
    { destruct (Z.lt_trichotomy Yi Yj) as [Hlt|[Heq'|Hgt]]; [|done|].
      - assert (Yj * PX >= (Yi + 1) * PX) by nia. lia.
      - assert (Yi * PX >= (Yj + 1) * PX) by nia. lia. }
    subst Yj. split; [lia|done].
Qed.

(** *** The loops over the grid *)

Lemma length_bind_blocks {A B : Type} (f : A -> list B) (k : nat) (l : list A) :
  (forall x, x ∈ l -> length (f x) = k) -> length (l ≫= f) = (length l * k)%nat.
Proof.
  induction l as [|x l IH]; intros Hk; [done|].
  rewrite bind_cons, length_app, (Hk x) by (by left).
  rewrite IH by (intros y Hy; apply Hk; by right). cbn. lia.
Qed.

Lemma elem_of_grid_indices (NX NY NZ Xi Yi Zi : Z) :
  (Xi, Yi, Zi) ∈ grid_indices NX NY NZ
  <-> 0 <= Xi < NX /\ 0 <= Yi < NY /\ 0 <= Zi < NZ.
Proof.
  unfold grid_indices. rewrite list_elem_of_bind. split.
  - intros (Zi' & Hin & HZ). apply list_elem_of_bind in Hin as (Yi' & Hin & HY).
    apply list_elem_of_bind in Hin as (Xi' & Hin & HX).
    apply list_elem_of_singleton in Hin. injection Hin as -> -> ->.
    apply elem_of_seqZ in HX, HY, HZ. lia.
  - intros (HX & HY & HZ). exists Zi. split; [|apply elem_of_seqZ; lia].
    apply list_elem_of_bind. exists Yi. split; [|apply elem_of_seqZ; lia].
    apply list_elem_of_bind. exists Xi. split; [|apply elem_of_seqZ; lia].
    by apply list_elem_of_singleton.
Qed.

Lemma Num_grid_indices (NX NY NZ : Z) :
  0 <= NX -> 0 <= NY -> 0 <= NZ -> Num (grid_indices NX NY NZ) = NX * NY * NZ.
Proof.
  intros HX HY HZ. unfold Num, grid_indices.
  rewrite (length_bind_blocks _ (Z.to_nat (NX * NY))).
  - rewrite length_seqZ. nia.
  - intros Zi _. rewrite (length_bind_blocks _ (Z.to_nat NX)).
    + rewrite length_seqZ. nia.
    + intros Yi _. rewrite (length_bind_blocks _ 1%nat); [|done].
      rewrite length_seqZ. lia.
Qed.

(** A loop that assigns consecutive entries of an array. *)
Lemma store_in_sequence {A B : Type} (g : B -> A)
    (body : list A * Z -> B -> option (list A * Z)) (L : list B) :
  (forall verts idx x,
     body (verts, idx) x
     = (verts ← storeZ verts idx (g x); Some (verts, i32_add idx 1))) ->
  forall (l : list A) (k : nat),
    (k + length L <= length l)%nat -> Num l < 2 ^ 31 ->
    for_each body L (l, Z.of_nat k)
    = Some (take k l ++ (g <$> L) ++ drop (k + length L) l,
            Z.of_nat (k + length L)).
Proof.
  intros Hbody. induction L as [|x L IH]; intros l k Hfit Hsmall.
  - cbn. rewrite Nat.add_0_r, take_drop. done.
  - cbn [for_each length] in *. rewrite Hbody.
    rewrite storeZ_Some by (unfold Num; lia). cbn [mbind option_bind].
    rewrite i32_add_small by (unfold int32_range, Num in *; lia).
    replace (Z.of_nat k + 1) with (Z.of_nat (S k)) by lia.
    rewrite IH by (rewrite ?length_insert; unfold Num in *;
                   rewrite ?length_insert; lia).
    rewrite Nat2Z.id. f_equal. f_equal; [|lia].
    rewrite drop_insert_lt by lia.
    assert (Hk : <[k:=g x]> l !! k = Some (g x))
      by (apply list_lookup_insert_eq; lia).
    rewrite (take_S_r _ _ _ Hk).
    rewrite take_insert_ge by lia. rewrite <- app_assoc. cbn.
    replace (k + S (length L))%nat with (S (k + length L)) by lia. done.
Qed.

Lemma grid_vertices_fits (U : FVector3 F) (Region : FBoxOf) (CX CY CZ : Z) :
  0 <= CX -> 0 <= CY -> 0 <= CZ -> (CX + 1) * (CY + 1) * (CZ + 1) < 2 ^ 31 ->
  grid_vertices U Region (CX, CY, CZ)
  = Some ((fun '(Xi, Yi, Zi) =>
             grid_vertex Region (CellSizesOf Region (CX, CY, CZ)) Xi Yi Zi)
          <$> grid_indices (CX + 1) (CY + 1) (CZ + 1)).
Proof.
  intros HX HY HZ Hfit. unfold grid_vertices.
  assert (Hxy : (CX + 1) * (CY + 1) <= (CX + 1) * (CY + 1) * (CZ + 1)) by nia.
  rewrite !(i32_add_small _ 1) by (unfold int32_range; nia).
  rewrite (i32_mul_small (CX + 1) (CY + 1)) by (unfold int32_range; nia).
  rewrite (i32_mul_small ((CX + 1) * (CY + 1)) (CZ + 1)) by (unfold int32_range; nia).
  set (n := (CX + 1) * (CY + 1) * (CZ + 1)) in *.
  destruct (decide (n < 0)); [nia|].
  pose proof (Num_grid_indices (CX + 1) (CY + 1) (CZ + 1)) as Hlen.
  fold n in Hlen. unfold Num in Hlen.
  change (replicate (Z.to_nat n) U, 0) with (replicate (Z.to_nat n) U, Z.of_nat 0).
  match goal with
  | |- context [for_each ?b ?L ?s] =>
      rewrite (store_in_sequence
                 (fun '(Xi, Yi, Zi) =>
                    grid_vertex Region (CellSizesOf Region (CX, CY, CZ)) Xi Yi Zi)
                 b L)
  end.
  - cbn [mbind option_bind]. rewrite drop_ge, app_nil_r; [done|].
    rewrite length_replicate. lia.
  - by intros verts idx [[Xi Yi] Zi].
  - rewrite length_replicate. lia.
  - unfold Num. rewrite length_replicate. lia.
Qed.

(** The cell pairs of the six calls for a cube of the grid. *)
Lemma grid_cell_planes_cells (Region : FBoxOf) (CX CY CZ Xi Yi Zi : Z) :
  CX * CY * CZ < 2 ^ 31 ->
  0 <= Xi < CX -> 0 <= Yi < CY -> 0 <= Zi < CZ ->
  (fun c => (apCellA c, apCellB c)) <$> grid_cell_planes Region (CX, CY, CZ) Xi Yi Zi
  = [ (Xi + Yi * CX + Zi * (CX * CY), ToIdx (CX, CY, CZ) Xi Yi (Zi - 1));
      (Xi + Yi * CX + Zi * (CX * CY), ToIdx (CX, CY, CZ) Xi Yi (Zi + 1));
      (Xi + Yi * CX + Zi * (CX * CY), ToIdx (CX, CY, CZ) Xi (Yi - 1) Zi);
      (Xi + Yi * CX + Zi * (CX * CY), ToIdx (CX, CY, CZ) Xi (Yi + 1) Zi);
      (Xi + Yi * CX + Zi * (CX * CY), ToIdx (CX, CY, CZ) (Xi - 1) Yi Zi);
      (Xi + Yi * CX + Zi * (CX * CY), ToIdx (CX, CY, CZ) (Xi + 1) Yi Zi) ].
Proof.
  intros Hfit HX HY HZ.
  assert (Hxy : 1 <= CX * CY) by nia.
  assert (Hyz : 1 <= CY * CZ) by nia.
  assert (Hxz : 1 <= CX * CZ) by nia.
  assert (Hc : CX <= CX * CY * CZ /\ CY <= CX * CY * CZ /\ CZ <= CX * CY * CZ).
  { split; [|split]; nia. }
  unfold grid_cell_planes. cbn [fmap list_fmap apCellA apCellB].
  rewrite (proj1 (ToIdxUnsafe_inside CX CY CZ Xi Yi Zi Hfit HX HY HZ)).
  rewrite !(i32_sub_small _ 1) by (unfold int32_range; lia).
  rewrite !(i32_add_small _ 1) by (unfold int32_range; lia).
  reflexivity.
Qed.

(** The boundaries of the six calls: the corners of the cube. *)
Lemma grid_cell_planes_boundaries (Region : FBoxOf) (CX CY CZ Xi Yi Zi : Z) :
  (CX + 1) * (CY + 1) * (CZ + 1) < 2 ^ 31 ->
  0 <= Xi < CX -> 0 <= Yi < CY -> 0 <= Zi < CZ ->
  let VX := CX + 1 in
  let S := (CX + 1) * (CY + 1) in
  let v := Xi + Yi * VX + Zi * S in
  apBoundary <$> grid_cell_planes Region (CX, CY, CZ) Xi Yi Zi
  = [ [v + 0; v + 1; v + (VX + 1); v + VX];
      [v + S; v + (S + VX); v + (S + VX + 1); v + (S + 1)];
      [v + 0; v + S; v + (S + 1); v + 1];
      [v + VX; v + (VX + 1); v + (S + VX + 1); v + (S + VX)];
      [v + 0; v + VX; v + (S + VX); v + S];
      [v + 1; v + (S + 1); v + (S + VX + 1); v + (VX + 1)] ]
  /\ 0 <= v /\ v + (S + VX + 1) < (CX + 1) * (CY + 1) * (CZ + 1)
  /\ 0 < VX /\ 0 < S.
Proof.
  intros Hfit HX HY HZ VX S v.
  assert (HS : 0 < S) by (unfold S; nia).
  assert (HVX : 0 < VX) by (unfold VX; lia).
  assert (Hv0 : 0 <= v) by (unfold v, S, VX; nia).
  assert (Hmax : v + (S + VX + 1) < (CX + 1) * (CY + 1) * (CZ + 1)).
  { unfold v, S, VX. nia. }
  assert (HVXS : VX <= S) by (unfold VX, S; nia).
  assert (Hsmall : (CX + 1) * (CY + 1) * (CZ + 1) < 2 ^ 31) by done.
  split; [|done].
  unfold grid_cell_planes. cbn [fmap list_fmap apBoundary].
  rewrite !(i32_add_small CX 1), !(i32_add_small CY 1), !(i32_add_small CZ 1)
    by (unfold int32_range; nia).
  rewrite (proj1 (ToIdxUnsafe_inside (CX + 1) (CY + 1) (CZ + 1) Xi Yi Zi Hfit
                    ltac:(lia) ltac:(lia) ltac:(lia))).
  rewrite (i32_mul_small (CX + 1) (CY + 1)) by (fold S; unfold int32_range; lia).
  fold S. fold VX. fold v.
  rewrite (i32_add_small VX 1) by (unfold int32_range; lia).
  rewrite (i32_add_small S 1) by (unfold int32_range; lia).
  rewrite (i32_add_small S VX) by (unfold int32_range; lia).
  rewrite (i32_add_small (S + VX) 1) by (unfold int32_range; lia).
  rewrite !(i32_add_small v _) by (unfold int32_range; lia).
  reflexivity.
Qed.

Lemma ToIdx_cases (PX PY PZ Xi Yi Zi : Z) :
  PX * PY * PZ < 2 ^ 31 ->
  (~ (0 <= Xi < PX /\ 0 <= Yi < PY /\ 0 <= Zi < PZ)
   /\ ToIdx (PX, PY, PZ) Xi Yi Zi = -1)
  \/ ((0 <= Xi < PX /\ 0 <= Yi < PY /\ 0 <= Zi < PZ)
      /\ ToIdx (PX, PY, PZ) Xi Yi Zi = Xi + Yi * PX + Zi * (PX * PY)
      /\ 0 <= Xi + Yi * PX + Zi * (PX * PY) < PX * PY * PZ).
Proof.
  intros Hfit. unfold ToIdx. destruct (decide _) as [Hout|Hin].
  - left. split; [lia|done].
  - right. assert (HX : 0 <= Xi < PX) by lia. assert (HY : 0 <= Yi < PY) by lia.
    assert (HZ : 0 <= Zi < PZ) by lia.
    split; [done|]. by apply (ToIdxUnsafe_inside PX PY PZ Xi Yi Zi).
Qed.

(** The cell pairs of the calls of [FromGrid]. *)
Lemma grid_calls_pairs (Region : FBoxOf) (CX CY CZ : Z) (call : AddPlaneCall) :
  CX * CY * CZ < 2 ^ 31 ->
  call ∈ ('(Xi, Yi, Zi) ← grid_indices CX CY CZ;
          grid_cell_planes Region (CX, CY, CZ) Xi Yi Zi) ->
  exists Xi Yi Zi,
    (0 <= Xi < CX /\ 0 <= Yi < CY /\ 0 <= Zi < CZ)
    /\ call ∈ grid_cell_planes Region (CX, CY, CZ) Xi Yi Zi
    /\ apCellA call = Xi + Yi * CX + Zi * (CX * CY)
    /\ apCellB call ∈ [ ToIdx (CX, CY, CZ) Xi Yi (Zi - 1);
                        ToIdx (CX, CY, CZ) Xi Yi (Zi + 1);
                        ToIdx (CX, CY, CZ) Xi (Yi - 1) Zi;
                        ToIdx (CX, CY, CZ) Xi (Yi + 1) Zi;
                        ToIdx (CX, CY, CZ) (Xi - 1) Yi Zi;
                        ToIdx (CX, CY, CZ) (Xi + 1) Yi Zi ].
Proof.
  intros Hfit Hin. apply list_elem_of_bind in Hin as ([[Xi Yi] Zi] & Hcall & Htriple).
  apply elem_of_grid_indices in Htriple as (HX & HY & HZ).
  exists Xi, Yi, Zi. split; [done|]. split; [done|].
  assert (Hpair : (apCellA call, apCellB call)
                  ∈ (fun c => (apCellA c, apCellB c))
                      <$> grid_cell_planes Region (CX, CY, CZ) Xi Yi Zi).
  { apply list_elem_of_fmap. by exists call. }
  rewrite grid_cell_planes_cells in Hpair by done.
  rewrite !elem_of_cons, elem_of_nil in Hpair. rewrite !elem_of_cons, elem_of_nil.
  destruct Hpair as [Hp|[Hp|[Hp|[Hp|[Hp|[Hp|[]]]]]]]; injection Hp as -> ->; tauto.
Qed.

Lemma grid_calls_pair_intro (Region : FBoxOf) (CX CY CZ Xi Yi Zi a b : Z) :
  CX * CY * CZ < 2 ^ 31 ->
  0 <= Xi < CX -> 0 <= Yi < CY -> 0 <= Zi < CZ ->
  (a, b) ∈ (fun c => (apCellA c, apCellB c))
             <$> grid_cell_planes Region (CX, CY, CZ) Xi Yi Zi ->
  exists call,
    call ∈ ('(Xi, Yi, Zi) ← grid_indices CX CY CZ;
            grid_cell_planes Region (CX, CY, CZ) Xi Yi Zi)
    /\ apCellA call = a /\ apCellB call = b.
Proof.
  intros Hfit HX HY HZ Hin. apply list_elem_of_fmap in Hin as (call & [= -> ->] & Hcall).
  exists call. split; [|done]. apply list_elem_of_bind. exists (Xi, Yi, Zi).
  split; [done|]. by apply elem_of_grid_indices.
Qed.

(** X17.  The cells of a grid.  For a grid of [CX * CY * CZ] cubes whose
    [(CX+1) * (CY+1) * (CZ+1)] corners are fewer than 2^31, the
    constructor returns with that many cells and boundary vertices and
    with six calls of [AddPlane] per cube.  In every call the first cell
    is a cell of the grid, the second cell is -1 or another cell of the
    grid, and the boundary has four corners, each the index of a boundary
    vertex.  Every face between two cubes is added from both sides: for a
    call with cells [(A, B)], [B] not -1, there is a call with cells
    [(B, A)]. *)
Theorem FromGrid_cells (Uninitialized : FVector3 F) (Region : FBoxOf) (CX CY CZ : Z) :
  0 <= CX -> 0 <= CY -> 0 <= CZ -> (CX + 1) * (CY + 1) * (CZ + 1) < 2 ^ 31 ->
  exists cells,
    FromGrid Uninitialized Region (CX, CY, CZ) = Some cells
    /\ AssumeConvexCells cells = true
    /\ NumCells cells = CX * CY * CZ
    /\ Num (PlaneBoundaryVertices cells) = (CX + 1) * (CY + 1) * (CZ + 1)
    /\ Num (AddPlaneCalls cells) = 6 * (CX * CY * CZ)
    /\ (forall call, call ∈ AddPlaneCalls cells ->
          0 <= apCellA call < NumCells cells
          /\ (apCellB call = -1
              \/ (0 <= apCellB call < NumCells cells /\ apCellB call <> apCellA call))
          /\ Num (apBoundary call) = 4
          /\ forall v, v ∈ apBoundary call ->
               0 <= v < Num (PlaneBoundaryVertices cells))
    /\ (forall call, call ∈ AddPlaneCalls cells -> apCellB call <> -1 ->
          exists call', call' ∈ AddPlaneCalls cells
                        /\ apCellA call' = apCellB call
                        /\ apCellB call' = apCellA call).
Proof.
  intros HX HY HZ Hfit.
  assert (Hcells : CX * CY * CZ <= (CX + 1) * (CY + 1) * (CZ + 1)) by nia.
  assert (Hcxy : 0 <= CX * CY <= (CX + 1) * (CY + 1) * (CZ + 1)) by nia.
  assert (Hfit' : CX * CY * CZ < 2 ^ 31) by lia.
  unfold FromGrid. rewrite grid_vertices_fits by done. cbn [mbind option_bind].
  eexists. split; [reflexivity|]. cbn [AssumeConvexCells NumCells PlaneBoundaryVertices
                                        AddPlaneCalls].
  rewrite (i32_mul_small CX CY) by (unfold int32_range; lia).
  rewrite (i32_mul_small (CX * CY) CZ) by (unfold int32_range; nia).
  assert (Hverts : Num ((fun '(Xi, Yi, Zi) =>
                           grid_vertex Region (CellSizesOf Region (CX, CY, CZ)) Xi Yi Zi)
                        <$> grid_indices (CX + 1) (CY + 1) (CZ + 1))
                   = (CX + 1) * (CY + 1) * (CZ + 1)).
  { unfold Num. rewrite length_fmap. apply Num_grid_indices; lia. }
  rewrite Hverts.
  split; [done|]. split; [done|]. split; [done|]. split; [|split].
  - unfold Num. rewrite (length_bind_blocks _ 6%nat).
    + pose proof (Num_grid_indices CX CY CZ HX HY HZ) as Hn. unfold Num in Hn. lia.
    + by intros [[Xi Yi] Zi] _.
  - intros call Hcall.
    destruct (grid_calls_pairs _ _ _ _ _ Hfit' Hcall)
      as (Xi & Yi & Zi & (HXi & HYi & HZi) & Hin & HA & HB).
    destruct (ToIdxUnsafe_inside CX CY CZ Xi Yi Zi Hfit' HXi HYi HZi) as [_ Hrange].
    rewrite HA. split; [done|]. split.
    + assert (Hxy : 1 <= CX * CY) by nia.
      rewrite !elem_of_cons, elem_of_nil in HB.
      destruct HB as [HB|[HB|[HB|[HB|[HB|[HB|[]]]]]]]; rewrite HB;
        match goal with
        | |- ToIdx _ ?a ?b ?c = -1 \/ _ =>
            destruct (ToIdx_cases CX CY CZ a b c Hfit')
              as [[_ ->]|(_ & -> & Hr)]; [by left|right; split; [done|nia]]
        end.
    + assert (Hb : apBoundary call
                   ∈ apBoundary <$> grid_cell_planes Region (CX, CY, CZ) Xi Yi Zi).
      { apply list_elem_of_fmap. by exists call. }
      destruct (grid_cell_planes_boundaries Region CX CY CZ Xi Yi Zi Hfit HXi HYi HZi)
        as (Hlist & Hv0 & Hmax & HVX & HS).
      rewrite Hlist in Hb. rewrite !elem_of_cons, elem_of_nil in Hb.
      destruct Hb as [Hb|[Hb|[Hb|[Hb|[Hb|[Hb|[]]]]]]]; rewrite Hb;
        (split; [reflexivity|]);
        intros v Hv; rewrite !elem_of_cons, elem_of_nil in Hv;
        destruct Hv as [->|[->|[->|[->|[]]]]]; lia.
  - intros call Hcall HnotNone.
    destruct (grid_calls_pairs _ _ _ _ _ Hfit' Hcall)
      as (Xi & Yi & Zi & (HXi & HYi & HZi) & Hin & HA & HB).
    rewrite HA.
    assert (Hback : forall Xj Yj Zj,
              apCellB call = ToIdx (CX, CY, CZ) Xj Yj Zj ->
              (Xj = Xi /\ Yj = Yi /\ (Zj = Zi - 1 \/ Zj = Zi + 1))
              \/ (Xj = Xi /\ Zj = Zi /\ (Yj = Yi - 1 \/ Yj = Yi + 1))
              \/ (Yj = Yi /\ Zj = Zi /\ (Xj = Xi - 1 \/ Xj = Xi + 1)) ->
              exists call',
                call' ∈ ('(Xi, Yi, Zi) ← grid_indices CX CY CZ;
                         grid_cell_planes Region (CX, CY, CZ) Xi Yi Zi)
                /\ apCellA call' = apCellB call
                /\ apCellB call' = Xi + Yi * CX + Zi * (CX * CY)).
    { intros Xj Yj Zj HBj Hnb. rewrite HBj in HnotNone |- *.
      destruct (ToIdx_cases CX CY CZ Xj Yj Zj Hfit')
        as [[_ Hm]|((HXj & HYj & HZj) & Hval & _)]; [done|].
      apply (grid_calls_pair_intro Region CX CY CZ Xj Yj Zj); try done.
      rewrite grid_cell_planes_cells by done. rewrite <- Hval.
      assert (Hme : ToIdx (CX, CY, CZ) Xi Yi Zi = Xi + Yi * CX + Zi * (CX * CY)).
      { destruct (ToIdx_cases CX CY CZ Xi Yi Zi Hfit') as [[Hn _]|(_ & -> & _)];
          [destruct Hn; done|done]. }
      rewrite <- Hme. rewrite !elem_of_cons.
      destruct Hnb as [(-> & -> & [->| ->])|[(-> & -> & [->| ->])|(-> & -> & [->| ->])]].
      - right. left. do 2 f_equal. lia.
      - left. do 2 f_equal. lia.
      - right. right. right. left. do 2 f_equal. lia.
      - right. right. left. do 2 f_equal. lia.
      - do 5 right. left. do 2 f_equal. lia.
      - do 4 right. left. do 2 f_equal. lia. }
    rewrite !elem_of_cons, elem_of_nil in HB.
    destruct HB as [HB|[HB|[HB|[HB|[HB|[HB|[]]]]]]];
      (eapply Hback; [exact HB|]); lia.
Qed.

(** *** Cells from boxes *)

Lemma lookup_bind_blocks {A B : Type} (f : A -> list B) (n : nat) (l : list A)
    (i j : nat) :
  (forall x, length (f x) = n) -> (j < n)%nat ->
  (l ≫= f) !! (i * n + j)%nat = l !! i ≫= fun x => f x !! j.
Proof.
  intros Hn Hj. revert i. induction l as [|x l IH]; intros i; [done|].
  rewrite bind_cons. destruct i as [|i].
  - cbn [Nat.mul Nat.add lookup list_lookup mbind option_bind].
    rewrite lookup_app_l by (rewrite Hn; lia). done.
  - rewrite lookup_app_r by (rewrite Hn; lia). rewrite Hn.
    replace (S i * n + j - n)%nat with (i * n + j)%nat by lia.
    rewrite IH. done.
Qed.

Lemma FromBoxes_loop (L : list FBoxOf) : forall (k : Z) verts calls,
  Num verts = 8 * k ->
  fold_left (fun '(verts, calls) '(BoxIdx, Box) =>
               (verts ++ box_vertices Box, calls ++ box_planes Box BoxIdx (Num verts)))
            (zip (seqZ k (Num L)) L) (verts, calls)
  = (verts ++ (L ≫= box_vertices),
     calls ++ (zip (seqZ k (Num L)) L
               ≫= fun '(BoxIdx, Box) => box_planes Box BoxIdx (8 * BoxIdx))).
Proof.
  induction L as [|B L IH]; intros k verts calls Hk.
  - cbn. by rewrite !app_nil_r.
  - pose proof (Num_nonneg L) as HL.
    replace (Num (B :: L)) with (Z.succ (Num L)) by (unfold Num; cbn [length]; lia).
    rewrite seqZ_cons by lia. rewrite Z.pred_succ.
    cbn [zip zip_with fold_left]. rewrite Hk.
    rewrite (IH (Z.succ k)).
    + rewrite !bind_cons, <- !app_assoc. done.
    + rewrite Num_app. unfold Num at 2. cbn [box_vertices length]. lia.
Qed.

(** X18.  The cells of boxes.  The constructor makes one cell per box,
    adds the eight corners of each box to the boundary vertices, box after
    box, and calls [AddPlane] six times per box.  Every call has a box as
    its first cell and no second cell (-1), and, for fewer than 2^28 boxes,
    its boundary has four corners that are boundary vertices of its own
    box. *)
Theorem FromBoxes_cells (Boxes : list FBoxOf) :
  let cells := FromBoxes Boxes in
  AssumeConvexCells cells = true
  /\ NumCells cells = Num Boxes
  /\ Num (PlaneBoundaryVertices cells) = 8 * Num Boxes
  /\ Num (AddPlaneCalls cells) = 6 * Num Boxes
  /\ (forall (p k : nat) Box, Boxes !! p = Some Box -> (k < 8)%nat ->
        PlaneBoundaryVertices cells !! (p * 8 + k)%nat = box_vertices Box !! k)
  /\ (forall call, call ∈ AddPlaneCalls cells ->
        0 <= apCellA call < Num Boxes
        /\ apCellB call = -1
        /\ Num (apBoundary call) = 4
        /\ (8 * Num Boxes < 2 ^ 31 ->
            forall v, v ∈ apBoundary call ->
              8 * apCellA call <= v < 8 * apCellA call + 8)).
Proof.
  intros cells. unfold cells, FromBoxes. cbv zeta.
  rewrite (FromBoxes_loop Boxes 0 [] []) by done.
  cbn [app AssumeConvexCells NumCells PlaneBoundaryVertices AddPlaneCalls].
  pose proof (Num_nonneg Boxes) as HB.
  split; [done|]. split; [done|]. split; [|split; [|split]].
  - unfold Num. rewrite (length_bind_blocks _ 8%nat); [lia|done].
  - unfold Num. rewrite (length_bind_blocks _ 6%nat).
    + rewrite length_zip, length_seqZ. lia.
    + by intros [i B] _.
  - intros p k Box Hp Hk. rewrite (lookup_bind_blocks _ 8%nat) by done.
    by rewrite Hp.
  - intros call Hcall.
    apply list_elem_of_bind in Hcall as ([i B] & Hcall & HiB).
    apply list_elem_of_lookup in HiB as [p Hp].
    apply lookup_zip_with_Some in Hp as (i' & B' & [= <- <-] & Hi & _).
    apply lookup_seqZ in Hi as [-> Hp].
    unfold box_planes in Hcall. rewrite !elem_of_cons, elem_of_nil in Hcall.
    destruct Hcall as [->|[->|[->|[->|[->|[->|[]]]]]]];
      cbn [apCellA apCellB apBoundary];
      (split; [lia|]); (split; [done|]); (split; [done|]);
      intros Hsmall v Hv; rewrite !elem_of_cons, elem_of_nil in Hv;
      destruct Hv as [->|[->|[->|[->|[]]]]];
      rewrite i32_add_small by (unfold int32_range; lia); lia.
Qed.

End GridCells.

(** ** The further properties on the sample data *)

Section FurtherOnSamples.
#[local] Existing Instance Samples.engine.

Lemma Init_one_mesh_per_target_with_geometry_witness :
  exists Meshes,
    Init MoreSamples.grouped [1; 0; 1] FTransform_Identity = Some Meshes
    /\ FMeshData.TransformIndex <$> Meshes = [1; 1].
Proof.
  destruct (Init MoreSamples.grouped [1; 0; 1] FTransform_Identity) as [Meshes|] eqn:Hrun;
    [|by vm_compute in Hrun].
  exists Meshes. split; [reflexivity|].
  destruct (Init_one_mesh_per_target_with_geometry _ _ _ _ Hrun) as (_ & Hidx & _).
  rewrite Hidx. vm_compute. reflexivity.
Defined.

Lemma AppendToCollection_rows_written_witness :
  exists idx Output' Mesh',
    AppendToCollection FTransform_Identity Samples.tetra_mesh 0%float 0 "root_0"
      Samples.tetra 7 = Some (idx, Output', Mesh')
    /\ (exists t,
          lookupZ (TransformGroup Output') (Num (TransformGroup Samples.tetra)) = Some t
          /\ Transform t = FTransform_Identity
          /\ SimulationType t = FST_Rigid
          /\ (0 > -1 -> Parent t = 0 /\ BoneName t = "root_0"))
    /\ Proximity Output' = (fun P => P ++ [∅]) <$> Proximity Samples.tetra.
Proof.
  destruct (AppendToCollection FTransform_Identity Samples.tetra_mesh 0%float 0 "root_0"
              Samples.tetra 7) as [[[idx Output'] Mesh']|] eqn:Hrun;
    [|by vm_compute in Hrun].
  exists idx, Output', Mesh'. split; [reflexivity|].
  assert (Hnz : TriangleCount Samples.tetra_mesh <> 0) by (vm_compute; discriminate).
  destruct (AppendToCollection_rows_written _ _ _ _ _ _ _ _ _ _ Hnz Hrun)
    as (_ & _ & Ht & _ & Hprox).
  split; [exact Ht|exact Hprox].
Defined.

Lemma cut_drivers_keep_rows_witness :
  exists ret c' c1,
    CutWithCellMeshes [FMeshData.mk Samples.tetra_mesh 0 FTransform_Identity] 7 [(0, 1)]
      (mkCellMeshes [Samples.tetra_mesh; Samples.tetra_mesh] (-1) 1)
      (ensure_Proximity Samples.tetra) false 0%float = Some (ret, c')
    /\ keeps_rows (ensure_Proximity Samples.tetra) c1 ret
    /\ same_but_visibility c1 c'.
Proof.
  destruct (CutWithCellMeshes [FMeshData.mk Samples.tetra_mesh 0 FTransform_Identity] 7
              [(0, 1)] (mkCellMeshes [Samples.tetra_mesh; Samples.tetra_mesh] (-1) 1)
              (ensure_Proximity Samples.tetra) false 0%float) as [[ret c']|] eqn:Hrun;
    [|by vm_compute in Hrun].
  destruct (proj1 cut_drivers_keep_rows _ _ _ _ _ _ _ _ _ Hrun) as (c1 & Hk & Hs).
  exists ret, c', c1. split; [reflexivity|]. split; [exact Hk|exact Hs].
Defined.

Lemma CutWithCellMeshes_hides_superseded_witness :
  exists ret c',
    CutWithCellMeshes [FMeshData.mk Samples.tetra_mesh 0 FTransform_Identity] 7 [(0, 1)]
      (mkCellMeshes [Samples.tetra_mesh; Samples.tetra_mesh] (-1) 1)
      (ensure_Proximity Samples.tetra) false 0%float = Some (ret, c')
    /\ exists r', lookupZ (FacesGroup c') 0 = Some r' /\ Visible r' = false.
Proof.
  destruct (CutWithCellMeshes [FMeshData.mk Samples.tetra_mesh 0 FTransform_Identity] 7
              [(0, 1)] (mkCellMeshes [Samples.tetra_mesh; Samples.tetra_mesh] (-1) 1)
              (ensure_Proximity Samples.tetra) false 0%float) as [[ret c']|] eqn:Hrun;
    [|by vm_compute in Hrun].
  exists ret, c'. split; [reflexivity|].
  assert (Hvalid : forall S,
            S ∈ [FMeshData.mk Samples.tetra_mesh 0 FTransform_Identity] ->
            is_Some (lookupZ (TransformGroup (ensure_Proximity Samples.tetra))
                             (FMeshData.TransformIndex S))).
  { intros S HS. apply list_elem_of_singleton in HS as ->. vm_compute. eauto. }
  destruct (CutWithCellMeshes_hides_superseded _ _ _ _ _ _ _ _ _ Hvalid Hrun)
    as [_ Hhidden].
  assert (Hin : FMeshData.mk Samples.tetra_mesh 0 FTransform_Identity
                ∈ [FMeshData.mk Samples.tetra_mesh 0 FTransform_Identity])
    by (by apply list_elem_of_singleton).
  assert (Hcut : was_cut (mkCellMeshes [Samples.tetra_mesh; Samples.tetra_mesh] (-1) 1)
                   (FMeshData.mk Samples.tetra_mesh 0 FTransform_Identity)).
  { unfold was_cut. intros Hlt. vm_compute in Hlt. discriminate. }
  assert (Hrange : 0 <= 0 < int32_wrap (0 + 4)) by range_by_compute.
  exact (proj2 (Hhidden (FMeshData.mk Samples.tetra_mesh 0 FTransform_Identity)
                  (Samples.transform_row "root" (-1) 0)
                  (Samples.geometry_row 0 0 4 0 4) 0 Hin Hcut eq_refl eq_refl Hrange)).
Defined.

Lemma nothing_to_cut_witness :
  exists ret c',
    CutWithMultiplePlanes (fun _ _ => mkMesh [] [] 1)
      [FMeshData.mk Samples.tetra_mesh 0 FTransform_Identity] [] 0%float 0%float
      Samples.tetra 1 7 false = Some (ret, c')
    /\ ret = -1 /\ c' = Samples.tetra.
Proof.
  destruct (CutWithMultiplePlanes (fun _ _ => mkMesh [] [] 1)
              [FMeshData.mk Samples.tetra_mesh 0 FTransform_Identity] [] 0%float 0%float
              Samples.tetra 1 7 false) as [[ret c']|] eqn:Hrun;
    [|by vm_compute in Hrun].
  exists ret, c'. split; [reflexivity|].
  destruct nothing_to_cut as (_ & Hplanes & _).
  assert (Hgrout : (0 <? 0)%float = false) by reflexivity.
  assert (Hnd : NoDup (FMeshData.TransformIndex
                         <$> [FMeshData.mk Samples.tetra_mesh 0 FTransform_Identity]))
    by apply NoDup_singleton.
  exact (Hplanes (fun _ _ => mkMesh [] [] 1)
           [FMeshData.mk Samples.tetra_mesh 0 FTransform_Identity] 0%float 0%float
           Samples.tetra 1 7 false ret c' Hgrout Hnd Hrun).
Defined.

Lemma ToIdx_numbers_the_cells_witness :
  FPlanarCells.ToIdx (2, 3, 4) 1 2 3 = 1 + 2 * 2 + 3 * (2 * 3)
  /\ FPlanarCells.ToIdx (2, 3, 4) 1 2 3 = FPlanarCells.ToIdxUnsafe (2, 3, 4) 1 2 3
  /\ 0 <= FPlanarCells.ToIdx (2, 3, 4) 1 2 3 < 2 * 3 * 4.
Proof.
  apply (proj1 (proj2 (ToIdx_numbers_the_cells 2 3 4 ltac:(lia)))); lia.
Defined.

Lemma FromGrid_cells_witness :
  exists cells,
    FPlanarCells.FromGrid (mkVec 0 0 0)%float MoreSamples.region (1, 1, 2) = Some cells
    /\ FPlanarCells.NumCells cells = 1 * 1 * 2
    /\ Num (FPlanarCells.AddPlaneCalls cells) = 6 * (1 * 1 * 2).
Proof.
  destruct (FromGrid_cells (mkVec 0 0 0)%float MoreSamples.region 1 1 2)
    as (cells & Hrun & _ & Hn & _ & Hc & _); [lia|lia|lia|lia|].
  exists cells. split; [exact Hrun|]. split; [exact Hn|exact Hc].
Defined.

End FurtherOnSamples.

(** ** The corners of the cubes of a grid *)

Section GridCorners.
Context {F : Type} `{Scalar F} `{Negation F}.
Import FPlanarCells.

Lemma length_row (NX Yi Zi : Z) :
  length (seqZ 0 NX ≫= fun Xi => [(Xi, Yi, Zi)]) = Z.to_nat NX.
Proof.
  rewrite (length_bind_blocks _ 1) by done. rewrite length_seqZ. lia.
Qed.

Lemma length_slice (NX NY Zi : Z) :
  length (seqZ 0 NY ≫= fun Yi => seqZ 0 NX ≫= fun Xi => [(Xi, Yi, Zi)])
  = (Z.to_nat NY * Z.to_nat NX)%nat.
Proof.
  rewrite (length_bind_blocks _ (Z.to_nat NX)) by (intros; apply length_row).
  by rewrite length_seqZ.
Qed.

Lemma lookup_grid_indices (NX NY NZ Xi Yi Zi : Z) :
  0 <= Xi < NX -> 0 <= Yi < NY -> 0 <= Zi < NZ ->
  lookupZ (grid_indices NX NY NZ) (Xi + Yi * NX + Zi * (NX * NY)) = Some (Xi, Yi, Zi).
Proof.
  intros HX HY HZ.
  assert (Hi : Xi + Yi * NX + Zi * (NX * NY)
               = Z.of_nat (Z.to_nat Zi * (Z.to_nat NY * Z.to_nat NX)
                           + (Z.to_nat Yi * Z.to_nat NX + (Z.to_nat Xi * 1 + 0)))).
  { rewrite !Nat2Z.inj_add, !Nat2Z.inj_mul, !Z2Nat.id by lia. cbn. ring. }
  rewrite Hi, lookupZ_nat. unfold grid_indices.
  assert (HxN : (Z.to_nat Xi < Z.to_nat NX)%nat) by lia.
  assert (HyN : (Z.to_nat Yi < Z.to_nat NY)%nat) by lia.
  rewrite (lookup_bind_blocks _ (Z.to_nat NY * Z.to_nat NX));
    [|intros; apply length_slice|nia].
  rewrite lookup_seqZ_lt by lia. cbn [mbind option_bind].
  rewrite (lookup_bind_blocks _ (Z.to_nat NX)); [|intros; apply length_row|nia].
  rewrite lookup_seqZ_lt by lia. cbn [mbind option_bind].
  rewrite (lookup_bind_blocks _ 1); [|done|lia].
  rewrite lookup_seqZ_lt by lia. cbn. f_equal. f_equal; [f_equal|]; lia.
Qed.

Lemma length_grid_cell_planes (Region : FBoxOf) (CX CY CZ : Z) (x : Z * Z * Z) :
  length (let '(Xi, Yi, Zi) := x in grid_cell_planes Region (CX, CY, CZ) Xi Yi Zi) = 6%nat.
Proof. by destruct x as [[Xi Yi] Zi]. Qed.

(** X19.  The corners of the cubes of a grid.  For a grid whose corners
    are fewer than 2^31, the boundary vertex stored at the index
    [ToIdxUnsafe VertsPerAxis Xi Yi Zi] is the grid point [(Xi, Yi, Zi)],
    so the [ensure] of the constructor holds and no vertex is left
    uninitialised; the six calls of [AddPlane] for a cube are the six
    consecutive calls that start at six times its cell index; and the
    boundaries of these calls are, in this order, the corners of the faces
    of the cube towards -Z, +Z, -Y, +Y, -X and +X. *)
Theorem FromGrid_corners (Uninitialized : FVector3 F) (Region : FBoxOf) (CX CY CZ : Z) :
  0 <= CX -> 0 <= CY -> 0 <= CZ -> (CX + 1) * (CY + 1) * (CZ + 1) < 2 ^ 31 ->
  exists cells,
    FromGrid Uninitialized Region (CX, CY, CZ) = Some cells
    /\ (forall Xi Yi Zi, 0 <= Xi <= CX -> 0 <= Yi <= CY -> 0 <= Zi <= CZ ->
          lookupZ (PlaneBoundaryVertices cells)
                  (ToIdxUnsafe (CX + 1, CY + 1, CZ + 1) Xi Yi Zi)
          = Some (grid_vertex Region (CellSizesOf Region (CX, CY, CZ)) Xi Yi Zi))
    /\ (forall Xi Yi Zi, 0 <= Xi < CX -> 0 <= Yi < CY -> 0 <= Zi < CZ ->
          let P dx dy dz :=
            grid_vertex Region (CellSizesOf Region (CX, CY, CZ))
                        (Xi + dx) (Yi + dy) (Zi + dz) in
          (forall k : nat, (k < 6)%nat ->
             AddPlaneCalls cells
               !! (Z.to_nat (ToIdxUnsafe (CX, CY, CZ) Xi Yi Zi) * 6 + k)%nat
             = grid_cell_planes Region (CX, CY, CZ) Xi Yi Zi !! k)
          /\ (fun call => mapM (lookupZ (PlaneBoundaryVertices cells)) (apBoundary call))
               <$> grid_cell_planes Region (CX, CY, CZ) Xi Yi Zi
             = [ Some [P 0 0 0; P 1 0 0; P 1 1 0; P 0 1 0];
                 Some [P 0 0 1; P 0 1 1; P 1 1 1; P 1 0 1];
                 Some [P 0 0 0; P 0 0 1; P 1 0 1; P 1 0 0];
                 Some [P 0 1 0; P 1 1 0; P 1 1 1; P 0 1 1];
                 Some [P 0 0 0; P 0 1 0; P 0 1 1; P 0 0 1];
                 Some [P 1 0 0; P 1 0 1; P 1 1 1; P 1 1 0] ]).
Proof.
  intros HX HY HZ Hfit. unfold FromGrid.
  rewrite grid_vertices_fits by done. cbn [mbind option_bind].
  eexists. split; [reflexivity|]. cbn [PlaneBoundaryVertices AddPlaneCalls].
  set (gv := fun '(Xi, Yi, Zi) =>
               grid_vertex Region (CellSizesOf Region (CX, CY, CZ)) Xi Yi Zi).
  assert (Hvert : forall Xi Yi Zi, 0 <= Xi <= CX -> 0 <= Yi <= CY -> 0 <= Zi <= CZ ->
            lookupZ (gv <$> grid_indices (CX + 1) (CY + 1) (CZ + 1))
                    (Xi + Yi * (CX + 1) + Zi * ((CX + 1) * (CY + 1)))
            = Some (gv (Xi, Yi, Zi))).
  { intros Xi Yi Zi HXi HYi HZi.
    rewrite lookupZ_fmap, lookup_grid_indices by lia. done. }
  split.
  - intros Xi Yi Zi HXi HYi HZi.
    destruct (ToIdxUnsafe_inside (CX + 1) (CY + 1) (CZ + 1) Xi Yi Zi) as [-> _];
      [done|lia|lia|lia|].
    by apply Hvert.
  - intros Xi Yi Zi HXi HYi HZi.
    assert (Hcubes : CX * CY * CZ < 2 ^ 31) by nia.
    split.
    + intros k Hk.
      destruct (ToIdxUnsafe_inside CX CY CZ Xi Yi Zi) as [-> Hidx]; [done..|].
      rewrite (lookup_bind_blocks _ 6); [|apply length_grid_cell_planes|done].
      rewrite <- lookupZ_nat, Z2Nat.id by lia.
      rewrite lookup_grid_indices by done. done.
    + change (fun call => mapM (lookupZ (gv <$> grid_indices (CX + 1) (CY + 1) (CZ + 1)))
                            (apBoundary call))
        with (mapM (lookupZ (gv <$> grid_indices (CX + 1) (CY + 1) (CZ + 1)))
              ∘ @apBoundary F).
      rewrite list_fmap_compose.
      destruct (grid_cell_planes_boundaries Region CX CY CZ Xi Yi Zi)
        as (-> & _); [done..|].
      assert (Hcorner : forall dx dy dz o,
                0 <= dx <= 1 -> 0 <= dy <= 1 -> 0 <= dz <= 1 ->
                o = dx + dy * (CX + 1) + dz * ((CX + 1) * (CY + 1)) ->
                lookupZ (gv <$> grid_indices (CX + 1) (CY + 1) (CZ + 1))
                        (Xi + Yi * (CX + 1) + Zi * ((CX + 1) * (CY + 1)) + o)
                = Some (gv (Xi + dx, Yi + dy, Zi + dz))).
      { intros dx dy dz o Hdx Hdy Hdz ->.
        rewrite <- (Hvert (Xi + dx) (Yi + dy) (Zi + dz)) by lia. f_equal. ring. }
      cbn [fmap list_fmap mapM].
      rewrite (Hcorner 0 0 0 0), (Hcorner 1 0 0 1), (Hcorner 1 1 0 (CX + 1 + 1)),
        (Hcorner 0 1 0 (CX + 1)), (Hcorner 0 0 1 ((CX + 1) * (CY + 1))),
        (Hcorner 0 1 1 ((CX + 1) * (CY + 1) + (CX + 1))),
        (Hcorner 1 1 1 ((CX + 1) * (CY + 1) + (CX + 1) + 1)),
        (Hcorner 1 0 1 ((CX + 1) * (CY + 1) + 1)) by (lia || ring).
      done.
Qed.

End GridCorners.

(** ** The pieces of a plane cut *)

Section PlanePieces.
Context `{Engine}.

Lemma elem_of_zip_seqZ {A : Type} (l : list A) (i : Z) (x : A) :
  (i, x) ∈ zip (seqZ 0 (Num l)) l <-> lookupZ l i = Some x.
Proof.
  rewrite list_elem_of_lookup. split.
  - intros [k Hk]. apply lookup_zip_with_Some in Hk as (a & b & [= <- <-] & Ha & Hb).
    apply lookup_seqZ in Ha as [-> _]. by rewrite Z.add_0_l, lookupZ_nat.
  - intros Hx. pose proof (lookupZ_Some _ _ _ Hx) as Hr. exists (Z.to_nat i).
    apply lookup_zip_with_Some. exists i, x. split; [done|]. split.
    + apply lookup_seqZ. unfold Num in *. lia.
    + by rewrite <- lookupZ_nat, Z2Nat.id by lia.
Qed.

Lemma elem_of_children_of (ToCut : list FMeshData.t) (t i : Z) :
  i ∈ children_of ToCut t
  <-> exists md, lookupZ ToCut i = Some md /\ FMeshData.TransformIndex md = t.
Proof.
  rewrite children_of_reverse, elem_of_reverse.
  unfold MultiFind. rewrite list_elem_of_fmap. split.
  - intros ([k v] & -> & Hin). apply list_elem_of_filter in Hin as [Hk Hin].
    cbn in Hk. apply list_elem_of_fmap in Hin as ([j md] & Heq & Hin).
    injection Heq as -> ->. apply elem_of_zip_seqZ in Hin. by exists md.
  - intros (md & Hmd & <-). exists (FMeshData.TransformIndex md, i). split; [done|].
    apply list_elem_of_filter. split; [done|].
    apply list_elem_of_fmap. exists (i, md). split; [done|]. by apply elem_of_zip_seqZ.
Qed.

Lemma two_elements {A : Type} (l : list A) (x y : A) :
  x <> y -> x ∈ l -> y ∈ l -> 1 < Num l.
Proof.
  intros Hne Hx Hy. destruct l as [|a [|b l]].
  - by apply elem_of_nil in Hx.
  - apply list_elem_of_singleton in Hx, Hy. congruence.
  - unfold Num. cbn. lia.
Qed.

Lemma children_of_ext (A B : list FMeshData.t) (t : Z) :
  FMeshData.TransformIndex <$> A = FMeshData.TransformIndex <$> B ->
  children_of A t = children_of B t.
Proof.
  intros HAB. rewrite !children_of_reverse. do 2 f_equal.
  assert (Hlen : Num A = Num B).
  { unfold Num. apply (f_equal length) in HAB. rewrite !length_fmap in HAB. lia. }
  rewrite Hlen. generalize (seqZ 0 (Num B)). revert B HAB Hlen.
  induction A as [|a A IH]; intros [|b B] HAB _ l; try done.
  injection HAB as Hab HAB. destruct l as [|i l]; [done|]. cbn.
  rewrite Hab. f_equal. apply IH; [done|].
  unfold Num. apply (f_equal length) in HAB. rewrite !length_fmap in HAB. lia.
Qed.

Lemma split_by_planes_ext (c : FGeometryCollection) (A B Meshes : list FMeshData.t) :
  FMeshData.TransformIndex <$> A = FMeshData.TransformIndex <$> B ->
  split_by_planes c A Meshes = split_by_planes c B Meshes.
Proof.
  intros HAB. unfold split_by_planes. f_equal. apply list_filter_iff.
  intros S. by rewrite (children_of_ext A B).
Qed.

Lemma store_same_key {A K : Type} (f : A -> K) (l l' : list A) (i : Z) (x y : A) :
  lookupZ l i = Some y -> f x = f y -> storeZ l i x = Some l' -> f <$> l' = f <$> l.
Proof.
  intros Hy Hf Hst. apply storeZ_inv in Hst as [Hi ->].
  rewrite list_fmap_insert, Hf. apply list_insert_id.
  rewrite list_lookup_fmap. rewrite <- lookupZ_nat, Z2Nat.id by lia. by rewrite Hy.
Qed.

(** *** The geometry the planes supersede *)

Lemma append_children_removal mat bDef sp Before st MeshData st' t0 :
  keeps_rows Before (asCollection st) (asFirstCreatedIndex st) ->
  lookupZ (TransformGroup Before) (FMeshData.TransformIndex MeshData) = Some t0 ->
  append_children mat bDef sp st MeshData = Some st' ->
  FMeshData.TransformIndex <$> asToCut st' = FMeshData.TransformIndex <$> asToCut st
  /\ asGeometryForRemoval st'
     = asGeometryForRemoval st
       ++ (if decide (~ Num (children_of (asToCut st) (FMeshData.TransformIndex MeshData))
                        <= 1)
           then [TransformToGeometryIndex t0] else []).
Proof.
  intros Hk Ht0 Hrun. destruct Hk as (_ & _ & _ & HT & _).
  destruct (HT _ _ Ht0) as (t1 & Ht1 & (_ & _ & _ & _ & Hgeo & _)).
  unfold append_children in Hrun. rewrite Ht1 in Hrun. cbn in Hrun.
  destruct (internal_material _ _ _ _) as [imat|]; [|done]. cbn in Hrun.
  destruct (decide (Num (children_of _ _) <= 1)) as [Hone|Hmany].
  { injection Hrun as <-. rewrite decide_False by tauto. by rewrite app_nil_r. }
  rewrite decide_True by done.
  match type of Hrun with
  | context [for_each ?body ?l ?s0] =>
      destruct (for_each body l s0) as [[st2 k]|] eqn:Hloop; [|done];
      pose proof (for_each_preserves
        (fun s : append_state * Z =>
           FMeshData.TransformIndex <$> asToCut s.1
           = FMeshData.TransformIndex <$> asToCut st
           /\ asGeometryForRemoval s.1
              = asGeometryForRemoval st ++ [TransformToGeometryIndex t1])
        body l) as Hpres
  end.
  cbn in Hrun. injection Hrun as <-. rewrite <- Hgeo.
  refine (Hpres _ _ _ _ Hloop); [|done].
  intros [s j] idx [s' j'] [Hkeys Hrem] Hstep. cbn [fst] in *.
  destruct (lookupZ (asToCut s) idx) as [md|] eqn:Hmd; [|done]. cbn in Hstep.
  destruct (GetBoneName _ _ _) as [Name|]; [|done]. cbn in Hstep.
  destruct (AppendToCollection _ _ _ _ _ _ _) as [[[ci c1] M1]|]; [|done]. cbn in Hstep.
  destruct (storeZ (asToCut s) idx _) as [T1|] eqn:Hstore; [|done]. cbn in Hstep.
  destruct (storeZ (asToCutIdxToGeometryIdx s) idx ci) as [Map1|]; [|done].
  cbn in Hstep. injection Hstep as <- <-. cbn. split; [|done].
  rewrite <- Hkeys.
  exact (store_same_key FMeshData.TransformIndex _ _ _ (FMeshData.mk M1 _ _) md
           Hmd eq_refl Hstore).
Qed.

Lemma append_loop_removal mat bDef sp Before Meshes : forall st st',
  keeps_rows Before (asCollection st) (asFirstCreatedIndex st) ->
  (forall S, S ∈ Meshes ->
     is_Some (lookupZ (TransformGroup Before) (FMeshData.TransformIndex S))) ->
  for_each (append_children mat bDef sp) Meshes st = Some st' ->
  asGeometryForRemoval st'
  = asGeometryForRemoval st ++ split_by_planes Before (asToCut st) Meshes.
Proof.
  induction Meshes as [|S Meshes IH]; intros st st' Hk Hvalid Hrun.
  - cbn in Hrun. injection Hrun as <-. unfold split_by_planes. cbn.
    by rewrite app_nil_r.
  - cbn in Hrun.
    destruct (append_children mat bDef sp st S) as [st1|] eqn:Hstep; [|done].
    cbn in Hrun. destruct (Hvalid S) as [t0 Ht0]; [by left|].
    destruct (append_children_removal _ _ _ _ _ _ _ _ Hk Ht0 Hstep) as [Hkeys Hrem].
    rewrite (IH st1 st'); [| |by intros S' HS'; apply Hvalid; right|done].
    + rewrite Hrem, <- app_assoc. f_equal.
      rewrite (split_by_planes_ext Before (asToCut st1) (asToCut st)) by done.
      unfold split_by_planes. rewrite filter_cons.
      destruct (decide (~ Num (children_of (asToCut st) (FMeshData.TransformIndex S)) <= 1));
        [|done].
      cbn [omap list_omap]. by rewrite Ht0.
    + eapply (append_children_Inv (keeps_rows Before)); [|exact Hk|exact Hstep].
      intros. by eapply keeps_rows_append.
Qed.

Lemma hide_superseded_faces (c1 c2 : FGeometryCollection) (removed : list Z) :
  hide_superseded c1 removed = Some c2 ->
  GeometryGroup c2 = GeometryGroup c1
  /\ (forall i, in_listed_range c1 removed i ->
        exists r1, lookupZ (FacesGroup c1) i = Some r1
                   /\ lookupZ (FacesGroup c2) i = Some (hide_or_show_face false r1))
  /\ (forall i, ~ in_listed_range c1 removed i ->
        lookupZ (FacesGroup c2) i = lookupZ (FacesGroup c1) i).
Proof.
  intros Hhide. unfold hide_superseded in Hhide.
  destruct (decide (Num removed > 0)) as [Hpos|Hz].
  - unfold SetGeometryVisibility in Hhide.
    destruct (for_each _ removed _) as [Faces|] eqn:Hvis; [|done]. cbn in Hhide.
    injection Hhide as <-. cbn.
    apply visibility_loop in Hvis as (Hval & _ & _ & Hin & Hout).
    split; [done|]. split; [|done].
    intros i Hi. destruct (Hval i Hi) as [r1 Hr1]. exists r1.
    split; [done|]. by rewrite (Hin i Hi), Hr1.
  - injection Hhide as <-. split; [done|]. split; [|done].
    intros i Hi. exfalso. destruct removed; [by apply in_listed_range_nil in Hi|].
    unfold Num in Hz. cbn in Hz. lia.
Qed.

Lemma hides_split_targets
    (GroutMesh : list FPlane -> float -> FDynamicMesh3)
    (Meshes : list FMeshData.t) (Planes : list FPlane) (Grout sp : float)
    (c : FGeometryCollection) (n mat : Z) (bDef : bool)
    (ret : Z) (c' : FGeometryCollection) :
  (0 <? Grout)%float = false ->
  (forall S, S ∈ Meshes ->
     is_Some (lookupZ (TransformGroup c) (FMeshData.TransformIndex S))) ->
  CutWithMultiplePlanes GroutMesh Meshes Planes Grout sp c n mat bDef = Some (ret, c') ->
  exists ToCut Links,
    for_each (cut_with_plane (bool_decide (is_Some (Proximity c)))) Planes (Meshes, [])
    = Some (ToCut, Links)
    /\ (forall i r, lookupZ (FacesGroup c) i = Some r ->
          exists r', lookupZ (FacesGroup c') i = Some r'
                     /\ (in_listed_range c' (split_by_planes c ToCut Meshes) i ->
                         Visible r' = false)
                     /\ (~ in_listed_range c' (split_by_planes c ToCut Meshes) i ->
                         Visible r' = Visible r))
    /\ (forall S t g i,
          S ∈ Meshes ->
          1 < Num (children_of ToCut (FMeshData.TransformIndex S)) ->
          lookupZ (TransformGroup c) (FMeshData.TransformIndex S) = Some t ->
          lookupZ (GeometryGroup c) (TransformToGeometryIndex t) = Some g ->
          FaceStart g <= i < int32_wrap (FaceStart g + FaceCount g) ->
          in_listed_range c' (split_by_planes c ToCut Meshes) i
          /\ exists r', lookupZ (FacesGroup c') i = Some r' /\ Visible r' = false).
Proof.
  intros Hgrout Hvalid Hrun. unfold CutWithMultiplePlanes in Hrun.
  rewrite Hgrout in Hrun. unfold CutWithMultiplePlanes_no_grout in Hrun.
  destruct (for_each _ Planes _) as [[ToCut Links]|] eqn:Hplanes; [|done].
  cbn in Hrun. exists ToCut, Links. split; [done|].
  destruct (for_each _ Meshes _) as [st|] eqn:Happ; [|done]. cbn in Hrun.
  assert (Hk : keeps_rows c (asCollection st) (asFirstCreatedIndex st)).
  { refine (append_phase_Inv (keeps_rows c) _ _ _ _ _ _ _ _ Happ);
      [|apply keeps_rows_start].
    intros. by eapply keeps_rows_append. }
  assert (Hrem : asGeometryForRemoval st = split_by_planes c ToCut Meshes).
  { exact (append_loop_removal _ _ _ c Meshes
             (mkAppendState c ToCut (replicate (length ToCut) (-1)) (-1) []) st
             (keeps_rows_start c) Hvalid Happ). }
  set (removed := split_by_planes c ToCut Meshes) in *.
  assert (Hfaces : exists c1,
    GeometryGroup c1 = GeometryGroup (asCollection st)
    /\ FacesGroup c1 = FacesGroup (asCollection st)
    /\ hide_superseded c1 removed = Some c').
  { rewrite Hrem in Hrun. destruct (bool_decide _).
    - destruct (Proximity (asCollection st)) as [P|]; [|done]. cbn in Hrun.
      destruct (for_each _ Links P) as [P'|]; [|done]. cbn in Hrun.
      destruct (hide_superseded _ _) as [c2|] eqn:Hhide; [|done]. cbn in Hrun.
      injection Hrun as <- <-.
      by exists (set_Proximity (asCollection st) (Some P')).
    - cbn in Hrun. destruct (hide_superseded _ _) as [c2|] eqn:Hhide; [|done].
      cbn in Hrun. injection Hrun as <- <-. by exists (asCollection st). }
  destruct Hfaces as (c1 & HG1 & HF1 & Hhide).
  apply hide_superseded_faces in Hhide as (Hgeo & Hin & Hout).
  destruct Hk as (HG & _ & HF & _).
  assert (Hsame : forall i, in_listed_range c' removed i <-> in_listed_range c1 removed i).
  { intros i. split; apply in_listed_range_geometry; done. }
  split.
  - intros i r Hr.
    assert (Hr1 : lookupZ (FacesGroup c1) i = Some r).
    { rewrite HF1. destruct HF as [k ->]. by apply lookupZ_app_l. }
    destruct (in_listed_range_dec c1 removed i) as [Hi|Hi].
    + destruct (Hin i Hi) as (r1 & Hr1' & Hr2). exists (hide_or_show_face false r1).
      split; [done|]. split; [done|]. intros Hn. destruct Hn. by apply Hsame.
    + exists r. rewrite (Hout i Hi). split; [done|]. split; [|done].
      intros Hi'. destruct Hi. by apply Hsame.
  - intros S t g i HS Hcut Ht Hg Hi.
    assert (Hlisted : in_listed_range c1 removed i).
    { exists (TransformToGeometryIndex t), g. split; [|split; [|done]].
      - unfold removed, split_by_planes. apply list_elem_of_omap.
        exists S. split; [apply list_elem_of_filter; split; [lia|done]|]. by rewrite Ht.
      - rewrite HG1. destruct HG as [k ->]. by apply lookupZ_app_l. }
    split; [by apply Hsame|].
    destruct (Hin i Hlisted) as (r1 & _ & Hr2). eauto.
Qed.

(** X20.  [CutWithMultiplePlanes] without grout hides the geometry of the
    targets the planes split, and nothing else.  When it returns for
    targets that are transforms of the collection, the loop over the planes
    has returned an array [ToCut] of pieces; a face of the collection
    passed in is invisible if it lies in the face range of the geometry of
    a target of which [ToCut] holds more than one piece, and keeps its
    visibility otherwise; and all the faces of the geometry of such a
    target are invisible. *)
Theorem CutWithMultiplePlanes_hides_split_targets
    (GroutMesh : list FPlane -> float -> FDynamicMesh3)
    (Meshes : list FMeshData.t) (Planes : list FPlane) (Grout sp : float)
    (c : FGeometryCollection) (n mat : Z) (bDef : bool)
    (ret : Z) (c' : FGeometryCollection) :
  (0 <? Grout)%float = false ->
  (forall S, S ∈ Meshes ->
     is_Some (lookupZ (TransformGroup c) (FMeshData.TransformIndex S))) ->
  CutWithMultiplePlanes GroutMesh Meshes Planes Grout sp c n mat bDef = Some (ret, c') ->
  exists ToCut Links,
    for_each (cut_with_plane (bool_decide (is_Some (Proximity c)))) Planes (Meshes, [])
    = Some (ToCut, Links)
    /\ (forall i r, lookupZ (FacesGroup c) i = Some r ->
          exists r', lookupZ (FacesGroup c') i = Some r'
                     /\ (in_listed_range c' (split_by_planes c ToCut Meshes) i ->
                         Visible r' = false)
                     /\ (~ in_listed_range c' (split_by_planes c ToCut Meshes) i ->
                         Visible r' = Visible r))
    /\ (forall S t g i,
          S ∈ Meshes ->
          1 < Num (children_of ToCut (FMeshData.TransformIndex S)) ->
          lookupZ (TransformGroup c) (FMeshData.TransformIndex S) = Some t ->
          lookupZ (GeometryGroup c) (TransformToGeometryIndex t) = Some g ->
          FaceStart g <= i < int32_wrap (FaceStart g + FaceCount g) ->
          in_listed_range c' (split_by_planes c ToCut Meshes) i
          /\ exists r', lookupZ (FacesGroup c') i = Some r' /\ Visible r' = false).
Proof.
  apply hides_split_targets.
Qed.

(** *** The pieces and the links the planes leave *)

Lemma lookupZ_prefix {A : Type} (l l' : list A) (i : Z) (x : A) :
  l `prefix_of` l' -> lookupZ l i = Some x -> lookupZ l' i = Some x.
Proof. intros [k ->] Hx. by apply lookupZ_app_l. Qed.

Lemma has_sibling_prefix (K K' : list (Z * FTransform)) (A : Z) :
  K `prefix_of` K' -> has_sibling K A -> has_sibling K' A.
Proof.
  intros Hpre (A' & o & o' & Hne & Ho & Ho' & Heq).
  exists A', o, o'. split; [done|]. split; [by eapply lookupZ_prefix|].
  split; [by eapply lookupZ_prefix|done].
Qed.

Lemma has_sibling_children (ToCut : list FMeshData.t) (A : Z) :
  has_sibling (origin_of <$> ToCut) A ->
  exists a, lookupZ ToCut A = Some a
            /\ 1 < Num (children_of ToCut (FMeshData.TransformIndex a)).
Proof.
  intros (A' & o & o' & Hne & Ho & Ho' & Heq).
  rewrite lookupZ_fmap in Ho, Ho'.
  destruct (lookupZ ToCut A) as [a|] eqn:Ha; [|done].
  destruct (lookupZ ToCut A') as [a'|] eqn:Ha'; [|done].
  injection Ho as <-. injection Ho' as <-. cbn in Heq.
  exists a. split; [done|]. apply (two_elements _ A' A); [done| |].
  - apply elem_of_children_of. by exists a'.
  - apply elem_of_children_of. by exists a.
Qed.

Lemma for_each_preserves_in {A S : Type} (Q : S -> Prop) (body : S -> A -> option S)
    (l : list A) :
  (forall s a s', a ∈ l -> Q s -> body s a = Some s' -> Q s') ->
  forall s s', Q s -> for_each body l s = Some s' -> Q s'.
Proof.
  induction l as [|a l IH]; intros Hbody s s' HQ Hrun.
  - cbn in Hrun. by injection Hrun as <-.
  - cbn in Hrun. destruct (body s a) as [s1|] eqn:Hs; [|done].
    cbn in Hrun. eapply IH; [|exact (Hbody s a s1 ltac:(by left) HQ Hs)|exact Hrun].
    intros s2 a2 s3 Hin. apply Hbody. by right.
Qed.

Lemma fold_left_preserves_in {A S : Type} (Q : S -> Prop) (f : S -> A -> S)
    (l : list A) :
  (forall s a, a ∈ l -> Q s -> Q (f s a)) -> forall s, Q s -> Q (fold_left f l s).
Proof.
  induction l as [|a l IH]; intros Hf s HQ; [done|].
  cbn. apply IH.
  - intros s1 a1 Hin. apply Hf. by right.
  - apply Hf; [by left|done].
Qed.

Lemma elem_of_RemoveSingle (M : TMultiMap) (K V : Z) (p : Z * Z) :
  p ∈ RemoveSingle M K V -> p ∈ M.
Proof.
  induction M as [|q M IH]; [done|]. cbn.
  destruct (decide (q = (K, V))); [by right|].
  intros [->|Hin]%elem_of_cons; [by left|]. right. by apply IH.
Qed.

Lemma elem_of_ProxUnlink (M : TMultiMap) (A B : Z) (p : Z * Z) :
  p ∈ ProxUnlink M A B -> p ∈ M.
Proof. unfold ProxUnlink. intros Hp. by do 2 apply elem_of_RemoveSingle in Hp. Qed.

Lemma elem_of_ProxLink (M : TMultiMap) (A B : Z) (p : Z * Z) :
  p ∈ ProxLink M A B -> p ∈ M \/ p = (A, B) \/ p = (B, A).
Proof.
  unfold ProxLink, MultiAdd. rewrite !elem_of_cons. tauto.
Qed.

Lemma relink_neighbors_Forall (Good : Z * Z -> Prop) ToCut RI idx (M : TMultiMap) :
  (forall p, p ∈ M -> Good p) ->
  (forall r n, r ∈ RI -> (idx, n) ∈ M -> Good (r, n) /\ Good (n, r)) ->
  forall p, p ∈ relink_neighbors ToCut RI idx M -> Good p.
Proof.
  intros HM Hnew. unfold relink_neighbors.
  apply (fold_left_preserves_in (fun M1 : TMultiMap => forall p, p ∈ M1 -> Good p));
    [|done].
  intros M1 Nbr HNbr H1. apply MultiFind_elem in HNbr.
  apply (fold_left_preserves_in (fun M2 : TMultiMap => forall p, p ∈ M2 -> Good p)).
  - intros M2 r Hr H2. destruct (IsNeighbor _ _ _); [|done].
    destruct (Hnew r Nbr Hr HNbr) as [Hrn Hnr].
    by intros p [Hp|[->| ->]]%elem_of_ProxLink; [apply H2|..].
  - intros p Hp. apply H1. by eapply elem_of_ProxUnlink.
Qed.

Lemma elem_of_index_pairs (n i j : Z) : (i, j) ∈ index_pairs n -> 0 <= i < j.
Proof.
  unfold index_pairs. intros (F & Hin & HF)%list_elem_of_bind.
  apply list_elem_of_fmap in Hin as (S & [= -> ->] & HS).
  apply elem_of_seqZ in HF, HS. lia.
Qed.

Lemma link_results_Forall (Good : Z * Z -> Prop) ToCut RI PI (M M' : TMultiMap) :
  (forall p, p ∈ M -> Good p) ->
  (forall i j rf rs, 0 <= i < j -> lookupZ RI i = Some rf -> lookupZ RI j = Some rs ->
     Good (rf, rs) /\ Good (rs, rf)) ->
  link_results ToCut RI PI M = Some M' ->
  forall p, p ∈ M' -> Good p.
Proof.
  intros HM Hnew. unfold link_results.
  assert (Hloop :
    for_each (fun Proximity '(FirstIdx, SecondIdx) =>
        FirstParent ← lookupZ PI FirstIdx;
        SecondParent ← lookupZ PI SecondIdx;
        if decide (FirstParent = SecondParent) then Some Proximity
        else
          RF ← lookupZ RI FirstIdx;
          RS ← lookupZ RI SecondIdx;
          if IsNeighbor ToCut RF RS then Some (ProxLink Proximity RF RS)
          else Some Proximity) (index_pairs (Num RI)) M = Some M' ->
    forall p, p ∈ M' -> Good p).
  { intros Hrun.
    refine (for_each_preserves_in (fun M1 : TMultiMap => forall p, p ∈ M1 -> Good p)
              _ _ _ _ _ HM Hrun).
    intros M1 [i j] M2 Hij H1. apply elem_of_index_pairs in Hij. cbn.
    destruct (lookupZ PI i) as [pi|]; [|done]. cbn.
    destruct (lookupZ PI j) as [pj|]; [|done]. cbn.
    destruct (decide (pi = pj)); [by intros [= <-]|].
    destruct (lookupZ RI i) as [ri|] eqn:Hri; [|done]. cbn.
    destruct (lookupZ RI j) as [rj|] eqn:Hrj; [|done]. cbn.
    destruct (IsNeighbor _ _ _); intros [= <-]; [|done].
    destruct (Hnew i j ri rj Hij Hri Hrj) as [Hrn Hnr].
    by intros p [Hp|[->| ->]]%elem_of_ProxLink; [apply H1|..]. }
  destruct RI as [|R0 [|R1 [|R2 Rs]]]; try apply Hloop.
  destruct (Hnew 0 1 R0 R1) as [Hrn Hnr]; [lia|done|done|].
  by intros [= <-] p [Hp|[->| ->]]%elem_of_ProxLink; [apply HM|..].
Qed.

Lemma split_result_results_inv TI FC (K : list (Z * FTransform)) idx pc U pc' :
  results_inv K (TI, FC) idx pc ->
  split_result TI FC pc U = Some pc' ->
  results_inv K (TI, FC) idx pc'.
Proof.
  intros HJ Hrun. unfold split_result in Hrun.
  destruct (lookupZ (pcResultIndices pc) U) as [ri|]; [|done]. cbn in Hrun.
  destruct (lookupZ (pcToCut pc) ri) as [md|] eqn:Hmd; [|done]. cbn in Hrun.
  destruct (SplitIslands _) as [[] SM]; [|by injection Hrun as <-].
  destruct (lookupZ SM 0) as [First|]; [|done]. cbn in Hrun.
  destruct (storeZ _ _ _) as [T1|] eqn:Hstore; [|done]. cbn in Hrun.
  injection Hrun as <-.
  apply (fold_left_preserves (results_inv K (TI, FC) idx)).
  - intros s Mesh (m & Hm & HK & HR). exists (S m). split; [lia|].
    cbn [pcToCut pcResultIndices]. split.
    + rewrite fmap_app, HK, replicate_S_end, app_assoc. done.
    + rewrite HR, seqZ_S, app_comm_cons. do 2 f_equal.
      unfold Num. rewrite <- (length_fmap origin_of), HK, length_app, length_replicate.
      lia.
  - destruct HJ as (m & Hm & HK & HR). exists m. split; [done|]. cbn.
    split; [|done]. rewrite <- HK.
    exact (store_same_key origin_of _ _ _ (FMeshData.mk First _ _) md Hmd eq_refl Hstore).
Qed.

Lemma results_inv_lookup (K : list (Z * FTransform)) o idx pc r :
  lookupZ K idx = Some o ->
  results_inv K o idx pc ->
  r ∈ pcResultIndices pc ->
  lookupZ (origin_of <$> pcToCut pc) r = Some o
  /\ has_sibling (origin_of <$> pcToCut pc) r
  /\ (r = idx \/ Num K <= r).
Proof.
  intros Hidx (m & Hm & -> & ->) Hr.
  pose proof (lookupZ_Some _ _ _ Hidx) as Hrange.
  assert (Hnew : forall j, Num K <= j < Num K + Z.of_nat m ->
                           lookupZ (K ++ replicate m o) j = Some o).
  { intros j Hj. rewrite lookupZ_app_r by lia. unfold lookupZ.
    rewrite decide_True by lia. apply lookup_replicate. split; [done|lia]. }
  assert (Hold : lookupZ (K ++ replicate m o) idx = Some o) by by apply lookupZ_app_l.
  apply elem_of_cons in Hr as [->|Hr].
  - split; [done|]. split; [|by left].
    exists (Num K), o, o. split; [lia|]. split; [done|]. split; [|done].
    apply Hnew. lia.
  - apply elem_of_seqZ in Hr. split; [by apply Hnew|]. split; [|right; lia].
    exists idx, o, o. split; [lia|]. split; [by apply Hnew|]. done.
Qed.

Lemma results_inv_NoDup (K : list (Z * FTransform)) o idx pc :
  idx < Num K -> results_inv K o idx pc -> NoDup (pcResultIndices pc).
Proof.
  intros Hidx (m & _ & _ & ->). apply NoDup_cons. split; [|apply NoDup_seqZ].
  rewrite elem_of_seqZ. lia.
Qed.

Lemma cut_piece_with_plane_pieces_inv Plane Cells b K0 st idx st' :
  pieces_inv b K0 st ->
  cut_piece_with_plane Plane Cells b st idx = Some st' ->
  pieces_inv b K0 st'.
Proof.
  destruct st as [ToCut M]. intros (Hpre & Hall & Hlinks & Hoff) Hrun.
  cbn [fst snd] in *. unfold cut_piece_with_plane in Hrun.
  destruct (lookupZ ToCut idx) as [Surface|] eqn:HS; [|done].
  cbn [mbind option_bind] in Hrun.
  destruct (PlaneIntersectsBounds _ _); [|by injection Hrun as <-].
  destruct (plane_booleans _ _) as [[[R0 R1]|]|]; [|by injection Hrun as <-|done].
  cbn [mbind option_bind] in Hrun.
  destruct (storeZ _ _ _) as [ToCut1|] eqn:Hstore; [|done]. cbn [mbind option_bind] in Hrun.
  set (K := origin_of <$> ToCut) in *.
  set (o := (FMeshData.TransformIndex Surface, FMeshData.FromCollection Surface)).
  assert (HK1 : origin_of <$> ToCut1 = K).
  { exact (store_same_key origin_of _ _ _ (FMeshData.mk R0 _ _) Surface
             HS eq_refl Hstore). }
  assert (Hidx : lookupZ K idx = Some o).
  { unfold K. by rewrite lookupZ_fmap, HS. }
  pose proof (lookupZ_Some _ _ _ Hidx) as Hrange.
  assert (HNum : Num ToCut1 = Num K).
  { unfold Num. by rewrite <- HK1, length_fmap. }
  match type of Hrun with
  | context [for_each ?body ?l ?s0] =>
      destruct (for_each body l s0) as [pc|] eqn:Hsplit; [|done];
      assert (HJ : results_inv K o idx pc)
  end.
  { refine (for_each_preserves (results_inv K o idx) _ _ _ _ _ _ Hsplit).
    - intros s U s'. apply split_result_results_inv.
    - exists 1%nat. split; [done|]. cbn. split.
      + by rewrite fmap_app, HK1.
      + by rewrite HNum. }
  cbn [mbind option_bind] in Hrun.
  set (K' := origin_of <$> pcToCut pc) in *.
  assert (HKK' : K `prefix_of` K').
  { destruct HJ as (m & _ & HK' & _). unfold K'. rewrite HK'. by apply prefix_app_r. }
  assert (Hall' : forall o', o' ∈ K' -> o' ∈ K0).
  { intros o' Ho'. destruct HJ as (m & _ & HK' & _). unfold K' in Ho'.
    rewrite HK' in Ho'. apply elem_of_app in Ho' as [Ho'|Ho']; [by apply Hall|].
    apply elem_of_replicate in Ho' as [-> _]. apply Hall.
    apply list_elem_of_lookup. exists (Z.to_nat idx).
    by rewrite <- lookupZ_nat, Z2Nat.id by lia. }
  assert (Hold : forall A B, (A, B) ∈ M ->
            A <> B /\ has_sibling K' A /\ has_sibling K' B).
  { intros A B HAB. destruct (Hlinks A B HAB) as (Hne & HA & HB).
    eauto using has_sibling_prefix. }
  destruct b.
  - destruct (link_results _ _ _ _) as [M1|] eqn:Hlink; [|done]. cbn [mbind option_bind] in Hrun.
    injection Hrun as <-. cbn [fst snd]. fold K'.
    split; [by etrans|]. split; [done|]. split; [|done].
    intros A B HAB.
    refine (link_results_Forall
              (fun p => p.1 <> p.2 /\ has_sibling K' p.1 /\ has_sibling K' p.2)
              _ _ _ _ _ _ _ Hlink (A, B) HAB).
    + apply relink_neighbors_Forall.
      * intros [A1 B1] Hp. by apply Hold.
      * intros r n Hr Hn. destruct (Hlinks idx n Hn) as (Hne & _ & Hsib).
        destruct (results_inv_lookup K o idx pc r Hidx HJ Hr) as (_ & Hr_sib & Hr_pos).
        assert (Hn_range : n < Num K).
        { destruct Hsib as (_ & on & _ & _ & Hon & _). apply lookupZ_Some in Hon. lia. }
        assert (Hrn : r <> n) by (destruct Hr_pos; lia).
        cbn. eauto 10 using has_sibling_prefix.
    + intros i j rf rs Hij Hrf Hrs.
      assert (Hne : rf <> rs).
      { intros ->. pose proof (results_inv_NoDup K o idx pc ltac:(lia) HJ) as Hnd.
        unfold lookupZ in Hrf, Hrs.
        rewrite decide_True in Hrf by lia. rewrite decide_True in Hrs by lia.
        pose proof (NoDup_lookup _ _ _ _ Hnd Hrf Hrs). lia. }
      assert (Hrf_in : rf ∈ pcResultIndices pc).
      { unfold lookupZ in Hrf. destruct (decide (0 <= i)); [|done].
        by eapply list_elem_of_lookup_2. }
      assert (Hrs_in : rs ∈ pcResultIndices pc).
      { unfold lookupZ in Hrs. destruct (decide (0 <= j)); [|done].
        by eapply list_elem_of_lookup_2. }
      destruct (results_inv_lookup K o idx pc rf Hidx HJ Hrf_in) as (_ & Hf & _).
      destruct (results_inv_lookup K o idx pc rs Hidx HJ Hrs_in) as (_ & Hs & _).
      cbn. eauto 10.
  - injection Hrun as <-. cbn [fst snd]. fold K'.
    split; [by etrans|]. split; [done|]. split; [done|]. done.
Qed.

Lemma plane_loop_pieces_inv b K0 Planes st st' :
  pieces_inv b K0 st ->
  for_each (cut_with_plane b) Planes st = Some st' ->
  pieces_inv b K0 st'.
Proof.
  intros Hs Hrun.
  refine (for_each_preserves (pieces_inv b K0) _ _ _ _ _ Hs Hrun).
  intros s Plane s' Hs1. unfold cut_with_plane.
  apply (for_each_preserves (pieces_inv b K0)); [|done].
  intros s1 idx s2. apply cut_piece_with_plane_pieces_inv.
Qed.

(** X21.  The pieces and the links the loop over the planes leaves.  The
    targets keep their places in [ToCut] with their transform index and
    mesh transform, and every piece of [ToCut] has the transform index and
    the mesh transform of a target it was cut from; so every target has at
    least one piece.  Without planes the pieces are the targets.  Without
    the [Proximity] attribute nothing is linked.  A link never joins a
    piece to itself, and both its pieces are pieces of [ToCut] whose
    target has more than one piece, the pieces for which
    [CutWithMultiplePlanes] appends a geometry. *)
Theorem plane_loop_pieces (bHasProximity : bool) (Planes : list FPlane)
    (Meshes ToCut : list FMeshData.t) (Links : TMultiMap) :
  for_each (cut_with_plane bHasProximity) Planes (Meshes, []) = Some (ToCut, Links) ->
  (origin_of <$> Meshes) `prefix_of` (origin_of <$> ToCut)
  /\ (forall md, md ∈ ToCut -> exists S, S ∈ Meshes /\ origin_of md = origin_of S)
  /\ (forall S, S ∈ Meshes -> 1 <= Num (children_of ToCut (FMeshData.TransformIndex S)))
  /\ (Planes = [] -> ToCut = Meshes)
  /\ (bHasProximity = false -> Links = [])
  /\ (forall A B, (A, B) ∈ Links ->
        A <> B
        /\ exists a b,
             lookupZ ToCut A = Some a /\ lookupZ ToCut B = Some b
             /\ 1 < Num (children_of ToCut (FMeshData.TransformIndex a))
             /\ 1 < Num (children_of ToCut (FMeshData.TransformIndex b))).
Proof.
  intros Hrun.
  assert (Hinv : pieces_inv bHasProximity (origin_of <$> Meshes) (ToCut, Links)).
  { refine (plane_loop_pieces_inv _ _ _ _ _ _ Hrun).
    split; [done|]. split; [done|]. split; [|done].
    intros A B HAB. by apply elem_of_nil in HAB. }
  destruct Hinv as (Hpre & Hall & Hlinks & Hoff). cbn [fst snd] in *.
  split; [done|]. split; [|split; [|split; [|split; [done|]]]].
  - intros md Hmd.
    assert (Ho : origin_of md ∈ origin_of <$> ToCut).
    { apply list_elem_of_fmap. by exists md. }
    apply Hall, list_elem_of_fmap in Ho as (S & HS & Hin). by exists S.
  - intros S HS. apply list_elem_of_lookup in HS as [i Hi].
    assert (Hk : lookupZ (origin_of <$> ToCut) (Z.of_nat i) = Some (origin_of S)).
    { apply (lookupZ_prefix _ _ _ _ Hpre). by rewrite lookupZ_fmap, lookupZ_nat, Hi. }
    rewrite lookupZ_fmap in Hk.
    destruct (lookupZ ToCut (Z.of_nat i)) as [md|] eqn:Hmd; [|done].
    assert (Hk' : FMeshData.TransformIndex md = FMeshData.TransformIndex S)
      by (cbn in Hk; unfold origin_of in Hk; congruence).
    assert (Hin : Z.of_nat i ∈ children_of ToCut (FMeshData.TransformIndex S)).
    { apply elem_of_children_of. by exists md. }
    destruct (children_of ToCut (FMeshData.TransformIndex S));
      [by apply elem_of_nil in Hin|]. unfold Num. cbn. lia.
  - intros ->. cbn in Hrun. by injection Hrun as <- _.
  - intros A B HAB. destruct (Hlinks A B HAB) as (Hne & HA & HB).
    split; [done|].
    apply has_sibling_children in HA as (a & Ha & HnA).
    apply has_sibling_children in HB as (b & Hb & HnB).
    by exists a, b.
Qed.

End PlanePieces.
(** ** Targets that no plane cuts *)

Section UncutTargets.
Context `{Engine}.

Lemma storeZ_lookup_ne {A : Type} (l l' : list A) (i j : Z) (x : A) :
  storeZ l i x = Some l' -> j <> i -> lookupZ l' j = lookupZ l j.
Proof.
  intros [Hi ->]%storeZ_inv Hne. unfold lookupZ. destruct (decide (0 <= j)); [|done].
  apply list_lookup_insert_ne. lia.
Qed.

Lemma results_inv_index (K : list (Z * FTransform)) o idx pc U r :
  results_inv K o idx pc -> lookupZ (pcResultIndices pc) U = Some r ->
  r = idx \/ Num K <= r.
Proof.
  intros (m & _ & _ & HR) Hr. rewrite HR in Hr.
  unfold lookupZ in Hr. destruct (decide (0 <= U)); [|done].
  apply list_elem_of_lookup_2 in Hr. apply elem_of_cons in Hr as [->|Hr]; [by left|].
  apply elem_of_seqZ in Hr. right. lia.
Qed.

Lemma split_result_keeps TI FC (K : list (Z * FTransform)) o idx pc U pc' (i : Z) S :
  results_inv K o idx pc -> i <> idx -> i < Num K ->
  lookupZ (pcToCut pc) i = Some S ->
  split_result TI FC pc U = Some pc' ->
  lookupZ (pcToCut pc') i = Some S.
Proof.
  intros HJ Hne Hlt Hi Hrun. unfold split_result in Hrun.
  destruct (lookupZ (pcResultIndices pc) U) as [ri|] eqn:Hri; [|done]. cbn in Hrun.
  destruct (lookupZ (pcToCut pc) ri) as [md|] eqn:Hmd; [|done]. cbn in Hrun.
  destruct (SplitIslands _) as [[] SM]; [|by injection Hrun as <-].
  destruct (lookupZ SM 0) as [First|]; [|done]. cbn in Hrun.
  destruct (storeZ _ _ _) as [T1|] eqn:Hstore; [|done]. cbn in Hrun.
  injection Hrun as <-.
  apply (fold_left_preserves (fun s => lookupZ (pcToCut s) i = Some S)).
  - intros s Mesh Hs. cbn. by apply lookupZ_app_l.
  - cbn. rewrite (storeZ_lookup_ne _ _ _ _ _ Hstore); [done|].
    destruct (results_inv_index K o idx pc U ri HJ Hri); lia.
Qed.

Lemma cut_piece_with_plane_alone Plane b st idx st' (i : Z) S :
  uncut_by [Plane] S ->
  alone_inv i S st ->
  cut_piece_with_plane Plane (PlaneCellMeshes Plane) b st idx = Some st' ->
  alone_inv i S st'.
Proof.
  destruct st as [ToCut M]. intros Huncut (HiS & Hothers & Hlinks) Hrun.
  cbn [fst snd] in *. unfold cut_piece_with_plane in Hrun.
  destruct (lookupZ ToCut idx) as [Surface|] eqn:HS; [|done].
  cbn [mbind option_bind] in Hrun.
  destruct (PlaneIntersectsBounds _ _) eqn:Hbounds; [|by injection Hrun as <-].
  destruct (decide (idx = i)) as [->|Hne].
  { (* the target itself: no result is kept *)
    rewrite HiS in HS. injection HS as <-.
    unfold plane_booleans in Hrun.
    destruct (CellMeshes (PlaneCellMeshes Plane)) as [|Cell0 [|Cell1 [|? ?]]] eqn:Hcells;
      try done.
    destruct (Huncut Plane Cell0 Cell1 ltac:(by left) Hbounds Hcells) as [H0|H1].
    - rewrite decide_True in Hrun by done. cbn in Hrun. by injection Hrun as <-.
    - destruct (decide (TriangleCount _ = 0)); cbn in Hrun; [by injection Hrun as <-|].
      rewrite decide_True in Hrun by done. cbn in Hrun. by injection Hrun as <-. }
  destruct (plane_booleans _ _) as [[[R0 R1]|]|]; [|by injection Hrun as <-|done].
  cbn [mbind option_bind] in Hrun.
  destruct (storeZ _ _ _) as [ToCut1|] eqn:Hstore; [|done]. cbn [mbind option_bind] in Hrun.
  set (K := origin_of <$> ToCut) in *.
  set (o := (FMeshData.TransformIndex Surface, FMeshData.FromCollection Surface)).
  assert (HK1 : origin_of <$> ToCut1 = K).
  { exact (store_same_key origin_of _ _ _ (FMeshData.mk R0 _ _) Surface
             HS eq_refl Hstore). }
  assert (Hidx : lookupZ K idx = Some o).
  { unfold K. by rewrite lookupZ_fmap, HS. }
  assert (HNum : Num ToCut1 = Num K).
  { unfold Num. by rewrite <- HK1, length_fmap. }
  assert (HNumK : Num K = Num ToCut).
  { unfold K, Num. by rewrite length_fmap. }
  pose proof (lookupZ_Some _ _ _ HiS) as Hirange.
  match type of Hrun with
  | context [for_each ?body ?l ?s0] =>
      destruct (for_each body l s0) as [pc|] eqn:Hsplit; [|done];
      assert (HJ : results_inv K o idx pc /\ lookupZ (pcToCut pc) i = Some S)
  end.
  { refine (for_each_preserves
              (fun pc => results_inv K o idx pc /\ lookupZ (pcToCut pc) i = Some S)
              _ _ _ _ _ _ Hsplit).
    - intros s U s' [Hr Hl] Hstep. split.
      + by eapply split_result_results_inv.
      + eapply split_result_keeps; [exact Hr|done|lia|exact Hl|exact Hstep].
    - split.
      + exists 1%nat. split; [done|]. cbn. split.
        * by rewrite fmap_app, HK1.
        * by rewrite HNum.
      + cbn. apply lookupZ_app_l.
        by rewrite (storeZ_lookup_ne _ _ _ _ _ Hstore). }
  destruct HJ as [HJ HiS'].
  cbn [mbind option_bind] in Hrun.
  assert (HT : FMeshData.TransformIndex Surface <> FMeshData.TransformIndex S)
    by by eapply Hothers.
  assert (Hothers' : forall j md, lookupZ (pcToCut pc) j = Some md -> j <> i ->
            FMeshData.TransformIndex md <> FMeshData.TransformIndex S).
  { intros j md Hj Hji.
    assert (Ho : lookupZ (origin_of <$> pcToCut pc) j = Some (origin_of md))
      by by rewrite lookupZ_fmap, Hj.
    destruct HJ as (m & _ & HK' & _). rewrite HK' in Ho.
    pose proof (lookupZ_Some _ _ _ Hj) as Hjr.
    destruct (decide (j < Num K)) as [Hlt|Hge].
    - assert (is_Some (lookupZ K j)) as [oj Hoj] by (apply lookupZ_is_Some; lia).
      rewrite (lookupZ_app_l _ _ _ _ Hoj) in Ho. injection Ho as ->.
      unfold K in Hoj. rewrite lookupZ_fmap in Hoj.
      destruct (lookupZ ToCut j) as [md0|] eqn:Hmd0; [|done]. cbn in Hoj.
      injection Hoj as Hoj _. rewrite <- Hoj.
      by eapply Hothers.
    - rewrite lookupZ_app_r in Ho by lia. unfold lookupZ in Ho.
      destruct (decide (0 <= j - Num K)); [|done].
      apply lookup_replicate in Ho as [Ho _]. apply (f_equal fst) in Ho. cbn in Ho.
      by rewrite Ho. }
  assert (Hres : forall r, r ∈ pcResultIndices pc -> r <> i).
  { intros r Hr. destruct HJ as (m & _ & _ & HR). rewrite HR in Hr.
    apply elem_of_cons in Hr as [->|Hr]; [done|]. apply elem_of_seqZ in Hr. lia. }
  destruct b.
  - destruct (link_results _ _ _ _) as [M1|] eqn:Hlink; [|done].
    cbn [mbind option_bind] in Hrun. injection Hrun as <-. cbn [fst snd].
    split; [done|]. split; [done|].
    intros A B HAB.
    refine (link_results_Forall (fun p => p.1 <> i /\ p.2 <> i)
              _ _ _ _ _ _ _ Hlink (A, B) HAB).
    + apply relink_neighbors_Forall.
      * intros [A1 B1] Hp. by apply Hlinks.
      * intros r n Hr Hn. destruct (Hlinks idx n Hn) as [_ Hni].
        pose proof (Hres r Hr). cbn. done.
    + intros a b rf rs Hab Hrf Hrs.
      assert (Hrf_in : rf ∈ pcResultIndices pc).
      { unfold lookupZ in Hrf. destruct (decide (0 <= a)); [|done].
        by eapply list_elem_of_lookup_2. }
      assert (Hrs_in : rs ∈ pcResultIndices pc).
      { unfold lookupZ in Hrs. destruct (decide (0 <= b)); [|done].
        by eapply list_elem_of_lookup_2. }
      pose proof (Hres rf Hrf_in). pose proof (Hres rs Hrs_in). cbn. done.
  - injection Hrun as <-. cbn [fst snd]. done.
Qed.

Lemma uncut_by_one Planes Plane S : uncut_by Planes S -> Plane ∈ Planes -> uncut_by [Plane] S.
Proof.
  intros Hu Hin P C0 C1 HP. apply list_elem_of_singleton in HP as ->. by apply Hu.
Qed.

Lemma plane_loop_alone b Planes st st' (i : Z) S :
  uncut_by Planes S ->
  alone_inv i S st ->
  for_each (cut_with_plane b) Planes st = Some st' ->
  alone_inv i S st'.
Proof.
  intros Hu Hs Hrun.
  refine (for_each_preserves_in (alone_inv i S) _ _ _ _ _ Hs Hrun).
  intros s Plane s' HPlane Hs1. unfold cut_with_plane.
  apply (for_each_preserves (alone_inv i S)); [|done].
  intros s1 idx s2. apply cut_piece_with_plane_alone. by eapply uncut_by_one.
Qed.


Lemma alone_inv_start (Meshes : list FMeshData.t) (i : nat) S :
  NoDup (FMeshData.TransformIndex <$> Meshes) ->
  Meshes !! i = Some S ->
  alone_inv (Z.of_nat i) S (Meshes, []).
Proof.
  intros Hnd Hi. split; [by rewrite lookupZ_nat|]. split.
  - intros j md Hj Hji Heq. cbn in Hj. unfold lookupZ in Hj.
    destruct (decide (0 <= j)); [|done].
    assert (H1 : (FMeshData.TransformIndex <$> Meshes) !! Z.to_nat j
                 = Some (FMeshData.TransformIndex S))
      by by rewrite list_lookup_fmap, Hj, <- Heq.
    assert (H2 : (FMeshData.TransformIndex <$> Meshes) !! i
                 = Some (FMeshData.TransformIndex S))
      by by rewrite list_lookup_fmap, Hi.
    pose proof (NoDup_lookup _ _ _ _ Hnd H1 H2). lia.
  - intros A B HAB. by apply elem_of_nil in HAB.
Qed.

Lemma children_of_distinct (ToCut : list FMeshData.t) (t : Z) :
  NoDup (children_of ToCut t).
Proof.
  rewrite children_of_reverse, reverse_Permutation. unfold MultiFind.
  eapply sublist_NoDup; [|apply fmap_sublist, sublist_filter].
  rewrite <- list_fmap_compose.
  assert (Hfst : (snd ∘ (fun '(ToCutIdx, md) => (FMeshData.TransformIndex md, ToCutIdx)))
                   <$> zip (seqZ 0 (Num ToCut)) ToCut
                 = seqZ 0 (Num ToCut)).
  { transitivity (fst <$> zip (seqZ 0 (Num ToCut)) ToCut).
    - apply list_fmap_ext. by intros k [a b].
    - apply fst_zip. rewrite length_seqZ. unfold Num. lia. }
  rewrite Hfst. apply NoDup_seqZ.
Qed.

Lemma children_of_alone (i : Z) S (st : list FMeshData.t * TMultiMap) :
  alone_inv i S st -> children_of st.1 (FMeshData.TransformIndex S) = [i].
Proof.
  intros (Hi & Hothers & _).
  pose proof (children_of_distinct st.1 (FMeshData.TransformIndex S)) as Hnd.
  assert (Hin : i ∈ children_of st.1 (FMeshData.TransformIndex S)).
  { apply elem_of_children_of. by exists S. }
  assert (Hall : forall j, j ∈ children_of st.1 (FMeshData.TransformIndex S) -> j = i).
  { intros j (md & Hj & HT)%elem_of_children_of.
    destruct (decide (j = i)); [done|]. by destruct (Hothers j md Hj). }
  destruct (children_of st.1 (FMeshData.TransformIndex S)) as [|a [|b l]].
  - by apply elem_of_nil in Hin.
  - f_equal. apply Hall. by left.
  - exfalso. apply NoDup_cons in Hnd as [Hab _]. apply Hab.
    rewrite (Hall a) by by left. rewrite (Hall b) by (right; by left). by left.
Qed.

(** *** The bone of a target that is not cut *)

Lemma AppendToCollection_other_bone F M sp par name c mat idx c' M' (j : Z) :
  AppendToCollection F M sp par name c mat = Some (idx, c', M') ->
  j <> par -> j < Num (TransformGroup c) ->
  lookupZ (TransformGroup c') j = lookupZ (TransformGroup c) j
  /\ Num (TransformGroup c) <= Num (TransformGroup c').
Proof.
  intros Hrun Hj Hlt. destruct (decide (TriangleCount M = 0)) as [Hz|Hnz].
  { rewrite (AppendToCollection_empty _ _ _ _ _ _ _ Hz) in Hrun.
    injection Hrun as <- <- <-. split; [done|lia]. }
  destruct (decide (par <= Num (TransformGroup c))) as [Hpar|Hpar].
  - destruct (AppendToCollection_closed_form F M sp par name c mat Hnz Hpar)
      as (T & t & Hrun' & HnumT & _ & _ & Hsame & _).
    rewrite Hrun' in Hrun. injection Hrun as <- <- <-.
    unfold appended. cbn [TransformGroup]. split; [|lia].
    apply Hsame; [done|lia].
  - exfalso. unfold AppendToCollection in Hrun.
    pose proof (Num_nonneg (TransformGroup c)).
    destruct (decide (TriangleCount M = 0)); [done|].
    destruct (decide (par > -1)); [|lia].
    rewrite link_to_parent_out_of_range in Hrun by lia. done.
Qed.

Lemma append_children_other_bone mat bDef sp st MeshData st' (j : Z) (r : FTransformRow) :
  Num (children_of (asToCut st) (FMeshData.TransformIndex MeshData)) <= 1
    \/ FMeshData.TransformIndex MeshData <> j ->
  lookupZ (TransformGroup (asCollection st)) j = Some r ->
  append_children mat bDef sp st MeshData = Some st' ->
  lookupZ (TransformGroup (asCollection st')) j = Some r
  /\ FMeshData.TransformIndex <$> asToCut st' = FMeshData.TransformIndex <$> asToCut st.
Proof.
  intros Hcase Hr Hrun. unfold append_children in Hrun.
  destruct (lookupZ _ (FMeshData.TransformIndex MeshData)) as [t|]; [|done].
  cbn [mbind option_bind] in Hrun.
  destruct (internal_material _ _ _ _) as [imat|]; [|done].
  cbn [mbind option_bind] in Hrun.
  destruct (decide (Num (children_of _ _) <= 1)) as [Hone|Hmany];
    [by injection Hrun as <-|].
  destruct Hcase as [Hone|Hne]; [done|].
  match type of Hrun with
  | context [for_each ?body ?l ?s0] =>
      destruct (for_each body l s0) as [[st2 k]|] eqn:Hloop; [|done];
      pose proof (for_each_preserves_in
        (fun s : append_state * Z =>
           lookupZ (TransformGroup (asCollection s.1)) j = Some r
           /\ FMeshData.TransformIndex <$> asToCut s.1
              = FMeshData.TransformIndex <$> asToCut st)
        body l) as Hpres
  end.
  cbn in Hrun. injection Hrun as <-.
  refine (Hpres _ _ _ _ Hloop); [|done].
  intros [s k1] idx [s' k2] Hidx [Hrow Hkeys] Hstep. cbn [fst] in *.
  destruct (lookupZ (asToCut s) idx) as [md|] eqn:Hmd; [|done]. cbn in Hstep.
  destruct (GetBoneName _ _ _) as [Name|]; [|done]. cbn in Hstep.
  destruct (AppendToCollection _ _ _ _ _ _ _) as [[[ci c1] M1]|] eqn:Happ; [|done].
  cbn in Hstep.
  destruct (storeZ (asToCut s) idx _) as [T1|] eqn:Hstore; [|done]. cbn in Hstep.
  destruct (storeZ (asToCutIdxToGeometryIdx s) idx ci) as [Map1|]; [|done].
  cbn in Hstep. injection Hstep as <- <-. cbn.
  assert (HT : FMeshData.TransformIndex md = FMeshData.TransformIndex MeshData).
  { rewrite (children_of_ext (asToCut st) (asToCut s)) in Hidx by done.
    apply elem_of_children_of in Hidx as (md' & Hmd' & HT). congruence. }
  split.
  - destruct (AppendToCollection_other_bone _ _ _ _ _ _ _ _ _ _ j Happ) as [Hsame _].
    + congruence.
    + apply lookupZ_Some in Hrow. lia.
    + by rewrite Hsame.
  - rewrite <- Hkeys.
    exact (store_same_key FMeshData.TransformIndex _ _ _ (FMeshData.mk M1 _ _) md
             Hmd eq_refl Hstore).
Qed.

Lemma append_loop_other_bone mat bDef sp Meshes (i : Z) S (r : FTransformRow)
    (ToCut : list FMeshData.t) : forall st st',
  children_of ToCut (FMeshData.TransformIndex S) = [i] ->
  FMeshData.TransformIndex <$> asToCut st = FMeshData.TransformIndex <$> ToCut ->
  lookupZ (TransformGroup (asCollection st)) (FMeshData.TransformIndex S) = Some r ->
  for_each (append_children mat bDef sp) Meshes st = Some st' ->
  lookupZ (TransformGroup (asCollection st')) (FMeshData.TransformIndex S) = Some r.
Proof.
  intros st st' Hone Hkeys Hrow Hrun.
  refine (proj1 (for_each_preserves
            (fun st => lookupZ (TransformGroup (asCollection st))
                         (FMeshData.TransformIndex S) = Some r
                       /\ FMeshData.TransformIndex <$> asToCut st
                          = FMeshData.TransformIndex <$> ToCut)
            _ _ _ _ _ (conj Hrow Hkeys) Hrun)).
  intros s MeshData s' [Hr Hk] Hstep.
  destruct (append_children_other_bone mat bDef sp s MeshData s'
              (FMeshData.TransformIndex S) r) as [Hr' Hk']; [|done|done|].
  - destruct (decide (FMeshData.TransformIndex MeshData = FMeshData.TransformIndex S))
      as [Heq|Hne]; [|by right].
    left. rewrite Heq, (children_of_ext (asToCut s) ToCut) by done.
    rewrite Hone. unfold Num. cbn. lia.
  - split; [done|]. by rewrite Hk'.
Qed.

Lemma filter_delete_rejected {A : Type} (P : A -> Prop) `{!forall x, Decision (P x)}
    (l : list A) (i : nat) (x : A) :
  l !! i = Some x -> ~ P x -> filter P (delete i l) = filter P l.
Proof.
  revert i. induction l as [|a l IH]; intros [|i] Hi Hx; try done.
  - cbn in Hi. injection Hi as ->. change (delete 0%nat (x :: l)) with l.
    by rewrite filter_cons_False.
  - cbn in Hi. change (delete (S i) (a :: l)) with (a :: delete i l).
    rewrite !filter_cons. by rewrite (IH i Hi Hx).
Qed.


Lemma hide_superseded_transforms c l c' :
  hide_superseded c l = Some c' -> TransformGroup c' = TransformGroup c.
Proof.
  unfold hide_superseded. destruct (decide _); [|by intros [= <-]].
  intros Hrun. by apply SetGeometryVisibility_faces in Hrun as [Faces ->].
Qed.

(** X26.  A target that is listed once and that no plane cuts is left as it
    is by [CutWithMultiplePlanes] without grout.  For targets of pairwise
    different transforms that are transforms of the collection, let the
    target at position [i] be one whose mesh no plane cuts.  When the call
    returns, the loop over the planes has left that mesh at position [i]
    of [ToCut] as the only piece of its transform, and no link has it as
    an end; the row of its bone is the row it was (no child was added to
    it); its geometry is not collected for removal because of it (the
    geometry collected is that of the other targets); and a face keeps its
    visibility unless it lies in the face range of the geometry of another
    target that was split. *)
Theorem CutWithMultiplePlanes_leaves_uncut_target
    (GroutMesh : list FPlane -> float -> FDynamicMesh3)
    (Meshes : list FMeshData.t) (Planes : list FPlane) (Grout sp : float)
    (c : FGeometryCollection) (n mat : Z) (bDef : bool)
    (ret : Z) (c' : FGeometryCollection) (i : nat) (S : FMeshData.t) :
  (0 <? Grout)%float = false ->
  NoDup (FMeshData.TransformIndex <$> Meshes) ->
  (forall S', S' ∈ Meshes ->
     is_Some (lookupZ (TransformGroup c) (FMeshData.TransformIndex S'))) ->
  Meshes !! i = Some S ->
  uncut_by Planes S ->
  CutWithMultiplePlanes GroutMesh Meshes Planes Grout sp c n mat bDef = Some (ret, c') ->
  exists ToCut Links,
    for_each (cut_with_plane (bool_decide (is_Some (Proximity c)))) Planes (Meshes, [])
    = Some (ToCut, Links)
    /\ ToCut !! i = Some S
    /\ children_of ToCut (FMeshData.TransformIndex S) = [Z.of_nat i]
    /\ (forall A B, (A, B) ∈ Links -> A <> Z.of_nat i /\ B <> Z.of_nat i)
    /\ lookupZ (TransformGroup c') (FMeshData.TransformIndex S)
       = lookupZ (TransformGroup c) (FMeshData.TransformIndex S)
    /\ split_by_planes c ToCut Meshes = split_by_planes c ToCut (delete i Meshes)
    /\ (forall f r, lookupZ (FacesGroup c) f = Some r ->
          ~ in_listed_range c' (split_by_planes c ToCut (delete i Meshes)) f ->
          exists r', lookupZ (FacesGroup c') f = Some r' /\ Visible r' = Visible r).
Proof.
  intros Hgrout Hnd Hvalid Hi Hu Hrun.
  destruct (hides_split_targets _ _ _ _ _ _ _ _ _ _ _ Hgrout Hvalid Hrun)
    as (ToCut & Links & Hloop & Hfaces & _).
  exists ToCut, Links. split; [done|].
  pose proof (plane_loop_alone _ _ _ _ (Z.of_nat i) S Hu
                (alone_inv_start _ _ _ Hnd Hi) Hloop) as Halone.
  pose proof (children_of_alone _ _ _ Halone) as Hone. cbn [fst] in Hone.
  destruct Halone as (HiS & _ & Hlinks). cbn [fst snd] in *.
  split; [by rewrite <- lookupZ_nat|]. split; [done|]. split; [done|].
  assert (Hdel : split_by_planes c ToCut Meshes
                 = split_by_planes c ToCut (delete i Meshes)).
  { unfold split_by_planes. f_equal. symmetry.
    eapply filter_delete_rejected; [done|]. rewrite Hone. unfold Num. cbn. lia. }
  split; [|split; [done|]].
  - unfold CutWithMultiplePlanes in Hrun. rewrite Hgrout in Hrun.
    unfold CutWithMultiplePlanes_no_grout in Hrun. rewrite Hloop in Hrun.
    cbn [mbind option_bind] in Hrun.
    destruct (for_each _ Meshes _) as [st|] eqn:Happ; [|done].
    cbn [mbind option_bind] in Hrun.
    destruct (Hvalid S) as [r Hr]; [by eapply list_elem_of_lookup_2|].
    assert (Hrow : lookupZ (TransformGroup (asCollection st))
                     (FMeshData.TransformIndex S) = Some r).
    { eapply (append_loop_other_bone mat bDef sp Meshes (Z.of_nat i) S r ToCut);
        [exact Hone| | |exact Happ]; [done|exact Hr]. }
    assert (HT : TransformGroup c' = TransformGroup (asCollection st)).
    { destruct (bool_decide _).
      - destruct (Proximity (asCollection st)) as [P|]; [|done]. cbn in Hrun.
        destruct (for_each _ Links P) as [P'|]; [|done]. cbn in Hrun.
        destruct (hide_superseded _ _) as [c2|] eqn:Hhide; [|done]. cbn in Hrun.
        injection Hrun as <- <-. by apply hide_superseded_transforms in Hhide.
      - cbn in Hrun. destruct (hide_superseded _ _) as [c2|] eqn:Hhide; [|done].
        cbn in Hrun. injection Hrun as <- <-.
        by apply hide_superseded_transforms in Hhide. }
    by rewrite HT, Hrow, Hr.
  - intros f r Hr Hn. destruct (Hfaces f r Hr) as (r' & Hr' & _ & Hout).
    exists r'. split; [done|]. apply Hout. by rewrite Hdel.
Qed.

End UncutTargets.

Section UncutOnSamples.

Lemma CutWithMultiplePlanes_leaves_uncut_target_witness :
  exists ret c',
    @CutWithMultiplePlanes Samples.engine_empty_booleans (fun _ _ => mkMesh [] [] 1)
      [FMeshData.mk Samples.tetra_mesh 0 FTransform_Identity]
      [(Samples.origin, 0%float)] 0%float 0%float (ensure_Proximity Samples.tetra)
      1 7 false = Some (ret, c')
    /\ lookupZ (TransformGroup c') 0 = lookupZ (TransformGroup Samples.tetra) 0.
Proof.
  destruct (@CutWithMultiplePlanes Samples.engine_empty_booleans
              (fun _ _ => mkMesh [] [] 1)
              [FMeshData.mk Samples.tetra_mesh 0 FTransform_Identity]
              [(Samples.origin, 0%float)] 0%float 0%float (ensure_Proximity Samples.tetra)
              1 7 false) as [[ret c']|] eqn:Hrun; [|by vm_compute in Hrun].
  exists ret, c'. split; [reflexivity|].
  destruct (@CutWithMultiplePlanes_leaves_uncut_target Samples.engine_empty_booleans
              (fun _ _ => mkMesh [] [] 1)
              [FMeshData.mk Samples.tetra_mesh 0 FTransform_Identity]
              [(Samples.origin, 0%float)] 0%float 0%float (ensure_Proximity Samples.tetra)
              1 7 false ret c' 0%nat
              (FMeshData.mk Samples.tetra_mesh 0 FTransform_Identity))
    as (ToCut & Links & _ & _ & _ & _ & Hbone & _).
  - reflexivity.
  - apply NoDup_singleton.
  - intros S' HS'. apply list_elem_of_singleton in HS' as ->. vm_compute. by eexists.
  - reflexivity.
  - intros Plane Cell0 Cell1 _ _ _. by left.
  - exact Hrun.
  - exact Hbone.
Defined.

End UncutOnSamples.
(** ** The UV scale of the internal surfaces *)

Section UVScale.
Context `{Engine}.

Lemma for_each_is_Some {A S : Type} (body : S -> A -> option S) (ok : A -> Prop)
    (l : list A) :
  (forall s a, is_Some (body s a) <-> ok a) ->
  forall s, is_Some (for_each body l s) <-> Forall ok l.
Proof.
  intros Hbody. induction l as [|a l IH]; intros s.
  - cbn. split; [by constructor|by eexists].
  - cbn. rewrite Forall_cons. destruct (body s a) as [s'|] eqn:Hs.
    + cbn. rewrite IH. pose proof (proj1 (Hbody s a) ltac:(by rewrite Hs; eexists)). tauto.
    + cbn. split; [by intros []|]. intros [Hok _]. apply Hbody with (s := s) in Hok.
      rewrite Hs in Hok. by destruct Hok.
Qed.

Lemma add_edge_lengths_is_Some c st A B :
  is_Some (add_edge_lengths c st A B) <-> has_first_uv c A /\ has_first_uv c B.
Proof.
  destruct st as [U W]. unfold add_edge_lengths, has_first_uv. split.
  - intros [r Hr].
    destruct (lookupZ (VerticesGroup c) A) as [a|]; [|done]. cbn in Hr.
    destruct (lookupZ (VerticesGroup c) B) as [b|]; [|done]. cbn in Hr.
    destruct (lookupZ (UVs a) 0) as [uva|] eqn:Ha; [|done]. cbn in Hr.
    destruct (lookupZ (UVs b) 0) as [uvb|] eqn:Hb; [|done]. eauto 10.
  - intros [(a & uva & -> & Ha) (b & uvb & -> & Hb)]. cbn. rewrite Ha. cbn.
    rewrite Hb. cbn. by eexists.
Qed.

Lemma add_face_lengths_is_Some c st FaceIdx :
  is_Some (add_face_lengths c st FaceIdx)
  <-> exists f, lookupZ (FacesGroup c) FaceIdx = Some f /\ corners_have_uvs c f.
Proof.
  unfold add_face_lengths.
  destruct (lookupZ (FacesGroup c) FaceIdx) as [f|]; cbn; [|split; [by intros []|]].
  2: { by intros (f & Hf & _). }
  transitivity (corners_have_uvs c f).
  2: { split; [by exists f|]. by intros (f' & [= <-] & Hf). }
  unfold corners_have_uvs. destruct (Indices f) as [[X Y] Z0]. cbn [fst snd].
  pose proof (add_edge_lengths_is_Some c st X Y) as H1.
  destruct (add_edge_lengths c st X Y) as [st1|]; cbn.
  - assert (H1' : has_first_uv c X /\ has_first_uv c Y) by (apply H1; by eexists).
    pose proof (add_edge_lengths_is_Some c st1 Z0 Y) as H2.
    destruct (add_edge_lengths c st1 Z0 Y) as [st2|]; cbn.
    + rewrite (add_edge_lengths_is_Some c st2 X Z0). tauto.
    + split; [by intros []|]. intros (HX & HY & HZ).
      assert (Hs : is_Some (@None (float * float))) by (apply H2; done).
      by destruct Hs.
  - split; [by intros []|]. intros (HX & HY & HZ).
    assert (Hs : is_Some (@None (float * float))) by (apply H1; done).
    by destruct Hs.
Qed.

(** X27.  [SetUVScaleFromCollection] changes the UV scale only: whenever it
    returns, the material ID is the one passed in and the scale it leaves
    is not [<= 0] (the scale falls back to 1).  Called for all faces of the
    collection (a geometry index of -1 or less), it returns exactly if the
    three corners of every face of the collection are vertices of the
    collection that have a first UV layer; otherwise it aborts on an array
    read. *)
Theorem SetUVScaleFromCollection_scale :
  (forall Materials c GeometryIdx Materials',
      SetUVScaleFromCollection Materials c GeometryIdx = Some Materials' ->
      FInternalSurfaceMaterials.GlobalMaterialID Materials'
      = FInternalSurfaceMaterials.GlobalMaterialID Materials
      /\ (FInternalSurfaceMaterials.GlobalUVScale Materials' <=? 0)%float = false)
  /\ (forall Materials c GeometryIdx,
        GeometryIdx <= -1 ->
        is_Some (SetUVScaleFromCollection Materials c GeometryIdx)
        <-> Forall (corners_have_uvs c) (FacesGroup c)).
Proof.
  split.
  - intros Materials c GeometryIdx Materials' Hrun.
    unfold SetUVScaleFromCollection in Hrun.
    destruct (FInternalSurfaceMaterials.face_range c GeometryIdx) as [[FS FE]|]; [|done].
    cbn [mbind option_bind] in Hrun.
    destruct (for_each _ _ _) as [[U W]|]; [|done]. cbn [mbind option_bind] in Hrun.
    injection Hrun as <-. cbn. split; [done|].
    match goal with
    | |- ((if (?x <=? 0)%float then _ else _) <=? 0)%float = false =>
        destruct (x <=? 0)%float eqn:Hx; [reflexivity|exact Hx]
    end.
  - intros Materials c GeometryIdx Hidx.
    unfold SetUVScaleFromCollection, FInternalSurfaceMaterials.face_range.
    destruct (decide (GeometryIdx > -1)); [lia|]. cbn [mbind option_bind].
    rewrite Z.sub_0_r.
    transitivity (is_Some (for_each (add_face_lengths c) (seqZ 0 (Num (FacesGroup c)))
                             (0%float, 0%float))).
    { destruct (for_each _ _ _) as [[U W]|]; cbn.
      - split; intros _; by eexists.
      - split; by intros [? ?]. }
    rewrite (for_each_is_Some _
               (fun i => exists f, lookupZ (FacesGroup c) i = Some f /\ corners_have_uvs c f)).
    2: { intros s a. apply add_face_lengths_is_Some. }
    rewrite !Forall_forall. split.
    + intros Hall f Hf. apply list_elem_of_lookup in Hf as [k Hk].
      destruct (Hall (Z.of_nat k)) as (f' & Hf' & Hok).
      * apply elem_of_seqZ. apply lookup_lt_Some in Hk. unfold Num. lia.
      * rewrite lookupZ_nat in Hf'. congruence.
    + intros Hall i Hi. apply elem_of_seqZ in Hi.
      destruct (lookupZ_is_Some (FacesGroup c) i) as [f Hf]; [lia|].
      exists f. split; [done|]. apply Hall.
      unfold lookupZ in Hf. destruct (decide (0 <= i)); [|done].
      by eapply list_elem_of_lookup_2.
Qed.

End UVScale.
(** ** The order of the links *)

Section LinkOrder.

Lemma modifyZ_modifyZ_comm {A : Type} (l : list A) (i j : Z) (f g : A -> A) :
  (forall x, f (g x) = g (f x)) ->
  (l ← modifyZ l i f; modifyZ l j g) = (l ← modifyZ l j g; modifyZ l i f).
Proof.
  intros Hfg.
  destruct (lookupZ l i) as [x|] eqn:Hx; cycle 1.
  { assert (Hi : modifyZ l i f = None) by (unfold modifyZ; by rewrite Hx).
    rewrite Hi. cbn. destruct (modifyZ l j g) as [l1|] eqn:Hj; [|done]. cbn.
    apply modifyZ_inv in Hj as (y & Hy & ->). unfold modifyZ.
    destruct (lookupZ (<[Z.to_nat j := g y]> l) i) as [z|] eqn:Hz; [|done].
    exfalso. apply lookupZ_Some in Hz. rewrite Num_insert in Hz.
    destruct (lookupZ_is_Some l i Hz) as [w Hw]. congruence. }
  destruct (lookupZ l j) as [y|] eqn:Hy; cycle 1.
  { assert (Hj : modifyZ l j g = None) by (unfold modifyZ; by rewrite Hy).
    rewrite Hj. cbn. rewrite (modifyZ_Some _ _ _ _ Hx). cbn. unfold modifyZ.
    destruct (lookupZ (<[Z.to_nat i := f x]> l) j) as [z|] eqn:Hz; [|done].
    exfalso. apply lookupZ_Some in Hz. rewrite Num_insert in Hz.
    destruct (lookupZ_is_Some l j Hz) as [w Hw]. congruence. }
  rewrite (modifyZ_Some _ _ _ _ Hx), (modifyZ_Some _ _ _ _ Hy). cbn.
  pose proof (lookupZ_Some _ _ _ Hx) as Hxr. pose proof (lookupZ_Some _ _ _ Hy) as Hyr.
  unfold Num in *.
  destruct (decide (i = j)) as [->|Hne].
  - rewrite Hx in Hy. injection Hy as <-.
    assert (H1 : lookupZ (<[Z.to_nat j := f x]> l) j = Some (f x)).
    { unfold lookupZ. rewrite decide_True by lia. apply list_lookup_insert_eq. lia. }
    assert (H2 : lookupZ (<[Z.to_nat j := g x]> l) j = Some (g x)).
    { unfold lookupZ. rewrite decide_True by lia. apply list_lookup_insert_eq. lia. }
    rewrite (modifyZ_Some _ _ _ _ H1), (modifyZ_Some _ _ _ _ H2).
    by rewrite !list_insert_insert_eq, Hfg.
  - assert (H1 : lookupZ (<[Z.to_nat i := f x]> l) j = Some y).
    { unfold lookupZ in *. destruct (decide (0 <= j)); [|done].
      rewrite list_lookup_insert_ne by lia. done. }
    assert (H2 : lookupZ (<[Z.to_nat j := g y]> l) i = Some x).
    { unfold lookupZ in *. destruct (decide (0 <= i)); [|done].
      rewrite list_lookup_insert_ne by lia. done. }
    rewrite (modifyZ_Some _ _ _ _ H1), (modifyZ_Some _ _ _ _ H2).
    f_equal. apply list_insert_insert_ne. lia.
Qed.

Lemma write_link_comm (map : list Z) (P : list (gset Z)) (a b : Z * Z) :
  (P ← write_link map P a; write_link map P b)
  = (P ← write_link map P b; write_link map P a).
Proof.
  unfold write_link.
  destruct (lookupZ map a.1) as [Ka|]; cbn; cycle 1.
  { by destruct (lookupZ map b.1) as [Kb|], (lookupZ map b.2) as [Vb|]; cbn;
      try destruct (modifyZ _ _ _). }
  destruct (lookupZ map a.2) as [Va|]; cbn; cycle 1.
  { by destruct (lookupZ map b.1) as [Kb|], (lookupZ map b.2) as [Vb|]; cbn;
      try destruct (modifyZ _ _ _). }
  destruct (lookupZ map b.1) as [Kb|]; cbn; [|by destruct (modifyZ _ _ _)].
  destruct (lookupZ map b.2) as [Vb|]; cbn; [|by destruct (modifyZ _ _ _)].
  apply modifyZ_modifyZ_comm. intros s.
  by rewrite <- !(assoc_L (∪)), (comm_L (∪) {[Vb]}).
Qed.

(** X28.  The proximity that [CutWithMultiplePlanes] writes does not depend
    on the order in which the pairs of the multimap are enumerated: the
    loop that writes the links gives the same sets, or aborts alike, for
    every rearrangement of the pairs. *)
Theorem write_links_any_order (map : list Z) (Links Links' : TMultiMap) :
  Links ≡ₚ Links' ->
  forall P, for_each (write_link map) Links P = for_each (write_link map) Links' P.
Proof.
  induction 1 as [|x l l' _ IH|x y l|l1 l2 l3 _ IH1 _ IH2]; intros P.
  - done.
  - cbn. destruct (write_link map P x); [apply IH|done].
  - cbn. pose proof (write_link_comm map P y x) as Hc.
    destruct (write_link map P y) as [P1|], (write_link map P x) as [P2|];
      cbn in Hc |- *.
    + destruct (write_link map P1 x) as [P3|], (write_link map P2 y) as [P4|];
        cbn; try done. by injection Hc as ->.
    + by destruct (write_link map P1 x).
    + by destruct (write_link map P2 y).
    + done.
  - by rewrite IH1.
Qed.

Lemma write_links_any_order_witness :
  for_each (write_link [0; 1]) [(0, 1); (1, 0)] [∅; ∅]
  = for_each (write_link [0; 1]) [(1, 0); (0, 1)] [∅; ∅].
Proof.
  apply (write_links_any_order [0; 1] [(0, 1); (1, 0)] [(1, 0); (0, 1)]).
  apply perm_swap.
Defined.

End LinkOrder.

(** ** The proximity of the geometries there were before a cut *)

Section OldProximity.
Context `{Engine}.
#[local] Set Warnings "-clear-no-such-hyp".

Lemma same_domain_Num {A : Type} (l l' : list A) :
  (forall X, is_Some (lookupZ l' X) <-> is_Some (lookupZ l X)) -> Num l' = Num l.
Proof.
  intros Hdom. pose proof (Num_nonneg l). pose proof (Num_nonneg l').
  destruct (Z.lt_trichotomy (Num l') (Num l)) as [Hlt|[Heq|Hgt]]; [|done|].
  - destruct (proj2 (Hdom (Num l')) (lookupZ_is_Some l (Num l') ltac:(lia))) as [x Hx].
    apply lookupZ_Some in Hx. lia.
  - destruct (proj1 (Hdom (Num l)) (lookupZ_is_Some l' (Num l) ltac:(lia))) as [x Hx].
    apply lookupZ_Some in Hx. lia.
Qed.

Lemma proximity_extends_append P0 F M sp par name c mat idx c' M' :
  proximity_extends P0 c ->
  AppendToCollection F M sp par name c mat = Some (idx, c', M') ->
  proximity_extends P0 c' /\ created_after P0 idx.
Proof.
  intros (P & HP & HNum & Hold & Hnew) Hrun.
  assert (HP0 : Num P0 <= Num P).
  { destruct (decide (Num P0 <= Num P)); [done|].
    pose proof (Num_nonneg P).
    destruct (lookupZ_is_Some P0 (Num P) ltac:(lia)) as [s Hs].
    apply Hold, lookupZ_Some in Hs. lia. }
  apply AppendToCollection_inv in Hrun
    as [(_ & -> & -> & _)|(_ & -> & _ & T & -> & _)].
  { split; [by exists P|by left]. }
  split; [|right; lia].
  exists (P ++ [∅]). unfold appended. cbn [Proximity GeometryGroup]. rewrite HP.
  split; [done|]. split; [rewrite !Num_app; unfold Num in *; cbn; lia|]. split.
  - intros i s Hs. by apply lookupZ_app_l, Hold.
  - intros i s B Hi Hs HB. rewrite Num_app. change (Num [∅ : gset Z]) with 1.
    apply lookupZ_snoc_inv in Hs as [[Hlt Hs]|[-> ->]].
    + pose proof (Hnew i s B Hi Hs HB). lia.
    + by apply not_elem_of_empty in HB.
Qed.

Lemma proximity_extends_pair P0 c P P' A B :
  proximity_extends P0 (set_Proximity c (Some P)) ->
  created_after P0 A -> created_after P0 B ->
  add_proximity_pair P A B = Some P' ->
  proximity_extends P0 (set_Proximity c (Some P')).
Proof.
  intros (P1 & HP & HNum & Hold & Hnew) HA HB Hadd.
  destruct c as [T G V Fa Pr]. cbn in HP, HNum. injection HP as <-.
  apply add_proximity_pair_lookup in Hadd as ([sA HsA] & [sB HsB] & Hlook).
  apply lookupZ_Some in HsA as HAr. apply lookupZ_Some in HsB as HBr.
  assert (HA' : Num P0 <= A) by (destruct HA; lia).
  assert (HB' : Num P0 <= B) by (destruct HB; lia).
  assert (HN : Num P' = Num P).
  { apply same_domain_Num. intros X. rewrite Hlook. by rewrite fmap_is_Some. }
  exists P'. cbn. split; [done|]. split; [lia|]. split.
  - intros i s Hs. apply lookupZ_Some in Hs as Hi. rewrite Hlook, (Hold i s Hs). cbn.
    rewrite !decide_False by lia. f_equal. set_solver.
  - intros i s X Hi Hs HX. rewrite Hlook in Hs. rewrite HN.
    destruct (lookupZ P i) as [s0|] eqn:Hs0; [|done]. cbn in Hs. injection Hs as <-.
    assert (Hcases : X ∈ s0 \/ X = A \/ X = B).
    { destruct (decide (i = A)), (decide (i = B)); set_solver. }
    destruct Hcases as [Hin|[-> | ->]]; [by eapply Hnew|lia|lia].
Qed.

Lemma append_piece_cells_ok P0 Surface sp mat CellIdx b st Piece st' :
  cells_ok P0 st ->
  append_piece Surface sp mat CellIdx b st Piece = Some st' ->
  cells_ok P0 st'.
Proof.
  intros [HI HG]. unfold append_piece.
  destruct (GetBoneName _ _ _) as [name|]; [|done]. cbn.
  destruct (AppendToCollection _ _ _ _ _ _ _) as [[[idx c'] M']|] eqn:Happ; [|done].
  cbn. intros Hst.
  destruct (proximity_extends_append _ _ _ _ _ _ _ _ _ _ _ HI Happ) as [HI' Hidx].
  assert (HG' : forall cell g, (cell, g) ∈ MultiAdd (clCellToGeometry st) CellIdx idx ->
                               created_after P0 g).
  { intros cell g [Hin|Hin]%elem_of_cons; [|by eapply HG].
    by injection Hin as -> ->. }
  destruct b.
  - destruct (storeZ _ _ _); [|done]. cbn in Hst. by injection Hst as <-.
  - cbn in Hst. by injection Hst as <-.
Qed.

Lemma append_islands_cells_ok P0 Surface sp mat CellIdx Islands : forall b st st',
  cells_ok P0 st ->
  append_islands Surface sp mat CellIdx b Islands st = Some st' ->
  cells_ok P0 st'.
Proof.
  induction Islands as [|Island Islands IH]; intros b st st' HI Hrun.
  - cbn in Hrun. by injection Hrun as <-.
  - cbn in Hrun.
    destruct (append_piece _ _ _ _ _ _ _) as [st1|] eqn:Hp; [|done].
    cbn in Hrun. eapply IH; [|exact Hrun]. by eapply append_piece_cells_ok.
Qed.

Lemma write_cell_cells_ok P0 Surface sp mat st CellIdx st' :
  cells_ok P0 st ->
  write_cell Surface sp mat st CellIdx = Some st' ->
  cells_ok P0 st'.
Proof.
  intros HI. unfold write_cell.
  destruct (lookupZ _ _) as [r|]; [|done]. cbn.
  destruct (non_empty r); [|by intros [= <-]].
  destruct r as [m|]; [|by intros [= <-]].
  destruct (SplitIslands m) as [[] Islands].
  - intros Hrun. eapply append_islands_cells_ok; [|exact Hrun]. done.
  - intros Hrun. eapply append_piece_cells_ok; [|exact Hrun]. done.
Qed.

Lemma link_across_plane_extends P0 conn Cells cl c P PlaneIdx P' :
  (forall cell g, (cell, g) ∈ clCellToGeometry cl -> created_after P0 g) ->
  proximity_extends P0 (set_Proximity c (Some P)) ->
  link_across_plane conn Cells cl P PlaneIdx = Some P' ->
  proximity_extends P0 (set_Proximity c (Some P')).
Proof.
  intros HG HI. unfold link_across_plane.
  destruct (lookupZ conn PlaneIdx) as [[First Second]|]; [|done]. cbn.
  destruct (decide _); [|by intros [= <-]].
  set (Cell2 := if decide (Second < 0) then OutsideCellIndex Cells else Second).
  assert (HA : forall g, g ∈ MultiFind (clCellToGeometry cl) First -> created_after P0 g).
  { intros g Hg. apply MultiFind_elem in Hg. by eapply HG. }
  assert (HB : forall g, g ∈ MultiFind (clCellToGeometry cl) Cell2 -> created_after P0 g).
  { intros g Hg. apply MultiFind_elem in Hg. by eapply HG. }
  revert HA HB.
  generalize (MultiFind (clCellToGeometry cl) First) as GeomA.
  generalize (MultiFind (clCellToGeometry cl) Cell2) as GeomB.
  intros GeomB GeomA HA HB.
  assert (Hloops :
    for_each (fun P GIDA =>
        MeshA ← clGeometryToResultMesh cl !! GIDA;
        A ← result_mesh (clBooleanResults cl) MeshA;
        for_each (fun P GIDB =>
            MeshB ← clGeometryToResultMesh cl !! GIDB;
            B ← result_mesh (clBooleanResults cl) MeshB;
            if IsNeighboring A B then add_proximity_pair P GIDA GIDB else Some P)
          GeomB P)
      GeomA P = Some P' ->
    proximity_extends P0 (set_Proximity c (Some P'))).
  { intros Hrun.
    refine (for_each_preserves_in
              (fun P => proximity_extends P0 (set_Proximity c (Some P)))
              _ _ _ _ _ HI Hrun).
    intros P1 GIDA P2 HinA HI1. cbn.
    destruct (_ !! GIDA) as [MeshA|]; [|done]. cbn.
    destruct (result_mesh _ MeshA) as [A|]; [|done]. cbn.
    apply (for_each_preserves_in
             (fun P => proximity_extends P0 (set_Proximity c (Some P)))); [|exact HI1].
    intros P3 GIDB P4 HinB HI3. cbn.
    destruct (_ !! GIDB) as [MeshB|]; [|done]. cbn.
    destruct (result_mesh _ MeshB) as [B|]; [|done]. cbn.
    destruct (IsNeighboring A B); [|by intros [= <-]].
    intros Hadd. eapply proximity_extends_pair; [exact HI3| | |exact Hadd]; eauto. }
  destruct GeomA as [|GA [|GA' GeomA]]; [by intros [= <-]| |].
  - destruct GeomB as [|GB [|GB' GeomB]]; [by intros [= <-]| |exact Hloops].
    intros Hadd. eapply proximity_extends_pair; [exact HI| | |exact Hadd].
    + apply HA. by left.
    + apply HB. by left.
  - destruct GeomB as [|GB GeomB]; [by intros [= <-]|exact Hloops].
Qed.

Lemma cut_surface_extends P0 mat conn Cells bProx bDef sp st Surface st' :
  proximity_extends P0 (csCollection st) ->
  cut_surface mat conn Cells bProx bDef sp st Surface = Some st' ->
  proximity_extends P0 (csCollection st').
Proof.
  intros HI. unfold cut_surface.
  destruct (lookupZ _ _) as [t|]; [|done]. cbn.
  destruct (decide _); [|by intros [= <-]].
  destruct (internal_material _ _ _ _) as [imat|]; [|done]. cbn.
  destruct (for_each _ _ _) as [cl|] eqn:Hcells; [|done]. cbn.
  assert (Hcl : cells_ok P0 cl).
  { refine (for_each_preserves (cells_ok P0) _ _ _ _ _ _ Hcells).
    - intros s a s'. apply write_cell_cells_ok.
    - split; [done|]. intros cell0 g0 Hin. by apply elem_of_nil in Hin. }
  destruct Hcl as [Hext Hcells_ok].
  destruct bProx.
  - destruct (Proximity (clCollection cl)) as [P|] eqn:HP; [|done]. cbn.
    destruct (for_each _ _ P) as [P'|] eqn:Hlinks; [|done]. cbn.
    intros [= <-]. cbn.
    refine (for_each_preserves
              (fun P => proximity_extends P0 (set_Proximity (clCollection cl) (Some P)))
              _ _ _ _ _ _ Hlinks); [|by rewrite set_Proximity_same].
    intros P1 PlaneIdx P2. by apply link_across_plane_extends.
  - cbn. by intros [= <-].
Qed.

Lemma proximity_extends_hidden P0 c l c' :
  proximity_extends P0 c -> hide_superseded c l = Some c' -> proximity_extends P0 c'.
Proof.
  intros (P & HP & HNum & Hrest) Hhide.
  apply hide_superseded_geometry in Hhide as [HG HPr].
  exists P. rewrite HPr, HG. done.
Qed.

Lemma CutWithCellMeshes_extends P0 Meshes mat conn Cells c bDef sp ret c' :
  proximity_extends P0 c ->
  CutWithCellMeshes Meshes mat conn Cells c bDef sp = Some (ret, c') ->
  proximity_extends P0 c'.
Proof.
  intros HI. unfold CutWithCellMeshes.
  destruct (for_each _ _ _) as [st|] eqn:Hloop; [|done]. cbn.
  destruct (hide_superseded _ _) as [c1|] eqn:Hhide; [|done]. cbn.
  intros [= <- <-].
  eapply proximity_extends_hidden; [|exact Hhide].
  refine (for_each_preserves (fun st => proximity_extends P0 (csCollection st))
            _ _ _ _ _ _ Hloop); [|exact HI].
  intros s a s'. apply cut_surface_extends.
Qed.

(** *** The links written after the planes *)

Lemma append_children_map_ok P0 mat bDef sp st MeshData st' :
  map_ok P0 st ->
  append_children mat bDef sp st MeshData = Some st' ->
  map_ok P0 st'.
Proof.
  intros Hok Hrun. unfold append_children in Hrun.
  destruct (lookupZ _ _) as [t|]; [|done]. cbn in Hrun.
  destruct (internal_material _ _ _ _) as [imat|]; [|done]. cbn in Hrun.
  destruct (decide _); [by injection Hrun as <-|].
  match type of Hrun with
  | context [for_each ?body ?l ?s0] =>
      destruct (for_each body l s0) as [[st2 k]|] eqn:Hloop; [|done];
      pose proof (for_each_preserves (fun s : append_state * Z => map_ok P0 s.1)
                    body l) as Hpres
  end.
  cbn in Hrun. injection Hrun as <-.
  refine (Hpres _ _ _ _ Hloop); [|done].
  intros [s j] idx [s' j'] [Hext Hmap] Hstep. cbn [fst] in *.
  destruct (lookupZ (asToCut s) idx) as [md|]; [|done]. cbn in Hstep.
  destruct (GetBoneName _ _ _) as [Name|]; [|done]. cbn in Hstep.
  destruct (AppendToCollection _ _ _ _ _ _ _) as [[[ci c1] M1]|] eqn:Happ; [|done].
  cbn in Hstep.
  destruct (storeZ (asToCut s) idx _) as [T1|]; [|done]. cbn in Hstep.
  destruct (storeZ (asToCutIdxToGeometryIdx s) idx ci) as [Map1|] eqn:Hstore; [|done].
  cbn in Hstep. injection Hstep as <- <-.
  destruct (proximity_extends_append _ _ _ _ _ _ _ _ _ _ _ Hext Happ) as [Hext' Hci].
  split; [done|]. cbn. intros i v Hv.
  apply storeZ_inv in Hstore as [Hidx ->].
  destruct (decide (i = idx)) as [->|Hne].
  - destruct (lookupZ_is_Some (asToCutIdxToGeometryIdx s) idx Hidx) as [x Hx].
    rewrite (lookupZ_insert_eq _ _ x) in Hv by done. by injection Hv as <-.
  - rewrite lookupZ_insert_ne in Hv by lia. by eapply Hmap.
Qed.

Lemma write_links_extends P0 c map Links P P' :
  multimap_symmetric Links ->
  (forall i v, lookupZ map i = Some v -> created_after P0 v) ->
  proximity_extends P0 (set_Proximity c (Some P)) ->
  for_each (write_link map) Links P = Some P' ->
  proximity_extends P0 (set_Proximity c (Some P')).
Proof.
  intros HL Hmap (P1 & HP & HNum & Hold & Hnew) Hrun.
  destruct c as [T G V Fa Pr]. cbn in HP, HNum. injection HP as <-.
  apply write_links_lookup in Hrun as (Hvalid & Hdom & Hsets).
  assert (HN : Num P' = Num P) by by apply same_domain_Num.
  assert (Hend : forall k v, (k, v) ∈ Links ->
            exists K, lookupZ map k = Some K /\ Num P0 <= K < Num P).
  { intros k v Hin. destruct (Hvalid k v Hin) as (K & V0 & HK & _ & [s Hs]).
    exists K. split; [done|]. apply lookupZ_Some in Hs.
    destruct (Hmap k K HK) as [->|HK0]; lia. }
  exists P'. cbn. split; [done|]. split; [lia|]. split.
  - intros i s Hs. pose proof (Hold i s Hs) as HPi.
    apply lookupZ_Some in Hs as Hi.
    destruct (proj2 (Hdom i) (mk_is_Some _ _ HPi)) as [s' Hs'].
    rewrite Hs'. f_equal. apply set_eq. intros B.
    rewrite (Hsets i s s' HPi Hs' B). split; [|by left].
    intros [Hin|(k & v & Hin & Hk & _)]; [done|].
    destruct (Hend k v Hin) as (K & HK & HKr). simplify_eq. lia.
  - intros i s' B Hi Hs' HB. rewrite HN.
    destruct (proj1 (Hdom i) (mk_is_Some _ _ Hs')) as [s Hs].
    destruct (proj1 (Hsets i s s' Hs Hs' B) HB) as [Hin|(k & v & Hin & Hk & Hv)].
    + by eapply Hnew.
    + apply (multimap_symmetric_elem _ _ _ HL) in Hin.
      destruct (Hend v k Hin) as (K & HK & HKr). by simplify_eq.
Qed.

Lemma CutWithMultiplePlanes_no_grout_extends P0 Meshes Planes sp c mat bDef ret c' :
  proximity_extends P0 c ->
  CutWithMultiplePlanes_no_grout Meshes Planes sp c mat bDef = Some (ret, c') ->
  proximity_extends P0 c'.
Proof.
  intros HI. unfold CutWithMultiplePlanes_no_grout.
  destruct (for_each _ Planes _) as [[ToCut Links]|] eqn:Hplanes; [|done]. cbn.
  assert (HL : multimap_symmetric Links).
  { exact (plane_loop_symmetric _ _ (Meshes, []) (ToCut, Links)
             multimap_symmetric_nil Hplanes). }
  destruct (for_each _ Meshes _) as [st|] eqn:Happ; [|done]. cbn.
  assert (Hst : map_ok P0 st).
  { refine (for_each_preserves (map_ok P0) _ _ _ _ _ _ Happ).
    - intros s a s'. apply append_children_map_ok.
    - split; [done|]. cbn. intros i v Hv. left. unfold lookupZ in Hv.
      destruct (decide (0 <= i)); [|done].
      by apply lookup_replicate in Hv as [-> _]. }
  destruct Hst as [Hext Hmap].
  destruct (bool_decide _).
  - destruct (Proximity (asCollection st)) as [P|] eqn:HP; [|done]. cbn.
    destruct (for_each _ Links P) as [P'|] eqn:Hlinks; [|done]. cbn.
    destruct (hide_superseded _ _) as [c1|] eqn:Hhide; [|done]. cbn.
    intros [= <- <-]. eapply proximity_extends_hidden; [|exact Hhide].
    eapply write_links_extends; [exact HL|exact Hmap| |exact Hlinks].
    by rewrite set_Proximity_same.
  - cbn. destruct (hide_superseded _ _) as [c1|] eqn:Hhide; [|done]. cbn.
    intros [= <- <-]. by eapply proximity_extends_hidden.
Qed.

Lemma proximity_extends_start (c : FGeometryCollection) (P0 : list (gset Z)) :
  Proximity c = Some P0 -> Num P0 = Num (GeometryGroup c) -> proximity_extends P0 c.
Proof.
  intros HP HN. exists P0. split; [done|]. split; [done|]. split; [done|].
  intros i s B Hi Hs. apply lookupZ_Some in Hs. lia.
Qed.

Lemma no_proximity_append F M sp par name c mat idx c' M' :
  Proximity c = None ->
  AppendToCollection F M sp par name c mat = Some (idx, c', M') ->
  Proximity c' = None.
Proof.
  intros Hn Hrun.
  apply AppendToCollection_inv in Hrun
    as [(_ & _ & -> & _)|(_ & _ & _ & T & -> & _)]; [done|].
  cbn. by rewrite Hn.
Qed.

(** X22.  A cut leaves the proximity of the geometries there were before
    as it is.  For a collection whose [Proximity] attribute has one set per
    geometry, when [CutWithCellMeshes] or [CutWithMultiplePlanes] returns
    the attribute still has one set per geometry, the sets of the
    geometries passed in are unchanged (also the set of a geometry that
    was cut and is hidden, and the sets of its neighbours), and the sets
    of the geometries added hold only geometries added.  A collection
    without the attribute is returned without it. *)
Theorem cut_drivers_keep_old_proximity :
  (forall Meshes mat conn Cells c bDef sp ret c' P0,
      Proximity c = Some P0 -> Num P0 = Num (GeometryGroup c) ->
      CutWithCellMeshes Meshes mat conn Cells c bDef sp = Some (ret, c') ->
      proximity_extends P0 c')
  /\ (forall GroutMesh Meshes Planes Grout sp c n mat bDef ret c' P0,
        Proximity c = Some P0 -> Num P0 = Num (GeometryGroup c) ->
        CutWithMultiplePlanes GroutMesh Meshes Planes Grout sp c n mat bDef
          = Some (ret, c') ->
        proximity_extends P0 c')
  /\ (forall Meshes mat conn Cells c bDef sp ret c',
        Proximity c = None ->
        CutWithCellMeshes Meshes mat conn Cells c bDef sp = Some (ret, c') ->
        Proximity c' = None)
  /\ (forall GroutMesh Meshes Planes Grout sp c n mat bDef ret c',
        Proximity c = None ->
        CutWithMultiplePlanes GroutMesh Meshes Planes Grout sp c n mat bDef
          = Some (ret, c') ->
        Proximity c' = None).
Proof.
  assert (Hnone : forall Meshes mat conn Cells c bDef sp ret c',
            Proximity c = None ->
            CutWithCellMeshes Meshes mat conn Cells c bDef sp = Some (ret, c') ->
            Proximity c' = None).
  { intros * Hn Hrun.
    eapply (CutWithCellMeshes_Inv (fun c _ => Proximity c = None));
      [| | | |exact Hrun]; cbn.
    - intros. by eapply no_proximity_append.
    - intros c1 first P P' A B Hc. by destruct c1.
    - intros c1 first Faces. by destruct c1.
    - exact Hn. }
  split; [|split; [|split; [exact Hnone|]]].
  - intros * HP HN Hrun. eapply CutWithCellMeshes_extends; [|exact Hrun].
    by apply proximity_extends_start.
  - intros * HP HN Hrun. unfold CutWithMultiplePlanes in Hrun.
    destruct (0 <? Grout)%float.
    + eapply CutWithCellMeshes_extends; [|exact Hrun]. by apply proximity_extends_start.
    + eapply CutWithMultiplePlanes_no_grout_extends; [|exact Hrun].
      by apply proximity_extends_start.
  - intros * Hn Hrun. unfold CutWithMultiplePlanes in Hrun.
    destruct (0 <? Grout)%float; [by eapply Hnone|].
    unfold CutWithMultiplePlanes_no_grout in Hrun. rewrite Hn in Hrun.
    destruct (for_each _ Planes _) as [[ToCut Links]|]; [|done]. cbn in Hrun.
    destruct (for_each _ Meshes _) as [st|] eqn:Happ; [|done]. cbn in Hrun.
    assert (Hst : Proximity (asCollection st) = None).
    { refine (append_phase_Inv (fun c _ => Proximity c = None) _ _ _ _ _ _ _ _ Happ);
        [|exact Hn].
      intros. by eapply no_proximity_append. }
    cbn in Hrun. destruct (hide_superseded _ _) as [c1|] eqn:Hhide; [|done].
    cbn in Hrun. injection Hrun as <- <-.
    apply hide_superseded_geometry in Hhide as [_ ->]. done.
Qed.

End OldProximity.

(** ** Cells from a Voronoi diagram *)

Section VoronoiCells.
Context {F : Type} `{Scalar F}.
Import FPlanarCells.
Variable IsZero : FVector3 F -> bool.
Variable Normalized : FVector3 F -> FVector3 F.

Lemma call_of_cell_grow (Cells : list FVoronoiCellInfo) (verts extra : list (FVector3 F))
    (call : AddPlaneCall) :
  call_of_cell Cells verts call -> call_of_cell Cells (verts ++ extra) call.
Proof.
  intros (CI & L & HA & HB & Hle & HL & Hv & Hb). exists CI, L.
  repeat (split; [done|]). split; [|done].
  intros k v Hk. by apply lookupZ_app_l, Hv.
Qed.

Lemma mapM_elem {A B : Type} (f : A -> option B) (l : list A) (k : list B) (y : B) :
  mapM f l = Some k -> y ∈ k -> exists x, x ∈ l /\ f x = Some y.
Proof.
  intros Hm%mapM_Some_1 Hy. induction Hm as [|x y' l k Hxy Hm IH].
  - by apply elem_of_nil in Hy.
  - apply elem_of_cons in Hy as [->|Hy].
    + exists x. split; [by left|done].
    + destruct (IH Hy) as (x' & Hx' & Hf). exists x'. split; [by right|done].
Qed.

Lemma lookupZ_elem {A : Type} (l : list A) (i : Z) (x : A) :
  lookupZ l i = Some x -> x ∈ l.
Proof.
  unfold lookupZ. destruct (decide (0 <= i)); [|done]. apply list_elem_of_lookup_2.
Qed.

Lemma next_face_inv (Cells : list (@FVoronoiCellInfo F)) (CI : @FVoronoiCellInfo F)
    (st st' : @face_loop F) :
  face_loop_inv Cells CI st -> next_face CI st = Some st' -> face_loop_inv Cells CI st'.
Proof.
  intros Hinv Hrun. unfold next_face in Hrun.
  destruct (lookupZ (Faces CI) _) as [Size|]; [|done]. cbn in Hrun.
  by injection Hrun as <-.
Qed.

Lemma add_face_inv (Sites : list (FVector3 F)) (Cells : list (@FVoronoiCellInfo F))
    (CellIdx : Z) (CI : @FVoronoiCellInfo F) (st : @face_loop F) (CellFaceIdx : Z)
    (st' : @face_loop F) :
  lookupZ Cells CellIdx = Some CI ->
  face_loop_inv Cells CI st ->
  add_face IsZero Normalized Sites CellIdx CI st CellFaceIdx = Some st' ->
  face_loop_inv Cells CI st'.
Proof.
  intros HCI Hinv Hrun. unfold add_face in Hrun.
  destruct (lookupZ (Neighbors CI) CellFaceIdx) as [Nb|] eqn:HNb;
    cbn [mbind option_bind] in Hrun; [|done].
  destruct (decide (CellIdx < Nb)) as [Hlt|Hge]; [by eapply next_face_inv|].
  destruct (lookupZ (Normals CI) CellFaceIdx) as [N0|];
    cbn [mbind option_bind] in Hrun; [|done].
  destruct (face_normal _ _ _ _ _ _) as [[Normal|]|];
    cbn [mbind option_bind] in Hrun; [|by eapply next_face_inv|done].
  destruct (lookupZ (Faces CI) (i32_add _ 1)) as [First|];
    cbn [mbind option_bind] in Hrun; [|done].
  destruct (lookupZ (Vertices CI) First) as [V|];
    cbn [mbind option_bind] in Hrun; [|done].
  destruct Hinv as [Hcalls Hstart].
  set (verts := flPlaneBoundaryVertices st) in *.
  set (L' := if decide (flLocalVertexStart st < 0) then Num verts
             else flLocalVertexStart st).
  set (verts' := if decide (flLocalVertexStart st < 0) then verts ++ Vertices CI
                 else verts).
  assert (Hpair : (if decide (flLocalVertexStart st < 0)
                   then (Num verts, verts ++ Vertices CI)
                   else (flLocalVertexStart st, verts)) = (L', verts')).
  { unfold L', verts'. by destruct (decide _). }
  rewrite Hpair in Hrun. clear Hpair.
  assert (Hgrow : forall call, call_of_cell Cells verts call ->
                               call_of_cell Cells verts' call).
  { intros call Hc. unfold verts'. destruct (decide _); [|done].
    by apply call_of_cell_grow. }
  assert (HL : 0 <= L'
               /\ forall k v, lookupZ (Vertices CI) k = Some v ->
                    lookupZ verts' (L' + k) = Some v).
  { unfold L', verts'. destruct (decide (flLocalVertexStart st < 0)) as [Hneg|Hpos].
    - split; [apply Num_nonneg|]. intros k v Hk. apply lookupZ_Some in Hk as Hr.
      rewrite lookupZ_app_r by lia. by replace (Num verts + k - Num verts) with k by lia.
    - destruct Hstart as [Hs|Hs]; [lia|done]. }
  destruct (lookupZ (Faces CI) (flCellFaceVertexIndexStart st)) as [FaceSize|];
    cbn [mbind option_bind] in Hrun; [|done].
  destruct (mapM _ _) as [PlaneBoundary|] eqn:Hmap;
    cbn [mbind option_bind] in Hrun; [|done].
  eapply next_face_inv; [|exact Hrun]. split; cbn.
  - intros call [Hin|Hin]%elem_of_app; [by apply Hgrow, Hcalls|].
    apply list_elem_of_singleton in Hin as ->.
    exists CI, L'. cbn. split; [done|]. split; [by eapply lookupZ_elem|].
    split; [lia|]. split; [by destruct HL|]. split; [by destruct HL|].
    intros b Hb. destruct (mapM_elem _ _ _ _ Hmap Hb) as (i & _ & Hi).
    destruct (lookupZ (Faces CI) _) as [f|] eqn:Hf; [|done]. cbn in Hi.
    injection Hi as <-. exists f. split; [by eapply lookupZ_elem|done].
  - right. done.
Qed.

Lemma FromVoronoi_loop (Sites : list (FVector3 F)) (Cells : list (@FVoronoiCellInfo F))
    (verts : list (FVector3 F)) (calls : list (@AddPlaneCall F))
    (verts' : list (FVector3 F)) (calls' : list (@AddPlaneCall F))
    (L : list (Z * @FVoronoiCellInfo F)) :
  (forall CellIdx CI, (CellIdx, CI) ∈ L -> lookupZ Cells CellIdx = Some CI) ->
  (forall call, call ∈ calls -> call_of_cell Cells verts call) ->
  for_each (fun '(verts, calls) '(CellIdx, CellInfo) =>
              st ← for_each (add_face IsZero Normalized Sites CellIdx CellInfo)
                     (seqZ 0 (Num (Neighbors CellInfo)))
                     (mkFaceLoop verts calls (-1) 0);
              Some (flPlaneBoundaryVertices st, flAddPlaneCalls st))
           L (verts, calls) = Some (verts', calls') ->
  forall call, call ∈ calls' -> call_of_cell Cells verts' call.
Proof.
  intros HL Hstart Hrun.
  refine (for_each_preserves_in
            (fun s : list (FVector3 F) * list AddPlaneCall =>
               forall call, call ∈ s.2 -> call_of_cell Cells s.1 call)
            _ _ _ (verts, calls) (verts', calls') Hstart Hrun).
  intros [v c] [CellIdx CI] [v' c'] Hin Hs Hstep. cbn [fst snd] in *.
  destruct (for_each (add_face _ _ _ _ _) _ _) as [st|] eqn:Hfaces; [|done].
  cbn in Hstep. injection Hstep as <- <-.
  assert (Hinv : face_loop_inv Cells CI st).
  { refine (for_each_preserves (face_loop_inv Cells CI) _ _ _ _ _ _ Hfaces).
    - intros s a s'. apply add_face_inv. by apply HL.
    - split; [done|]. by left. }
  by destruct Hinv.
Qed.

(** X23.  The cells of a Voronoi diagram.  When the constructor returns,
    there is one cell per cell of the diagram, and every call of
    [AddPlane] is made for a cell of the diagram and one of its faces: the
    second cell is a neighbour of the first with no higher index (a face
    towards a cell of a higher index is left to that cell), the vertices
    of the first cell are among the boundary vertices from some index on,
    and the boundary of the plane is that index plus entries of the cell's
    array of faces. *)
Theorem FromVoronoi_cells (Sites : list (FVector3 F))
    (VoronoiCells : list FVoronoiCellInfo) (cells : t) :
  FromVoronoi IsZero Normalized Sites VoronoiCells = Some cells ->
  AssumeConvexCells cells = true
  /\ NumCells cells = Num VoronoiCells
  /\ forall call, call ∈ AddPlaneCalls cells ->
       0 <= apCellA call < NumCells cells
       /\ call_of_cell VoronoiCells (PlaneBoundaryVertices cells) call.
Proof.
  intros Hrun. unfold FromVoronoi in Hrun.
  destruct (for_each _ _ _) as [[verts calls]|] eqn:Hloop; [|done]. cbn in Hrun.
  injection Hrun as <-. cbn. split; [done|]. split; [done|].
  intros call Hcall.
  assert (Hc : call_of_cell VoronoiCells verts call).
  { refine (FromVoronoi_loop _ _ _ _ _ _ _ _ _ Hloop call Hcall).
    - intros CellIdx CI Hin. by apply elem_of_zip_seqZ.
    - intros c Hin. by apply elem_of_nil in Hin. }
  split; [|done]. destruct Hc as (CI & L & HA & _). by apply lookupZ_Some in HA.
Qed.

End VoronoiCells.
(** ** Proximity after the merge *)

Section MergeFacts.
Context `{Engine} `{MergeEngine}.

Lemma UpdateCollection_Proximity F M G c mat b c' :
  UpdateCollection F M G c mat = Some (b, c') ->
  Proximity c' = Proximity (SetNumUVLayers (NumEnabledUVChannels M) c).
Proof.
  unfold UpdateCollection. intros Hrun.
  destruct (lookupZ (GeometryGroup c) G) as [g|]; [|done].
  cbn [mbind option_bind] in Hrun.
  destruct (decide _) as [_|_]; [|by injection Hrun as <- <-].
  destruct (lookupZ _ G) as [g1|]; [|done]. cbn [mbind option_bind] in Hrun.
  destruct (for_each _ _ (VerticesGroup _)) as [Vs|]; [|done].
  cbn [mbind option_bind] in Hrun.
  destruct (for_each _ _ (FacesGroup _)) as [Fs|]; [|done].
  cbn [mbind option_bind] in Hrun.
  match type of Hrun with
  | mbind _ ?x = _ => destruct x as [Gs|]; [|done]
  end.
  cbn [mbind option_bind] in Hrun. by injection Hrun as <- <-.
Qed.

Lemma UpdateAllCollections_symmetric Meshes c b c' :
  proximity_model ->
  proximity_symmetric (Proximity c) ->
  UpdateAllCollections Meshes c = Some (b, c') ->
  proximity_symmetric (Proximity c').
Proof.
  intros Hm Hs. unfold UpdateAllCollections.
  destruct (new_counts c Meshes) as [[NF NV]|]; [|done]. cbn [mbind option_bind].
  intros Hrun.
  refine (for_each_preserves (fun st => proximity_symmetric (Proximity st.2))
            _ _ _ _ _ _ Hrun).
  - intros [b1 c1] MeshData [b2 c2] Hs1 Hstep. cbn in Hs1 |- *.
    destruct (lookupZ _ _) as [t|]; [|done]. cbn [mbind option_bind] in Hstep.
    destruct (UpdateCollection _ _ _ _ _) as [[bS cS]|] eqn:Hup; [|done].
    cbn [mbind option_bind] in Hstep. injection Hstep as _ <-.
    rewrite (UpdateCollection_Proximity _ _ _ _ _ _ _ Hup).
    by apply (SetNumUVLayers_symmetric Hm).
  - cbn. by apply (ResizeGeometries_symmetric Hm).
Qed.

Lemma reparent_children_symmetric c Group c' :
  proximity_model ->
  proximity_symmetric (Proximity c) ->
  reparent_children c Group = Some c' ->
  proximity_symmetric (Proximity c').
Proof.
  intros Hm Hs. unfold reparent_children.
  destruct (FRemoveGroup.IsValid Group); [|by intros [= <-]].
  destruct (lookupZ _ _) as [Target|]; [|done]. cbn [mbind option_bind].
  destruct (for_each _ _ _) as [ChildIndices|]; [|done]. cbn [mbind option_bind].
  intros [= <-]. destruct (decide _); [|done].
  by apply (ParentTransforms_symmetric Hm).
Qed.

Lemma MergeBones_returns c TransformIndices Volumes MinVolume Smalls bUnion Method
    ret c' :
  MergeBones c TransformIndices Volumes MinVolume Smalls bUnion Method = Some (ret, c') ->
  ret = -1.
Proof.
  unfold MergeBones. intros Hrun.
  destruct (Proximity _) as [P|]; [|done]. cbn [mbind option_bind] in Hrun.
  destruct (decide (Num _ = Num Volumes)) as [_|_]; [|by injection Hrun as <- _].
  destruct (for_each (add_mergeable _ _) _ _) as [st|]; [|done].
  cbn [mbind option_bind] in Hrun.
  destruct (for_each (add_too_small _ _) _ _) as [[[CanMerge TooSmalls] GeomToVol]|];
    [|done].
  cbn [mbind option_bind] in Hrun.
  destruct (for_each (group_small _ _ _ _ _ _) _ _) as [[Groups Map]|]; [|done].
  cbn [mbind option_bind] in Hrun.
  destruct (for_each (collect_indices _) _ _) as [[[Groups' AllRemove] AllUpdate]|];
    [|done].
  cbn [mbind option_bind] in Hrun.
  destruct (InitSavingIsolated _ (merge_sort Z.le AllRemove) _) as [RemoveMeshes|];
    [|done].
  cbn [mbind option_bind] in Hrun.
  destruct (InitSavingIsolated _ (merge_sort Z.le AllUpdate) _) as [UpdateMeshes|];
    [|done].
  cbn [mbind option_bind] in Hrun.
  destruct (index_remove_meshes _ _) as [RmMap|]; [|done].
  cbn [mbind option_bind] in Hrun.
  destruct (mapM _ UpdateMeshes) as [Joined|]; [|done].
  cbn [mbind option_bind] in Hrun.
  destruct (UpdateAllCollections _ _) as [[b c2]|]; [|done].
  cbn [mbind option_bind] in Hrun.
  destruct (for_each reparent_children _ _) as [c3|]; [|done].
  cbn [mbind option_bind] in Hrun. by injection Hrun as <- _.
Qed.

Lemma MergeBones_symmetric c TransformIndices Volumes MinVolume Smalls bUnion Method
    ret c' :
  proximity_model ->
  MergeBones c TransformIndices Volumes MinVolume Smalls bUnion Method = Some (ret, c') ->
  proximity_symmetric (Proximity c').
Proof.
  intros Hm. unfold MergeBones.
  pose proof (UpdateProximity_symmetric Hm c) as Hs.
  generalize dependent (UpdateProximity c). intros c1 Hs Hrun.
  destruct (Proximity c1) as [P|] eqn:HP; [|done]. cbn [mbind option_bind] in Hrun.
  destruct (decide (Num _ = Num Volumes)) as [_|_];
    [|injection Hrun as <- <-; by rewrite HP].
  destruct (for_each (add_mergeable _ _) _ _) as [st|]; [|done].
  cbn [mbind option_bind] in Hrun.
  destruct (for_each (add_too_small _ _) _ _) as [[[CanMerge TooSmalls] GeomToVol]|];
    [|done].
  cbn [mbind option_bind] in Hrun.
  destruct (for_each (group_small _ _ _ _ _ _) _ _) as [[Groups Map]|]; [|done].
  cbn [mbind option_bind] in Hrun.
  destruct (for_each (collect_indices _) _ _) as [[[Groups' AllRemove] AllUpdate]|];
    [|done].
  cbn [mbind option_bind] in Hrun.
  destruct (InitSavingIsolated c1 (merge_sort Z.le AllRemove) _) as [RemoveMeshes|];
    [|done].
  cbn [mbind option_bind] in Hrun.
  destruct (InitSavingIsolated c1 (merge_sort Z.le AllUpdate) _) as [UpdateMeshes|];
    [|done].
  cbn [mbind option_bind] in Hrun.
  destruct (index_remove_meshes _ _) as [RmMap|]; [|done].
  cbn [mbind option_bind] in Hrun.
  destruct (mapM _ UpdateMeshes) as [Joined|]; [|done].
  cbn [mbind option_bind] in Hrun.
  destruct (UpdateAllCollections _ _) as [[b c2]|] eqn:Hup; [|done].
  cbn [mbind option_bind] in Hrun.
  destruct (for_each reparent_children _ _) as [c3|] eqn:Hre; [|done].
  cbn [mbind option_bind] in Hrun. injection Hrun as <- <-.
  apply (RemoveTransformElements_symmetric Hm).
  refine (for_each_preserves (fun c => proximity_symmetric (Proximity c))
            _ _ _ _ _ _ Hre).
  - intros s a s' Hs1 Hstep. by eapply reparent_children_symmetric.
  - eapply UpdateAllCollections_symmetric; [exact Hm| |exact Hup]. by rewrite HP.
Qed.


(** C3.  The proximity of a collection is symmetric when every index in
    the set of a geometry is a geometry whose set has that geometry; for
    two geometries this is: [B] is in the set of [A] exactly if [A] is in
    the set of [B].  The multimap of [CutWithMultiplePlanes] is symmetric
    when it has a pair as often as the mirrored pair.  [ProxLink] and
    [ProxUnlink] keep the multimap symmetric, so it is symmetric after
    the loop over the planes, which starts from the empty multimap.  The
    write of a pair in [CutWithCellMeshes] and the write of the links of a
    symmetric multimap in [CutWithMultiplePlanes] keep the proximity of the
    collection symmetric.  Hence a symmetric proximity is symmetric after
    [CutWithCellMeshes] and after [CutWithMultiplePlanes]; each of the
    three boundary cut operations passes a collection with a symmetric
    proximity to [ReindexMaterials] and, when that engine call keeps the
    proximity symmetric, returns a collection with a symmetric proximity.
    [MergeBones] writes the proximity through engine calls only: when the
    proximity utility leaves a symmetric proximity and the other engine
    calls keep it symmetric, the proximity is symmetric after every
    completed merge, whatever it was before. *)
Theorem Proximity_stays_symmetric :
  (forall P A B sA sB,
      proximity_symmetric (Some P) ->
      lookupZ P A = Some sA -> lookupZ P B = Some sB -> (B ∈ sA <-> A ∈ sB))
  /\ (forall M A B,
        multimap_symmetric M ->
        multimap_symmetric (ProxLink M A B) /\ multimap_symmetric (ProxUnlink M A B))
  /\ (forall bProx Planes Meshes ToCut Links,
        for_each (cut_with_plane bProx) Planes (Meshes, []) = Some (ToCut, Links) ->
        multimap_symmetric Links)
  /\ (forall P A B P',
        proximity_symmetric (Some P) ->
        add_proximity_pair P A B = Some P' -> proximity_symmetric (Some P'))
  /\ (forall map Links P P',
        multimap_symmetric Links -> proximity_symmetric (Some P) ->
        for_each (write_link map) Links P = Some P' -> proximity_symmetric (Some P'))
  /\ (forall Meshes mat conn Cells c bDef sp ret c',
        proximity_symmetric (Proximity c) ->
        CutWithCellMeshes Meshes mat conn Cells c bDef sp = Some (ret, c') ->
        proximity_symmetric (Proximity c'))
  /\ (forall GroutMesh Meshes Planes Grout sp c n mat bDef ret c',
        proximity_symmetric (Proximity c) ->
        CutWithMultiplePlanes GroutMesh Meshes Planes Grout sp c n mat bDef
          = Some (ret, c') ->
        proximity_symmetric (Proximity c'))
  /\ (forall MakeCells PlaneCells mat Source targets sp T bDef ret Source' mat',
        proximity_symmetric (Proximity Source) ->
        CutMultipleWithPlanarCells MakeCells PlaneCells mat Source targets sp T bDef
          = Some (ret, Source', mat') ->
        (exists Cut, Source' = ReindexMaterials Cut
                     /\ proximity_symmetric (Proximity Cut))
        /\ (reindex_model -> proximity_symmetric (Proximity Source')))
  /\ (forall Cutter XF mat c targets sp T n bDef ret c' mat',
        proximity_symmetric (Proximity c) ->
        CutWithMesh Cutter XF mat c targets sp T n bDef = Some (ret, c', mat') ->
        (exists Cut, c' = ReindexMaterials Cut /\ proximity_symmetric (Proximity Cut))
        /\ (reindex_model -> proximity_symmetric (Proximity c')))
  /\ (forall GroutMesh Planes mat c targets Grout sp T n bDef ret c' mat',
        proximity_symmetric (Proximity c) ->
        CutMultipleWithMultiplePlanes GroutMesh Planes mat c targets Grout sp T n bDef
          = Some (ret, c', mat') ->
        (exists Cut, c' = ReindexMaterials Cut /\ proximity_symmetric (Proximity Cut))
        /\ (reindex_model -> proximity_symmetric (Proximity c')))
  /\ (proximity_model ->
      forall c TransformIndices Volumes MinVolume SmallTransformIndices bUnion Method
             ret c',
        MergeBones c TransformIndices Volumes MinVolume SmallTransformIndices bUnion
          Method = Some (ret, c') ->
        ret = -1 /\ proximity_symmetric (Proximity c')).
Proof.
  repeat apply conj.
  - intros *. apply proximity_symmetric_iff.
  - intros M A B Hs. split; [by apply ProxLink_symmetric|by apply ProxUnlink_symmetric].
  - intros * Hrun.
    exact (plane_loop_symmetric _ _ (Meshes, []) (ToCut, Links)
             multimap_symmetric_nil Hrun).
  - intros *. apply add_proximity_pair_symmetric.
  - intros *. apply write_links_symmetric.
  - intros *. apply CutWithCellMeshes_symmetric.
  - intros *. apply CutWithMultiplePlanes_symmetric.
  - intros * Hs Hrun. apply CutMultipleWithPlanarCells_inv in Hrun
      as (Meshes & Cut & _ & _ & Hcut & ->).
    assert (HCut : proximity_symmetric (Proximity Cut)).
    { eapply CutWithCellMeshes_symmetric; [|exact Hcut].
      by apply ensure_Proximity_symmetric. }
    split; [by exists Cut|]. intros Hre. by apply Hre.
  - intros * Hs Hrun. apply CutWithMesh_inv in Hrun
      as (M & Meshes & Cut & _ & _ & _ & Hcut & ->).
    assert (HCut : proximity_symmetric (Proximity Cut)).
    { eapply CutWithCellMeshes_symmetric; [|exact Hcut].
      by apply ensure_Proximity_symmetric. }
    split; [by exists Cut|]. intros Hre. by apply Hre.
  - intros * Hs Hrun. apply CutMultipleWithMultiplePlanes_inv in Hrun
      as (Meshes & Cut & _ & _ & Hcut & ->).
    assert (HCut : proximity_symmetric (Proximity Cut)).
    { eapply CutWithMultiplePlanes_symmetric; [|exact Hcut].
      by apply ensure_Proximity_symmetric. }
    split; [by exists Cut|]. intros Hre. by apply Hre.
  - intros Hm * Hrun. split.
    + by eapply MergeBones_returns.
    + by eapply MergeBones_symmetric.
Qed.

End MergeFacts.

(** ** The merge on the sample collection *)

Section MergeOnSamples.
#[local] Existing Instance Samples.engine.
#[local] Existing Instance MergeSamples.merge_engine.

Lemma all_neighbors_symmetric (c : FGeometryCollection) :
  proximity_symmetric (Some (MergeSamples.all_neighbors c)).
Proof.
  intros P [= <-] A B sA HA HB.
  assert (Hlook : forall X s,
            lookupZ (MergeSamples.all_neighbors c) X = Some s ->
            0 <= X < Num (GeometryGroup c)
            /\ s = list_to_set (filter (fun Y => Y <> X) (seqZ 0 (Num (GeometryGroup c))))).
  { intros X s HX. apply lookupZ_Some in HX as Hr.
    unfold MergeSamples.all_neighbors, Num in Hr. rewrite length_fmap, length_seqZ in Hr.
    split; [unfold Num; lia|].
    unfold lookupZ in HX. destruct (decide (0 <= X)); [|lia].
    unfold MergeSamples.all_neighbors in HX. rewrite list_lookup_fmap in HX.
    rewrite lookup_seqZ_lt in HX by (unfold Num; lia). cbn in HX.
    injection HX as <-. by rewrite Z.add_0_l, Z2Nat.id by lia. }
  destruct (Hlook A sA HA) as [HrA ->].
  apply elem_of_list_to_set, list_elem_of_filter in HB as [Hne HB].
  apply elem_of_seqZ in HB.
  destruct (lookupZ_is_Some (MergeSamples.all_neighbors c) B) as [sB HsB].
  { unfold MergeSamples.all_neighbors, Num. rewrite length_fmap, length_seqZ.
    unfold Num in HB. lia. }
  exists sB. split; [done|]. destruct (Hlook B sB HsB) as [_ ->].
  apply elem_of_list_to_set, list_elem_of_filter. split; [congruence|].
  apply elem_of_seqZ. lia.
Qed.

Lemma sample_proximity_model : proximity_model.
Proof.
  split.
  - intros c. apply all_neighbors_symmetric.
  - by intros F V c Hs.
  - by intros P C c Hs.
  - by intros n c Hs.
  - by intros L c Hs.
Qed.

Lemma Proximity_stays_symmetric_witness :
  (exists ret c',
     CutWithMultiplePlanes (fun _ _ => mkMesh [] [] 1)
       [FMeshData.mk Samples.tetra_mesh 0 FTransform_Identity]
       [(Samples.origin, 0%float)] 0%float 0%float (ensure_Proximity Samples.tetra)
       1 7 false = Some (ret, c')
     /\ proximity_symmetric (Proximity c'))
  /\ (exists c',
        MergeBones Samples.tetra [] [0x1.5555555555555p-3; 0]%float 0.125%float [1] false
          LargestNeighbor = Some (-1, c')
        /\ proximity_symmetric (Proximity c')).
Proof.
  destruct Proximity_stays_symmetric
    as (_ & _ & _ & _ & _ & _ & Hplanes & _ & _ & _ & Hmerge).
  split.
  - match goal with
    | |- exists ret c', ?run = _ /\ _ => destruct run as [[ret c']|] eqn:Hrun
    end; [|by vm_compute in Hrun].
    exists ret, c'. split; [reflexivity|].
    refine (Hplanes _ _ _ _ _ _ _ _ _ _ _ _ Hrun).
    intros P HP A B sA HA HB. vm_compute in HP. injection HP as <-.
    assert (HsA : sA = ∅).
    { unfold lookupZ in HA. destruct (decide (0 <= A)); [|done].
      destruct (Z.to_nat A) as [|[|n]]; cbn in HA; by simplify_eq. }
    subst sA. by apply not_elem_of_empty in HB.
  - destruct (MergeBones Samples.tetra [] [0x1.5555555555555p-3; 0]%float 0.125%float
                [1] false LargestNeighbor) as [[ret c']|] eqn:Hrun;
      [|by vm_compute in Hrun].
    destruct (Hmerge sample_proximity_model _ _ _ _ _ _ _ _ _ Hrun) as [-> Hs].
    by exists c'.
Defined.

End MergeOnSamples.

(** ** The properties of the grid corners and of the plane cut on the sample data *)

Section PlaneCutOnSamples.
#[local] Existing Instance Samples.engine.

Lemma FromGrid_corners_witness :
  exists cells,
    FPlanarCells.FromGrid (mkVec 0 0 0)%float MoreSamples.region (1, 1, 2) = Some cells
    /\ lookupZ (FPlanarCells.PlaneBoundaryVertices cells)
               (FPlanarCells.ToIdxUnsafe (1 + 1, 1 + 1, 2 + 1) 1 1 2)
       = Some (FPlanarCells.grid_vertex MoreSamples.region
                 (FPlanarCells.CellSizesOf MoreSamples.region (1, 1, 2)) 1 1 2).
Proof.
  destruct (FromGrid_corners (mkVec 0 0 0)%float MoreSamples.region 1 1 2)
    as (cells & Hrun & Hvert & _); [lia|lia|lia|lia|].
  exists cells. split; [exact Hrun|]. apply Hvert; lia.
Defined.

Lemma CutWithMultiplePlanes_hides_split_targets_witness :
  exists ret c',
    CutWithMultiplePlanes (fun _ _ => mkMesh [] [] 1)
      [FMeshData.mk Samples.tetra_mesh 0 FTransform_Identity]
      [(Samples.origin, 0%float)] 0%float 0%float (ensure_Proximity Samples.tetra)
      1 7 false = Some (ret, c')
    /\ exists r', lookupZ (FacesGroup c') 0 = Some r' /\ Visible r' = false.
Proof.
  destruct (CutWithMultiplePlanes (fun _ _ => mkMesh [] [] 1)
              [FMeshData.mk Samples.tetra_mesh 0 FTransform_Identity]
              [(Samples.origin, 0%float)] 0%float 0%float (ensure_Proximity Samples.tetra)
              1 7 false) as [[ret c']|] eqn:Hrun;
    [|by vm_compute in Hrun].
  exists ret, c'. split; [reflexivity|].
  assert (Hgrout : (0 <? 0)%float = false) by reflexivity.
  assert (Hvalid : forall S,
            S ∈ [FMeshData.mk Samples.tetra_mesh 0 FTransform_Identity] ->
            is_Some (lookupZ (TransformGroup (ensure_Proximity Samples.tetra))
                             (FMeshData.TransformIndex S))).
  { intros S HS. apply list_elem_of_singleton in HS as ->. vm_compute. eauto. }
  destruct (CutWithMultiplePlanes_hides_split_targets (fun _ _ => mkMesh [] [] 1)
              [FMeshData.mk Samples.tetra_mesh 0 FTransform_Identity]
              [(Samples.origin, 0%float)] 0%float 0%float (ensure_Proximity Samples.tetra)
              1 7 false ret c' Hgrout Hvalid Hrun)
    as (ToCut & Links & Hplanes & _ & Hhidden).
  vm_compute in Hplanes. injection Hplanes as <- <-.
  assert (Hin : FMeshData.mk Samples.tetra_mesh 0 FTransform_Identity
                ∈ [FMeshData.mk Samples.tetra_mesh 0 FTransform_Identity])
    by (by apply list_elem_of_singleton).
  assert (Hrange : 0 <= 0 < int32_wrap (0 + 4)) by range_by_compute.
  refine (proj2 (Hhidden (FMeshData.mk Samples.tetra_mesh 0 FTransform_Identity)
                   (Samples.transform_row "root" (-1) 0)
                   (Samples.geometry_row 0 0 4 0 4) 0 Hin _ eq_refl eq_refl Hrange)).
  vm_compute. reflexivity.
Defined.

Lemma plane_loop_pieces_witness :
  exists ToCut Links,
    for_each (cut_with_plane true) [(Samples.origin, 0%float)]
      ([FMeshData.mk Samples.tetra_mesh 0 FTransform_Identity], []) = Some (ToCut, Links)
    /\ 1 <= Num (children_of ToCut 0)
    /\ forall A B, (A, B) ∈ Links -> A <> B.
Proof.
  destruct (for_each (cut_with_plane true) [(Samples.origin, 0%float)]
              ([FMeshData.mk Samples.tetra_mesh 0 FTransform_Identity], []))
    as [[ToCut Links]|] eqn:Hrun; [|by vm_compute in Hrun].
  exists ToCut, Links. split; [reflexivity|].
  destruct (plane_loop_pieces _ _ _ _ _ Hrun) as (_ & _ & Hone & _ & _ & Hlinks).
  split.
  - apply (Hone (FMeshData.mk Samples.tetra_mesh 0 FTransform_Identity)).
    by apply list_elem_of_singleton.
  - intros A B HAB. by destruct (Hlinks A B HAB).
Defined.

Lemma cut_drivers_keep_old_proximity_witness :
  exists ret c',
    CutWithMultiplePlanes (fun _ _ => mkMesh [] [] 1)
      [FMeshData.mk Samples.tetra_mesh 0 FTransform_Identity]
      [(Samples.origin, 0%float)] 0%float 0%float (ensure_Proximity Samples.tetra)
      1 7 false = Some (ret, c')
    /\ proximity_extends [∅; ∅] c'.
Proof.
  destruct (CutWithMultiplePlanes (fun _ _ => mkMesh [] [] 1)
              [FMeshData.mk Samples.tetra_mesh 0 FTransform_Identity]
              [(Samples.origin, 0%float)] 0%float 0%float (ensure_Proximity Samples.tetra)
              1 7 false) as [[ret c']|] eqn:Hrun;
    [|by vm_compute in Hrun].
  exists ret, c'. split; [reflexivity|].
  destruct cut_drivers_keep_old_proximity as (_ & Hplanes & _).
  exact (Hplanes (fun _ _ => mkMesh [] [] 1)
           [FMeshData.mk Samples.tetra_mesh 0 FTransform_Identity]
           [(Samples.origin, 0%float)] 0%float 0%float (ensure_Proximity Samples.tetra)
           1 7 false ret c' [∅; ∅] eq_refl eq_refl Hrun).
Defined.

Lemma FromVoronoi_cells_witness :
  exists cells,
    FPlanarCells.FromVoronoi (fun _ => false) (fun v => v)
      MoreSamples.sites MoreSamples.two_cells = Some cells
    /\ FPlanarCells.NumCells cells = 2
    /\ (fun call => (FPlanarCells.apCellA call, FPlanarCells.apCellB call))
         <$> FPlanarCells.AddPlaneCalls cells = [(1, 0)]
    /\ forall call, call ∈ FPlanarCells.AddPlaneCalls cells ->
         FPlanarCells.call_of_cell MoreSamples.two_cells
           (FPlanarCells.PlaneBoundaryVertices cells) call.
Proof.
  destruct (FPlanarCells.FromVoronoi (fun _ => false) (fun v => v)
              MoreSamples.sites MoreSamples.two_cells) as [cells|] eqn:Hrun;
    [|by vm_compute in Hrun].
  exists cells. split; [reflexivity|].
  destruct (FromVoronoi_cells _ _ _ _ _ Hrun) as (_ & Hn & Hcalls).
  split; [exact Hn|]. split.
  - vm_compute in Hrun. by injection Hrun as <-.
  - intros call Hcall. by destruct (Hcalls call Hcall).
Defined.

End PlaneCutOnSamples.
